(* ===== verification/_CoqProject ===== *)
-Q . S2P
Prelude.v
Paths.v
Certs.v
AbsPath.v
Calendar.v
Wire.v
Serde.v
TransportDtos.v
AgentDtos.v
GatewayDtos.v
Methods.v
Protocol.v
AgentWire.v
GatewayWire.v
Process.v
PtyOs.v
PtyProcess.v
ProcessPty.v
Proxy.v
AgentConn.v
Skills.v
SockAddr.v
Backend.v
Float64.v
Backoff.v
Podman.v
RestApi.v
Fly.v
Kube.v
Sprites.v
Registry.v
Containers.v
Session.v
AgentProxy.v
AgentFs.v
AgentDispatch.v
Framing.v
Codec.v
Transport.v
Delivery.v
Connection.v
Facade.v
Streams.v
AgentClient.v
GatewayClient.v
SkillsFuse.v
Listener.v
Startup.v
AgentListen.v
AgentServer.v
EndToEnd.v
