(* ===== verification/Prelude.v ===== *)
(** * A verification development for nexal

    nexal runs coding agents in containers.  A _gateway_ on the host
    ([src/crates/nexal-gateway]) creates containers, connects to the
    _nexal-agent_ inside each of them ([src/crates/nexal-agent]) and serves
    _frontends_ over a WebSocket.  Both sides share the crate
    [src/crates/utils/transport]: MessagePack envelopes, framing, WebSocket
    transports with heartbeats and reconnection, and multiplexed typed RPC.

    This library models the Rust code of the two programs and of the crates under
    [utils] as executable definitions and proves what makes them correct.  The
    comment on the line before a definition names the file and item it translates.

    ** Parts

    - Common ground.  [Prelude]: results, [outcome] (a panic aborts the
      program), machine integers, bytes, Rust's string functions, list and
      option lemmas.  [Paths]: [std::path].  [AbsPath]
      ([utils/absolute-path]): absolute, normalized paths.  [Certs]
      ([utils/certs]): the certificates and their files.  [SockAddr]:
      [std::net::SocketAddr], read and printed.  [Float64]: what the programs use of
      [f64].
    - The wire.  [Wire] ([transport/src/lib.rs], [protocol/errors.rs]):
      values, envelopes, classification of frames.  [Codec]: the MessagePack codec
      as an interface.  [Serde]: what derived codecs do with the shape of a struct;
      [TransportDtos], [AgentDtos], [GatewayDtos]: the shapes each crate
      declares; [Protocol]: the tables of both sides, compared.  [Methods],
      [AgentWire], [GatewayWire]: method names and the structs handlers use.
    - The transport.  [Framing] ([message_channel.rs]): length-prefixed and
      WebSocket channels.  [Backoff], [Transport] ([transport.rs]): the delay
      before a reconnection, dialling, driver loops, heartbeats.  [Delivery]: a
      driver at each end of the sockets between them.  [Connection]
      ([connection.rs]): streams, pending calls, handlers, typed calls.  [Streams]:
      the handles callers hold.  [Facade], [AgentClient], [GatewayClient]
      ([agent/*.rs], [gateway/*.rs]): typed handler sets and clients.
    - The agent.  [Process] ([process/local.rs]): the process table and its
      tasks.  [PtyOs], [PtyProcess] ([utils/pty]): system calls, the ways of
      spawning, the tasks of a spawned process.  [ProcessPty]: the table with such
      a process behind each entry.  [AgentFs] ([fs/local.rs], [fs/mod.rs]).
      [AgentProxy] ([proxy.rs]): HTTP over Unix sockets.  [SkillsFuse]
      ([fs/skills.rs]): the mounted skills.  [AgentDispatch]
      ([server/channel/dispatch.rs], [server/services]): the loop that answers the
      gateway and the agent's own requests.  [AgentListen]
      ([bin/nexal-agent.rs], [server/transport.rs]): where an agent listens.
      [AgentServer]: its connections, what they share, and the task that forwards
      events.
    - The gateway.  [Startup] ([config.rs], [bin/nexal-gateway.rs]): settings and
      [main].  [Listener] ([server.rs]): health checks and upgrades on one port.
      [Session] ([server/session.rs]): one frontend's session.  [Registry]
      ([registry.rs], [pool.rs]): agents and the warm pool.  [Backend]
      ([backend.rs]): the interface of container backends, its contract, and the
      small monad of fallible calls; [Podman] (with [Calendar]), [Fly], [Kube],
      [Sprites] ([backend/*.rs]) with [RestApi] implement it.  [Containers]: the
      registry as a client of the contract.  [AgentConn] ([agent_conn.rs]): calls
      to one agent.  [Proxy] ([proxy/*.rs]): token and listener registries and the
      forwarding handler.  [Skills] ([skills.rs]).
    - All together.  [EndToEnd]: sessions and registry of the gateway over its
      connections to agents' servers, from a frontend's request to the handler in
      the container and back.

    ** How the model reads

    Owned state is a [Record] and an operation a function on it.  Where tasks
    interleave, each section under a lock, or between two awaits, is one step
    of an inductive relation, and theorems are about every state it reaches; a
    task is then its program counter, and aborting a task ends it at an await (a
    blocking task is ended that way only before it has its thread).
    [Result] is [result], a possible panic is [outcome] ([Panics] ends the
    program: the release profile aborts), and sums, products and casts wrap at
    their width as in a release build wherever they can overflow; doubles are
    [spec_float].  A [HashMap] is a [gmap]; where the code iterates over one, the
    order is that of [map_to_list] and no theorem depends on it.  A broadcast
    channel keeps its last values, and a receiver that falls behind skips.  Times
    and fresh identifiers are inputs.

    Code outside the repository is an interface: a class of operations or a
    parameter ([Serde] and [FromValue]/[ToValue] for serde, [Codec] for rmp,
    [HostFs], [Os] and [CertFs] for files, [Unix] for the system calls of
    processes and pseudo-terminals, [Rcgen] for certificates, [PodmanHost],
    [HttpHost], [KubeHost] for the container services, the hash of the handshake,
    the parsers of arguments and settings, sockets and timers as inputs of steps).
    A theorem that relies on such code states the documented behaviour it needs as
    laws or hypotheses, and its witness gives a concrete instance for which they
    hold.

    Components meet at interfaces: registry and sessions are proved against a
    container backend and an agent link ([ContainerBackend], [AgentLink] of
    [Registry]), which the backends implement and [EndToEnd] builds from
    [AgentConn] and [AgentServer].  [EndToEnd] runs one call at a time;
    [AgentConn] has the interleavings of calls.

    ** What is shown

    - From end to end: an authenticated request for an agent gets one response,
      what the handler in that agent's container returned
      ([frontend_reaches_agent]); frames pass the transport in order and at most
      once across broken sockets ([frames_delivered_in_order]); output events are
      the bytes a child wrote ([output_events_are_child_output]), and no process is
      forgotten while it runs ([no_process_lost]), both for clients that launch no
      process under the id of an earlier one ([ids_distinct]).
    - State: the process table's bounds and counters
      ([process_table_invariant]), open connections are those of the registered
      agents and what failed dials left ([registered_connections_open]),
      containers stay while they are held ([containers_alive]), listeners and
      tunnels have an owner ([tcp_listeners_registered], [proxy_manager_serves],
      [tunnels_owned]), the proxies of an agent's connections are served while
      their sockets are not shared ([listed_proxies_served]), and what registering
      a proxy leaves in the gateway on every branch ([register_proxy_outcomes]).
    - Requests and answers: every answer reaches the call it is for, under any
      interleaving, on all three connections ([responses_reach_their_call],
      [frames_answer_their_call], [one_response_per_request],
      [agent_result_reaches_caller], [remote_call_is_local_call],
      [stream_call_is_stream_handler]); every method of the typed clients reaches
      the handler of its name ([agent_client_reaches_handlers]), and through a
      gateway asks it to call that method ([gateway_agent_client_asks]); closing
      answers who waits
      ([closing_answers_waiting_calls]); events keep their order
      ([events_forwarded_in_order], [closed_event_is_last]).
    - Agreement: both sides of each protocol read what the other writes
      ([agent_protocol_agrees]), and every backend starts an agent where the url it
      hands out leads ([agents_listen_where_dialled]).
    - Security: a gateway starts with an operator's keys only
      ([started_gateway_gate]); nothing happens before a signed handshake
      ([unauthenticated_session_inert], [agent_inert_before_handshake]), which
      cannot be replayed ([hello_not_replayable]); reads stay under the skills
      directory ([skills_read_confined]); the options a podman container is made
      with are known one by one ([podman_create_options]), those of a frontend's
      image excepted ([image_read_as_option]); which descriptors a child on a
      pseudo-terminal gets ([pty_child_descriptors]); where an absolute path
      leads ([paths_lead]).
    - Specifications refined: the backend contract by four backends, the proxy
      registry by one map, a remote call by a local one, the agent's mount by
      the gateway's files ([mount_reads_host_files]), the date by the calendar
      ([days_to_ymd_calendar]), the listener's replay by what arrived
      ([listener_sorts_and_replays]).
    - Data: round trips of envelopes, frames, addresses and certificates
      ([certs_loaded_as_generated]), chunking, paging and eviction of output,
      bounds of sizes, of reconnects and of the delay between them
      ([reconnect_delay_bounds]).
    - Behaviour that is not wanted is stated as it is: calls that wait forever
      ([request_never_answered], [self_request_deadlock], [parse_error_ping_pong]),
      frames lost in an outage ([traffic_exhausts_reconnects]), output of an
      earlier process in a later one ([stale_reader_crosses_over]), sockets taken
      from a proxy that is still listed ([failed_register_breaks_proxy],
      [departing_connection_unlinks_successor]), an empty key after an interruption
      ([interrupted_generation]).

    ** Bounds and fuel

    Recursion that Rust leaves open is bounded by a fuel argument, and [None]
    or a named outcome says it ran out: directory walks by the depth of the
    tree ([collect_files], the recursive copy and remove of [AgentFs]), [replenish]
    by the attempts ([replenish_fills_pool] says when they are enough, and that no
    number is when the backend keeps failing), head reading by the
    bytes that arrive (the agent's proxy, and the listener, whose loop ends within
    two turns more than there are bytes), printing numbers by their digits.  Loops
    of the source with a fixed count have that count.
    Inode, task and sequence numbers are unbounded where only as many can be
    made as the machine can hold; the theorems on the 64-bit counters of
    calls and events say how far they count.

    ** Not modelled

    The bytes of MessagePack and HTTP, TLS, the byte relay after a proxied head
    and sockets themselves are libraries or the operating system; so are argument
    and settings parsers, the FUSE kernel side and certificates as such.  Logging
    is left out.  Code that only compiles on other systems than Linux is not
    modelled.  The helper that locates binaries for tests ([utils/cargo-bin]), the
    fixture binaries ([utils/transport/src/bin]) and the test suites test the
    programs; generated bindings, the TypeScript server and packages, the web
    interface and the skills' scripts are other programs.
*)
From Stdlib Require Export ZArith Lia Bool.
From Stdlib Require Export Strings.Byte Strings.Ascii.
From stdpp Require Export base tactics option list gmap strings fin_maps.
From stdpp Require Export pretty relations.

Declare Scope nexal_scope.
Delimit Scope nexal_scope with nexal.

(** * Results *)

(** Rust's [Result<T, E>]. *)
Inductive result (T E : Type) : Type :=
  | Ok (t : T)
  | Err (e : E).
Arguments Ok {T E} t.
Arguments Err {T E} e.

(** The [?] operator. *)
Definition res_bind {T U E} (m : result T E) (k : T → result U E) : result U E :=
  match m with Ok t => k t | Err e => Err e end.

Definition map_err {T E F} (f : E → F) (m : result T E) : result T F :=
  match m with Ok t => Ok t | Err e => Err (f e) end.

Definition res_map {T U E} (f : T → U) (m : result T E) : result U E :=
  match m with Ok t => Ok (f t) | Err e => Err e end.

Definition ok_or {T E} (o : option T) (e : E) : result T E :=
  match o with Some t => Ok t | None => Err e end.

Definition res_ok {T E} (m : result T E) : option T :=
  match m with Ok t => Some t | Err _ => None end.

Definition is_ok {T E} (m : result T E) : bool :=
  match m with Ok _ => true | Err _ => false end.

Notation "x ←? m ; k" := (res_bind m (λ x, k))
  (at level 100, m at level 90, k at level 200, right associativity,
   only parsing) : nexal_scope.
Open Scope nexal_scope.

(** A computation that may panic ([expect], slicing off a character
    boundary).  The release profile of the workspace aborts on a panic. *)
Inductive outcome (A : Type) : Type :=
  | Returns (a : A)
  | Panics.
Arguments Returns {A} a.
Arguments Panics {A}.

Lemma res_bind_Ok {T U E} (m : result T E) (k : T → result U E) u :
  res_bind m k = Ok u ↔ ∃ t, m = Ok t ∧ k t = Ok u.
Proof. destruct m; simpl; split; [eauto|intros (?&?&?)|done|intros (?&?&?)]; congruence. Qed.

Lemma res_map_Ok {T U E} (f : T → U) (m : result T E) u :
  res_map f m = Ok u ↔ ∃ t, m = Ok t ∧ u = f t.
Proof.
  destruct m; simpl; split; try (intros (?&?&?)); try congruence.
  intros [= <-]. eauto.
Qed.

Lemma map_err_Ok {T E F} (f : E → F) (m : result T E) t :
  map_err f m = Ok t ↔ m = Ok t.
Proof. destruct m; simpl; naive_solver. Qed.

Lemma ok_or_Ok {T E} (o : option T) (e : E) t : ok_or o e = Ok t ↔ o = Some t.
Proof. destruct o; simpl; naive_solver. Qed.

(** * Machine integers

    Integers are kept in [Z]; the release profile has no overflow checks, so
    arithmetic wraps. *)

Definition U64_MOD : Z := 2 ^ 64.
Definition USIZE_MAX : Z := 2 ^ 64 - 1.
Definition wrap_u64 (z : Z) : Z := z mod 2 ^ 64.
Definition wrap_u32 (z : Z) : Z := z mod 2 ^ 32.
Definition wrap_i64 (z : Z) : Z := (z + 2 ^ 63) mod 2 ^ 64 - 2 ^ 63.
Definition wrap_i32 (z : Z) : Z := (z + 2 ^ 31) mod 2 ^ 32 - 2 ^ 31.
Definition saturating_sub (a b : Z) : Z := Z.max 0 (a - b).

Lemma wrap_u64_small z : (0 ≤ z < 2 ^ 64)%Z → wrap_u64 z = z.
Proof. apply Z.mod_small. Qed.

Lemma wrap_u64_range z : (0 ≤ wrap_u64 z < 2 ^ 64)%Z.
Proof. apply Z.mod_pos_bound. lia. Qed.

Lemma wrap_i64_small z : (- 2 ^ 63 ≤ z < 2 ^ 63)%Z → wrap_i64 z = z.
Proof. intros H. unfold wrap_i64. rewrite Z.mod_small; lia. Qed.

Lemma wrap_i32_small z : (- 2 ^ 31 ≤ z < 2 ^ 31)%Z → wrap_i32 z = z.
Proof. intros H. unfold wrap_i32. rewrite Z.mod_small; lia. Qed.

(** * Bytes *)

Definition bytes := list byte.

#[export] Instance byte_eq_decision : EqDecision byte := byte_eq_dec.

(** Length of a buffer as a [usize]. *)
Definition len {A} (l : list A) : Z := Z.of_nat (length l).

Lemma len_nonneg {A} (l : list A) : (0 ≤ len l)%Z.
Proof. unfold len. lia. Qed.

Lemma len_app {A} (l k : list A) : len (l ++ k) = (len l + len k)%Z.
Proof. unfold len. rewrite length_app. lia. Qed.

Lemma len_cons {A} (x : A) l : len (x :: l) = (1 + len l)%Z.
Proof. unfold len. simpl. lia. Qed.

Definition byte_Z (b : byte) : Z := Z.of_N (Byte.to_N b).

Definition byte_of_Z (z : Z) : byte :=
  match Byte.of_N (Z.to_N (z mod 256)) with Some b => b | None => x00 end.

Lemma byte_Z_range b : (0 ≤ byte_Z b < 256)%Z.
Proof. unfold byte_Z. pose proof (Byte.to_N_bounded b). lia. Qed.

Lemma byte_Z_of_Z z : byte_Z (byte_of_Z z) = (z mod 256)%Z.
Proof.
  unfold byte_Z, byte_of_Z.
  pose proof (Z.mod_pos_bound z 256 ltac:(lia)) as Hb.
  destruct (Byte.of_N (Z.to_N (z mod 256))) as [b|] eqn:E.
  - apply Byte.to_of_N in E. rewrite E. lia.
  - apply Byte.of_N_None_iff in E. lia.
Qed.

Lemma byte_of_Z_byte_Z b : byte_of_Z (byte_Z b) = b.
Proof.
  unfold byte_of_Z. pose proof (byte_Z_range b).
  rewrite Z.mod_small by lia. unfold byte_Z. rewrite N2Z.id.
  by rewrite Byte.of_to_N.
Qed.

(** * Strings

    A Rust [String] is its UTF-8 bytes: a Rocq [string]. *)

Definition str_len (s : string) : Z := Z.of_nat (String.length s).

Definition code (c : ascii) : N := N_of_ascii c.

Definition in_range (lo hi : N) (c : ascii) : bool :=
  (lo <=? code c)%N && (code c <=? hi)%N.

Definition is_ascii_digit (c : ascii) : bool := in_range 48 57 c.
Definition is_ascii_upper (c : ascii) : bool := in_range 65 90 c.
Definition is_ascii_lower (c : ascii) : bool := in_range 97 122 c.
(** [char::is_ascii_alphanumeric] *)
Definition is_ascii_alphanumeric (c : ascii) : bool :=
  is_ascii_digit c || is_ascii_upper c || is_ascii_lower c.

(** A UTF-8 continuation byte ([10xxxxxx]): not the first byte of a char. *)
Definition is_continuation (c : ascii) : bool := in_range 128 191 c.

Definition to_ascii_lowercase (c : ascii) : ascii :=
  if is_ascii_upper c then ascii_of_N (code c + 32)%N else c.

Fixpoint string_map (f : ascii → ascii) (s : string) : string :=
  match s with
  | EmptyString => EmptyString
  | String c s' => String (f c) (string_map f s')
  end.

Fixpoint string_filter (p : ascii → bool) (s : string) : string :=
  match s with
  | EmptyString => EmptyString
  | String c s' => if p c then String c (string_filter p s') else string_filter p s'
  end.

Fixpoint string_forallb (p : ascii → bool) (s : string) : bool :=
  match s with
  | EmptyString => true
  | String c s' => p c && string_forallb p s'
  end.

(** Well-formed UTF-8: what [str::from_utf8] accepts, and the paths of which
    [Path::to_str] gives the text. *)
Fixpoint valid_utf8 (s : string) : bool :=
  match s with
  | EmptyString => true
  | String a s1 =>
      if in_range 0 127 a then valid_utf8 s1
      else
        match s1 with
        | EmptyString => false
        | String b s2 =>
            if in_range 194 223 a then is_continuation b && valid_utf8 s2
            else
              match s2 with
              | EmptyString => false
              | String c s3 =>
                  let second lo hi := in_range lo hi b in
                  if in_range 224 239 a then
                    (if bool_decide (code a = 224%N) then second 160 191
                     else if bool_decide (code a = 237%N) then second 128 159
                     else second 128 191)%N && is_continuation c && valid_utf8 s3
                  else
                    match s3 with
                    | EmptyString => false
                    | String d s4 =>
                        in_range 240 244 a &&
                        (if bool_decide (code a = 240%N) then second 144 191
                         else if bool_decide (code a = 244%N) then second 128 143
                         else second 128 191)%N &&
                        is_continuation c && is_continuation d && valid_utf8 s4
                    end
              end
        end
  end.

(** [str::eq_ignore_ascii_case] *)
Definition eq_ignore_ascii_case (a b : string) : bool :=
  String.eqb (string_map to_ascii_lowercase a) (string_map to_ascii_lowercase b).

(** [str::starts_with] / [str::strip_prefix] *)
Fixpoint strip_prefix (p s : string) : option string :=
  match p, s with
  | EmptyString, _ => Some s
  | String a p', String b s' => if Ascii.eqb a b then strip_prefix p' s' else None
  | String _ _, EmptyString => None
  end.

Definition starts_with (p s : string) : bool :=
  match strip_prefix p s with Some _ => true | None => false end.

(** [str::trim_end_matches(c)] for a one-byte character. *)
Fixpoint trim_end_matches (c : ascii) (s : string) : string :=
  match s with
  | EmptyString => EmptyString
  | String a s' =>
      match trim_end_matches c s' with
      | EmptyString => if Ascii.eqb a c then EmptyString else String a EmptyString
      | t => String a t
      end
  end.

(** [str::split(c)] for a one-byte character: never empty. *)
Fixpoint split_on (c : ascii) (s : string) : list string :=
  match s with
  | EmptyString => [EmptyString]
  | String a s' =>
      if Ascii.eqb a c then EmptyString :: split_on c s'
      else match split_on c s' with
           | [] => [String a EmptyString]
           | w :: ws => String a w :: ws
           end
  end.

(** [str::split_once(c)] for a one-byte character. *)
Fixpoint split_once (c : ascii) (s : string) : option (string * string) :=
  match s with
  | EmptyString => None
  | String a s' =>
      if Ascii.eqb a c then Some (EmptyString, s')
      else match split_once c s' with
           | Some (l, r) => Some (String a l, r)
           | None => None
           end
  end.

(** [[String]::join(sep)] *)
Fixpoint join (sep : string) (l : list string) : string :=
  match l with
  | [] => ""
  | [x] => x
  | x :: l' => x +:+ sep +:+ join sep l'
  end.

(** The UTF-8 encodings of the characters [str::trim] removes
    (Unicode [White_Space]). *)
Definition chr (n : N) : ascii := ascii_of_N n.
Definition newline : string := String (chr 10) EmptyString.
Definition utf8_3 (a b c : N) : string :=
  String (chr a) (String (chr b) (String (chr c) EmptyString)).
Definition white_space : list string :=
  map (λ n, String (chr n) EmptyString) [9; 10; 11; 12; 13; 32]%N
  ++ map (λ n, String (chr 194) (String (chr n) EmptyString)) [133; 160]%N
  ++ [utf8_3 225 154 128]
  ++ map (utf8_3 226 128) [128; 129; 130; 131; 132; 133; 134; 135; 136; 137; 138; 168; 169; 175]%N
  ++ [utf8_3 226 129 159; utf8_3 227 128 128].

Definition first_stripped (l : list string) (s : string) : option string :=
  head (omap (λ p, strip_prefix p s) l).

(** [fuel] is the length of the text: each round drops a character. *)
Fixpoint trim_start_fuel (fuel : nat) (s : string) : string :=
  match fuel with
  | O => s
  | S fuel' =>
      match first_stripped white_space s with
      | Some s' => trim_start_fuel fuel' s'
      | None => s
      end
  end.

Definition trim_start (s : string) : string := trim_start_fuel (String.length s) s.

Fixpoint trim_end (s : string) : string :=
  match s with
  | EmptyString => EmptyString
  | String c s' =>
      match trim_start s with
      | EmptyString => EmptyString
      | _ => String c (trim_end s')
      end
  end.

(** [str::trim] *)
Definition trim (s : string) : string := trim_end (trim_start s).

(** Drop one final carriage return. *)
Fixpoint strip_cr (s : string) : string :=
  match s with
  | EmptyString => EmptyString
  | String c EmptyString => if Ascii.eqb c (chr 13) then EmptyString else s
  | String c s' => String c (strip_cr s')
  end.

(** [str::lines]: the pieces ended by a newline, without it and without a
    carriage return before it, then what is left if it is not empty. *)
Definition lines (s : string) : list string :=
  let ls := split_on (chr 10) s in
  map strip_cr (removelast ls)
  ++ match last ls with Some EmptyString | None => [] | Some t => [t] end.

Lemma string_app_assoc (a b c : string) : (a +:+ b) +:+ c = a +:+ (b +:+ c).
Proof. induction a; simpl; unfold String.append; fold String.append; [done|]. by f_equal. Qed.

Lemma string_app_nil_r (a : string) : a +:+ "" = a.
Proof. induction a; [done|]. unfold String.append; fold String.append. by f_equal. Qed.

Lemma string_app_cons c (a b : string) : String c a +:+ b = String c (a +:+ b).
Proof. done. Qed.

Lemma string_app_nil_l (a : string) : "" +:+ a = a.
Proof. done. Qed.

Lemma string_length_app (a b : string) : String.length (a +:+ b) = String.length a + String.length b.
Proof. induction a as [|c a IH]; [done|]. rewrite string_app_cons. cbn. by rewrite IH. Qed.

Lemma string_app_inj_l (a b c : string) : a +:+ b = a +:+ c → b = c.
Proof. apply String.app_inj. Qed.

Lemma string_app_inj_r (a b t : string) : a +:+ t = b +:+ t → a = b.
Proof.
  revert b. induction a as [|c a IH]; intros [|d b]; [done| | |].
  - intros H%(f_equal String.length). rewrite !string_length_app in H. cbn in H. lia.
  - intros H%(f_equal String.length). rewrite !string_length_app in H. cbn in H. lia.
  - rewrite !string_app_cons. intros [= -> H]. f_equal. by apply IH.
Qed.

Lemma strip_prefix_app p s : strip_prefix p (p +:+ s) = Some s.
Proof.
  induction p as [|c p IH]; [done|]. rewrite string_app_cons. simpl.
  by rewrite Ascii.eqb_refl.
Qed.

Lemma strip_prefix_Some p s r : strip_prefix p s = Some r ↔ s = p +:+ r.
Proof.
  split; [|intros ->; apply strip_prefix_app].
  revert s. induction p as [|a p IH]; intros [|b s] H; simpl in *; try done;
    try by simplify_eq.
  destruct (Ascii.eqb_spec a b); [|done]. subst.
  by rewrite string_app_cons, <- (IH s H).
Qed.

Lemma starts_with_iff p s : starts_with p s = true ↔ ∃ r, s = p +:+ r.
Proof.
  unfold starts_with. destruct (strip_prefix p s) as [r|] eqn:E.
  - split; [|done]. intros _. exists r. by apply strip_prefix_Some.
  - split; [done|]. intros [r ->]. by rewrite strip_prefix_app in E.
Qed.

Lemma starts_with_app p s t : starts_with p s = true → starts_with p (s +:+ t) = true.
Proof.
  intros [r ->]%starts_with_iff. apply starts_with_iff. exists (r +:+ t).
  apply string_app_assoc.
Qed.

Lemma split_once_spec c s l r :
  split_once c s = Some (l, r) → s = l +:+ String c r.
Proof.
  revert l r. induction s as [|a s IH]; intros l r H; simpl in H; [done|].
  destruct (Ascii.eqb_spec a c); [by simplify_eq|].
  destruct (split_once c s) as [[l' r']|] eqn:E; [|done]. simplify_eq.
  rewrite string_app_cons. f_equal. by apply IH.
Qed.

Lemma trim_end_matches_app_char c s :
  trim_end_matches c (s +:+ String c "") = trim_end_matches c s.
Proof.
  induction s as [|a s IH].
  - simpl. by rewrite Ascii.eqb_refl.
  - rewrite string_app_cons. cbn [trim_end_matches]. by rewrite IH.
Qed.

(** * Generic list lemmas *)

Fixpoint find_map {A B} (f : A → option B) (l : list A) : option B :=
  match l with
  | [] => None
  | x :: l' => match f x with Some b => Some b | None => find_map f l' end
  end.

Lemma find_map_Some {A B} (f : A → option B) l b :
  find_map f l = Some b → ∃ x, x ∈ l ∧ f x = Some b.
Proof.
  induction l as [|x l IH]; cbn; [done|]. destruct (f x) eqn:E.
  - intros [= <-]. exists x. split; [by left|done].
  - intros (y & Hy & ?)%IH. exists y. split; [by right|done].
Qed.

Lemma find_map_is_Some {A B} (f : A → option B) l x :
  x ∈ l → is_Some (f x) → is_Some (find_map f l).
Proof.
  intros Hx Hf. induction Hx as [x l|x y l Hx IH]; cbn; [destruct Hf as [b ->]; by exists b|].
  destruct (f y); [by eexists|auto].
Qed.

Fixpoint sum_Z (l : list Z) : Z :=
  match l with [] => 0 | x :: l' => x + sum_Z l' end.

Lemma sum_Z_app l k : sum_Z (l ++ k) = (sum_Z l + sum_Z k)%Z.
Proof. induction l; simpl; lia. Qed.

Lemma sum_Z_nonneg l : Forall (λ z, 0 ≤ z)%Z l → (0 ≤ sum_Z l)%Z.
Proof. induction 1; simpl; lia. Qed.

(** Strictly increasing lists of sequence numbers. *)
Fixpoint increasing (l : list Z) : Prop :=
  match l with
  | [] => True
  | x :: l' => Forall (λ y, x < y)%Z l' ∧ increasing l'
  end.

Lemma increasing_app l k :
  increasing (l ++ k) ↔
  increasing l ∧ increasing k ∧ Forall (λ x, Forall (λ y, x < y)%Z k) l.
Proof.
  induction l as [|x l IH]; simpl.
  - rewrite Forall_nil. tauto.
  - rewrite IH, Forall_app, Forall_cons. tauto.
Qed.

Lemma increasing_snoc l x :
  increasing l → Forall (λ y, y < x)%Z l → increasing (l ++ [x]).
Proof.
  intros Hl Hx. apply increasing_app. split; [done|]. split; [by repeat constructor|].
  eapply Forall_impl; [done|]. intros y Hy. by repeat constructor.
Qed.

Lemma fmap_drop_map {A B} (f : A → B) k l : drop k (map f l) = map f (drop k l).
Proof. revert l. induction k; intros [|x l]; simpl; auto. Qed.

Lemma filter_all {A} (P : A → Prop) `{!∀ x, Decision (P x)} l :
  Forall P l → filter P l = l.
Proof. induction 1; [done|]. rewrite filter_cons, decide_True by done. by f_equal. Qed.

Lemma filter_none {A} (P : A → Prop) `{!∀ x, Decision (P x)} l :
  Forall (λ x, ¬ P x) l → filter P l = [].
Proof. induction 1; [done|]. by rewrite filter_cons, decide_False. Qed.

(** * Reachability *)

Section reach.
Context {A : Type} (R : A → A → Prop) (I : A → Prop).
Hypothesis I_step : ∀ a b, I a → R a b → I b.

Lemma rtc_invariant a b : I a → rtc R a b → I b.
Proof. induction 2; eauto. Qed.
End reach.

(** * Automation *)

(** Destruct the [match] or [if] a goal or hypothesis is stuck on. *)
Ltac case_matches := repeat (case_match; simplify_eq/=; try done).

Create HintDb nexal.
Create Rewrite HintDb nexal.
#[export] Hint Resolve len_nonneg byte_Z_range wrap_u64_range : nexal.
#[export] Hint Rewrite @len_app @len_cons sum_Z_app : nexal.
#[export] Hint Rewrite string_app_assoc string_app_nil_r string_app_nil_l : nexal.
