(* ===== verification/Paths.v ===== *)
(** Unix paths as [std::path] reads them: a path is text, and its components
    are what equality, hashing and prefix tests on paths go by. *)
From S2P Require Import Prelude.

Inductive Component := RootDir | CurDir | ParentDir | Normal (s : string).

#[export] Instance Component_eq_dec : EqDecision Component.
Proof. solve_decision. Defined.

(** A segment between two slashes: empty ones and (inside a path) [.] vanish. *)
Definition segment (s : string) : list Component :=
  if decide (s = "") then []
  else if decide (s = ".") then []
  else if decide (s = "..") then [ParentDir]
  else [Normal s].

(** [Path::is_absolute] *)
Definition is_absolute (p : string) : bool := starts_with "/" p.

(** [Path::components] *)
Definition components (p : string) : list Component :=
  let segs := split_on "/" p in
  (if is_absolute p then [RootDir]
   else match segs with s :: _ => if decide (s = ".") then [CurDir] else [] | [] => [] end)
  ++ flat_map segment segs.

(** The text ends in a slash. *)
Fixpoint ends_in_slash (p : string) : bool :=
  match p with
  | EmptyString => false
  | String c EmptyString => Ascii.eqb c "/"
  | String _ p' => ends_in_slash p'
  end.

(** [Path::join] / [PathBuf::push] *)
Definition path_join (a b : string) : string :=
  if is_absolute b then b
  else if decide (a = "") then b
  else if ends_in_slash a then a +:+ b
  else a +:+ "/" +:+ b.

(** [Path::starts_with] *)
Definition path_starts_with (p base : string) : bool :=
  bool_decide (components base `prefix_of` components p).

(** [Path::file_name] *)
Definition file_name (p : string) : option string :=
  match last (components p) with Some (Normal s) => Some s | _ => None end.

(** A path given by its components, for those [components] yields. *)
Definition of_components (cs : list Component) : string :=
  let name c := match c with
                | RootDir => "" | CurDir => "." | ParentDir => ".." | Normal s => s end in
  match cs with
  | [RootDir] => "/"
  | _ => join "/" (map name cs)
  end.

(** [Path::parent]: the path without its last component, unless it is the root
    or empty. *)
Definition parent (p : string) : option string :=
  match last (components p) with
  | None | Some RootDir => None
  | Some _ => Some (of_components (removelast (components p)))
  end.

(** * Lemmas *)

Lemma split_on_cons_ne c s : ∃ w ws, split_on c s = w :: ws.
Proof.
  destruct s as [|a s]; cbn; [eauto|].
  destruct (Ascii.eqb a c); [eauto|]. destruct (split_on c s); eauto.
Qed.

Lemma split_on_app c a b : split_on c (a +:+ String c b) = split_on c a ++ split_on c b.
Proof.
  induction a as [|x a IH]; [change ("" +:+ String c b) with (String c b); cbn [split_on]; by rewrite Ascii.eqb_refl|].
  change (String x a +:+ String c b) with (String x (a +:+ String c b)).
  cbn [split_on]. rewrite IH. destruct (Ascii.eqb x c); [done|].
  destruct (split_on_cons_ne c a) as (w & ws & ->). done.
Qed.

(** The pieces have no separator left. *)
Lemma split_on_no_sep c s w : w ∈ split_on c s → split_on c w = [w].
Proof.
  revert w. induction s as [|a s IH]; intros w; cbn.
  - intros ->%list_elem_of_singleton. done.
  - destruct (Ascii.eqb a c) eqn:Ha.
    + intros [->|Hw]%elem_of_cons; [done|by apply IH].
    + destruct (split_on_cons_ne c s) as (x & xs & Hs). rewrite Hs in *.
      intros [->|Hw]%elem_of_cons.
      * cbn. rewrite Ha. by rewrite (IH x) by apply list_elem_of_here.
      * apply IH. by apply list_elem_of_further.
Qed.

Lemma ends_in_slash_spec p : ends_in_slash p = true → ∃ q, p = q +:+ "/".
Proof.
  induction p as [|c p IH]; [done|]. intros H. destruct p as [|d p].
  - cbn in H. apply Ascii.eqb_eq in H as ->. by exists "".
  - destruct (IH H) as [q Hq]. exists (String c q). by rewrite Hq.
Qed.

(** What comes before the segments: a root or a leading [.]. *)
Definition leading (p : string) : list Component :=
  if is_absolute p then [RootDir]
  else match split_on "/" p with s :: _ => if decide (s = ".") then [CurDir] else [] | [] => [] end.

Lemma components_eq p : components p = leading p ++ flat_map segment (split_on "/" p).
Proof. done. Qed.

Lemma is_absolute_app a b : a ≠ "" → is_absolute (a +:+ b) = is_absolute a.
Proof.
  destruct a as [|c a]; [done|]. intros _. change (String c a +:+ b) with (String c (a +:+ b)).
  unfold is_absolute, starts_with. cbn [strip_prefix]. by destruct (Ascii.eqb "/" c).
Qed.

Lemma leading_app a b : a ≠ "" → leading (a +:+ "/" +:+ b) = leading a.
Proof.
  intros Ha. unfold leading. rewrite is_absolute_app by done.
  change (a +:+ "/" +:+ b) with (a +:+ String "/" b). rewrite split_on_app.
  destruct (split_on_cons_ne "/" a) as (w & ws & ->). done.
Qed.

(** Joining a relative path that does not start with [.] appends its
    components. *)
Lemma components_join a b :
  leading b = [] → components (path_join a b) = components a ++ components b.
Proof.
  intros Hb. unfold path_join.
  assert (is_absolute b = false) as ->.
  { unfold leading in Hb. by destruct (is_absolute b). }
  destruct (decide (a = "")) as [->|Ha]; [done|].
  destruct (ends_in_slash a) eqn:Es.
  - apply ends_in_slash_spec in Es as [q ->]. rewrite string_app_assoc.
    rewrite !components_eq, Hb, app_nil_l.
    destruct q as [|x q].
    + reflexivity.
    + rewrite leading_app by done.
      change (leading (String x q +:+ "/")) with (leading (String x q +:+ "/" +:+ "")).
      rewrite leading_app by done.
      change (String x q +:+ "/" +:+ b) with (String x q +:+ String "/" b).
      change (String x q +:+ "/") with (String x q +:+ String "/" "").
      rewrite !split_on_app, !flat_map_app. cbn [split_on flat_map].
      by rewrite <-!app_assoc.
  - rewrite !components_eq, Hb, app_nil_l. rewrite leading_app by done.
    change (a +:+ "/" +:+ b) with (a +:+ String "/" b).
    by rewrite split_on_app, flat_map_app, app_assoc.
Qed.

(** * Paths as lists of names *)

(** A name: no slash in it. *)
Definition slashless (s : string) : Prop := split_on "/" s = [s].

Lemma split_on_slashless s w : w ∈ split_on "/" s → slashless w.
Proof. apply split_on_no_sep. Qed.

Lemma join_cons sep x l : l ≠ [] → join sep (x :: l) = x +:+ sep +:+ join sep l.
Proof. by destruct l. Qed.

Lemma split_on_join cs : cs ≠ [] → Forall slashless cs → split_on "/" (join "/" cs) = cs.
Proof.
  intros Hne H. induction H as [|c cs Hc Hcs IH]; [done|].
  destruct cs as [|d cs]; [exact Hc|]. rewrite join_cons by done.
  change ("/" +:+ ?x) with (String "/" x). rewrite split_on_app, IH by done. by rewrite Hc.
Qed.

Lemma join_split_on s : join "/" (split_on "/" s) = s.
Proof.
  induction s as [|a s IH]; [done|]. cbn [split_on].
  destruct (split_on_cons_ne "/" s) as (w & ws & Hs).
  destruct (Ascii.eqb_spec a "/") as [->|_].
  - rewrite join_cons by (by rewrite Hs). by rewrite IH.
  - rewrite Hs in *. by destruct ws; cbn in *; rewrite <-IH.
Qed.

Lemma join_inj cs ds :
  cs ≠ [] → ds ≠ [] → Forall slashless cs → Forall slashless ds →
  join "/" cs = join "/" ds → cs = ds.
Proof.
  intros H1 H2 H3 H4 H. by rewrite <-(split_on_join cs), <-(split_on_join ds), H.
Qed.

(** A path of names under the root. *)
Lemma components_of_names ns :
  Forall (λ s, slashless s ∧ segment s = [Normal s]) ns →
  components (of_components (RootDir :: map Normal ns)) = RootDir :: map Normal ns.
Proof.
  intros H. destruct ns as [|n ns]; [done|].
  assert (of_components (RootDir :: map Normal (n :: ns)) = join "/" ("" :: n :: ns)) as ->.
  { unfold of_components. cbn [map]. f_equal. do 2 f_equal. induction ns as [|m ns IH]; [done|].
    cbn. f_equal. apply IH. apply Forall_cons in H as [? H]. apply Forall_cons in H as [_ H].
    by constructor. }
  unfold components. rewrite split_on_join; [|done|].
  2: { constructor; [done|]. eapply Forall_impl; [exact H|]. by intros ? [? _]. }
  change (is_absolute (join "/" ("" :: n :: ns))) with true. cbn [app flat_map segment decide].
  assert (E : flat_map segment (n :: ns) = map Normal (n :: ns)).
  { clear -H. induction H as [|x l [_ Hx] _ IH]; [done|]. cbn. by rewrite Hx, IH. }
  change (segment "") with (@nil Component). cbn [app]. by f_equal.
Qed.
