(* ===== verification/Certs.v ===== *)
(** Self-signed certificates ([utils/certs/src/lib.rs]): generated once, kept in a
    directory, loaded from there afterwards.  The certificate library and the
    files are parameters. *)
From S2P Require Import Prelude Paths.

(** * Data *)

(* @src crates/utils/certs/src/lib.rs CertPaths *)
Record CertPaths := mkCertPaths { cp_ca_cert : string; cp_server_cert : string; cp_server_key : string }.

(* @src crates/utils/certs/src/lib.rs CertMaterial *)
Record CertMaterial := mkCertMaterial {
  cm_ca_cert_pem : string;
  cm_server_cert_pem : string;
  cm_server_key_pem : string;
}.

(* @src crates/utils/certs/src/lib.rs CertError *)
Inductive CertError := Io (m : string) | Gen (m : string).

(* @src crates/utils/certs/src/lib.rs fmt *)
Definition CertError_to_string (e : CertError) : string :=
  match e with Io s => "cert io: " +:+ s | Gen s => "cert gen: " +:+ s end.

(* @src crates/utils/certs/src/lib.rs default_dir *)
Definition default_dir (home_dir : option string) : option string :=
  (λ h, path_join (path_join h ".nexal") "certs") <$> home_dir.

(** * Generating *)

Inductive KeyUsagePurpose := KeyCertSign | CrlSign.
Inductive DnType := CommonName | OrganizationName.
Inductive BasicConstraints := Unconstrained | Constrained (depth : Z).
Inductive IsCa := NoCa | ExplicitNoCa | Ca (constraints : BasicConstraints).
Inductive SanType := DnsName (name : string) | IpAddress (a b c d : Z).

(** What is set of the parameters of a certificate. *)
Record CertificateParams := mkParams {
  cp_is_ca : IsCa;
  cp_key_usages : list KeyUsagePurpose;
  cp_distinguished_name : list (DnType * string);
  cp_subject_alt_names : list SanType;
}.

(** [rcgen]: keys drawn at random, the [n]th here, and certificates as text. *)
Class Rcgen := {
  KeyPair : Type;
  generate_key : nat → result KeyPair string;
  default_params : CertificateParams;
  dns_name : string → result string string;
  self_signed : CertificateParams → KeyPair → result string string;
  signed_by : CertificateParams → KeyPair → CertificateParams → KeyPair → result string string;
  serialize_pem : KeyPair → string;
}.

Section generate.
Context {R : Rcgen}.

(* @src crates/utils/certs/src/lib.rs generate "let mut ca_params = CertificateParams::default();" .. "ca_params.distinguished_name = ca_dn;" *)
Definition ca_params : CertificateParams :=
  mkParams (Ca Unconstrained) (cp_key_usages default_params ++ [KeyCertSign; CrlSign])
    [(CommonName, "nexal CA"); (OrganizationName, "nexal")] (cp_subject_alt_names default_params).

(* @src crates/utils/certs/src/lib.rs generate "let mut server_params = CertificateParams::default();" .. "let server_cert = server_params" *)
Definition server_params : result CertificateParams CertError :=
  let san name := map_err (λ e, Gen ("san: " +:+ e)) (dns_name name) in
  localhost ←? san "localhost";
  host ←? san "host.containers.internal";
  Ok (mkParams (cp_is_ca default_params) (cp_key_usages default_params) [(CommonName, "nexal gateway")]
        (cp_subject_alt_names default_params
         ++ [DnsName localhost; IpAddress 127 0 0 1; DnsName host])).

(* @src crates/utils/certs/src/lib.rs generate *)
Definition generate : result CertMaterial CertError :=
  ca_key ←? map_err (λ e, Gen ("ca keygen: " +:+ e)) (generate_key 0);
  ca_cert_pem ←? map_err (λ e, Gen ("ca self-sign: " +:+ e)) (self_signed ca_params ca_key);
  server_key ←? map_err (λ e, Gen ("server keygen: " +:+ e)) (generate_key 1);
  server_params ←? server_params;
  server_cert ←? map_err (λ e, Gen ("server sign: " +:+ e)) (signed_by server_params server_key ca_params ca_key);
  Ok (mkCertMaterial ca_cert_pem server_cert (serialize_pem server_key)).

(** The server's certificate is for the key that comes with it, names the places
    the gateway is reached at, and is signed by the key of the CA that comes with
    it too. *)
Lemma generate_Ok m :
  generate = Ok m →
  ∃ ca_key server_key params, cm_server_key_pem m = serialize_pem server_key
    ∧ self_signed ca_params ca_key = Ok (cm_ca_cert_pem m)
    ∧ signed_by params server_key ca_params ca_key = Ok (cm_server_cert_pem m)
    ∧ IpAddress 127 0 0 1 ∈ cp_subject_alt_names params
    ∧ ∃ l, dns_name "localhost" = Ok l ∧ DnsName l ∈ cp_subject_alt_names params.
Proof.
  unfold generate. intros (ck & _ & (ca & Hca%map_err_Ok & (sk & _ & (ps & Hps & (sc & Hsc%map_err_Ok & [= <-])%res_bind_Ok)%res_bind_Ok)%res_bind_Ok)%res_bind_Ok)%res_bind_Ok.
  exists ck, sk, ps. do 3 (split; [done|]). unfold server_params in Hps.
  apply res_bind_Ok in Hps as (l & Hl%map_err_Ok & (h & _ & [= <-])%res_bind_Ok). cbn. split.
  - apply elem_of_app. right. set_solver.
  - exists l. split; [done|]. apply elem_of_app. right. set_solver.
Qed.
End generate.

(** * The files *)

(** Opening a file to write leaves it empty; its content comes after. *)
Class CertFs (FS : Type) := {
  cf_exists : string → FS → bool;
  cf_read_to_string : string → FS → result string string;
  cf_create_dir_all : string → FS → FS * result unit string;
  cf_create : string → FS → FS * result unit string;
  cf_write_all : string → string → FS → FS * result unit string;
}.

Section ensure.
Context {FS : Type} {F : CertFs FS}.

(* @src crates/utils/certs/src/lib.rs ensure_certs "let paths = CertPaths {" .. "};" *)
Definition cert_paths (dir : string) : CertPaths :=
  mkCertPaths (path_join dir "ca.pem") (path_join dir "server.pem") (path_join dir "server.key").

(* @src crates/utils/certs/src/lib.rs ensure_certs "if paths.ca_cert.exists()" .. "paths.server_key.exists()" *)
Definition all_exist (p : CertPaths) (fs : FS) : bool :=
  cf_exists (cp_ca_cert p) fs && cf_exists (cp_server_cert p) fs && cf_exists (cp_server_key p) fs.

(* @src crates/utils/certs/src/lib.rs ensure_certs "let ca = tokio::fs::read_to_string" .. "return Ok(CertMaterial {" *)
Definition load (p : CertPaths) (fs : FS) : result CertMaterial CertError :=
  let read path := map_err (λ e, Io ("read " +:+ path +:+ ": " +:+ e)) (cf_read_to_string path fs) in
  ca ←? read (cp_ca_cert p);
  cert ←? read (cp_server_cert p);
  key ←? read (cp_server_key p);
  Ok (mkCertMaterial ca cert key).

(** The operations that put the material down, each of them one system call. *)
Definition FsOp : Type := FS → FS * result unit CertError.

Definition op_mkdir (dir : string) : FsOp := λ fs,
  let r := cf_create_dir_all dir fs in (r.1, map_err (λ e, Io ("mkdir " +:+ dir +:+ ": " +:+ e)) r.2).
Definition write_error (path e : string) : CertError := Io ("write " +:+ path +:+ ": " +:+ e).
Definition op_create (path : string) : FsOp := λ fs,
  let r := cf_create path fs in (r.1, map_err (write_error path) r.2).
Definition op_write (path text : string) : FsOp := λ fs,
  let r := cf_write_all path text fs in (r.1, map_err (write_error path) r.2).

(* @src crates/utils/certs/src/lib.rs ensure_certs "// Persist to disk." .. "Ok(material)" *)
Definition persist (dir : string) (m : CertMaterial) : list FsOp :=
  let p := cert_paths dir in
  [op_mkdir dir;
   op_create (cp_ca_cert p); op_write (cp_ca_cert p) (cm_ca_cert_pem m);
   op_create (cp_server_cert p); op_write (cp_server_cert p) (cm_server_cert_pem m);
   op_create (cp_server_key p); op_write (cp_server_key p) (cm_server_key_pem m)].

Fixpoint run_ops (ops : list FsOp) (fs : FS) : FS * result unit CertError :=
  match ops with
  | [] => (fs, Ok tt)
  | op :: ops =>
      match op fs with
      | (fs, Ok _) => run_ops ops fs
      | (fs, Err e) => (fs, Err e)
      end
  end.

(** [fresh] is what [generate] would give. *)
(* @src crates/utils/certs/src/lib.rs ensure_certs *)
Definition ensure_certs (fresh : result CertMaterial CertError) (dir : string) (fs : FS)
    : FS * result CertMaterial CertError :=
  let paths := cert_paths dir in
  if all_exist paths fs then (fs, load paths fs)
  else match fresh with
       | Err e => (fs, Err e)
       | Ok m =>
           match run_ops (persist dir m) fs with
           | (fs, Ok _) => (fs, Ok m)
           | (fs, Err e) => (fs, Err e)
           end
       end.

(** ** What the file system does *)

(** [fs'] has of [q] what [fs] has. *)
Definition same_at (q : string) (fs fs' : FS) : Prop :=
  cf_exists q fs' = cf_exists q fs ∧ cf_read_to_string q fs' = cf_read_to_string q fs.

(** The three files of the directory, which are regular files and not links to
    one another. *)
Definition files (dir : string) : list string :=
  let p := cert_paths dir in [cp_ca_cert p; cp_server_cert p; cp_server_key p].

Record cert_fs_laws (dir : string) : Prop := {
  cl_mkdir q fs : q ∈ files dir → same_at q fs (cf_create_dir_all dir fs).1;
  cl_create p fs fs' : p ∈ files dir → cf_create p fs = (fs', Ok tt) →
    cf_exists p fs' = true ∧ cf_read_to_string p fs' = Ok "";
  cl_create_other p q fs : p ∈ files dir → q ∈ files dir → q ≠ p → same_at q fs (cf_create p fs).1;
  cl_write p s fs fs' : p ∈ files dir → cf_exists p fs = true → cf_write_all p s fs = (fs', Ok tt) →
    cf_exists p fs' = true ∧ cf_read_to_string p fs' = Ok s;
  cl_write_other p q s fs : p ∈ files dir → q ∈ files dir → q ≠ p → same_at q fs (cf_write_all p s fs).1;
}.

(** The content of an existing file. *)
Definition holds (p s : string) (fs : FS) : Prop := cf_exists p fs = true ∧ cf_read_to_string p fs = Ok s.

Lemma holds_same p s fs fs' : same_at p fs fs' → holds p s fs → holds p s fs'.
Proof. intros [H1 H2] [H3 H4]. split; congruence. Qed.

Lemma path_join_inj dir a b :
  is_absolute a = false → is_absolute b = false → path_join dir a = path_join dir b → a = b.
Proof.
  intros Ha Hb. unfold path_join. rewrite Ha, Hb. destruct (decide (dir = "")); [done|].
  destruct (ends_in_slash dir); intros H; apply string_app_inj_l in H; [done|].
  by injection H.
Qed.

Lemma cert_paths_apart dir :
  cp_ca_cert (cert_paths dir) ≠ cp_server_cert (cert_paths dir) ∧
  cp_ca_cert (cert_paths dir) ≠ cp_server_key (cert_paths dir) ∧
  cp_server_cert (cert_paths dir) ≠ cp_server_key (cert_paths dir).
Proof. by split_and!; intros H%path_join_inj. Qed.

(** [n] operations that all succeed. *)
Lemma run_ops_cons op ops fs fs' :
  run_ops (op :: ops) fs = (fs', Ok tt) ↔ ∃ fs1, op fs = (fs1, Ok tt) ∧ run_ops ops fs1 = (fs', Ok tt).
Proof.
  simpl. destruct (op fs) as [fs1 [[]|e]]; split; [eauto|by intros (? & [= <-] & ?)|done|by intros (? & [=] & ?)].
Qed.

Section files_facts.
Context (dir : string) (L : cert_fs_laws dir).
Abbreviation p := (cert_paths dir).

Lemma ca_cert_in : cp_ca_cert p ∈ files dir.
Proof. set_solver. Qed.
Lemma server_cert_in : cp_server_cert p ∈ files dir.
Proof. set_solver. Qed.
Lemma server_key_in : cp_server_key p ∈ files dir.
Proof. set_solver. Qed.
Hint Resolve ca_cert_in server_cert_in server_key_in : core.

Lemma op_mkdir_Ok q fs fs' : op_mkdir dir fs = (fs', Ok tt) → q ∈ files dir → same_at q fs fs'.
Proof. intros [= <- _] Hq. by apply L. Qed.

Lemma op_create_Ok a fs fs' :
  op_create a fs = (fs', Ok tt) → a ∈ files dir →
  holds a "" fs' ∧ ∀ q, q ∈ files dir → q ≠ a → same_at q fs fs'.
Proof.
  unfold op_create. destruct (cf_create a fs) as [fs1 r] eqn:E. intros [= -> Hr%map_err_Ok] Ha. cbn in Hr. subst r.
  split; [by apply (cl_create dir L a fs)|]. intros q Hq Hne.
  pose proof (cl_create_other dir L a q fs Ha Hq Hne) as H. by rewrite E in H.
Qed.

Lemma op_write_Ok a t s0 fs fs' :
  op_write a t fs = (fs', Ok tt) → a ∈ files dir → holds a s0 fs →
  holds a t fs' ∧ ∀ q, q ∈ files dir → q ≠ a → same_at q fs fs'.
Proof.
  unfold op_write. destruct (cf_write_all a t fs) as [fs1 r] eqn:E. intros [= -> Hr%map_err_Ok] Ha [He _]. cbn in Hr. subst r.
  split; [by apply (cl_write dir L a t fs)|]. intros q Hq Hne.
  pose proof (cl_write_other dir L a q t fs Ha Hq Hne) as H. by rewrite E in H.
Qed.

Lemma same_at_trans q fs1 fs2 fs3 : same_at q fs1 fs2 → same_at q fs2 fs3 → same_at q fs1 fs3.
Proof. intros [] []. split; congruence. Qed.

(** [std::fs::write]: the file holds the text, and the others do not change. *)
Lemma write_Ok a t ops fs fs' :
  run_ops (op_create a :: op_write a t :: ops) fs = (fs', Ok tt) → a ∈ files dir →
  ∃ fs1, run_ops ops fs1 = (fs', Ok tt) ∧ holds a t fs1 ∧ ∀ q, q ∈ files dir → q ≠ a → same_at q fs fs1.
Proof.
  intros (fs1 & Hc & (fs2 & Hw & H)%run_ops_cons)%run_ops_cons Ha.
  destruct (op_create_Ok _ _ _ Hc Ha) as [H0 H1]. destruct (op_write_Ok _ _ _ _ _ Hw Ha H0) as [H2 H3].
  exists fs2. split_and!; [done..|]. intros q Hq Hne. eapply same_at_trans; eauto.
Qed.

(** Once the certificates are written: the two are there, and the key as it was. *)
Lemma certs_written_Ok m ops fs fs' :
  run_ops (op_mkdir dir
           :: op_create (cp_ca_cert p) :: op_write (cp_ca_cert p) (cm_ca_cert_pem m)
           :: op_create (cp_server_cert p) :: op_write (cp_server_cert p) (cm_server_cert_pem m) :: ops) fs
    = (fs', Ok tt) →
  ∃ fs1, run_ops ops fs1 = (fs', Ok tt) ∧ holds (cp_ca_cert p) (cm_ca_cert_pem m) fs1
    ∧ holds (cp_server_cert p) (cm_server_cert_pem m) fs1 ∧ same_at (cp_server_key p) fs fs1.
Proof.
  destruct (cert_paths_apart dir) as (A & B & C).
  intros (f1 & Hm & (f2 & (f3 & H & H3 & K3)%write_Ok & H2 & K2)%write_Ok)%run_ops_cons; [|done..].
  exists f3. split_and!; [done|eapply holds_same; [by apply K3|done]|done|].
  eapply same_at_trans; [by apply (op_mkdir_Ok _ _ _ Hm)|]. eapply same_at_trans; [apply K2|apply K3]; done.
Qed.

Lemma load_holds m fs :
  holds (cp_ca_cert p) (cm_ca_cert_pem m) fs → holds (cp_server_cert p) (cm_server_cert_pem m) fs →
  holds (cp_server_key p) (cm_server_key_pem m) fs →
  all_exist p fs = true ∧ load p fs = Ok m.
Proof.
  intros [A1 A2] [B1 B2] [C1 C2]. unfold all_exist, load. rewrite A1, A2, B1, B2, C1, C2. by destruct m.
Qed.

Lemma persist_Ok m fs fs' :
  run_ops (persist dir m) fs = (fs', Ok tt) → all_exist p fs' = true ∧ load p fs' = Ok m.
Proof.
  destruct (cert_paths_apart dir) as (A & B & C).
  intros (f1 & (f2 & [= ->] & H & K)%write_Ok & H1 & H2 & _)%certs_written_Ok; [|done].
  apply load_holds; [eapply holds_same; [by apply K|done]..|done].
Qed.

(** C27: The material is made once: whatever [ensure_certs] gave, generated or
    loaded, is what it gives from then on, and it writes nothing more then, whether
    or not certificates could still be generated. *)
Theorem certs_loaded_as_generated fresh fs fs' m :
  ensure_certs fresh dir fs = (fs', Ok m) →
  ∀ fresh', ensure_certs fresh' dir fs' = (fs', Ok m).
Proof.
  unfold ensure_certs. intros H fresh'. destruct (all_exist p fs) eqn:E.
  { injection H as <- H. by rewrite E, H. }
  destruct fresh as [m1|e]; [|done].
  destruct (run_ops _ _) as [fs1 [[]|e]] eqn:Hp; [|done]. injection H as -> ->.
  by destruct (persist_Ok m fs fs' Hp) as [-> ->].
Qed.

(** ** Interruption *)

(** An operation that leaves [q] as it is. *)
Definition keeps (q : string) (op : FsOp) : Prop := ∀ fs fs', op fs = (fs', Ok tt) → same_at q fs fs'.

Lemma run_ops_keeps q ops fs fs' : Forall (keeps q) ops → run_ops ops fs = (fs', Ok tt) → same_at q fs fs'.
Proof.
  intros H. revert fs. induction H as [|op ops Hop _ IH]; intros fs; [by intros [= ->]|].
  intros (fs1 & H1 & H2)%run_ops_cons. eapply same_at_trans; eauto.
Qed.

Lemma op_create_keeps a q : a ∈ files dir → q ∈ files dir → q ≠ a → keeps q (op_create a).
Proof. intros Ha Hq Hne fs fs' H. by apply (op_create_Ok _ _ _ H Ha). Qed.

Lemma op_write_keeps a t q : a ∈ files dir → q ∈ files dir → q ≠ a → keeps q (op_write a t).
Proof.
  unfold op_write. intros Ha Hq Hne fs fs' [= <- _]. by apply L.
Qed.

(** None of the first five operations touches the key's file. *)
Lemma first_five_keep_key m n : n ≤ 5 → Forall (keeps (cp_server_key p)) (take n (persist dir m)).
Proof.
  destruct (cert_paths_apart dir) as (A & B & C). intros Hn.
  replace n with (n `min` 5) by lia. rewrite <-take_take. apply Forall_take.
  assert (Hm : keeps (cp_server_key p) (op_mkdir dir)) by (intros ?? H; by apply (op_mkdir_Ok _ _ _ H)).
  do 5 (apply Forall_cons; split; [first [done|by apply op_create_keeps|by apply op_write_keeps]|]).
  done.
Qed.

(** When the program is stopped while it writes its first certificates, after
    [n] operations: up to the fifth the key does not exist and the next run
    generates again; after the sixth, which creates the key's file, every later run
    takes the empty file for the key, and never generates another. *)
Theorem interrupted_generation n m fs fs' :
  cf_exists (cp_server_key p) fs = false →
  run_ops (take n (persist dir m)) fs = (fs', Ok tt) →
  (n ≤ 5 → ∀ m' fs'', run_ops (persist dir m') fs' = (fs'', Ok tt) →
     ensure_certs (Ok m') dir fs' = (fs'', Ok m')) ∧
  (n = 6 → ∀ fresh, ensure_certs fresh dir fs'
     = (fs', Ok (mkCertMaterial (cm_ca_cert_pem m) (cm_server_cert_pem m) ""))).
Proof.
  destruct (cert_paths_apart dir) as (A & B & C). intros Hk Hr. split.
  - intros Hn m' fs'' Hp. unfold ensure_certs, all_exist.
    destruct (run_ops_keeps _ _ _ _ (first_five_keep_key m n Hn) Hr) as [-> _].
    by rewrite Hk, andb_false_r, Hp.
  - intros -> fresh. destruct (certs_written_Ok m [op_create (cp_server_key p)] _ _ Hr) as (f1 & Hc & H1 & H2 & _).
    apply run_ops_cons in Hc as (f2 & Hc & [= ->]). apply op_create_Ok in Hc as [H K]; [|done].
    set (m' := mkCertMaterial _ _ _). assert (all_exist p fs' = true ∧ load p fs' = Ok m') as [E1 E2].
    { apply load_holds; [eapply holds_same; [by apply K|done]..|done]. }
    unfold ensure_certs. by rewrite E1, E2.
Qed.
End files_facts.
End ensure.

(** * An example *)

Module SampleCerts.
(** Files as a list of paths and contents, the latest first, in directories that
    exist. *)
Definition Files : Type := list (string * string).

Fixpoint get (p : string) (fs : Files) : option string :=
  match fs with
  | [] => None
  | (q, s) :: fs => if String.eqb q p then Some s else get p fs
  end.

#[local] Instance list_fs : CertFs Files := {|
  cf_exists p fs := match get p fs with Some _ => true | None => false end;
  cf_read_to_string p fs := ok_or (get p fs) "No such file or directory (os error 2)";
  cf_create_dir_all dir fs := (fs, Ok tt);
  cf_create p fs := ((p, "") :: fs, Ok tt);
  cf_write_all p s fs := ((p, s) :: fs, Ok tt);
|}.

Lemma get_cons_ne p q s fs : q ≠ p → get q ((p, s) :: fs) = get q fs.
Proof. intros H. cbn. by destruct (String.eqb_spec p q) as [->|]. Qed.

Lemma list_fs_laws dir : cert_fs_laws dir.
Proof.
  constructor; unfold same_at; cbn -[get].
  - done.
  - intros p fs fs' _ [= <-]. cbn. by rewrite String.eqb_refl.
  - intros p q fs _ _ H. by rewrite get_cons_ne.
  - intros p s fs fs' _ _ [= <-]. cbn. by rewrite String.eqb_refl.
  - intros p q s fs _ _ H. by rewrite get_cons_ne.
Qed.

(** What is there when the program stops after [n] of the operations. *)
Definition interrupted (n : nat) (dir : string) (m : CertMaterial) (fs : Files) : Files :=
  (run_ops (take n (persist dir m)) fs).1.

Definition dir : string := "/root/.nexal/certs".
Definition first : CertMaterial := mkCertMaterial "CA 1" "CERT 1" "KEY 1".
Definition second : CertMaterial := mkCertMaterial "CA 2" "CERT 2" "KEY 2".

(** The first run writes the three files, and a second one takes them. *)
Lemma certs_loaded_as_generated_witness :
  ∃ fs', ensure_certs (Ok first) dir [] = (fs', Ok first) ∧ get (path_join dir "server.key") fs' = Some "KEY 1"
    ∧ ensure_certs (Ok second) dir fs' = (fs', Ok first).
Proof.
  exists (ensure_certs (Ok first) dir []).1. split; [by vm_compute|]. split; [by vm_compute|].
  apply (certs_loaded_as_generated dir (list_fs_laws dir) (Ok first) []). by vm_compute.
Defined.

(** Stopped before the key's file is made, and just after. *)
Lemma interrupted_generation_witness :
  (ensure_certs (Ok second) dir (interrupted 5 dir first [])).2 = Ok second ∧
  ensure_certs (Ok second) dir (interrupted 6 dir first [])
    = (interrupted 6 dir first [], Ok (mkCertMaterial "CA 1" "CERT 1" "")).
Proof.
  split; [by vm_compute|].
  refine (proj2 (interrupted_generation dir (list_fs_laws dir) 6 first [] _ _ _) _ _); by vm_compute.
Defined.
End SampleCerts.
