(* ===== verification/AbsPath.v ===== *)
(** Absolute paths: [utils/absolute-path/src/lib.rs], the type of the paths the
    agent's file methods take.  Lexical resolution is the crate
    [path-absolutize], an interface here. *)
From S2P Require Import Prelude Paths.
Open Scope nexal_scope.

(** [Absolutize::absolutize_from] and [Absolutize::absolutize], which resolves
    against the current directory; failures as their text. *)
Class Absolutize := {
  absolutize_from : string → string → result string string;
  absolutize : string → result string string;
}.

(** [str::trim_start_matches(c)] for a one-byte character. *)
Fixpoint trim_start_matches (c : ascii) (s : string) : string :=
  match s with
  | String d s' => if Ascii.eqb d c then trim_start_matches c s' else s
  | EmptyString => EmptyString
  end.

Section absolute.
Context {A : Absolutize} (home_dir : option string) (current_dir : result string string).

(** An [AbsolutePathBuf] is its path. *)
(* @src crates/utils/absolute-path/src/lib.rs AbsolutePathBuf *)
Definition AbsolutePathBuf : Type := string.

(** The branch for Windows is not compiled. *)
(* @src crates/utils/absolute-path/src/lib.rs maybe_expand_home_directory *)
Definition maybe_expand_home_directory (path : string) : string :=
  match (if valid_utf8 path then home_dir else None), strip_prefix "~" path with
  | Some home, Some rest =>
      if String.eqb rest "" then home
      else match strip_prefix "/" rest with
           | Some rest => path_join home (trim_start_matches "/" rest)
           | None => path
           end
  | _, _ => path
  end.

(* @src crates/utils/absolute-path/src/lib.rs resolve_path_against_base *)
Definition resolve_path_against_base (path base_path : string) : result AbsolutePathBuf string :=
  absolutize_from (maybe_expand_home_directory path) base_path.

(* @src crates/utils/absolute-path/src/lib.rs from_absolute_path *)
Definition from_absolute_path (path : string) : result AbsolutePathBuf string :=
  absolutize (maybe_expand_home_directory path).

(* @src crates/utils/absolute-path/src/lib.rs current_dir *)
Definition current_dir_path : result AbsolutePathBuf string :=
  dir ←? current_dir; from_absolute_path dir.

(* @src crates/utils/absolute-path/src/lib.rs relative_to_current_dir *)
Definition relative_to_current_dir (path : string) : result AbsolutePathBuf string :=
  dir ←? current_dir; resolve_path_against_base path dir.

(* @src crates/utils/absolute-path/src/lib.rs join *)
Definition abs_join (self : AbsolutePathBuf) (path : string) : result AbsolutePathBuf string :=
  resolve_path_against_base path self.

(* @src crates/utils/absolute-path/src/lib.rs parent *)
Definition abs_parent (self : AbsolutePathBuf) : option AbsolutePathBuf := parent self.

(** The base path of a thread. *)
(* @src crates/utils/absolute-path/src/lib.rs AbsolutePathBufGuard::new *)
Definition guard_new (base_path : string) (cell : option string) : option string := Some base_path.

(* @src crates/utils/absolute-path/src/lib.rs drop *)
Definition guard_drop (cell : option string) : option string := None.

(* @src crates/utils/absolute-path/src/lib.rs deserialize *)
Definition deserialize (cell : option string) (path : string) : result AbsolutePathBuf string :=
  match cell with
  | Some base => resolve_path_against_base path base
  | None =>
      if is_absolute path then from_absolute_path path
      else Err "AbsolutePathBuf deserialized without a base path"
  end.

End absolute.

(** * Where a path leads *)

(** Walking along components from a directory, given by its names in reverse. *)
Definition resolve (cs : list Component) (stack : list string) : list string :=
  foldl (λ st c, match c with
                 | RootDir => [] | CurDir => st | ParentDir => tail st | Normal s => s :: st
                 end) stack cs.

Definition walk (p : string) (stack : list string) : list string := resolve (components p) stack.

(** [q] is the path from the root by these names and nothing else. *)
Definition leads_to (q : string) (stack : list string) : Prop :=
  components q = RootDir :: map Normal (rev stack).

(** A path is walked from the base, but one whose first component is [~] is
    walked, without it, from the home directory (a path that is not UTF-8 is
    taken as it is). *)
Definition destination (home_dir : option string) (base p : string) : list string :=
  match (if valid_utf8 p then home_dir else None), components p with
  | Some home, Normal name :: cs =>
      if decide (name = "~") then resolve cs (walk home (walk base [])) else walk p (walk base [])
  | _, _ => walk p (walk base [])
  end.

(** What [path-absolutize] documents: the path is resolved against the base, in
    the text alone.  ([absolutize] has the current directory for base; for an
    absolute path that does not matter.) *)
Record absolutize_laws {A : Absolutize} : Prop := {
  absolutize_law p q : is_absolute p = true → absolutize p = Ok q → leads_to q (walk p []);
  absolutize_from_law p base q :
    is_absolute base = true → absolutize_from p base = Ok q → leads_to q (walk p (walk base []));
}.
#[global] Arguments absolutize_laws : clear implicits.

(** * Lemmas *)

Lemma leads_to_absolute q st : leads_to q st → is_absolute q = true.
Proof.
  unfold leads_to. intros H. unfold components in H. destruct (is_absolute q); [done|].
  destruct (split_on "/" q) as [|w ws]; [done|]. case_decide; [done|]. cbn in H.
  assert (∀ x, segment x ≠ [RootDir]) as Hs by (intros x; unfold segment; repeat case_decide; done).
  exfalso. assert (RootDir ∈ segment w ++ flat_map segment ws) as Hin by (rewrite H; apply list_elem_of_here).
  change (segment w ++ flat_map segment ws) with (flat_map segment (w :: ws)) in Hin.
  apply list_elem_of_In, in_flat_map in Hin as (x & _ & Hx). unfold segment in Hx.
  repeat case_decide; cbn in Hx; intuition congruence.
Qed.

(** The parts of a path after the root or a leading [.]. *)
Definition parts (p : string) : list Component := flat_map segment (split_on "/" p).

Lemma resolve_app cs ds st : resolve (cs ++ ds) st = resolve ds (resolve cs st).
Proof. apply foldl_app. Qed.

Lemma walk_parts p st : walk p st = resolve (parts p) (if is_absolute p then [] else st).
Proof.
  unfold walk. rewrite components_eq, resolve_app. fold (parts p). f_equal. unfold leading.
  destruct (is_absolute p); [done|]. destruct (split_on "/" p); [done|]. by case_decide.
Qed.

Lemma parts_slash a b : parts (a +:+ "/" +:+ b) = parts a ++ parts b.
Proof. unfold parts. change ("/" +:+ b) with (String "/" b). by rewrite split_on_app, flat_map_app. Qed.

Lemma parts_trim r : parts (trim_start_matches "/" r) = parts r.
Proof.
  induction r as [|c r IH]; [done|]. cbn [trim_start_matches].
  destruct (Ascii.eqb_spec c "/") as [->|]; [|done]. rewrite IH. symmetry. exact (parts_slash "" r).
Qed.

Lemma trim_relative r : is_absolute (trim_start_matches "/" r) = false.
Proof.
  induction r as [|c r IH]; [done|]. cbn [trim_start_matches].
  destruct (Ascii.eqb c "/") eqn:E; [done|]. unfold is_absolute, starts_with. cbn [strip_prefix].
  by rewrite Ascii.eqb_sym, E.
Qed.

Lemma parts_end a : parts (a +:+ "/") = parts a.
Proof. change (a +:+ "/") with (a +:+ "/" +:+ ""). rewrite parts_slash. apply app_nil_r. Qed.

(** Going on from a path. *)
Lemma walk_join a b st : is_absolute b = false → walk (path_join a b) st = resolve (parts b) (walk a st).
Proof.
  intros Hb. unfold path_join. rewrite Hb. destruct (decide (a = "")) as [->|Ha].
  { rewrite walk_parts, Hb. done. }
  rewrite !walk_parts. destruct (ends_in_slash a) eqn:Es.
  - rewrite is_absolute_app by done. apply ends_in_slash_spec in Es as [q ->].
    by rewrite string_app_assoc, parts_slash, parts_end, resolve_app.
  - by rewrite is_absolute_app, parts_slash, resolve_app by done.
Qed.

(** A path whose first component is a name begins with it. *)
Lemma components_first p s cs : components p = Normal s :: cs → ∃ rest, p = s +:+ rest.
Proof.
  intros E. unfold components in E. destruct (is_absolute p) eqn:Ha; [done|].
  destruct (split_on_cons_ne "/" p) as (w & ws & Hs). rewrite Hs in E.
  assert (p = join "/" (w :: ws)) as Hp by (by rewrite <- Hs, join_split_on).
  case_decide; [done|]. cbn in E. unfold segment at 1 in E.
  case_decide as Hw; [|case_decide; [done|case_decide; [done|]]].
  - subst w. destruct ws as [|w' ws]; [done|]. rewrite Hp, join_cons in Ha by done. done.
  - injection E as <- _. destruct ws as [|w' ws]; [exists ""; by rewrite string_app_nil_r|].
    rewrite Hp, join_cons by done. eauto.
Qed.

(** The names of a path are names. *)
Lemma components_names p ns :
  components p = RootDir :: map Normal ns → Forall (λ s, slashless s ∧ segment s = [Normal s]) ns.
Proof.
  intros H. assert (is_absolute p = true) as Ha.
  { apply (leads_to_absolute p (rev ns)). unfold leads_to. by rewrite rev_involutive. }
  unfold components in H. rewrite Ha in H. cbn in H. injection H as H.
  apply Forall_forall. intros s Hs.
  assert (In (Normal s) (flat_map segment (split_on "/" p))) as Hin.
  { rewrite H. apply in_map. by apply list_elem_of_In. }
  apply in_flat_map in Hin as (w & Hw & Hn). apply list_elem_of_In, split_on_slashless in Hw.
  assert (segment w = [Normal s] ∧ w = s) as [E ->]; [|done].
  unfold segment in *. repeat case_decide; cbn in Hn; naive_solver.
Qed.

Lemma parent_leads_to p x st :
  leads_to p (x :: st) → ∃ q, parent p = Some q ∧ leads_to q st.
Proof.
  unfold leads_to. cbn [rev]. intros H. pose proof (components_names p _ H) as Hn. unfold parent. rewrite H.
  rewrite map_app, app_comm_cons. cbn [map]. rewrite last_snoc, removelast_last.
  eexists. split; [done|]. apply components_of_names. by apply Forall_app in Hn as [Hn _].
Qed.

(** Expanding, then walking. *)
Lemma expanded_walk home base p :
  walk (maybe_expand_home_directory home p) (walk base []) = destination home base p.
Proof.
  assert ((∀ h cs, (if valid_utf8 p then home else None) = Some h → components p ≠ Normal "~" :: cs) →
    destination home base p = walk p (walk base [])) as Hplain.
  { intros H. unfold destination. destruct (if valid_utf8 p then home else None) as [h|]; [|done].
    destruct (components p) as [|[| | |s] cs]; try done. case_decide; [|done]. subst. by destruct (H h cs). }
  unfold maybe_expand_home_directory.
  destruct (if valid_utf8 p then home else None) as [h|] eqn:Eh; [|symmetry; by apply Hplain].
  destruct (strip_prefix "~" p) as [rest|] eqn:Et.
  2: { symmetry. apply Hplain. intros h' cs _ E. apply components_first in E as [r ->].
       by rewrite strip_prefix_app in Et. }
  apply strip_prefix_Some in Et as ->. destruct rest as [|c rest].
  { unfold destination. rewrite Eh. done. }
  cbn [String.eqb]. destruct (strip_prefix "/" (String c rest)) as [r|] eqn:Er.
  - apply strip_prefix_Some in Er. rewrite Er in Eh |- *. rewrite walk_join, parts_trim by apply trim_relative.
    unfold destination. rewrite Eh, components_eq. fold (parts ("~" +:+ "/" +:+ r)).
    rewrite parts_slash. done.
  - symmetry. apply Hplain. intros h' cs _ E.
    destruct (split_on_cons_ne "/" rest) as (w & ws & Hs).
    assert (Ascii.eqb c "/" = false) as Hc
      by (cbn [strip_prefix] in Er; rewrite Ascii.eqb_sym; by destruct (Ascii.eqb "/" c)).
    change ("~" +:+ String c rest) with (String "~" (String c rest)) in E. unfold components in E.
    cbn [split_on] in E. rewrite Hc, Hs in E. done.
Qed.

(** * Properties *)

Section properties.
Context {A : Absolutize} (L : absolutize_laws A) (home : option string).

Lemma resolved_leads base p q :
  is_absolute base = true → resolve_path_against_base home p base = Ok q → leads_to q (destination home base p).
Proof. intros Hb Hq. rewrite <- expanded_walk. by apply (absolutize_from_law L). Qed.

End properties.

(** ** Examples *)

Module SampleAbsolutize.
Definition path_of (stack : list string) : string := of_components (RootDir :: map Normal (rev stack)).

#[export] Instance lexical : Absolutize := {|
  absolutize_from p base := Ok (path_of (walk p (walk base [])));
  absolutize p := Ok (path_of (walk p (walk "/work" [])));
|}.

Abbreviation good := (Forall (λ s, slashless s ∧ segment s = [Normal s])).

Lemma resolve_good p stack : good stack → good (walk p stack).
Proof.
  assert (good (omap (λ c, match c with Normal s => Some s | _ => None end) (components p))) as Hp.
  { apply Forall_forall. intros s (c & Hc & Hs)%list_elem_of_omap. destruct c; try done.
    injection Hs as ->. unfold components in Hc. apply elem_of_app in Hc as [Hc|Hc].
    { destruct (is_absolute p); [set_solver|]. destruct (split_on "/" p); [set_solver|].
      case_decide; set_solver. }
    apply list_elem_of_In, in_flat_map in Hc as (w & Hw & Hn).
    apply list_elem_of_In, split_on_slashless in Hw.
    assert (segment w = [Normal s] ∧ w = s) as [E ->]; [|done].
    unfold segment in *. repeat case_decide; cbn in Hn; naive_solver. }
  unfold walk, resolve. revert stack. induction (components p) as [|c cs IH]; intros stack Hs; [done|].
  cbn [foldl]. destruct c; cbn in Hp; try (by apply IH).
  - apply IH; [done|]. by destruct Hs.
  - apply Forall_cons in Hp as [Hn Hp]. apply IH; [done|]. by constructor.
Qed.

Lemma path_of_leads stack : good stack → leads_to (path_of stack) stack.
Proof. intros H. apply components_of_names. by apply List.Forall_rev. Qed.

Lemma lexical_laws : absolutize_laws lexical.
Proof.
  split.
  - intros p q Hp [= <-]. rewrite !walk_parts, Hp.
    assert (good (walk p [])) as Hg by apply resolve_good, Forall_nil_2.
    rewrite walk_parts, Hp in Hg. by apply path_of_leads.
  - intros p base q _ [= <-]. apply path_of_leads, resolve_good, resolve_good. constructor.
Qed.
End SampleAbsolutize.

#[local] Existing Instance SampleAbsolutize.lexical.


(** A second guard dropped inside a first leaves the thread without a base
    path: a relative path that the first guard resolved is then refused. *)
Example inner_guard_clears_base :
  let outer := guard_new "/a" None in
  let inner := guard_new "/b" outer in
  deserialize None outer "x" = Ok "/a/x" ∧
  deserialize None (guard_drop inner) "x" = Err "AbsolutePathBuf deserialized without a base path".
Proof. by vm_compute. Qed.

(** A home-relative path counts as relative. *)
Example home_path_needs_base :
  deserialize (Some "/home/u") None "~/x" = Err "AbsolutePathBuf deserialized without a base path" ∧
  deserialize (Some "/home/u") (Some "/w") "~/x" = Ok "/home/u/x".
Proof. by vm_compute. Qed.
