(* ===== verification/Calendar.v ===== *)
(** The date of a container's creation label ([iso_now] and [days_to_ymd] of
    [nexal-gateway/src/backend/podman.rs]) and the calendar it must agree with. *)
From S2P Require Import Prelude.
Open Scope Z_scope.

(** * The code *)

(** Days since 1970-01-01 to year, month and day.  Past the first line the
    numbers are bounded by those of one era, so only that line and the casts
    of the result can wrap; [/] on [i64] rounds towards zero, and so does that
    on [u64]. *)
(* @src crates/nexal-gateway/src/backend/podman.rs days_to_ymd *)
Definition days_to_ymd (days : Z) : Z * Z * Z :=
  let z := wrap_i64 (days + 719468) in
  let era := Z.quot (if 0 <=? z then z else z - 146096) 146097 in
  let doe := z - era * 146097 in
  let yoe := (doe - doe / 1460 + doe / 36524 - doe / 146096) / 365 in
  let y := yoe + era * 400 in
  let doy := doe - (365 * yoe + yoe / 4 - yoe / 100) in
  let mp := (5 * doy + 2) / 153 in
  let d := doy - (153 * mp + 2) / 5 + 1 in
  let m := if mp <? 10 then mp + 3 else mp - 9 in
  let y := if m <=? 2 then y + 1 else y in
  (wrap_i32 y, wrap_u32 m, wrap_u32 d).

(** [{z:0w}] of a number that is not negative. *)
Definition pad (w : nat) (z : Z) : string :=
  let digits := pretty z in
  String.concat "" (repeat "0"%string (w - String.length digits)) +:+ digits.

(** The text for a number of seconds since the epoch, a [u64]. *)
(* @src crates/nexal-gateway/src/backend/podman.rs iso_now *)
Definition iso_time (secs : Z) : string :=
  let days := secs / 86400 in
  let rem := secs mod 86400 in
  let h := rem / 3600 in
  let m := (rem mod 3600) / 60 in
  let s := rem mod 60 in
  let '(y, mo, d) := days_to_ymd days in
  pad 4 y +:+ "-" +:+ pad 2 mo +:+ "-" +:+ pad 2 d +:+ "T" +:+
  pad 2 h +:+ ":" +:+ pad 2 m +:+ ":" +:+ pad 2 s +:+ "Z".

(** * The calendar *)

Definition leap (y : Z) : bool :=
  (y mod 4 =? 0) && negb (y mod 100 =? 0) || (y mod 400 =? 0).

Definition month_days (y m : Z) : Z :=
  if m =? 2 then if leap y then 29 else 28
  else if (m =? 4) || (m =? 6) || (m =? 9) || (m =? 11) then 30 else 31.

Definition tomorrow (date : Z * Z * Z) : Z * Z * Z :=
  let '(y, m, d) := date in
  if d <? month_days y m then (y, m, d + 1)
  else if m <? 12 then (y, m + 1, 1) else (y + 1, 1, 1).

(** * Eras of 400 years that begin in March *)

(** The year of an era, of a day of the era; the first day of a year. *)
Definition year_of (doe : Z) : Z := (doe - doe / 1460 + doe / 36524 - doe / 146096) / 365.
Definition year_start (y : Z) : Z := 365 * y + y / 4 - y / 100.

(** Month, day and carry to the next year, of a day of such a year. *)
Definition month_day (doy : Z) : Z * Z * Z :=
  let mp := (5 * doy + 2) / 153 in
  let m := if mp <? 10 then mp + 3 else mp - 9 in
  (m, doy - (153 * mp + 2) / 5 + 1, if m <=? 2 then 1 else 0).

Definition civil_at (era doe : Z) : Z * Z * Z :=
  let y := year_of doe in
  let '(m, d, c) := month_day (doe - year_start y) in (y + era * 400 + c, m, d).

Definition zseq (n : nat) : list Z := map Z.of_nat (seq 0 n).

Lemma elem_of_zseq n z : 0 <= z < Z.of_nat n → z ∈ zseq n.
Proof.
  intros H. apply list_elem_of_fmap. exists (Z.to_nat z). split; [lia|].
  apply elem_of_seq. lia.
Qed.

(** A property of the numbers below [n], by evaluation. *)
Lemma forallb_zseq (f : Z → bool) n z : forallb f (zseq n) = true → 0 <= z < Z.of_nat n → f z = true.
Proof.
  intros Hf Hz. rewrite forallb_forall in Hf. apply Hf. apply list_elem_of_In. by apply elem_of_zseq.
Qed.

Lemma year_of_ends y :
  0 <= y < 400 → year_of (year_start y) = y ∧ year_of (year_start (y + 1) - 1) = y ∧
  0 <= year_start y ∧ year_start (y + 1) <= 146096 ∧
  year_start (y + 1) - year_start y = if leap (y + 1) && negb (y =? 399) then 366 else 365.
Proof.
  intros Hy.
  assert (forallb (λ y, (year_of (year_start y) =? y) && (year_of (year_start (y + 1) - 1) =? y) &&
    (0 <=? year_start y) && (year_start (y + 1) <=? 146096) &&
    (year_start (y + 1) - year_start y =? if leap (y + 1) && negb (y =? 399) then 366 else 365))
    (zseq 400) = true) as H by (vm_compute; reflexivity).
  apply (forallb_zseq _ _ y) in H; [|lia]. rewrite !andb_true_iff in H.
  rewrite !Z.eqb_eq, !Z.leb_le in H. tauto.
Qed.

Lemma year_of_mono a b : 0 <= a <= b → b <= 146095 → year_of a <= year_of b.
Proof.
  intros Hab Hb. unfold year_of. apply Z.div_le_mono; [lia|].
  assert (a / 146096 = 0) as -> by (apply Z.div_small; lia).
  assert (b / 146096 = 0) as -> by (apply Z.div_small; lia).
  assert (a / 36524 <= b / 36524) by (apply Z.div_le_mono; lia).
  assert (a - a / 1460 <= b - b / 1460) by (Z.to_euclidean_division_equations; lia). lia.
Qed.

(** The year of a day is the one it falls into. *)
Lemma year_of_in y doe : 0 <= y < 400 → year_start y <= doe < year_start (y + 1) → year_of doe = y.
Proof.
  intros Hy Hd. destruct (year_of_ends y Hy) as (E1 & E2 & H0 & H1 & _).
  pose proof (year_of_mono (year_start y) doe). pose proof (year_of_mono doe (year_start (y + 1) - 1)). lia.
Qed.

Lemma year_exists doe : 0 <= doe < 146096 → ∃ y, 0 <= y < 400 ∧ year_start y <= doe < year_start (y + 1).
Proof.
  intros Hd.
  assert (∀ k : nat, doe < year_start (Z.of_nat k) →
    ∃ y, 0 <= y < Z.of_nat k ∧ year_start y <= doe < year_start (y + 1)) as H.
  { induction k as [|k IH]; intros Hk; [change (year_start (Z.of_nat 0)) with 0 in Hk; lia|].
    destruct (Z_lt_le_dec doe (year_start (Z.of_nat k))) as [Hlt|Hge].
    - destruct (IH Hlt) as (y & ? & ?). exists y. lia.
    - exists (Z.of_nat k). replace (Z.of_nat k + 1) with (Z.of_nat (S k)) by lia. lia. }
  apply (H 400%nat). change (year_start (Z.of_nat 400)) with 146096. lia.
Qed.

(** * The next day *)

(** The day after a day of such a year, when that is not the last of February. *)
Definition next_ok (doy : Z) : bool :=
  let '(m, d, c) := month_day doy in let '(m', d', c') := month_day (doy + 1) in
  if d <? (if m =? 2 then 28 else month_days 0 m)
  then (m' =? m) && (d' =? d + 1) && (c' =? c)
  else negb (m =? 2) && (d' =? 1) &&
       (if m <? 12 then (m' =? m + 1) && (c' =? c) else (m' =? 1) && (c' =? c + 1)).

Lemma month_day_next doy y :
  0 <= doy <= 363 →
  let '(m, d, c) := month_day doy in let '(m', d', c') := month_day (doy + 1) in
  tomorrow (y + c, m, d) = (y + c', m', d').
Proof.
  intros Hd. assert (next_ok doy = true) as H.
  { apply (forallb_zseq next_ok 364); [vm_compute; reflexivity|lia]. }
  unfold next_ok in H.
  destruct (month_day doy) as [[m d] c], (month_day (doy + 1)) as [[m' d'] c'].
  unfold tomorrow, month_days in *.
  destruct (Z.eqb_spec m 2) as [->|Hm]; cbn in H.
  - destruct (Z.ltb_spec d 28) as [Hlt|]; [|done]. rewrite !andb_true_iff, !Z.eqb_eq in H.
    destruct H as [[-> ->] ->]. cbv iota. destruct (leap (y + c)); [|by rewrite (proj2 (Z.ltb_lt d 28))].
    by rewrite (proj2 (Z.ltb_lt d 29)) by lia.
  - destruct (d <? _).
    + rewrite !andb_true_iff, !Z.eqb_eq in H. by destruct H as [[-> ->] ->].
    + destruct (Z.ltb_spec m 12); cbn in H; rewrite !andb_true_iff, !Z.eqb_eq in H;
        destruct H as [-> [-> ->]]; f_equal; f_equal; lia.
Qed.

Lemma month_day_end : month_day 364 = (2, 28, 1) ∧ month_day 365 = (2, 29, 1) ∧ month_day 0 = (3, 1, 0).
Proof. by vm_compute. Qed.

Lemma leap_era y era : leap (y + era * 400) = leap y.
Proof.
  unfold leap. replace (y + era * 400) with (y + (era * 100) * 4) at 1 by lia.
  rewrite Z.mod_add by lia. replace (y + era * 400) with (y + (era * 4) * 100) at 1 by lia.
  by rewrite !Z.mod_add by lia.
Qed.

Lemma civil_at_next era doe : 0 <= doe < 146096 → tomorrow (civil_at era doe) = civil_at era (doe + 1).
Proof.
  intros Hd. destruct (year_exists doe Hd) as (y & Hy & Hin).
  destruct (year_of_ends y Hy) as (_ & E2 & H0 & H1 & Hlen).
  unfold civil_at. rewrite (year_of_in y doe) by done.
  destruct (Z_lt_le_dec (doe + 1) (year_start (y + 1))) as [Hlt|Hge].
  - (* the same year *)
    rewrite (year_of_in y (doe + 1)) by lia.
    replace (doe + 1 - year_start y) with (doe - year_start y + 1) by lia.
    destruct (Z_le_gt_dec (doe - year_start y) 363) as [Hle|Hgt].
    + pose proof (month_day_next (doe - year_start y) (y + era * 400)) as Hn.
      destruct (month_day (doe - year_start y)) as [[m d] c],
        (month_day (doe - year_start y + 1)) as [[m' d'] c']. apply Hn. lia.
    + destruct (leap (y + 1) && negb (y =? 399)) eqn:El; [|lia].
      replace (doe - year_start y) with 364 by lia. destruct month_day_end as (-> & E & _).
      change (364 + 1) with 365. rewrite E. apply andb_true_iff in El as [El _].
      unfold tomorrow, month_days. cbn [Z.eqb Pos.eqb].
      replace (y + era * 400 + 1) with (y + 1 + era * 400) by lia. by rewrite leap_era, El.
  - (* the first of March *)
    assert (doe + 1 = year_start (y + 1)) as E by lia.
    assert (doe - year_start y = 364 + if leap (y + 1) && negb (y =? 399) then 1 else 0) as Hdoy.
    { destruct (leap (y + 1) && negb (y =? 399)); lia. }
    destruct (Z.eq_dec y 399) as [->|Hne].
    + (* the day before the leap day that ends the era *)
      change (year_start (399 + 1)) with 146096 in *. replace doe with 146095 by lia.
      change (146095 - year_start 399) with 364. change (146095 + 1) with 146096.
      change (year_of 146096) with 399. change (146096 - year_start 399) with 365.
      destruct month_day_end as (-> & -> & _). unfold tomorrow, month_days. cbn [Z.eqb Pos.eqb].
      replace (399 + era * 400 + 1) with (400 + era * 400) by lia.
      rewrite leap_era. reflexivity.
    + rewrite E. destruct (year_of_ends (y + 1)) as (-> & _); [lia|]. rewrite Z.sub_diag.
      rewrite (proj2 (Z.eqb_neq y 399)) in Hdoy by done. rewrite andb_true_r in Hdoy. rewrite Hdoy.
      destruct month_day_end as (E1 & E3 & ->).
      assert (leap (y + era * 400 + 1) = leap (y + 1)) as El.
      { rewrite <-(leap_era (y + 1) era). f_equal. lia. }
      unfold tomorrow. destruct (leap (y + 1)).
      * change (364 + 1) with 365. rewrite E3. unfold month_days. rewrite El. cbn.
        f_equal. f_equal. lia.
      * change (364 + 0) with 364. rewrite E1. unfold month_days. rewrite El. cbn.
        f_equal. f_equal. lia.
Qed.

Lemma civil_at_next_era era : tomorrow (civil_at era 146096) = civil_at (era + 1) 0.
Proof.
  unfold civil_at. change (year_of 146096) with 399. change (146096 - year_start 399) with 365.
  change (year_of 0) with 0. change (0 - year_start 0) with 0.
  destruct month_day_end as (_ & -> & ->). unfold tomorrow, month_days. cbn [Z.eqb Pos.eqb].
  replace (399 + era * 400 + 1) with (400 + era * 400) by lia. rewrite leap_era.
  change (leap 400) with true. cbv iota. change (29 <? 29) with false. change (2 <? 12) with true.
  cbv iota. f_equal. f_equal. lia.
Qed.

(** * The code is the calendar *)

Definition month_day_ok (doy : Z) : bool :=
  let '(m, d, c) := month_day doy in
  (1 <=? m) && (m <=? 12) && (1 <=? d) && (d <=? 31) && (0 <=? c) && (c <=? 1).

Lemma civil_at_ranges era doe :
  0 <= doe <= 146096 →
  let '(y, m, d) := civil_at era doe in
  era * 400 <= y <= era * 400 + 400 ∧ 1 <= m <= 12 ∧ 1 <= d <= 31.
Proof.
  intros Hd.
  assert (∃ y, 0 <= y < 400 ∧ year_of doe = y ∧ 0 <= doe - year_start y <= 365) as (y & Hy & E & Hdoy).
  { destruct (Z.eq_dec doe 146096) as [->|Hne]; [exists 399; split; [lia|]; by vm_compute|].
    destruct (year_exists doe) as (y & Hy & Hin); [lia|]. exists y. split; [done|].
    split; [by apply year_of_in|].
    destruct (year_of_ends y Hy) as (_ & _ & _ & _ & Hlen).
    destruct (leap (y + 1) && negb (y =? 399)); lia. }
  unfold civil_at. rewrite E.
  assert (month_day_ok (doe - year_start y) = true) as H.
  { apply (forallb_zseq month_day_ok 366); [vm_compute; reflexivity|lia]. }
  unfold month_day_ok in H.
  destruct (month_day (doe - year_start y)) as [[m d] c].
  rewrite !andb_true_iff, !Z.leb_le in H. lia.
Qed.

Lemma days_to_ymd_civil n :
  - 7 * 10 ^ 11 <= n <= 7 * 10 ^ 11 →
  days_to_ymd n = civil_at ((n + 719468) / 146097) ((n + 719468) mod 146097).
Proof.
  intros Hn. unfold days_to_ymd. rewrite wrap_i64_small by lia. set (z := n + 719468).
  assert (Z.quot (if 0 <=? z then z else z - 146096) 146097 = z / 146097) as ->.
  { destruct (Z.leb_spec 0 z); Z.to_euclidean_division_equations; lia. }
  assert (z - z / 146097 * 146097 = z mod 146097) as -> by (Z.to_euclidean_division_equations; lia).
  assert (0 <= z mod 146097 <= 146096) as Hdoe by (pose proof (Z.mod_pos_bound z 146097); lia).
  pose proof (civil_at_ranges (z / 146097) _ Hdoe) as Hr.
  assert (-5 * 10 ^ 6 <= z / 146097 <= 5 * 10 ^ 6) by (Z.to_euclidean_division_equations; lia).
  unfold civil_at, month_day in *. fold (year_of (z mod 146097)).
  set (y := year_of (z mod 146097)) in *. fold (year_start y).
  set (doy := z mod 146097 - year_start y) in *. cbv zeta in *.
  set (m := if (5 * doy + 2) / 153 <? 10 then _ else _) in *.
  unfold wrap_u32. rewrite !Z.mod_small by lia. f_equal. f_equal.
  destruct (m <=? 2).
  - rewrite wrap_i32_small by lia. lia.
  - rewrite wrap_i32_small by lia. lia.
Qed.

(** C34: [days_to_ymd] is the Gregorian calendar: day 0 is the first of January
    1970, and the date of the next day is the next day of the calendar, months
    and leap years included, for almost two thousand million years either way. *)
Theorem days_to_ymd_calendar n :
  - 7 * 10 ^ 11 <= n < 7 * 10 ^ 11 →
  days_to_ymd 0 = (1970, 1, 1) ∧ days_to_ymd (n + 1) = tomorrow (days_to_ymd n).
Proof.
  intros Hn. split; [by vm_compute|]. rewrite !days_to_ymd_civil by lia.
  replace (n + 1 + 719468) with (n + 719468 + 1) by lia. set (z := n + 719468).
  pose proof (Z.mod_pos_bound z 146097) as Hb.
  destruct (Z.eq_dec (z mod 146097) 146096) as [E|Hne].
  - rewrite E, civil_at_next_era.
    assert ((z + 1) / 146097 = z / 146097 + 1 ∧ (z + 1) mod 146097 = 0) as [-> ->]; [|done].
    Z.to_euclidean_division_equations; lia.
  - rewrite civil_at_next by lia.
    assert ((z + 1) / 146097 = z / 146097 ∧ (z + 1) mod 146097 = z mod 146097 + 1) as [-> ->]; [|done].
    Z.to_euclidean_division_equations; lia.
Qed.

Lemma days_to_ymd_calendar_witness :
  days_to_ymd 0 = (1970, 1, 1) ∧ days_to_ymd (18321 + 1) = tomorrow (2020, 2, 29).
Proof. apply (days_to_ymd_calendar 18321). lia. Defined.

(** The text of a moment: the leap day of the year 2000, one second before noon. *)
Example iso_time_leap_day : iso_time (11016 * 86400 + 43199) = "2000-02-29T11:59:59Z".
Proof. by vm_compute. Qed.
