(* ===== verification/Wire.v ===== *)
(** The wire layer: MessagePack values and the RPC envelopes.

    [Value] has the constructors of [rmpv::Value] the sources build and match
    on.  The envelopes and their encoders follow the serde attributes of the
    structs ([with_struct_map]: a map with one entry per field, an
    [Option] field with [skip_serializing_if] left out when it is [None]).
    Decoding ([rmpv::ext::from_value]) is third-party code: it is the
    [FromValue] interface, and a theorem that needs it states what it uses. *)
From S2P Require Import Prelude.

(** * Values *)

Inductive Value : Type :=
  | VNil
  | VBool (b : bool)
  | VInt (n : Z)
  | VFloat (bits : Z)
  | VStr (s : string)
  | VBadStr (raw : bytes)
  | VBin (b : bytes)
  | VArray (vs : list Value)
  | VMap (kvs : list (Value * Value))
  | VExt (tag : Z) (b : bytes).

(** [Value::as_str]: [None] on anything but valid UTF-8 text. *)
Definition as_str (v : Value) : option string :=
  match v with VStr s => Some s | _ => None end.

(** [Value::as_map] *)
Definition as_map (v : Value) : option (list (Value * Value)) :=
  match v with VMap kvs => Some kvs | _ => None end.

(** [Value::as_u64] *)
Definition as_u64 (v : Value) : option Z :=
  match v with
  | VInt n => if decide (0 ≤ n < 2 ^ 64)%Z then Some n else None
  | _ => None
  end.

(** [Value::as_i64] *)
Definition as_i64 (v : Value) : option Z :=
  match v with
  | VInt n => if decide (- 2 ^ 63 ≤ n < 2 ^ 63)%Z then Some n else None
  | _ => None
  end.

(** serde's two directions, as the code uses them. *)
Class FromValue (T : Type) := from_value : Value → result T string.
Class ToValue (T : Type) := to_value : T → Value.

(** What a [Serialize]/[Deserialize] pair promises to its clients. *)
Class SerdeRoundtrip (T : Type) `{!FromValue T, !ToValue T} :=
  from_to_value : ∀ x : T, from_value (to_value x) = Ok x.

(** * Lookup in a map value *)

(* @src crates/utils/transport/src/lib.rs map_get *)
Definition map_get (value : Value) (key : string) : option Value :=
  m ← as_map value;
  find_map (λ kv : Value * Value,
              if decide (as_str kv.1 = Some key) then Some kv.2 else None) m.

(** * Envelopes of the transport crate *)

(* @src crates/utils/transport/src/lib.rs WireError *)
Record WireError := mkWireError {
  we_code : Z;
  we_message : string;
  we_data : option Value;
}.

(* @src crates/utils/transport/src/lib.rs WireRequest *)
Record WireRequest := mkWireRequest {
  wreq_stream : option string;
  wreq_id : Value;
  wreq_method : string;
  wreq_params : option Value;
}.

(* @src crates/utils/transport/src/lib.rs WireResponse *)
Record WireResponse := mkWireResponse {
  wresp_stream : option string;
  wresp_id : Value;
  wresp_result : option Value;
  wresp_error : option WireError;
}.

(* @src crates/utils/transport/src/lib.rs WireNotification *)
Record WireNotification := mkWireNotification {
  wnot_stream : option string;
  wnot_method : string;
  wnot_params : option Value;
}.

(* @src crates/utils/transport/src/lib.rs WireMessage *)
Inductive WireMessage :=
  | WRequest (r : WireRequest)
  | WResponse (r : WireResponse)
  | WNotification (n : WireNotification).

(* @src crates/utils/transport/src/lib.rs WireResponse::ok *)
Definition WireResponse_ok (id result : Value) : WireResponse :=
  mkWireResponse None id (Some result) None.

(* @src crates/utils/transport/src/lib.rs WireResponse::err *)
Definition WireResponse_err (id : Value) (code : Z) (message : string) : WireResponse :=
  mkWireResponse None id None (Some (mkWireError code message None)).

(* @src crates/utils/transport/src/lib.rs notification *)
Definition wire_notification (method : string) (params : option Value) : WireNotification :=
  mkWireNotification None method params.

(* @src crates/utils/transport/src/lib.rs method_not_found *)
Definition method_not_found (method : string) : WireError :=
  mkWireError (-32601) ("method not found: " +:+ method) None.

(** A field left out when it is [None]. *)
Definition opt_field (key : string) (v : option Value) : list (Value * Value) :=
  match v with Some v => [(VStr key, v)] | None => [] end.

(* @src crates/utils/transport/src/lib.rs WireError *)
#[export] Instance WireError_to_value : ToValue WireError := λ e,
  VMap ([(VStr "code", VInt (we_code e)); (VStr "message", VStr (we_message e))]
        ++ opt_field "data" (we_data e)).

(* @src crates/utils/transport/src/lib.rs WireRequest *)
#[export] Instance WireRequest_to_value : ToValue WireRequest := λ r,
  VMap (opt_field "stream" (VStr <$> wreq_stream r)
        ++ [(VStr "id", wreq_id r); (VStr "method", VStr (wreq_method r))]
        ++ opt_field "params" (wreq_params r)).

(* @src crates/utils/transport/src/lib.rs WireResponse *)
#[export] Instance WireResponse_to_value : ToValue WireResponse := λ r,
  VMap (opt_field "stream" (VStr <$> wresp_stream r)
        ++ [(VStr "id", wresp_id r)]
        ++ opt_field "result" (wresp_result r)
        ++ opt_field "error" (to_value <$> wresp_error r)).

(* @src crates/utils/transport/src/lib.rs WireNotification *)
#[export] Instance WireNotification_to_value : ToValue WireNotification := λ n,
  VMap (opt_field "stream" (VStr <$> wnot_stream n)
        ++ [(VStr "method", VStr (wnot_method n))]
        ++ opt_field "params" (wnot_params n)).

(** * Classifying an inbound frame *)

(** [result.expect(..)] *)
Definition expect {A E} (r : result A E) : outcome A :=
  match r with Ok a => Returns a | Err _ => Panics end.

Definition omap_outcome {A B} (f : A → B) (o : outcome A) : outcome B :=
  match o with Returns a => Returns (f a) | Panics => Panics end.

Section classify.
Context `{!FromValue WireRequest, !FromValue WireResponse, !FromValue WireNotification}.

(* @src crates/utils/transport/src/lib.rs value_to_wire_message *)
Definition value_to_wire_message (value : Value) : outcome WireMessage :=
  let has_id := bool_decide (is_Some (map_get value "id")) in
  let has_method := bool_decide (is_Some (map_get value "method")) in
  let has_result := bool_decide (is_Some (map_get value "result")) in
  let has_error := bool_decide (is_Some (map_get value "error")) in
  if has_id && has_method then
    omap_outcome WRequest (expect (from_value value))
  else if has_id && (has_result || has_error) then
    omap_outcome WResponse (expect (from_value value))
  else
    omap_outcome WNotification (expect (from_value value)).
End classify.

(** What the sender puts on the wire for a message. *)
Definition wire_value (m : WireMessage) : Value :=
  match m with
  | WRequest r => to_value r
  | WResponse r => to_value r
  | WNotification n => to_value n
  end.

(** Messages a peer of this code sends: a response has a result or an error. *)
Definition well_formed_message (m : WireMessage) : Prop :=
  match m with
  | WResponse r => is_Some (wresp_result r) ∨ is_Some (wresp_error r)
  | _ => True
  end.

(** * Envelopes of the gateway's frontend protocol *)

(* @src crates/nexal-gateway/src/protocol.rs JsonRpcRequest *)
Record JsonRpcRequest := mkJsonRpcRequest {
  jr_id : option Value;
  jr_method : string;
  jr_params : option Value;
}.

(* @src crates/nexal-gateway/src/protocol.rs JsonRpcError *)
Record JsonRpcError := mkJsonRpcError {
  je_code : Z;
  je_message : string;
  je_data : option Value;
}.

(* @src crates/nexal-gateway/src/protocol.rs JsonRpcResponse *)
Record JsonRpcResponse := mkJsonRpcResponse {
  js_id : Value;
  js_result : option Value;
  js_error : option JsonRpcError;
}.

(* @src crates/nexal-gateway/src/protocol.rs JsonRpcResponse::ok *)
Definition JsonRpcResponse_ok (id result : Value) : JsonRpcResponse :=
  mkJsonRpcResponse id (Some result) None.

(* @src crates/nexal-gateway/src/protocol.rs JsonRpcResponse::err *)
Definition JsonRpcResponse_err (id : Value) (code : Z) (message : string) : JsonRpcResponse :=
  mkJsonRpcResponse id None (Some (mkJsonRpcError code message None)).

(* @src crates/nexal-gateway/src/protocol.rs notification *)
Definition jsonrpc_notification (method : string) (params : Value) : JsonRpcRequest :=
  mkJsonRpcRequest None method (Some params).

(* @src crates/nexal-gateway/src/protocol.rs JsonRpcRequest *)
#[export] Instance JsonRpcRequest_to_value : ToValue JsonRpcRequest := λ r,
  VMap (opt_field "id" (jr_id r)
        ++ [(VStr "method", VStr (jr_method r))]
        ++ opt_field "params" (jr_params r)).

(* @src crates/nexal-gateway/src/protocol.rs JsonRpcError *)
#[export] Instance JsonRpcError_to_value : ToValue JsonRpcError := λ e,
  VMap ([(VStr "code", VInt (je_code e)); (VStr "message", VStr (je_message e))]
        ++ opt_field "data" (je_data e)).

(* @src crates/nexal-gateway/src/protocol.rs JsonRpcResponse *)
#[export] Instance JsonRpcResponse_to_value : ToValue JsonRpcResponse := λ r,
  VMap ([(VStr "id", js_id r)]
        ++ opt_field "result" (js_result r)
        ++ opt_field "error" (to_value <$> js_error r)).

Module error_code.
(* @src crates/nexal-gateway/src/protocol.rs PARSE_ERROR *)
Definition PARSE_ERROR : Z := -32700.
(* @src crates/nexal-gateway/src/protocol.rs INVALID_REQUEST *)
Definition INVALID_REQUEST : Z := -32600.
(* @src crates/nexal-gateway/src/protocol.rs METHOD_NOT_FOUND *)
Definition METHOD_NOT_FOUND : Z := -32601.
(* @src crates/nexal-gateway/src/protocol.rs INVALID_PARAMS *)
Definition INVALID_PARAMS : Z := -32602.
(* @src crates/nexal-gateway/src/protocol.rs INTERNAL_ERROR *)
Definition INTERNAL_ERROR : Z := -32603.
(* @src crates/nexal-gateway/src/protocol.rs NOT_AUTHENTICATED *)
Definition NOT_AUTHENTICATED : Z := -32000.
(* @src crates/nexal-gateway/src/protocol.rs AUTH_REJECTED *)
Definition AUTH_REJECTED : Z := -32001.
(* @src crates/nexal-gateway/src/protocol.rs UNKNOWN_AGENT *)
Definition UNKNOWN_AGENT : Z := -32010.
(* @src crates/nexal-gateway/src/protocol.rs BACKEND_ERROR *)
Definition BACKEND_ERROR : Z := -32020.
End error_code.

(** * Errors of the agent's channel *)

(* @src crates/nexal-agent/src/protocol/errors.rs ChannelErrorKind *)
Inductive ChannelErrorKind := Parse | InvalidRequest | MethodNotFound | InvalidParams | Internal.

#[export] Instance ChannelErrorKind_eq_dec : EqDecision ChannelErrorKind.
Proof. solve_decision. Defined.

(* @src crates/nexal-agent/src/protocol/errors.rs ChannelErrorKind::fmt *)
Definition ChannelErrorKind_to_string (k : ChannelErrorKind) : string :=
  match k with
  | Parse => "parse"
  | InvalidRequest => "invalid_request"
  | MethodNotFound => "method_not_found"
  | InvalidParams => "invalid_params"
  | Internal => "internal"
  end.

(* @src crates/nexal-agent/src/protocol/errors.rs ChannelError *)
Record ChannelError := mkChannelError {
  ce_kind : ChannelErrorKind;
  ce_message : string;
  ce_data : option Value;
}.

(* @src crates/nexal-agent/src/protocol/channel.rs invalid_request *)
Definition invalid_request (message : string) : ChannelError :=
  mkChannelError InvalidRequest message None.

(* @src crates/nexal-agent/src/protocol/channel.rs invalid_params *)
Definition invalid_params (message : string) : ChannelError :=
  mkChannelError InvalidParams message None.

(* @src crates/nexal-agent/src/protocol/channel.rs internal_error *)
Definition internal_error (message : string) : ChannelError :=
  mkChannelError Internal message None.

(** * Lemmas *)

Lemma map_get_cons_eq k v kvs : map_get (VMap ((VStr k, v) :: kvs)) k = Some v.
Proof. unfold map_get. simpl. by rewrite decide_True. Qed.

Lemma map_get_cons_ne k k' v kvs :
  k ≠ k' → map_get (VMap ((VStr k, v) :: kvs)) k' = map_get (VMap kvs) k'.
Proof. intros Hne. unfold map_get. simpl. rewrite decide_False; [done|congruence]. Qed.

Lemma map_get_nil k : map_get (VMap []) k = None.
Proof. done. Qed.

Lemma map_get_opt_ne k k' o kvs :
  k ≠ k' → map_get (VMap (opt_field k o ++ kvs)) k' = map_get (VMap kvs) k'.
Proof. intros. destruct o; simpl; [by apply map_get_cons_ne|done]. Qed.

Lemma map_get_opt_eq k o kvs :
  map_get (VMap kvs) k = None → map_get (VMap (opt_field k o ++ kvs)) k = o.
Proof. intros. destruct o; simpl; [by rewrite map_get_cons_eq|done]. Qed.

Lemma map_get_opt_last_eq k o : map_get (VMap (opt_field k o)) k = o.
Proof. destruct o; simpl; [by rewrite map_get_cons_eq|done]. Qed.

Lemma map_get_opt_last_ne k k' o :
  k ≠ k' → map_get (VMap (opt_field k o)) k' = None.
Proof. intros. destruct o; simpl; [by rewrite map_get_cons_ne|done]. Qed.

(** Compute a lookup in a literal map. *)
Ltac map_get_simpl :=
  repeat first
    [ rewrite map_get_cons_eq
    | rewrite map_get_cons_ne by done
    | rewrite map_get_opt_last_eq
    | rewrite map_get_opt_last_ne by done
    | rewrite map_get_nil
    | rewrite map_get_opt_ne by done
    | rewrite map_get_opt_eq by (simpl; map_get_simpl; done)
    | progress simpl app ].

(** * What classification guarantees *)

Lemma bool_decide_is_Some_None {A} : bool_decide (is_Some (None : option A)) = false.
Proof. apply bool_decide_eq_false_2. by intros []. Qed.

Section classify_facts.
Context `{!FromValue WireRequest, !FromValue WireResponse, !FromValue WireNotification}.

(** serde reads back this message. *)
Definition decodes (m : WireMessage) : Prop :=
  match m with
  | WRequest r => from_value (to_value r) = Ok r
  | WResponse r => from_value (to_value r) = Ok r
  | WNotification n => from_value (to_value n) = Ok n
  end.

(** An encoded message is classified by what it is; decoding decides the rest. *)
Lemma classify_wire_value m :
  well_formed_message m →
  value_to_wire_message (wire_value m) =
    match m with
    | WRequest r => omap_outcome WRequest (expect (from_value (to_value r)))
    | WResponse r => omap_outcome WResponse (expect (from_value (to_value r)))
    | WNotification n => omap_outcome WNotification (expect (from_value (to_value n)))
    end.
Proof.
  destruct m as [[st id me pa]|[st id re er]|[st me pa]]; cbn [wire_value];
    intros Hw; unfold value_to_wire_message;
    unfold to_value, WireRequest_to_value, WireResponse_to_value,
      WireNotification_to_value; cbn [wreq_stream wreq_id wreq_method wreq_params
      wresp_stream wresp_id wresp_result wresp_error wnot_stream wnot_method wnot_params].
  - by map_get_simpl.
  - map_get_simpl. cbn in Hw.
    destruct re as [re|]; cbn [fmap option_fmap option_map opt_field app];
      map_get_simpl; [done|].
    destruct er as [er|]; [|by destruct Hw as [[]|[]]].
    cbn [fmap option_fmap option_map opt_field app]. by map_get_simpl.
  - by map_get_simpl.
Qed.

(** A derived [Deserialize] of a struct with a mandatory [method] field
    rejects a map without it. *)
Definition requires_method : Prop :=
  ∀ kvs, map_get (VMap kvs) "method" = None →
  ∃ e, from_value (T := WireNotification) (VMap kvs) = Err e.

(** Every request, response and notification a peer encodes is classified
    as what it was and read back unchanged: [value_to_wire_message] inverts
    the encoders (a response must carry a result or an error). *)
Theorem wire_message_roundtrip m :
  well_formed_message m → decodes m →
  value_to_wire_message (wire_value m) = Returns m.
Proof.
  intros Hw Hd. rewrite classify_wire_value by done.
  destruct m; cbn [decodes] in Hd; by rewrite Hd.
Qed.

(** Classification is not total on what a peer can send: a map with
    neither a method nor an id paired with a result or an error (the empty
    map, or a response with neither field) makes [value_to_wire_message]
    panic, which aborts the process under the release profile. *)
Theorem undecodable_frame_panics kvs :
  requires_method →
  map_get (VMap kvs) "method" = None →
  map_get (VMap kvs) "id" = None ∨
    (map_get (VMap kvs) "result" = None ∧ map_get (VMap kvs) "error" = None) →
  value_to_wire_message (VMap kvs) = Panics.
Proof.
  intros Hr Hm Hi. destruct (Hr kvs Hm) as [e He].
  unfold value_to_wire_message. rewrite Hm.
  destruct Hi as [->|[-> ->]]; rewrite !(@bool_decide_is_Some_None Value);
    rewrite ?andb_false_r; cbn; by rewrite ?andb_false_r, He.
Qed.
End classify_facts.

(** ** Witnesses: the decoders serde derives, on the fields themselves *)

Module Derived.
Definition field_string (v : Value) (k : string) : result string string :=
  match map_get v k with
  | Some (VStr s) => Ok s
  | Some _ => Err "invalid type"
  | None => Err ("missing field " +:+ k)
  end.

Definition field_opt_string (v : Value) (k : string) : result (option string) string :=
  match map_get v k with
  | Some (VStr s) => Ok (Some s)
  | Some VNil | None => Ok None
  | Some _ => Err "invalid type"
  end.

Definition field_opt_value (v : Value) (k : string) : option Value :=
  match map_get v k with Some VNil | None => None | Some x => Some x end.

Definition error_of (v : Value) : result WireError string :=
  m ←? field_string v "message";
  match map_get v "code" with
  | Some (VInt n) => Ok (mkWireError n m (field_opt_value v "data"))
  | _ => Err "missing field code"
  end.

#[export] Instance WireRequest_from_value : FromValue WireRequest := λ v,
  st ←? field_opt_string v "stream";
  id ←? ok_or (map_get v "id") "missing field id";
  me ←? field_string v "method";
  Ok (mkWireRequest st id me (field_opt_value v "params")).

#[export] Instance WireResponse_from_value : FromValue WireResponse := λ v,
  st ←? field_opt_string v "stream";
  id ←? ok_or (map_get v "id") "missing field id";
  er ←? match map_get v "error" with
        | Some VNil | None => Ok None
        | Some e => res_map Some (error_of e)
        end;
  Ok (mkWireResponse st id (field_opt_value v "result") er).

#[export] Instance WireNotification_from_value : FromValue WireNotification := λ v,
  st ←? field_opt_string v "stream";
  me ←? field_string v "method";
  Ok (mkWireNotification st me (field_opt_value v "params")).

Lemma notification_requires_method : requires_method.
Proof.
  intros kvs H. unfold from_value, WireNotification_from_value, field_string.
  rewrite H. destruct (field_opt_string _ _); cbn; eauto.
Qed.
End Derived.

Definition sample_response : WireResponse :=
  mkWireResponse (Some "s1") (VInt 7) None (Some (method_not_found "nope")).

Lemma wire_message_roundtrip_witness :
  @value_to_wire_message Derived.WireRequest_from_value
    Derived.WireResponse_from_value Derived.WireNotification_from_value
    (wire_value (WResponse sample_response))
  = Returns (WResponse sample_response).
Proof.
  apply (@wire_message_roundtrip Derived.WireRequest_from_value
    Derived.WireResponse_from_value Derived.WireNotification_from_value).
  - right. by eexists.
  - vm_compute. reflexivity.
Defined.

Lemma undecodable_frame_panics_witness :
  @value_to_wire_message Derived.WireRequest_from_value
    Derived.WireResponse_from_value Derived.WireNotification_from_value (VMap [])
  = Panics.
Proof.
  apply (@undecodable_frame_panics Derived.WireRequest_from_value
    Derived.WireResponse_from_value Derived.WireNotification_from_value []).
  - apply Derived.notification_requires_method.
  - reflexivity.
  - left. reflexivity.
Defined.
