(* ===== verification/Serde.v ===== *)
(** The codecs serde derives for the program's message structs.

    A struct of the wire is declared with attributes; its shape, a [Ty], is
    read off the declaration (files [TransportDtos], [AgentDtos],
    [GatewayDtos]).  What [Serialize] and [Deserialize] do with a shape is
    serde's and rmp's documented behaviour: the interface [Serde] with its laws.
    [compat] decides whether what one shape writes another reads, and
    [convert] is what it reads. *)
From S2P Require Import Prelude Wire.
Open Scope nexal_scope.

(** * Shapes *)

(** [rename_all] *)
Inductive Rename := SnakeCase | CamelCase.

(** [skip_serializing_if] *)
Inductive Skip := Never | IfNone | IfEmpty | IfFalse.

Inductive Ty :=
  | TStr
  | TBool
  | TInt (lo hi : Z)
  | TBytes
  | TValue
  | TUnit
  | TAbs
  | TMap
  | TEnum (variants : list string)
  | TOpt (t : Ty)
  | TVec (t : Ty)
  | TStruct (r : Rename) (fields : list (string * Ty * bool * Skip)).

Abbreviation Field := (string * Ty * bool * Skip)%type.
Definition f_name (f : Field) : string := f.1.1.1.
Definition f_ty (f : Field) : Ty := f.1.1.2.
Definition f_default (f : Field) : bool := f.1.2.
Definition f_skip (f : Field) : Skip := f.2.

Definition TU16 : Ty := TInt 0 (2 ^ 16 - 1).
Definition TU64 : Ty := TInt 0 (2 ^ 64 - 1).
Definition TI32 : Ty := TInt (- 2 ^ 31) (2 ^ 31 - 1).
Definition TI64 : Ty := TInt (- 2 ^ 63) (2 ^ 63 - 1).

(** A plain field; one with [#[serde(default)]]; an optional one with
    [#[serde(default, skip_serializing_if = "Option::is_none")]]; one that is
    left out when empty. *)
Definition req (n : string) (t : Ty) : Field := (n, t, false, Never).
Definition dflt (n : string) (t : Ty) : Field := (n, t, true, Never).
Definition opt_skip (n : string) (t : Ty) : Field := (n, TOpt t, true, IfNone).
Definition skip_empty (n : string) (t : Ty) : Field := (n, t, true, IfEmpty).
Definition skip_false (n : string) : Field := (n, TBool, true, IfFalse).

(** Induction over shapes, with the shapes of the fields. *)
Section ty_ind.
Context (P : Ty → Prop).
Context (Hstr : P TStr) (Hbool : P TBool) (Hint : ∀ lo hi, P (TInt lo hi)) (Hbytes : P TBytes)
  (Hvalue : P TValue) (Hunit : P TUnit) (Habs : P TAbs) (Hmap : P TMap) (Henum : ∀ vs, P (TEnum vs))
  (Hopt : ∀ t, P t → P (TOpt t)) (Hvec : ∀ t, P t → P (TVec t))
  (Hstruct : ∀ r fs, Forall (λ f, P (f_ty f)) fs → P (TStruct r fs)).

Fixpoint ty_ind (t : Ty) : P t :=
  match t with
  | TStr => Hstr | TBool => Hbool | TInt lo hi => Hint lo hi | TBytes => Hbytes
  | TValue => Hvalue | TUnit => Hunit | TAbs => Habs | TMap => Hmap | TEnum vs => Henum vs
  | TOpt t => Hopt t (ty_ind t)
  | TVec t => Hvec t (ty_ind t)
  | TStruct r fs =>
      Hstruct r fs
        ((fix go (fs : list Field) : Forall (λ f, P (f_ty f)) fs :=
            match fs with
            | [] => Forall_nil_2 _
            | f :: fs =>
                Forall_cons_2 _ _ _
                  (match f as f return P (f_ty f) with (_, t, _, _) => ty_ind t end) (go fs)
            end) fs)
  end.
End ty_ind.

(** * Names on the wire *)

Definition to_ascii_uppercase (c : ascii) : ascii :=
  if is_ascii_lower c then ascii_of_N (code c - 32)%N else c.

(** Each letter after an underscore in upper case, without the underscores. *)
Fixpoint camel (up : bool) (s : string) : string :=
  match s with
  | EmptyString => EmptyString
  | String c s' =>
      if Ascii.eqb c "_" then camel true s'
      else String (if up then to_ascii_uppercase c else c) (camel false s')
  end.

(** The name of a field: fields are in snake case already. *)
Definition wire_name (r : Rename) (n : string) : string :=
  match r with SnakeCase => n | CamelCase => camel false n end.

(** A variant in snake case: its letters lowered, an underscore before each
    upper one but the first. *)
Fixpoint snake (first : bool) (s : string) : string :=
  match s with
  | EmptyString => EmptyString
  | String c s' =>
      (if is_ascii_upper c && negb first then String "_" else id)
        (String (to_ascii_lowercase c) (snake false s'))
  end.

Definition variant_name (v : string) : string := snake true v.

(** * Values of a shape *)

Inductive Datum :=
  | DStr (s : string)
  | DBool (b : bool)
  | DInt (n : Z)
  | DBytes (b : bytes)
  | DVal (v : Value)
  | DUnit
  | DMap (m : gmap string string)
  | DEnum (v : string)
  | DOpt (o : option Datum)
  | DVec (l : list Datum)
  | DStruct (l : list (string * Datum)).

(** The wire form can be nil. *)
Definition nullable (t : Ty) : bool :=
  match t with TOpt _ | TUnit | TValue => true | _ => false end.

(** A value has the shape.  [Some] of the nil value is left out: it is read
    back as [None]. *)
Fixpoint has_ty (t : Ty) (x : Datum) : bool :=
  match t, x with
  | TStr, DStr _ | TAbs, DStr _ | TBool, DBool _ | TBytes, DBytes _ | TValue, DVal _
  | TUnit, DUnit | TMap, DMap _ => true
  | TInt lo hi, DInt n => (lo <=? n)%Z && (n <=? hi)%Z
  | TEnum vs, DEnum v => bool_decide (v ∈ vs)
  | TOpt _, DOpt None => true
  | TOpt t, DOpt (Some y) => has_ty t y && match y with DVal VNil => false | _ => true end
  | TVec t, DVec l => forallb (has_ty t) l
  | TStruct _ fs, DStruct l =>
      (fix go (fs : list Field) (l : list (string * Datum)) : bool :=
         match fs, l with
         | [], [] => true
         | (n, t, _, _) :: fs, (m, y) :: l => String.eqb n m && has_ty t y && go fs l
         | _, _ => false
         end) fs l
  | _, _ => false
  end.

Definition skipped (s : Skip) (x : Datum) : bool :=
  match s, x with
  | IfNone, DOpt None => true
  | IfEmpty, DMap m => bool_decide (m = ∅)
  | IfEmpty, DVec [] => true
  | IfFalse, DBool false => true
  | _, _ => false
  end.

(** [Default::default] of the shapes that are defaulted. *)
Definition default_of (t : Ty) : option Datum :=
  match t with
  | TOpt _ => Some (DOpt None)
  | TMap => Some (DMap ∅)
  | TVec _ => Some (DVec [])
  | TBool => Some (DBool false)
  | _ => None
  end.

(** What stands for a field that is absent: an optional one is [None] with or
    without [default]. *)
Definition missing (f : Field) : option Datum :=
  if f_default f then default_of (f_ty f)
  else match f_ty f with TOpt _ => Some (DOpt None) | _ => None end.

(** [Iterator::collect] into a [Result]. *)
Definition collect_results {A B} (f : A → result B string) : list A → result (list B) string :=
  fix go l :=
    match l with
    | [] => Ok []
    | a :: l => b ←? f a; bs ←? go l; Ok (b :: bs)
    end.

(** * serde *)

Class Serde := {
  ser : Ty → Datum → Value;
  de : Ty → Value → result Datum string;
  (** the resolution of an [AbsolutePathBuf] as it is read *)
  absolute : string → result string string;
}.

Section serde.
Context {S : Serde}.

Fixpoint fields_out (r : Rename) (fs : list Field) (l : list (string * Datum)) : list (Value * Value) :=
  match fs, l with
  | f :: fs, (_, x) :: l =>
      (if skipped (f_skip f) x then [] else [(VStr (wire_name r (f_name f)), ser (f_ty f) x)])
      ++ fields_out r fs l
  | _, _ => []
  end.

(** One field of a map: unknown entries are passed over, an absent one is
    [missing]. *)
Definition field_in (r : Rename) (v : Value) (f : Field) : result (string * Datum) string :=
  match map_get v (wire_name r (f_name f)) with
  | Some w => x ←? de (f_ty f) w; Ok (f_name f, x)
  | None => x ←? ok_or (missing f) ("missing field " +:+ wire_name r (f_name f)); Ok (f_name f, x)
  end.

(** The documented data model: scalars as MessagePack scalars, [None] and [()]
    as nil, sequences as arrays, unit variants by name, structs and maps as
    maps.  A map with two entries of one name is refused, so the law on structs
    is for others. *)
Record serde_laws : Prop := {
  ser_str s : ser TStr (DStr s) = VStr s;
  de_str s : de TStr (VStr s) = Ok (DStr s);
  ser_abs s : ser TAbs (DStr s) = VStr s;
  de_abs s : de TAbs (VStr s) = res_map DStr (absolute s);
  ser_bool b : ser TBool (DBool b) = VBool b;
  de_bool b : de TBool (VBool b) = Ok (DBool b);
  ser_int lo hi n : ser (TInt lo hi) (DInt n) = VInt n;
  de_int lo hi n : (lo ≤ n ≤ hi)%Z → de (TInt lo hi) (VInt n) = Ok (DInt n);
  ser_bytes b : ser TBytes (DBytes b) = VBin b;
  de_bytes b : de TBytes (VBin b) = Ok (DBytes b);
  ser_value v : ser TValue (DVal v) = v;
  de_value v : de TValue v = Ok (DVal v);
  ser_unit : ser TUnit DUnit = VNil;
  de_unit : de TUnit VNil = Ok DUnit;
  ser_map m : ser TMap (DMap m) = VMap ((λ kv, (VStr kv.1, VStr kv.2)) <$> map_to_list m);
  de_map m : de TMap (VMap ((λ kv, (VStr kv.1, VStr kv.2)) <$> map_to_list m)) = Ok (DMap m);
  ser_enum vs v : ser (TEnum vs) (DEnum v) = VStr (variant_name v);
  de_enum vs v : v ∈ vs → NoDup (map variant_name vs) → de (TEnum vs) (VStr (variant_name v)) = Ok (DEnum v);
  ser_none t : ser (TOpt t) (DOpt None) = VNil;
  ser_some t x : ser (TOpt t) (DOpt (Some x)) = ser t x;
  de_none t : de (TOpt t) VNil = Ok (DOpt None);
  de_some t v : v ≠ VNil → de (TOpt t) v = res_map (λ x, DOpt (Some x)) (de t v);
  ser_vec t l : ser (TVec t) (DVec l) = VArray (map (ser t) l);
  de_vec t vs : de (TVec t) (VArray vs) = res_map DVec (collect_results (de t) vs);
  ser_struct r fs l : ser (TStruct r fs) (DStruct l) = VMap (fields_out r fs l);
  de_struct r fs kvs : NoDup kvs.*1 →
    de (TStruct r fs) (VMap kvs) = res_map DStruct (collect_results (field_in r (VMap kvs)) fs);
}.
End serde.
#[global] Arguments serde_laws : clear implicits.

(** * Reading one shape as another *)

(** A writer's skipped field is what the reader takes for an absent one. *)
Definition skip_ok (reader writer : Field) : bool :=
  match f_skip writer, f_ty reader, f_ty writer with
  | Never, _, _ => true
  | IfNone, TOpt _, TOpt _ => true
  | IfEmpty, TMap, TMap => f_default reader
  | IfEmpty, TVec _, TVec _ => f_default reader
  | IfFalse, TBool, TBool => f_default reader
  | _, _, _ => false
  end.

Definition wire_names (r : Rename) (fs : list Field) : list string := map (λ f, wire_name r (f_name f)) fs.

Definition find_field (r : Rename) (k : string) (fs : list Field) : option Field :=
  List.find (λ f, String.eqb (wire_name r (f_name f)) k) fs.

Definition is_value (t : Ty) : bool := match t with TValue => true | _ => false end.

(** Everything the second shape writes, the first reads, but for paths that
    cannot be resolved. *)
Fixpoint compat (r w : Ty) {struct r} : bool :=
  match r, w with
  | TStr, TStr | TStr, TAbs | TAbs, TStr | TAbs, TAbs | TBool, TBool | TBytes, TBytes
  | TValue, TValue | TUnit, TUnit | TMap, TMap => true
  | TInt lo hi, TInt lo' hi' => (lo <=? lo')%Z && (hi' <=? hi)%Z
  | TEnum vs, TEnum ws => bool_decide (NoDup (map variant_name vs)) && bool_decide (ws ⊆ vs)
  | TOpt r, TOpt w => compat r w && (negb (nullable w) || is_value w)
  | TOpt r, w => compat r w && negb (nullable w)
  | TVec r, TVec w => compat r w
  | TStruct rr rfs, TStruct wr wfs =>
      bool_decide (NoDup (wire_names wr wfs)) &&
      forallb (λ f : Field,
        match f with
        | (n, t, d, s) =>
            match find_field wr (wire_name rr n) wfs with
            | Some g => compat t (f_ty g) && skip_ok (n, t, d, s) g
            | None => bool_decide (is_Some (missing (n, t, d, s)))
            end
        end) rfs
  | _, _ => false
  end.

(** A field of a struct value by its name on the wire. *)
Fixpoint field_of (r : Rename) (k : string) (fs : list Field) (l : list (string * Datum))
    : option (Field * Datum) :=
  match fs, l with
  | f :: fs, (_, x) :: l =>
      if String.eqb (wire_name r (f_name f)) k then Some (f, x) else field_of r k fs l
  | _, _ => None
  end.

(** What the reader makes of a value of the writer's: each field it knows by
    its name, [missing] for the others. *)
Fixpoint convert {S : Serde} (r w : Ty) (x : Datum) {struct r} : result Datum string :=
  match r, w, x with
  | TAbs, _, DStr s => res_map DStr (absolute s)
  | TOpt r, TOpt w, DOpt None => Ok (DOpt None)
  | TOpt r, TOpt w, DOpt (Some y) => res_map (λ z, DOpt (Some z)) (convert r w y)
  | TOpt r, w, x => res_map (λ z, DOpt (Some z)) (convert r w x)
  | TVec r, TVec w, DVec l => res_map DVec (collect_results (convert r w) l)
  | TStruct rr rfs, TStruct wr wfs, DStruct l =>
      res_map DStruct
        (collect_results (λ f : Field,
           match f with
           | (n, t, d, s) =>
               match field_of wr (wire_name rr n) wfs l with
               | Some (g, y) => z ←? convert t (f_ty g) y; Ok (n, z)
               | None => Ok (n, default DUnit (missing (n, t, d, s)))
               end
           end) rfs)
  | _, _, x => Ok x
  end.

(** The writer's fields the reader passes over. *)
Definition dropped (r w : Ty) : list string :=
  match r, w with
  | TStruct rr rfs, TStruct wr wfs =>
      List.filter (λ n, negb (bool_decide (n ∈ wire_names rr rfs))) (wire_names wr wfs)
  | _, _ => []
  end.

(** * Lemmas *)

Lemma collect_results_ext {A B} (f g : A → result B string) l :
  Forall (λ a, f a = g a) l → collect_results f l = collect_results g l.
Proof. induction 1 as [|a l Ha _ IH]; [done|]. cbn. by rewrite Ha, IH. Qed.

Lemma collect_results_map {A B C} (f : B → result C string) (g : A → B) l :
  collect_results f (map g l) = collect_results (λ a, f (g a)) l.
Proof. induction l as [|a l IH]; [done|]. cbn. by rewrite IH. Qed.

Fixpoint has_fields (fs : list Field) (l : list (string * Datum)) : bool :=
  match fs, l with
  | [], [] => true
  | f :: fs, (m, y) :: l => String.eqb (f_name f) m && has_ty (f_ty f) y && has_fields fs l
  | _, _ => false
  end.

Lemma has_ty_struct r fs l : has_ty (TStruct r fs) (DStruct l) = has_fields fs l.
Proof.
  revert l. induction fs as [|[[[n t] d] s] fs IH]; intros [|[m y] l]; try done.
  cbn in *. by rewrite <- IH.
Qed.

Lemma field_of_find r k fs l :
  has_fields fs l = true →
  match find_field r k fs with
  | Some g => ∃ y, field_of r k fs l = Some (g, y) ∧ has_ty (f_ty g) y = true
  | None => field_of r k fs l = None
  end.
Proof.
  revert l. induction fs as [|f fs IH]; intros [|[m y] l]; try done. cbn [has_fields].
  intros [[_ Hy]%andb_prop Hl]%andb_prop. unfold find_field. cbn [List.find field_of].
  destruct (String.eqb _ k); [eauto|]. by apply IH.
Qed.

Lemma field_of_name r k fs l gy : field_of r k fs l = Some gy → k ∈ wire_names r fs.
Proof.
  revert l. induction fs as [|f fs IH]; intros [|[m y] l] E; try done. cbn in E.
  destruct (String.eqb_spec (wire_name r (f_name f)) k) as [<-|_]; [left|].
  right. by eapply IH.
Qed.

Section read_back.
Context {S : Serde}.

Lemma fields_out_keys r fs l k :
  k ∈ (fields_out r fs l).*1 → ∃ n, k = VStr n ∧ n ∈ wire_names r fs.
Proof.
  revert l. induction fs as [|f fs IH]; intros [|[m y] l]; cbn; try set_solver.
  rewrite fmap_app. intros [H|H]%elem_of_app.
  - destruct (skipped _ _); [set_solver|]. cbn in H. apply list_elem_of_singleton in H as ->.
    eexists. split; [done|]. left.
  - apply IH in H as (n & -> & Hn). eexists. split; [done|]. by right.
Qed.

Lemma fields_out_NoDup r fs l : NoDup (wire_names r fs) → NoDup (fields_out r fs l).*1.
Proof.
  revert l. induction fs as [|f fs IH]; intros [|[m y] l] H; try constructor.
  cbn in H. apply NoDup_cons in H as [Hn H]. cbn [fields_out]. rewrite fmap_app.
  destruct (skipped _ _); [by apply IH|]. cbn. constructor; [|by apply IH].
  intros (n & [= <-] & Hk)%fields_out_keys. done.
Qed.

Lemma map_get_fields_out r fs l k :
  NoDup (wire_names r fs) →
  map_get (VMap (fields_out r fs l)) k =
  match field_of r k fs l with
  | Some (g, y) => if skipped (f_skip g) y then None else Some (ser (f_ty g) y)
  | None => None
  end.
Proof.
  revert l. induction fs as [|f fs IH]; intros [|[m y] l] H; try done.
  cbn in H. apply NoDup_cons in H as [Hn H]. cbn [fields_out field_of].
  destruct (String.eqb_spec (wire_name r (f_name f)) k) as [<-|Hk].
  - destruct (skipped (f_skip f) y); cbn [app]; [|apply map_get_cons_eq].
    rewrite IH by done. destruct (field_of r _ fs l) as [[g z]|] eqn:E; [|done].
    exfalso. by apply field_of_name in E.
  - destruct (skipped (f_skip f) y); cbn [app]; [by apply IH|].
    rewrite map_get_cons_ne by done. by apply IH.
Qed.

Context (L : serde_laws S).

Lemma ser_not_nil w x :
  has_ty w x = true → (negb (nullable w) || is_value w && match x with DVal VNil => false | _ => true end) = true →
  ser w x ≠ VNil.
Proof.
  destruct w, x; try done; cbn [nullable is_value negb orb andb]; intros H Hn;
    rewrite ?(ser_str L), ?(ser_abs L), ?(ser_bool L), ?(ser_int L), ?(ser_bytes L), ?(ser_value L),
      ?(ser_map L), ?(ser_enum L), ?(ser_vec L), ?(ser_struct L); try done.
  by destruct v.
Qed.

(** A skipped value is read as what stands for an absent field. *)
Lemma skipped_missing f g y :
  skip_ok f g = true → skipped (f_skip g) y = true → has_ty (f_ty g) y = true →
  ∃ z, missing f = Some z ∧ convert (f_ty f) (f_ty g) y = Ok z.
Proof.
  unfold skip_ok, missing. destruct f as [[[n t] d] s], g as [[[m u] e] s'].
  cbn [f_skip f_ty f_default fst snd]. destruct s'; cbn [skipped]; [done| | |].
  - destruct t; try done. destruct u; try done. destruct y as [| | | | | | | |[]| |]; try done.
    intros _ _ _. exists (DOpt None). by destruct d.
  - destruct t; try done; destruct u; try done; intros ->; destruct y; try done.
    + intros ->%bool_decide_eq_true _. by eexists.
    + destruct l; [|done]. intros _ _. by eexists.
  - destruct t; try done; destruct u; try done. intros ->. destruct y as [|[]| | | | | | | | |]; try done.
    by eexists.
Qed.

(** The struct case, for fields that read back. *)
Lemma read_back_struct rr rfs wr wfs l :
  compat (TStruct rr rfs) (TStruct wr wfs) = true → has_fields wfs l = true →
  Forall (λ f, ∀ w x, compat (f_ty f) w = true → has_ty w x = true →
                 de (f_ty f) (ser w x) = convert (f_ty f) w x) rfs →
  de (TStruct rr rfs) (ser (TStruct wr wfs) (DStruct l))
  = convert (TStruct rr rfs) (TStruct wr wfs) (DStruct l).
Proof.
  cbn [compat]. intros [Hd Hc]%andb_prop Hl HF. apply bool_decide_eq_true in Hd.
  rewrite (ser_struct L), (de_struct L) by (by apply fields_out_NoDup).
  cbn [convert]. f_equal. apply collect_results_ext. rewrite forallb_forall in Hc.
  rewrite Forall_forall in HF. apply Forall_forall. intros f Hf.
  specialize (HF f Hf). apply list_elem_of_In, Hc in Hf. clear Hc. destruct f as [[[n t] d] s].
  unfold field_in. rewrite map_get_fields_out by done. cbn [f_name f_ty fst snd] in *.
  pose proof (field_of_find wr (wire_name rr n) wfs l Hl) as Hfind.
  destruct (find_field wr (wire_name rr n) wfs) as [g|].
  - destruct Hfind as (y & -> & Hy). apply andb_prop in Hf as [Hc Hs].
    destruct (skipped (f_skip g) y) eqn:Ek.
    + destruct (skipped_missing _ _ _ Hs Ek Hy) as (z & -> & Hz). cbn [f_ty fst snd] in Hz. by rewrite Hz.
    + by rewrite HF.
  - rewrite Hfind. apply bool_decide_eq_true in Hf as [z ->]. done.
Qed.

Lemma read_back_map m :
  de TMap (ser TMap (DMap m)) = Ok (DMap m).
Proof. by rewrite (ser_map L), (de_map L). Qed.

(** What a shape writes, a compatible one reads as [convert] says. *)
Lemma read_back r w x : compat r w = true → has_ty w x = true → de r (ser w x) = convert r w x.
Proof.
  revert w x. induction r as [| |lo hi| | | | | |vs|r IH|r IH|rr rfs IH] using ty_ind; intros w x Hc Hx.
  - destruct w; try done; destruct x; try done; by rewrite ?(ser_str L), ?(ser_abs L), (de_str L).
  - destruct w; try done; destruct x; try done. by rewrite (ser_bool L), (de_bool L).
  - destruct w; try done; destruct x; try done. rewrite (ser_int L), (de_int L); [done|].
    cbn in Hc, Hx. lia.
  - destruct w; try done; destruct x; try done. by rewrite (ser_bytes L), (de_bytes L).
  - destruct w; try done; destruct x; try done. by rewrite (ser_value L), (de_value L).
  - destruct w; try done; destruct x; try done. by rewrite (ser_unit L), (de_unit L).
  - destruct w; try done; destruct x; try done; by rewrite ?(ser_str L), ?(ser_abs L), (de_abs L).
  - destruct w; try done; destruct x; try done. apply read_back_map.
  - destruct w; try done; destruct x; try done. cbn in Hc, Hx. apply andb_prop in Hc as [Hn Hs].
    apply bool_decide_eq_true in Hn, Hs, Hx. rewrite (ser_enum L), (de_enum L); auto.
  - assert (∀ y, (negb (nullable w) || is_value w && match y with DVal VNil => false | _ => true end) = true →
              compat r w = true → has_ty w y = true →
              de (TOpt r) (ser w y) = res_map (λ z, DOpt (Some z)) (convert r w y)) as Hy.
    { intros y Hn Hr Ht. rewrite (de_some L) by (by eapply ser_not_nil). by rewrite IH. }
    destruct w; cbn [compat] in Hc; try (apply andb_prop in Hc as [Hc Hn]);
      try (rewrite Hy by (done || by rewrite ?Hn); by destruct x).
    clear Hy. destruct x as [| | | | | | | |[y|]| |]; try done.
    + cbn in Hx. apply andb_prop in Hx as [Hx Hv]. rewrite (ser_some L), (de_some L); [by rewrite IH|].
      apply ser_not_nil; [done|]. rewrite Hv, andb_true_r. done.
    + by rewrite (ser_none L), (de_none L).
  - destruct w; try done; destruct x; try done. cbn in Hc, Hx.
    rewrite (ser_vec L), (de_vec L), collect_results_map. cbn [convert]. f_equal.
    apply collect_results_ext, Forall_forall. intros y Hy. apply IH; [done|].
    rewrite forallb_forall in Hx. by apply Hx, list_elem_of_In.
  - destruct w; try done; destruct x; try done. rewrite has_ty_struct in Hx.
    by apply read_back_struct.
Qed.
End read_back.

(** A shape whose values read back as they are. *)
Fixpoint plain (t : Ty) : bool :=
  match t with
  | TAbs => false
  | TOpt t | TVec t => plain t
  | TStruct _ fs => forallb (λ f : Field, match f with (_, t, _, _) => plain t end) fs
  | _ => true
  end.

Lemma collect_results_id {A} (f : A → result A string) l :
  Forall (λ a, f a = Ok a) l → collect_results f l = Ok l.
Proof. induction 1 as [|a l Ha _ IH]; [done|]. cbn. by rewrite Ha, IH. Qed.

Lemma collect_results_Forall2 {A B} (f : A → result B string) l k :
  Forall2 (λ a b, f a = Ok b) l k → collect_results f l = Ok k.
Proof. induction 1 as [|a b l k Ha _ IH]; [done|]. cbn. by rewrite Ha, IH. Qed.

(** Each field of a struct is found under its own name. *)
Lemma fields_found r fs l :
  NoDup (wire_names r fs) → has_fields fs l = true →
  Forall2 (λ f ny, f ∈ fs ∧ ny.1 = f_name f ∧ has_ty (f_ty f) ny.2 = true ∧
                   field_of r (wire_name r (f_name f)) fs l = Some (f, ny.2)) fs l.
Proof.
  revert l. induction fs as [|f fs IH]; intros [|[m y] l] Hn Hl; try done.
  cbn [has_fields] in Hl. apply andb_prop in Hl as [[Hm Hy]%andb_prop Hl].
  apply String.eqb_eq in Hm. cbn in Hn. apply NoDup_cons in Hn as [Hf Hn]. constructor.
  - cbn [fst snd field_of]. rewrite String.eqb_refl. split_and!; [left|done|done|done].
  - eapply Forall2_impl; [by apply IH|]. intros g ny (Hg & Hny & Ht & Hfo).
    split_and!; [by right|done|done|]. cbn [field_of].
    destruct (String.eqb_spec (wire_name r (f_name f)) (wire_name r (f_name g))) as [E|_]; [|done].
    destruct Hf. rewrite E. by eapply field_of_name.
Qed.

Lemma convert_self {S : Serde} t x :
  plain t = true → compat t t = true → has_ty t x = true → convert t t x = Ok x.
Proof.
  revert x. induction t as [| | | | | | | | |t IH|t IH|r fs IH] using ty_ind; intros x Hp Hc Hx;
    destruct x as [| | | | | | | |[y|]|l|l]; try done.
  - cbn in *. apply andb_prop in Hx as [Hx _], Hc as [Hc _]. by rewrite IH.
  - cbn in *. rewrite collect_results_id; [done|]. apply Forall_forall. intros y Hy.
    apply IH; [done|done|]. rewrite forallb_forall in Hx. by apply Hx, list_elem_of_In.
  - rewrite has_ty_struct in Hx. cbn [compat] in Hc. apply andb_prop in Hc as [Hn Hc].
    apply bool_decide_eq_true in Hn. cbn [convert].
    rewrite (collect_results_Forall2 _ fs l); [done|].
    eapply Forall2_impl; [by apply fields_found|]. intros f [m y] (Hf & Hm & Hy & Hfo).
    rewrite Forall_forall in IH. specialize (IH f Hf y).
    cbn [plain] in Hp. rewrite forallb_forall in Hp, Hc.
    apply list_elem_of_In in Hf. specialize (Hp _ Hf). specialize (Hc _ Hf).
    destruct f as [[[n t] d] s]. cbn [f_name f_ty fst snd] in *. rewrite Hfo.
    cbn [f_ty fst snd]. rewrite IH; [by subst|done| |done].
    pose proof (field_of_find r (wire_name r n) fs l Hx) as Hfind.
    destruct (find_field r (wire_name r n) fs) as [g|]; [|congruence].
    destruct Hfind as (z & Hz & _). rewrite Hfo in Hz. injection Hz as <- _.
    by apply andb_prop in Hc as [Hc _].
Qed.

(** What a plain shape writes, it reads back. *)
Lemma derived_roundtrip {S : Serde} (L : serde_laws S) t x :
  plain t = true → compat t t = true → has_ty t x = true → de t (ser t x) = Ok x.
Proof. intros Hp Hc Hx. rewrite read_back by done. by apply convert_self. Qed.

Lemma collect_results_total {A B} (f : A → result B string) (P : A → B → Prop) l :
  Forall (λ a, ∃ b, f a = Ok b ∧ P a b) l → ∃ k, collect_results f l = Ok k ∧ Forall2 P l k.
Proof.
  induction 1 as [|a l (b & Hb & HP) _ (k & Hk & HF)]; [by exists []|].
  exists (b :: k). cbn. rewrite Hb, Hk. split; [done|by constructor].
Qed.

Lemma missing_has_ty f z : missing f = Some z → has_ty (f_ty f) z = true.
Proof.
  unfold missing. destruct f as [[[n t] d] s]. cbn. destruct d, t; intros [= <-]; done.
Qed.

Lemma has_fields_Forall2 fs l :
  Forall2 (λ f (ny : string * Datum), f_name f = ny.1 ∧ has_ty (f_ty f) ny.2 = true) fs l →
  has_fields fs l = true.
Proof.
  induction 1 as [|f [m y] fs l [Hm Hy] _ IH]; [done|]. cbn in *.
  by rewrite Hm, String.eqb_refl, Hy.
Qed.

(** A compatible shape without paths reads everything the other writes, as a
    value of its own. *)
Lemma convert_total {S : Serde} r w x :
  plain r = true → compat r w = true → has_ty w x = true →
  ∃ z, convert r w x = Ok z ∧ has_ty r z = true ∧ (negb (nullable w) = true → z ≠ DVal VNil) ∧
       (is_value w = true → z = x).
Proof.
  revert w x. induction r as [| |lo hi| | | | | |vs|r IH|r IH|rr rfs IH] using ty_ind; intros w x Hp Hc Hx;
    try (destruct w; try done; destruct x; try done; eexists; split_and!; done).
  - destruct w; try done; destruct x; try done. eexists; split_and!; try done. cbn in *. lia.
  - destruct w; try done; destruct x; try done. cbn in *. eexists; split_and!; try done. cbn.
    apply andb_prop in Hc as [_ Hs]. apply bool_decide_eq_true in Hs, Hx. apply bool_decide_eq_true. by apply Hs.
  - assert (∀ y, negb (nullable w) = true → compat r w = true → has_ty w y = true →
              ∃ z, res_map (λ z, DOpt (Some z)) (convert r w y) = Ok z ∧ has_ty (TOpt r) z = true ∧
                   z ≠ DVal VNil) as Hy.
    { intros y Hn Hr Ht. destruct (IH w y Hp Hr Ht) as (z & -> & Hz & Hnz & _).
      eexists. split; [reflexivity|]. split; [|done]. cbn. rewrite Hz. specialize (Hnz Hn).
      destruct z as [| | | |[]| | | | | |]; done. }
    destruct w; cbn [compat] in Hc; apply andb_prop in Hc as [Hc Hn];
      try (destruct (Hy x Hn Hc Hx) as (z & Hz & ? & ?); exists z; split_and!; try done; by destruct x).
    clear Hy. destruct x as [| | | | | | | |[y|]| |]; try done; [|by eexists].
    cbn in Hx. apply andb_prop in Hx as [Hx Hv].
    destruct (IH w y Hp Hc Hx) as (z & Hz & Hzt & Hnz & Hval). cbn [convert]. rewrite Hz.
    eexists. split_and!; [reflexivity| |done|done]. cbn. rewrite Hzt. cbn.
    apply orb_prop in Hn as [Hn|Hn]; [specialize (Hnz Hn); by destruct z as [| | | |[]| | | | | |]|].
    by rewrite (Hval Hn).
  - destruct w; try done; destruct x; try done. cbn in Hc, Hx. rewrite forallb_forall in Hx.
    destruct (collect_results_total (convert r w) (λ _ z, has_ty r z = true) l) as (k & Hk & HF).
    { apply Forall_forall. intros y Hy. destruct (IH w y Hp Hc) as (z & ? & ? & _); [|by exists z].
      by apply Hx, list_elem_of_In. }
    exists (DVec k). cbn [convert]. rewrite Hk. split_and!; try done. cbn.
    apply forallb_forall. intros z Hz. clear -HF Hz.
    induction HF as [|y z' l k Hy _ IH]; [done|]. destruct Hz as [<-|Hz]; auto.
  - destruct w as [| | | | | | | | | | |wr wfs]; try done; destruct x; try done.
    rewrite has_ty_struct in Hx. cbn [compat] in Hc. apply andb_prop in Hc as [Hn Hc].
    cbn [plain] in Hp. rewrite forallb_forall in Hp, Hc. rewrite Forall_forall in IH. cbn [convert].
    match goal with
    | |- context [collect_results ?f rfs] =>
        destruct (collect_results_total f
          (λ g (ny : string * Datum), f_name g = ny.1 ∧ has_ty (f_ty g) ny.2 = true) rfs)
          as (k & Hk & HF); [|rewrite Hk; exists (DStruct k); split_and!; try done]
    end.
    2: { rewrite has_ty_struct. by apply has_fields_Forall2. }
    apply Forall_forall. intros f Hf. specialize (IH f Hf). apply list_elem_of_In in Hf.
    specialize (Hp _ Hf). specialize (Hc _ Hf). destruct f as [[[n t] d] s]. cbn [f_name f_ty fst snd] in *.
    pose proof (field_of_find wr (wire_name rr n) wfs l Hx) as Hfind.
    destruct (find_field wr (wire_name rr n) wfs) as [g|].
    + destruct Hfind as (y & -> & Hy). apply andb_prop in Hc as [Hc _].
      destruct (IH (f_ty g) y Hp Hc Hy) as (z & -> & Hz & _). by eexists.
    + rewrite Hfind. apply bool_decide_eq_true in Hc as [z Hz]. rewrite Hz.
      apply missing_has_ty in Hz. by eexists.
Qed.

(** ** An instance *)

Module SampleSerde.
Fixpoint to (t : Ty) (x : Datum) : Value :=
  match t, x with
  | TStr, DStr s | TAbs, DStr s => VStr s
  | TBool, DBool b => VBool b
  | TInt _ _, DInt n => VInt n
  | TBytes, DBytes b => VBin b
  | TValue, DVal v => v
  | TMap, DMap m => VMap ((λ kv, (VStr kv.1, VStr kv.2)) <$> map_to_list m)
  | TEnum _, DEnum v => VStr (variant_name v)
  | TOpt t, DOpt (Some y) => to t y
  | TVec t, DVec l => VArray (map (to t) l)
  | TStruct r fs, DStruct l =>
      VMap ((fix go (fs : list Field) (l : list (string * Datum)) : list (Value * Value) :=
               match fs, l with
               | (n, t, _, s) :: fs, (_, y) :: l =>
                   (if skipped s y then [] else [(VStr (wire_name r n), to t y)]) ++ go fs l
               | _, _ => []
               end) fs l)
  | _, _ => VNil
  end.

Definition pair_of (kv : Value * Value) : result (string * string) string :=
  match kv with (VStr k, VStr v) => Ok (k, v) | _ => Err "invalid type" end.

Fixpoint from (t : Ty) (v : Value) : result Datum string :=
  match t with
  | TStr => match v with VStr s => Ok (DStr s) | _ => Err "invalid type" end
  | TAbs =>
      match v with
      | VStr s => if decide (String.prefix "/" s) then Ok (DStr s) else Err "no base path"
      | _ => Err "invalid type"
      end
  | TBool => match v with VBool b => Ok (DBool b) | _ => Err "invalid type" end
  | TInt lo hi =>
      match v with
      | VInt n => if (lo <=? n)%Z && (n <=? hi)%Z then Ok (DInt n) else Err "invalid value"
      | _ => Err "invalid type"
      end
  | TBytes => match v with VBin b => Ok (DBytes b) | _ => Err "invalid type" end
  | TValue => Ok (DVal v)
  | TUnit => match v with VNil => Ok DUnit | _ => Err "invalid type" end
  | TMap =>
      match v with
      | VMap kvs => res_map (λ l, DMap (list_to_map l)) (collect_results pair_of kvs)
      | _ => Err "invalid type"
      end
  | TEnum vs =>
      match v with
      | VStr s =>
          res_map DEnum (ok_or (List.find (λ w, String.eqb (variant_name w) s) vs) "unknown variant")
      | _ => Err "invalid type"
      end
  | TOpt t => match v with VNil => Ok (DOpt None) | _ => res_map (λ x, DOpt (Some x)) (from t v) end
  | TVec t =>
      match v with
      | VArray vs => res_map DVec (collect_results (from t) vs)
      | _ => Err "invalid type"
      end
  | TStruct r fs =>
      match v with
      | VMap _ =>
          res_map DStruct
            (collect_results (λ f : Field,
               match f with
               | (n, t, d, s) =>
                   match map_get v (wire_name r n) with
                   | Some w => x ←? from t w; Ok (n, x)
                   | None =>
                       x ←? ok_or (missing (n, t, d, s)) ("missing field " +:+ wire_name r n); Ok (n, x)
                   end
               end) fs)
      | _ => Err "invalid type"
      end
  end.

#[export] Instance serde : Serde := {|
  ser := to;
  de := from;
  absolute s := if decide (String.prefix "/" s) then Ok s else Err "no base path";
|}.

Lemma find_variant vs v :
  v ∈ vs → NoDup (map variant_name vs) →
  List.find (λ w, String.eqb (variant_name w) (variant_name v)) vs = Some v.
Proof.
  induction vs as [|w vs IH]; [set_solver|]. intros [->|Hv]%elem_of_cons Hn; cbn.
  - by rewrite String.eqb_refl.
  - cbn in Hn. apply NoDup_cons in Hn as [Hw Hn].
    destruct (String.eqb_spec (variant_name w) (variant_name v)) as [E|_]; [|by apply IH].
    destruct Hw. rewrite E. by apply list_elem_of_fmap_2.
Qed.

Lemma serde_ok : serde_laws serde.
Proof.
  split; try done.
  - intros s. cbn. by destruct (decide _).
  - intros lo hi n H. cbn. by rewrite (proj2 (Z.leb_le lo n)), (proj2 (Z.leb_le n hi)) by lia.
  - intros m. cbn. rewrite (collect_results_Forall2 _ _ (map_to_list m)).
    + cbn. by rewrite list_to_map_to_list.
    + induction (map_to_list m) as [|[k v] l IH]; constructor; [done|apply IH].
  - intros vs v Hv Hn. cbn. by rewrite find_variant.
  - intros t v Hv. destruct v; try done.
  - intros r fs l. cbn. f_equal. revert l. induction fs as [|[[[n t] d] s] fs IH]; intros [|[m y] l]; try done.
    cbn [fields_out f_skip f_name f_ty fst snd]. by rewrite <- IH.
  - intros r fs kvs _. cbn [de serde from]. f_equal. apply collect_results_ext, Forall_forall.
    intros [[[n t] d] s] _. reflexivity.
Qed.
End SampleSerde.
