(* ===== verification/TransportDtos.v ===== *)
(** The message structs of the transport crate: [transport/src/agent/methods.rs],
    [agent/notifications.rs] and [gateway/methods.rs], as shapes. *)
From S2P Require Import Prelude Wire Serde.

(** * Agent methods *)

(* @src crates/utils/transport/src/agent/methods.rs InitializeParams *)
Definition InitializeParams : Ty := TStruct SnakeCase [req "client_name" TStr].

(* @src crates/utils/transport/src/agent/methods.rs InitializeResponse *)
Definition InitializeResponse : Ty := TStruct SnakeCase [opt_skip "default_shell" TStr; opt_skip "cwd" TStr].

(* @src crates/utils/transport/src/agent/methods.rs ProcessStartParams *)
Definition ProcessStartParams : Ty := TStruct SnakeCase
  [req "process_id" TStr;
   req "argv" (TVec TStr);
   req "cwd" TStr;
   req "env" TMap;
   req "tty" TBool;
   req "arg0" (TOpt TStr);
   opt_skip "output_bytes_cap" TU64].

(* @src crates/utils/transport/src/agent/methods.rs ProcessStartResponse *)
Definition ProcessStartResponse : Ty := TStruct SnakeCase [req "process_id" TStr].

(* @src crates/utils/transport/src/agent/methods.rs ProcessReadParams *)
Definition ProcessReadParams : Ty := TStruct SnakeCase
  [req "process_id" TStr;
   opt_skip "after_seq" TU64;
   opt_skip "max_bytes" TU64;
   opt_skip "wait_ms" TU64].

(* @src crates/utils/transport/src/agent/methods.rs StreamKind *)
Definition StreamKind : Ty := TEnum ["Stdout"; "Stderr"; "Pty"].

(* @src crates/utils/transport/src/agent/methods.rs ProcessChunk *)
Definition ProcessChunk : Ty := TStruct SnakeCase [req "seq" TU64; req "stream" StreamKind; req "chunk" TBytes].

(* @src crates/utils/transport/src/agent/methods.rs ProcessReadResponse *)
Definition ProcessReadResponse : Ty := TStruct SnakeCase
  [req "chunks" (TVec ProcessChunk);
   req "next_seq" TU64;
   req "exited" TBool;
   req "exit_code" (TOpt TI32);
   req "closed" TBool;
   req "failure" (TOpt TStr)].

(* @src crates/utils/transport/src/agent/methods.rs ProcessWriteParams *)
Definition ProcessWriteParams : Ty := TStruct SnakeCase [req "process_id" TStr; req "chunk" TBytes].

(* @src crates/utils/transport/src/agent/methods.rs WriteStatus *)
Definition WriteStatus : Ty := TEnum ["Accepted"; "UnknownProcess"; "StdinClosed"; "Starting"].

(* @src crates/utils/transport/src/agent/methods.rs ProcessWriteResponse *)
Definition ProcessWriteResponse : Ty := TStruct SnakeCase [req "status" WriteStatus].

(* @src crates/utils/transport/src/agent/methods.rs ProcessTerminateParams *)
Definition ProcessTerminateParams : Ty := TStruct SnakeCase [req "process_id" TStr].

(* @src crates/utils/transport/src/agent/methods.rs ProcessTerminateResponse *)
Definition ProcessTerminateResponse : Ty := TStruct SnakeCase [req "running" TBool].

(* @src crates/utils/transport/src/agent/methods.rs FsReadFileParams *)
Definition FsReadFileParams : Ty := TStruct CamelCase [req "path" TStr].

(* @src crates/utils/transport/src/agent/methods.rs FsReadFileResponse *)
Definition FsReadFileResponse : Ty := TStruct CamelCase [req "data" TBytes].

(* @src crates/utils/transport/src/agent/methods.rs FsWriteFileParams *)
Definition FsWriteFileParams : Ty := TStruct CamelCase [req "path" TStr; req "data" TBytes].

(* @src crates/utils/transport/src/agent/methods.rs FsWriteFileResponse *)
Definition FsWriteFileResponse : Ty := TStruct CamelCase [].

(* @src crates/utils/transport/src/agent/methods.rs FsCreateDirectoryParams *)
Definition FsCreateDirectoryParams : Ty := TStruct CamelCase [req "path" TStr; opt_skip "recursive" TBool].

(* @src crates/utils/transport/src/agent/methods.rs FsCreateDirectoryResponse *)
Definition FsCreateDirectoryResponse : Ty := TStruct CamelCase [].

(* @src crates/utils/transport/src/agent/methods.rs FsGetMetadataParams *)
Definition FsGetMetadataParams : Ty := TStruct CamelCase [req "path" TStr].

(* @src crates/utils/transport/src/agent/methods.rs FsGetMetadataResponse *)
Definition FsGetMetadataResponse : Ty := TStruct CamelCase
  [req "is_directory" TBool;
   req "is_file" TBool;
   req "created_at_ms" TI64;
   req "modified_at_ms" TI64].

(* @src crates/utils/transport/src/agent/methods.rs FsReadDirectoryParams *)
Definition FsReadDirectoryParams : Ty := TStruct CamelCase [req "path" TStr].

(* @src crates/utils/transport/src/agent/methods.rs FsReadDirectoryEntry *)
Definition FsReadDirectoryEntry : Ty := TStruct CamelCase [req "file_name" TStr; req "is_directory" TBool; req "is_file" TBool].

(* @src crates/utils/transport/src/agent/methods.rs FsReadDirectoryResponse *)
Definition FsReadDirectoryResponse : Ty := TStruct CamelCase [req "entries" (TVec FsReadDirectoryEntry)].

(* @src crates/utils/transport/src/agent/methods.rs FsRemoveParams *)
Definition FsRemoveParams : Ty := TStruct CamelCase [req "path" TStr; opt_skip "recursive" TBool; opt_skip "force" TBool].

(* @src crates/utils/transport/src/agent/methods.rs FsRemoveResponse *)
Definition FsRemoveResponse : Ty := TStruct CamelCase [].

(* @src crates/utils/transport/src/agent/methods.rs FsCopyParams *)
Definition FsCopyParams : Ty := TStruct CamelCase
  [req "source_path" TStr;
   req "destination_path" TStr;
   skip_false "recursive"].

(* @src crates/utils/transport/src/agent/methods.rs FsCopyResponse *)
Definition FsCopyResponse : Ty := TStruct CamelCase [].

(* @src crates/utils/transport/src/agent/methods.rs ProxyRegisterParams *)
Definition ProxyRegisterParams : Ty := TStruct SnakeCase
  [req "socket_path" TStr;
   req "upstream_url" TStr;
   skip_empty "headers" TMap].

(* @src crates/utils/transport/src/agent/methods.rs ProxyRegisterResponse *)
Definition ProxyRegisterResponse : Ty := TStruct SnakeCase [req "ok" TBool].

(* @src crates/utils/transport/src/agent/methods.rs ProxyUnregisterParams *)
Definition ProxyUnregisterParams : Ty := TStruct SnakeCase [req "socket_path" TStr].

(* @src crates/utils/transport/src/agent/methods.rs ProxyUnregisterResponse *)
Definition ProxyUnregisterResponse : Ty := TStruct SnakeCase [req "ok" TBool].

(** * Agent notifications *)

(* @src crates/utils/transport/src/agent/notifications.rs ProcessOutputNotification *)
Definition ProcessOutputNotification : Ty := TStruct SnakeCase
  [req "process_id" TStr;
   req "seq" TU64;
   req "stream" StreamKind;
   req "chunk" TBytes].

(* @src crates/utils/transport/src/agent/notifications.rs ProcessExitedNotification *)
Definition ProcessExitedNotification : Ty := TStruct SnakeCase [req "process_id" TStr; req "seq" TU64; req "exit_code" (TOpt TI32)].

(* @src crates/utils/transport/src/agent/notifications.rs ProcessClosedNotification *)
Definition ProcessClosedNotification : Ty := TStruct SnakeCase [req "process_id" TStr; req "seq" TU64].

(** * Gateway methods *)

(* @src crates/utils/transport/src/gateway/methods.rs HelloParams *)
Definition HelloParams : Ty := TStruct SnakeCase
  [req "access_key" TStr;
   req "client_name" TStr;
   req "ts" TI64;
   req "nonce" TStr;
   req "signature" TStr].

(* @src crates/utils/transport/src/gateway/methods.rs HelloResponse *)
Definition HelloResponse : Ty := TStruct SnakeCase [req "ok" TBool; req "gateway_version" TStr].

(* @src crates/utils/transport/src/gateway/methods.rs SpawnAgentParams *)
Definition SpawnAgentParams : Ty := TStruct SnakeCase
  [req "name" TStr;
   opt_skip "image" TStr;
   skip_empty "env" TMap;
   skip_empty "labels" TMap;
   opt_skip "workspace" TStr;
   skip_empty "extra_ports" (TVec TU16)].

(* @src crates/utils/transport/src/gateway/methods.rs SpawnAgentResponse *)
Definition SpawnAgentResponse : Ty := TStruct SnakeCase [req "agent_id" TStr; req "container_name" TStr].

(* @src crates/utils/transport/src/gateway/methods.rs AgentIdParams *)
Definition AgentIdParams : Ty := TStruct SnakeCase [req "agent_id" TStr].

(* @src crates/utils/transport/src/gateway/methods.rs OkResponse *)
Definition OkResponse : Ty := TStruct SnakeCase [req "ok" TBool].

(* @src crates/utils/transport/src/gateway/methods.rs AttachAgentParams *)
Definition AttachAgentParams : Ty := TStruct SnakeCase [req "container_name" TStr].

(* @src crates/utils/transport/src/gateway/methods.rs AgentSummary *)
Definition AgentSummary : Ty := TStruct SnakeCase
  [req "agent_id" TStr;
   req "container_name" TStr;
   req "created_at_unix_ms" TU64].

(* @src crates/utils/transport/src/gateway/methods.rs ListAgentsResponse *)
Definition ListAgentsResponse : Ty := TStruct SnakeCase [req "agents" (TVec AgentSummary)].

(* @src crates/utils/transport/src/gateway/methods.rs AgentInvokeParams *)
Definition AgentInvokeParams : Ty := TStruct SnakeCase [req "agent_id" TStr; req "method" TStr; opt_skip "params" TValue].

(* @src crates/utils/transport/src/gateway/methods.rs AgentNotifyParams *)
Definition AgentNotifyParams : Ty := TStruct SnakeCase [req "agent_id" TStr; req "method" TStr; opt_skip "params" TValue].

(* @src crates/utils/transport/src/gateway/methods.rs RegisterProxyParams *)
Definition RegisterProxyParams : Ty := TStruct SnakeCase
  [req "agent_id" TStr;
   req "name" TStr;
   req "upstream_url" TStr;
   skip_empty "headers" TMap].

(* @src crates/utils/transport/src/gateway/methods.rs RegisterProxyResponse *)
Definition RegisterProxyResponse : Ty := TStruct SnakeCase [req "token" TStr; req "socket_path" TStr].

(* @src crates/utils/transport/src/gateway/methods.rs UnregisterProxyParams *)
Definition UnregisterProxyParams : Ty := TStruct SnakeCase [req "agent_id" TStr; req "name" TStr].

(* @src crates/utils/transport/src/gateway/methods.rs RegisterStreamProxyParams *)
Definition RegisterStreamProxyParams : Ty := TStruct SnakeCase [req "agent_id" TStr; req "name" TStr; req "container_port" TU16].

(* @src crates/utils/transport/src/gateway/methods.rs RegisterStreamProxyResponse *)
Definition RegisterStreamProxyResponse : Ty := TStruct SnakeCase [req "listen_addr" TStr].

(* @src crates/utils/transport/src/gateway/methods.rs UnregisterStreamProxyParams *)
Definition UnregisterStreamProxyParams : Ty := TStruct SnakeCase [req "agent_id" TStr; req "name" TStr].

