(* ===== verification/AgentDtos.v ===== *)
(** The message structs the agent declares for itself:
    [nexal-agent/src/protocol/wire.rs] and [methods.rs], as shapes. *)
From S2P Require Import Prelude Wire Serde.

(* @src crates/nexal-agent/src/protocol/methods.rs ExecOutputStream *)
Definition ExecOutputStream : Ty := TEnum ["Stdout"; "Stderr"; "Pty"].

(* @src crates/nexal-agent/src/protocol/methods.rs WriteStatus *)
Definition WriteStatus : Ty := TEnum ["Accepted"; "UnknownProcess"; "StdinClosed"; "Starting"].

(* @src crates/nexal-agent/src/protocol/wire.rs InitializeParams *)
Definition InitializeParams : Ty := TStruct SnakeCase [req "client_name" TStr].

(* @src crates/nexal-agent/src/protocol/wire.rs InitializeResponse *)
Definition InitializeResponse : Ty := TStruct SnakeCase [opt_skip "default_shell" TStr; opt_skip "cwd" TStr].

(* @src crates/nexal-agent/src/protocol/wire.rs ExecParams *)
Definition ExecParams : Ty := TStruct SnakeCase
  [req "process_id" TStr;
   req "argv" (TVec TStr);
   req "cwd" TStr;
   req "env" TMap;
   req "tty" TBool;
   req "arg0" (TOpt TStr)].

(* @src crates/nexal-agent/src/protocol/wire.rs ExecResponse *)
Definition ExecResponse : Ty := TStruct SnakeCase [req "process_id" TStr].

(* @src crates/nexal-agent/src/protocol/wire.rs ReadParams *)
Definition ReadParams : Ty := TStruct SnakeCase
  [req "process_id" TStr;
   req "after_seq" (TOpt TU64);
   req "max_bytes" (TOpt TU64);
   req "wait_ms" (TOpt TU64)].

(* @src crates/nexal-agent/src/protocol/wire.rs ProcessOutputChunk *)
Definition ProcessOutputChunk : Ty := TStruct SnakeCase [req "seq" TU64; req "stream" ExecOutputStream; req "chunk" TBytes].

(* @src crates/nexal-agent/src/protocol/wire.rs ReadResponse *)
Definition ReadResponse : Ty := TStruct SnakeCase
  [req "chunks" (TVec ProcessOutputChunk);
   req "next_seq" TU64;
   req "exited" TBool;
   req "exit_code" (TOpt TI32);
   req "closed" TBool;
   req "failure" (TOpt TStr)].

(* @src crates/nexal-agent/src/protocol/wire.rs WriteParams *)
Definition WriteParams : Ty := TStruct SnakeCase [req "process_id" TStr; req "chunk" TBytes].

(* @src crates/nexal-agent/src/protocol/wire.rs WriteResponse *)
Definition WriteResponse : Ty := TStruct SnakeCase [req "status" WriteStatus].

(* @src crates/nexal-agent/src/protocol/wire.rs TerminateParams *)
Definition TerminateParams : Ty := TStruct SnakeCase [req "process_id" TStr].

(* @src crates/nexal-agent/src/protocol/wire.rs TerminateResponse *)
Definition TerminateResponse : Ty := TStruct SnakeCase [req "running" TBool].

(* @src crates/nexal-agent/src/protocol/wire.rs ExecOutputDeltaNotification *)
Definition ExecOutputDeltaNotification : Ty := TStruct SnakeCase
  [req "process_id" TStr;
   req "seq" TU64;
   req "stream" ExecOutputStream;
   req "chunk" TBytes].

(* @src crates/nexal-agent/src/protocol/wire.rs ExecExitedNotification *)
Definition ExecExitedNotification : Ty := TStruct SnakeCase [req "process_id" TStr; req "seq" TU64; req "exit_code" TI32].

(* @src crates/nexal-agent/src/protocol/wire.rs ExecClosedNotification *)
Definition ExecClosedNotification : Ty := TStruct SnakeCase [req "process_id" TStr; req "seq" TU64].

(* @src crates/nexal-agent/src/protocol/wire.rs ProxyRegisterParams *)
Definition ProxyRegisterParams : Ty := TStruct SnakeCase [req "socket_path" TStr; req "upstream_url" TStr; dflt "headers" TMap].

(* @src crates/nexal-agent/src/protocol/wire.rs ProxyRegisterResponse *)
Definition ProxyRegisterResponse : Ty := TStruct SnakeCase [req "ok" TBool].

(* @src crates/nexal-agent/src/protocol/wire.rs ProxyUnregisterParams *)
Definition ProxyUnregisterParams : Ty := TStruct SnakeCase [req "socket_path" TStr].

(* @src crates/nexal-agent/src/protocol/wire.rs ProxyUnregisterResponse *)
Definition ProxyUnregisterResponse : Ty := TStruct SnakeCase [req "ok" TBool].

(* @src crates/nexal-agent/src/protocol/wire.rs FsReadFileParams *)
Definition FsReadFileParams : Ty := TStruct CamelCase [req "path" TAbs].

(* @src crates/nexal-agent/src/protocol/wire.rs FsReadFileResponse *)
Definition FsReadFileResponse : Ty := TStruct CamelCase [req "data" TBytes].

(* @src crates/nexal-agent/src/protocol/wire.rs FsWriteFileParams *)
Definition FsWriteFileParams : Ty := TStruct CamelCase [req "path" TAbs; req "data" TBytes].

(* @src crates/nexal-agent/src/protocol/wire.rs FsWriteFileResponse *)
Definition FsWriteFileResponse : Ty := TStruct CamelCase [].

(* @src crates/nexal-agent/src/protocol/wire.rs FsCreateDirectoryParams *)
Definition FsCreateDirectoryParams : Ty := TStruct CamelCase [req "path" TAbs; req "recursive" (TOpt TBool)].

(* @src crates/nexal-agent/src/protocol/wire.rs FsCreateDirectoryResponse *)
Definition FsCreateDirectoryResponse : Ty := TStruct CamelCase [].

(* @src crates/nexal-agent/src/protocol/wire.rs FsGetMetadataParams *)
Definition FsGetMetadataParams : Ty := TStruct CamelCase [req "path" TAbs].

(* @src crates/nexal-agent/src/protocol/wire.rs FsGetMetadataResponse *)
Definition FsGetMetadataResponse : Ty := TStruct CamelCase
  [req "is_directory" TBool;
   req "is_file" TBool;
   req "created_at_ms" TI64;
   req "modified_at_ms" TI64].

(* @src crates/nexal-agent/src/protocol/wire.rs FsReadDirectoryParams *)
Definition FsReadDirectoryParams : Ty := TStruct CamelCase [req "path" TAbs].

(* @src crates/nexal-agent/src/protocol/wire.rs FsReadDirectoryEntry *)
Definition FsReadDirectoryEntry : Ty := TStruct CamelCase [req "file_name" TStr; req "is_directory" TBool; req "is_file" TBool].

(* @src crates/nexal-agent/src/protocol/wire.rs FsReadDirectoryResponse *)
Definition FsReadDirectoryResponse : Ty := TStruct CamelCase [req "entries" (TVec FsReadDirectoryEntry)].

(* @src crates/nexal-agent/src/protocol/wire.rs FsRemoveParams *)
Definition FsRemoveParams : Ty := TStruct CamelCase
  [req "path" TAbs;
   req "recursive" (TOpt TBool);
   req "force" (TOpt TBool)].

(* @src crates/nexal-agent/src/protocol/wire.rs FsRemoveResponse *)
Definition FsRemoveResponse : Ty := TStruct CamelCase [].

(* @src crates/nexal-agent/src/protocol/wire.rs FsCopyParams *)
Definition FsCopyParams : Ty := TStruct CamelCase
  [req "source_path" TAbs;
   req "destination_path" TAbs;
   skip_false "recursive"].

(* @src crates/nexal-agent/src/protocol/wire.rs FsCopyResponse *)
Definition FsCopyResponse : Ty := TStruct CamelCase [].

