(* ===== verification/GatewayDtos.v ===== *)
(** The message structs the gateway crate declares for itself:
    [nexal-gateway/src/protocol.rs], as shapes. *)
From S2P Require Import Prelude Wire Serde.

(* @src crates/nexal-gateway/src/protocol.rs HelloParams *)
Definition HelloParams : Ty := TStruct SnakeCase
  [req "access_key" TStr;
   req "client_name" TStr;
   req "ts" TI64;
   req "nonce" TStr;
   req "signature" TStr].

(* @src crates/nexal-gateway/src/protocol.rs HelloResponse *)
Definition HelloResponse : Ty := TStruct SnakeCase [req "ok" TBool; req "gateway_version" TStr].

(* @src crates/nexal-gateway/src/protocol.rs SpawnAgentParams *)
Definition SpawnAgentParams : Ty := TStruct SnakeCase
  [req "name" TStr;
   dflt "image" (TOpt TStr);
   dflt "env" TMap;
   dflt "labels" TMap;
   dflt "extra_ports" (TVec TU16)].

(* @src crates/nexal-gateway/src/protocol.rs SpawnAgentResponse *)
Definition SpawnAgentResponse : Ty := TStruct SnakeCase [req "agent_id" TStr; req "container_name" TStr].

(* @src crates/nexal-gateway/src/protocol.rs AgentIdParams *)
Definition AgentIdParams : Ty := TStruct SnakeCase [req "agent_id" TStr].

(* @src crates/nexal-gateway/src/protocol.rs OkResponse *)
Definition OkResponse : Ty := TStruct SnakeCase [req "ok" TBool].

(* @src crates/nexal-gateway/src/protocol.rs AttachAgentParams *)
Definition AttachAgentParams : Ty := TStruct SnakeCase [req "container_name" TStr].

(* @src crates/nexal-gateway/src/protocol.rs AgentSummary *)
Definition AgentSummary : Ty := TStruct SnakeCase
  [req "agent_id" TStr;
   req "container_name" TStr;
   req "created_at_unix_ms" TU64].

(* @src crates/nexal-gateway/src/protocol.rs ListAgentsResponse *)
Definition ListAgentsResponse : Ty := TStruct SnakeCase [req "agents" (TVec AgentSummary)].

(* @src crates/nexal-gateway/src/protocol.rs AgentInvokeParams *)
Definition AgentInvokeParams : Ty := TStruct SnakeCase [req "agent_id" TStr; req "method" TStr; dflt "params" (TOpt TValue)].

(* @src crates/nexal-gateway/src/protocol.rs AgentNotifyParams *)
Definition AgentNotifyParams : Ty := TStruct SnakeCase [req "agent_id" TStr; req "method" TStr; dflt "params" (TOpt TValue)].

(* @src crates/nexal-gateway/src/protocol.rs RegisterProxyParams *)
Definition RegisterProxyParams : Ty := TStruct SnakeCase
  [req "agent_id" TStr;
   req "name" TStr;
   req "upstream_url" TStr;
   dflt "headers" TMap].

(* @src crates/nexal-gateway/src/protocol.rs RegisterProxyResponse *)
Definition RegisterProxyResponse : Ty := TStruct SnakeCase [req "token" TStr; req "socket_path" TStr].

(* @src crates/nexal-gateway/src/protocol.rs UnregisterProxyParams *)
Definition UnregisterProxyParams : Ty := TStruct SnakeCase [req "agent_id" TStr; req "name" TStr].

(* @src crates/nexal-gateway/src/protocol.rs RegisterStreamProxyParams *)
Definition RegisterStreamProxyParams : Ty := TStruct SnakeCase [req "agent_id" TStr; req "name" TStr; req "container_port" TU16].

(* @src crates/nexal-gateway/src/protocol.rs RegisterStreamProxyResponse *)
Definition RegisterStreamProxyResponse : Ty := TStruct SnakeCase [req "listen_addr" TStr].

(* @src crates/nexal-gateway/src/protocol.rs UnregisterStreamProxyParams *)
Definition UnregisterStreamProxyParams : Ty := TStruct SnakeCase [req "agent_id" TStr; req "name" TStr].

