(* ===== verification/Methods.v ===== *)
(** The RPC method sets of the agent and of the gateway, and the parameter
    and result structs that travel in their envelopes. *)
From S2P Require Import Prelude Wire.

(** * Agent methods *)

(* @src crates/utils/transport/src/agent/methods.rs AgentMethod *)
Inductive AgentMethod :=
  | Initialize | Initialized
  | ProcessStart | ProcessRead | ProcessWrite | ProcessTerminate
  | FsReadFile | FsWriteFile | FsCreateDirectory | FsGetMetadata
  | FsReadDirectory | FsRemove | FsCopy
  | ProxyRegister | ProxyUnregister.

#[export] Instance AgentMethod_eq_dec : EqDecision AgentMethod.
Proof. solve_decision. Defined.

Module AgentMethods.
(* @src crates/utils/transport/src/macros.rs as_str *)
Definition AgentMethod_as_str (m : AgentMethod) : string :=
  match m with
  | Initialize => "initialize"
  | Initialized => "initialized"
  | ProcessStart => "process/start"
  | ProcessRead => "process/read"
  | ProcessWrite => "process/write"
  | ProcessTerminate => "process/terminate"
  | FsReadFile => "fs/read_file"
  | FsWriteFile => "fs/write_file"
  | FsCreateDirectory => "fs/create_directory"
  | FsGetMetadata => "fs/get_metadata"
  | FsReadDirectory => "fs/read_directory"
  | FsRemove => "fs/remove"
  | FsCopy => "fs/copy"
  | ProxyRegister => "proxy/register"
  | ProxyUnregister => "proxy/unregister"
  end.

(* @src crates/utils/transport/src/macros.rs parse *)
Definition AgentMethod_parse (s : string) : option AgentMethod :=
  if decide (s = "initialize") then Some Initialize
  else if decide (s = "initialized") then Some Initialized
  else if decide (s = "process/start") then Some ProcessStart
  else if decide (s = "process/read") then Some ProcessRead
  else if decide (s = "process/write") then Some ProcessWrite
  else if decide (s = "process/terminate") then Some ProcessTerminate
  else if decide (s = "fs/read_file") then Some FsReadFile
  else if decide (s = "fs/write_file") then Some FsWriteFile
  else if decide (s = "fs/create_directory") then Some FsCreateDirectory
  else if decide (s = "fs/get_metadata") then Some FsGetMetadata
  else if decide (s = "fs/read_directory") then Some FsReadDirectory
  else if decide (s = "fs/remove") then Some FsRemove
  else if decide (s = "fs/copy") then Some FsCopy
  else if decide (s = "proxy/register") then Some ProxyRegister
  else if decide (s = "proxy/unregister") then Some ProxyUnregister
  else None.

(* @src crates/utils/transport/src/macros.rs all *)
Definition AgentMethod_all : list AgentMethod :=
  [Initialize; Initialized; ProcessStart; ProcessRead; ProcessWrite;
   ProcessTerminate; FsReadFile; FsWriteFile; FsCreateDirectory; FsGetMetadata;
   FsReadDirectory; FsRemove; FsCopy; ProxyRegister; ProxyUnregister].

Lemma agent_parse_as_str m : AgentMethod_parse (AgentMethod_as_str m) = Some m.
Proof. by destruct m. Qed.

Lemma agent_parse_Some s m : AgentMethod_parse s = Some m → s = AgentMethod_as_str m.
Proof. unfold AgentMethod_parse. intros H. repeat case_decide; simplify_eq; done. Qed.

Lemma agent_elem_of_all m : m ∈ AgentMethod_all.
Proof. destruct m; unfold AgentMethod_all; set_solver. Qed.
End AgentMethods.

(** The agent crate has a second parser, grouped by domain. *)
Module ChannelMethods.
(* @src crates/nexal-agent/src/protocol/methods.rs LifecycleMethod *)
Inductive LifecycleMethod := LInitialize | LInitialized.
(* @src crates/nexal-agent/src/protocol/methods.rs ProcessMethod *)
Inductive ProcessMethod := PStart | PRead | PWrite | PTerminate.
(* @src crates/nexal-agent/src/protocol/methods.rs FsMethod *)
Inductive FsMethod :=
  FReadFile | FWriteFile | FCreateDirectory | FGetMetadata | FReadDirectory | FRemove | FCopy.
(* @src crates/nexal-agent/src/protocol/methods.rs ProxyMethod *)
Inductive ProxyMethod := XRegister | XUnregister.

(* @src crates/nexal-agent/src/protocol/methods.rs Method *)
Inductive Method :=
  | Lifecycle (m : LifecycleMethod)
  | Process (m : ProcessMethod)
  | FileSystem (m : FsMethod)
  | Proxy (m : ProxyMethod).

(* @src crates/nexal-agent/src/protocol/methods.rs parse_method *)
Definition parse_method (s : string) : option Method :=
  if decide (s = "initialize") then Some (Lifecycle LInitialize)
  else if decide (s = "initialized") then Some (Lifecycle LInitialized)
  else if decide (s = "process/start") then Some (Process PStart)
  else if decide (s = "process/read") then Some (Process PRead)
  else if decide (s = "process/write") then Some (Process PWrite)
  else if decide (s = "process/terminate") then Some (Process PTerminate)
  else if decide (s = "fs/read_file") then Some (FileSystem FReadFile)
  else if decide (s = "fs/write_file") then Some (FileSystem FWriteFile)
  else if decide (s = "fs/create_directory") then Some (FileSystem FCreateDirectory)
  else if decide (s = "fs/get_metadata") then Some (FileSystem FGetMetadata)
  else if decide (s = "fs/read_directory") then Some (FileSystem FReadDirectory)
  else if decide (s = "fs/remove") then Some (FileSystem FRemove)
  else if decide (s = "fs/copy") then Some (FileSystem FCopy)
  else if decide (s = "proxy/register") then Some (Proxy XRegister)
  else if decide (s = "proxy/unregister") then Some (Proxy XUnregister)
  else None.

(** The domain grouping of the first parser's methods. *)
Definition group (m : AgentMethod) : Method :=
  match m with
  | Initialize => Lifecycle LInitialize
  | Initialized => Lifecycle LInitialized
  | ProcessStart => Process PStart
  | ProcessRead => Process PRead
  | ProcessWrite => Process PWrite
  | ProcessTerminate => Process PTerminate
  | FsReadFile => FileSystem FReadFile
  | FsWriteFile => FileSystem FWriteFile
  | FsCreateDirectory => FileSystem FCreateDirectory
  | FsGetMetadata => FileSystem FGetMetadata
  | FsReadDirectory => FileSystem FReadDirectory
  | FsRemove => FileSystem FRemove
  | FsCopy => FileSystem FCopy
  | ProxyRegister => Proxy XRegister
  | ProxyUnregister => Proxy XUnregister
  end.

Lemma parse_method_group s : parse_method s = group <$> AgentMethods.AgentMethod_parse s.
Proof. unfold parse_method, AgentMethods.AgentMethod_parse. by repeat case_decide. Qed.
End ChannelMethods.

(** * Gateway methods *)

(* @src crates/utils/transport/src/gateway/methods.rs GatewayMethod *)
Inductive GatewayMethod :=
  | Hello | SpawnAgent | KillAgent | DetachAgent | AttachAgent | ListAgents
  | AgentInvoke | RegisterProxy | UnregisterProxy
  | RegisterStreamProxy | UnregisterStreamProxy.

#[export] Instance GatewayMethod_eq_dec : EqDecision GatewayMethod.
Proof. solve_decision. Defined.

(** The names the gateway crate declares for the same methods. *)
Module gateway_names.
(* @src crates/nexal-gateway/src/protocol.rs METHOD_HELLO *)
Definition METHOD_HELLO := "gateway/hello".
(* @src crates/nexal-gateway/src/protocol.rs METHOD_SPAWN_AGENT *)
Definition METHOD_SPAWN_AGENT := "gateway/spawn_agent".
(* @src crates/nexal-gateway/src/protocol.rs METHOD_KILL_AGENT *)
Definition METHOD_KILL_AGENT := "gateway/kill_agent".
(* @src crates/nexal-gateway/src/protocol.rs METHOD_DETACH_AGENT *)
Definition METHOD_DETACH_AGENT := "gateway/detach_agent".
(* @src crates/nexal-gateway/src/protocol.rs METHOD_ATTACH_AGENT *)
Definition METHOD_ATTACH_AGENT := "gateway/attach_agent".
(* @src crates/nexal-gateway/src/protocol.rs METHOD_LIST_AGENTS *)
Definition METHOD_LIST_AGENTS := "gateway/list_agents".
(* @src crates/nexal-gateway/src/protocol.rs METHOD_AGENT_INVOKE *)
Definition METHOD_AGENT_INVOKE := "agent/invoke".
(* @src crates/nexal-gateway/src/protocol.rs METHOD_REGISTER_PROXY *)
Definition METHOD_REGISTER_PROXY := "gateway/register_proxy".
(* @src crates/nexal-gateway/src/protocol.rs METHOD_UNREGISTER_PROXY *)
Definition METHOD_UNREGISTER_PROXY := "gateway/unregister_proxy".
(* @src crates/nexal-gateway/src/protocol.rs METHOD_REGISTER_STREAM_PROXY *)
Definition METHOD_REGISTER_STREAM_PROXY := "gateway/register_stream_proxy".
(* @src crates/nexal-gateway/src/protocol.rs METHOD_UNREGISTER_STREAM_PROXY *)
Definition METHOD_UNREGISTER_STREAM_PROXY := "gateway/unregister_stream_proxy".
End gateway_names.

(* @src crates/utils/transport/src/gateway/methods.rs NOTIFY_AGENT *)
Definition NOTIFY_AGENT := "agent/notify".

Module GatewayMethods.
Import gateway_names.

(* @src crates/utils/transport/src/gateway/methods.rs GatewayMethod *)
Definition GatewayMethod_as_str (m : GatewayMethod) : string :=
  match m with
  | Hello => "gateway/hello"
  | SpawnAgent => "gateway/spawn_agent"
  | KillAgent => "gateway/kill_agent"
  | DetachAgent => "gateway/detach_agent"
  | AttachAgent => "gateway/attach_agent"
  | ListAgents => "gateway/list_agents"
  | AgentInvoke => "agent/invoke"
  | RegisterProxy => "gateway/register_proxy"
  | UnregisterProxy => "gateway/unregister_proxy"
  | RegisterStreamProxy => "gateway/register_stream_proxy"
  | UnregisterStreamProxy => "gateway/unregister_stream_proxy"
  end.

(* @src crates/utils/transport/src/macros.rs parse *)
Definition GatewayMethod_parse (s : string) : option GatewayMethod :=
  if decide (s = "gateway/hello") then Some Hello
  else if decide (s = "gateway/spawn_agent") then Some SpawnAgent
  else if decide (s = "gateway/kill_agent") then Some KillAgent
  else if decide (s = "gateway/detach_agent") then Some DetachAgent
  else if decide (s = "gateway/attach_agent") then Some AttachAgent
  else if decide (s = "gateway/list_agents") then Some ListAgents
  else if decide (s = "agent/invoke") then Some AgentInvoke
  else if decide (s = "gateway/register_proxy") then Some RegisterProxy
  else if decide (s = "gateway/unregister_proxy") then Some UnregisterProxy
  else if decide (s = "gateway/register_stream_proxy") then Some RegisterStreamProxy
  else if decide (s = "gateway/unregister_stream_proxy") then Some UnregisterStreamProxy
  else None.

(* @src crates/utils/transport/src/macros.rs all *)
Definition GatewayMethod_all : list GatewayMethod :=
  [Hello; SpawnAgent; KillAgent; DetachAgent; AttachAgent; ListAgents; AgentInvoke;
   RegisterProxy; UnregisterProxy; RegisterStreamProxy; UnregisterStreamProxy].

(** The gateway crate's own constants, in the same order. *)
Definition protocol_names : list string :=
  [METHOD_HELLO; METHOD_SPAWN_AGENT; METHOD_KILL_AGENT; METHOD_DETACH_AGENT;
   METHOD_ATTACH_AGENT; METHOD_LIST_AGENTS; METHOD_AGENT_INVOKE;
   METHOD_REGISTER_PROXY; METHOD_UNREGISTER_PROXY;
   METHOD_REGISTER_STREAM_PROXY; METHOD_UNREGISTER_STREAM_PROXY].

Lemma gateway_parse_as_str m : GatewayMethod_parse (GatewayMethod_as_str m) = Some m.
Proof. by destruct m. Qed.

Lemma gateway_parse_Some s m : GatewayMethod_parse s = Some m → s = GatewayMethod_as_str m.
Proof. unfold GatewayMethod_parse. intros H. repeat case_decide; simplify_eq; done. Qed.

Lemma gateway_elem_of_all m : m ∈ GatewayMethod_all.
Proof. destruct m; unfold GatewayMethod_all; set_solver. Qed.
End GatewayMethods.

(** The method tables agree: for the agent's and the gateway's methods a
    name parses to a method exactly when it is that method's name, the enum's
    [all] lists every method, the agent's second parser recognises exactly the
    names the first one does (grouped by domain), and the gateway's own
    constants are the names the gateway enum prints, in order. *)
Theorem method_tables_agree :
  (∀ s m, AgentMethods.AgentMethod_parse s = Some m ↔ s = AgentMethods.AgentMethod_as_str m) ∧
  (∀ m, m ∈ AgentMethods.AgentMethod_all) ∧
  (∀ s, ChannelMethods.parse_method s =
        ChannelMethods.group <$> AgentMethods.AgentMethod_parse s) ∧
  (∀ s m, GatewayMethods.GatewayMethod_parse s = Some m ↔
          s = GatewayMethods.GatewayMethod_as_str m) ∧
  (∀ m, m ∈ GatewayMethods.GatewayMethod_all) ∧
  map GatewayMethods.GatewayMethod_as_str GatewayMethods.GatewayMethod_all =
    GatewayMethods.protocol_names.
Proof.
  split_and!.
  - intros. split; [apply AgentMethods.agent_parse_Some|intros ->].
    apply AgentMethods.agent_parse_as_str.
  - apply AgentMethods.agent_elem_of_all.
  - apply ChannelMethods.parse_method_group.
  - intros. split; [apply GatewayMethods.gateway_parse_Some|intros ->].
    apply GatewayMethods.gateway_parse_as_str.
  - apply GatewayMethods.gateway_elem_of_all.
  - reflexivity.
Qed.
