(* ===== verification/Protocol.v ===== *)
(** The protocols as tables of shapes: the parameters and results of every
    method as the transport crate declares them for its clients, and as the
    agent and the gateway declare them for themselves; and that the two sides
    understand each other. *)
From S2P Require Import Prelude Wire Serde Methods.
From S2P Require TransportDtos AgentDtos GatewayDtos.
Open Scope nexal_scope.

(** * The tables *)

(** The types of [define_method_set!] for the agent's methods. *)
(* @src crates/utils/transport/src/agent/methods.rs AgentMethod *)
Definition agent_params (m : AgentMethod) : Ty :=
  match m with
  | Initialize => TransportDtos.InitializeParams
  | Initialized => TUnit
  | ProcessStart => TransportDtos.ProcessStartParams
  | ProcessRead => TransportDtos.ProcessReadParams
  | ProcessWrite => TransportDtos.ProcessWriteParams
  | ProcessTerminate => TransportDtos.ProcessTerminateParams
  | FsReadFile => TransportDtos.FsReadFileParams
  | FsWriteFile => TransportDtos.FsWriteFileParams
  | FsCreateDirectory => TransportDtos.FsCreateDirectoryParams
  | FsGetMetadata => TransportDtos.FsGetMetadataParams
  | FsReadDirectory => TransportDtos.FsReadDirectoryParams
  | FsRemove => TransportDtos.FsRemoveParams
  | FsCopy => TransportDtos.FsCopyParams
  | ProxyRegister => TransportDtos.ProxyRegisterParams
  | ProxyUnregister => TransportDtos.ProxyUnregisterParams
  end.

(* @src crates/utils/transport/src/agent/methods.rs AgentMethod *)
Definition agent_result (m : AgentMethod) : Ty :=
  match m with
  | Initialize => TransportDtos.InitializeResponse
  | Initialized => TUnit
  | ProcessStart => TransportDtos.ProcessStartResponse
  | ProcessRead => TransportDtos.ProcessReadResponse
  | ProcessWrite => TransportDtos.ProcessWriteResponse
  | ProcessTerminate => TransportDtos.ProcessTerminateResponse
  | FsReadFile => TransportDtos.FsReadFileResponse
  | FsWriteFile => TransportDtos.FsWriteFileResponse
  | FsCreateDirectory => TransportDtos.FsCreateDirectoryResponse
  | FsGetMetadata => TransportDtos.FsGetMetadataResponse
  | FsReadDirectory => TransportDtos.FsReadDirectoryResponse
  | FsRemove => TransportDtos.FsRemoveResponse
  | FsCopy => TransportDtos.FsCopyResponse
  | ProxyRegister => TransportDtos.ProxyRegisterResponse
  | ProxyUnregister => TransportDtos.ProxyUnregisterResponse
  end.

(** What the agent's dispatch decodes the parameters as; [None] where it does
    not look at them. *)
(* @src crates/nexal-agent/src/server/channel/dispatch.rs dispatch *)
Definition dispatch_params (m : AgentMethod) : option Ty :=
  match m with
  | Initialize => Some AgentDtos.InitializeParams
  | Initialized => None
  | ProcessStart => Some AgentDtos.ExecParams
  | ProcessRead => Some AgentDtos.ReadParams
  | ProcessWrite => Some AgentDtos.WriteParams
  | ProcessTerminate => Some AgentDtos.TerminateParams
  | FsReadFile => Some AgentDtos.FsReadFileParams
  | FsWriteFile => Some AgentDtos.FsWriteFileParams
  | FsCreateDirectory => Some AgentDtos.FsCreateDirectoryParams
  | FsGetMetadata => Some AgentDtos.FsGetMetadataParams
  | FsReadDirectory => Some AgentDtos.FsReadDirectoryParams
  | FsRemove => Some AgentDtos.FsRemoveParams
  | FsCopy => Some AgentDtos.FsCopyParams
  | ProxyRegister => Some AgentDtos.ProxyRegisterParams
  | ProxyUnregister => Some AgentDtos.ProxyUnregisterParams
  end.

(** What it encodes the result from. *)
(* @src crates/nexal-agent/src/server/channel/dispatch.rs dispatch *)
Definition dispatch_result (m : AgentMethod) : Ty :=
  match m with
  | Initialize => AgentDtos.InitializeResponse
  | Initialized => TUnit
  | ProcessStart => AgentDtos.ExecResponse
  | ProcessRead => AgentDtos.ReadResponse
  | ProcessWrite => AgentDtos.WriteResponse
  | ProcessTerminate => AgentDtos.TerminateResponse
  | FsReadFile => AgentDtos.FsReadFileResponse
  | FsWriteFile => AgentDtos.FsWriteFileResponse
  | FsCreateDirectory => AgentDtos.FsCreateDirectoryResponse
  | FsGetMetadata => AgentDtos.FsGetMetadataResponse
  | FsReadDirectory => AgentDtos.FsReadDirectoryResponse
  | FsRemove => AgentDtos.FsRemoveResponse
  | FsCopy => AgentDtos.FsCopyResponse
  | ProxyRegister => AgentDtos.ProxyRegisterResponse
  | ProxyUnregister => AgentDtos.ProxyUnregisterResponse
  end.

(** The agent's notifications: as the client declares them, and as the agent
    sends them. *)
Definition notification_pairs : list (Ty * Ty) :=
  [(TransportDtos.ProcessOutputNotification, AgentDtos.ExecOutputDeltaNotification);
   (TransportDtos.ProcessExitedNotification, AgentDtos.ExecExitedNotification);
   (TransportDtos.ProcessClosedNotification, AgentDtos.ExecClosedNotification)].

(** The types of [define_method_set!] for the gateway's methods. *)
(* @src crates/utils/transport/src/gateway/methods.rs GatewayMethod *)
Definition gateway_params (m : GatewayMethod) : Ty :=
  match m with
  | Hello => TransportDtos.HelloParams
  | SpawnAgent => TransportDtos.SpawnAgentParams
  | KillAgent => TransportDtos.AgentIdParams
  | DetachAgent => TransportDtos.AgentIdParams
  | AttachAgent => TransportDtos.AttachAgentParams
  | ListAgents => TUnit
  | AgentInvoke => TransportDtos.AgentInvokeParams
  | RegisterProxy => TransportDtos.RegisterProxyParams
  | UnregisterProxy => TransportDtos.UnregisterProxyParams
  | RegisterStreamProxy => TransportDtos.RegisterStreamProxyParams
  | UnregisterStreamProxy => TransportDtos.UnregisterStreamProxyParams
  end.

(* @src crates/utils/transport/src/gateway/methods.rs GatewayMethod *)
Definition gateway_result (m : GatewayMethod) : Ty :=
  match m with
  | Hello => TransportDtos.HelloResponse
  | SpawnAgent | AttachAgent => TransportDtos.SpawnAgentResponse
  | KillAgent | DetachAgent | UnregisterProxy | UnregisterStreamProxy => TransportDtos.OkResponse
  | ListAgents => TransportDtos.ListAgentsResponse
  | AgentInvoke => TValue
  | RegisterProxy => TransportDtos.RegisterProxyResponse
  | RegisterStreamProxy => TransportDtos.RegisterStreamProxyResponse
  end.

(** The gateway crate's own declarations of the same messages. *)
Definition gateway_pairs : list (Ty * Ty) :=
  [(GatewayDtos.HelloParams, TransportDtos.HelloParams);
   (GatewayDtos.HelloResponse, TransportDtos.HelloResponse);
   (GatewayDtos.SpawnAgentParams, TransportDtos.SpawnAgentParams);
   (GatewayDtos.SpawnAgentResponse, TransportDtos.SpawnAgentResponse);
   (GatewayDtos.AgentIdParams, TransportDtos.AgentIdParams);
   (GatewayDtos.OkResponse, TransportDtos.OkResponse);
   (GatewayDtos.AttachAgentParams, TransportDtos.AttachAgentParams);
   (GatewayDtos.ListAgentsResponse, TransportDtos.ListAgentsResponse);
   (GatewayDtos.AgentSummary, TransportDtos.AgentSummary);
   (GatewayDtos.AgentInvokeParams, TransportDtos.AgentInvokeParams);
   (GatewayDtos.AgentNotifyParams, TransportDtos.AgentNotifyParams);
   (GatewayDtos.RegisterProxyParams, TransportDtos.RegisterProxyParams);
   (GatewayDtos.RegisterProxyResponse, TransportDtos.RegisterProxyResponse);
   (GatewayDtos.UnregisterProxyParams, TransportDtos.UnregisterProxyParams);
   (GatewayDtos.RegisterStreamProxyParams, TransportDtos.RegisterStreamProxyParams);
   (GatewayDtos.RegisterStreamProxyResponse, TransportDtos.RegisterStreamProxyResponse);
   (GatewayDtos.UnregisterStreamProxyParams, TransportDtos.UnregisterStreamProxyParams)].

(** * Checks *)

Definition reads (p : Ty * Ty) : bool := compat p.1 p.2.
Definition reads_plain (p : Ty * Ty) : bool := plain p.1 && compat p.1 p.2.

Lemma agent_params_compat m t : dispatch_params m = Some t → compat t (agent_params m) = true.
Proof. destruct m; cbn [dispatch_params]; intros [= <-]; vm_compute; reflexivity. Qed.

Lemma agent_result_reads m : reads_plain (agent_result m, dispatch_result m) = true.
Proof. destruct m; vm_compute; reflexivity. Qed.

Lemma notifications_read : forallb reads_plain notification_pairs = true.
Proof. vm_compute. reflexivity. Qed.

Lemma gateway_both_ways :
  forallb (λ p, reads_plain p && reads_plain (p.2, p.1)) gateway_pairs = true.
Proof. vm_compute. reflexivity. Qed.

Lemma tables_self m : reads_plain (agent_params m, agent_params m) = true ∧
  reads_plain (agent_result m, agent_result m) = true.
Proof. destruct m; split; vm_compute; reflexivity. Qed.

Lemma gateway_tables_self m : reads_plain (gateway_params m, gateway_params m) = true ∧
  reads_plain (gateway_result m, gateway_result m) = true.
Proof. destruct m; split; vm_compute; reflexivity. Qed.

Lemma reads_plain_Ok {S : Serde} (L : serde_laws S) r w x :
  reads_plain (r, w) = true → has_ty w x = true →
  ∃ z, de r (ser w x) = Ok z ∧ convert r w x = Ok z ∧ has_ty r z = true.
Proof.
  intros [Hp Hc]%andb_prop Hx. cbn in *. destruct (convert_total r w x Hp Hc Hx) as (z & Hz & Ht & _).
  exists z. split_and!; [|done|done]. by rewrite read_back.
Qed.

Lemma pair_reads l p : forallb reads_plain l = true → p ∈ l → reads_plain p = true.
Proof. rewrite forallb_forall. intros H Hp. by apply H, list_elem_of_In. Qed.

(** * Properties *)

(** C19: The clients and the agent agree on the wire although each side declares
    its own structs.  Parameters of any method, as a client's struct writes
    them, are read by the agent's as the same fields, with the defaults of the
    agent's for those left out and each path resolved, and reading fails only
    where a path cannot be resolved; every result the agent writes is read by
    the client as a value of its struct, and so is every notification.  Only
    one field is lost on the way: the output limit of [process/start]. *)
Theorem agent_protocol_agrees {S : Serde} :
  serde_laws S →
  (∀ m t x, dispatch_params m = Some t → has_ty (agent_params m) x = true →
     de t (ser (agent_params m) x) = convert t (agent_params m) x ∧
     (plain t = true → ∃ z, convert t (agent_params m) x = Ok z ∧ has_ty t z = true) ∧
     dropped t (agent_params m) = if decide (m = ProcessStart) then ["output_bytes_cap"] else []) ∧
  (∀ m y, has_ty (dispatch_result m) y = true →
     ∃ z, de (agent_result m) (ser (dispatch_result m) y) = Ok z ∧
       convert (agent_result m) (dispatch_result m) y = Ok z ∧ has_ty (agent_result m) z = true ∧
       dropped (agent_result m) (dispatch_result m) = []) ∧
  (∀ r w y, (r, w) ∈ notification_pairs → has_ty w y = true →
     ∃ z, de r (ser w y) = Ok z ∧ convert r w y = Ok z ∧ has_ty r z = true).
Proof.
  intros L. split_and!.
  - intros m t x Ht Hx. pose proof (agent_params_compat m t Ht) as Hc. split_and!.
    + by apply read_back.
    + intros Hp. destruct (convert_total t (agent_params m) x Hp Hc Hx) as (z & ? & ? & _). by exists z.
    + destruct m; cbn [dispatch_params] in Ht; try injection Ht as <-; try done; vm_compute; reflexivity.
  - intros m y Hy. destruct (reads_plain_Ok L _ _ y (agent_result_reads m) Hy) as (z & ? & ? & ?).
    exists z. split_and!; [done|done|done|]. destruct m; vm_compute; reflexivity.
  - intros r w y Hrw Hy. apply (reads_plain_Ok L); [|done]. by apply (pair_reads _ _ notifications_read).
Qed.

(** The gateway crate and the transport crate declare the frontend's messages
    twice; each reads all that the other writes, as a value of its own.  One
    field exists on one side only: the workspace of a spawn. *)
Theorem gateway_declarations_agree {S : Serde} r w x :
  serde_laws S → (r, w) ∈ gateway_pairs →
  (has_ty w x = true → ∃ z, de r (ser w x) = Ok z ∧ convert r w x = Ok z ∧ has_ty r z = true) ∧
  (has_ty r x = true → ∃ z, de w (ser r x) = Ok z ∧ convert w r x = Ok z ∧ has_ty w z = true) ∧
  dropped w r = [] ∧
  (dropped r w = [] ∨ w = TransportDtos.SpawnAgentParams ∧ dropped r w = ["workspace"]).
Proof.
  intros L Hp. pose proof gateway_both_ways as Hb. rewrite forallb_forall in Hb.
  pose proof (Hb (r, w) (proj1 (list_elem_of_In _ _) Hp)) as [H1 H2]%andb_prop. cbn [fst snd] in H2.
  split_and!.
  - intros Hx. by apply reads_plain_Ok.
  - intros Hx. by apply reads_plain_Ok.
  - clear Hb H1 H2. unfold gateway_pairs in Hp. repeat (apply elem_of_cons in Hp as [[= -> ->]|Hp]; [reflexivity|]).
    by apply not_elem_of_nil in Hp.
  - clear Hb H1 H2. unfold gateway_pairs in Hp.
    repeat (apply elem_of_cons in Hp as [[= -> ->]|Hp]; [(by left) || (by right)|]).
    by apply not_elem_of_nil in Hp.
Qed.

(** ** Witnesses *)

Definition sample_start : Datum :=
  DStruct [("process_id", DStr "p1"); ("argv", DVec [DStr "ls"]); ("cwd", DStr "/tmp");
           ("env", DMap {["K" := "v"]}); ("tty", DBool false); ("arg0", DOpt None);
           ("output_bytes_cap", DOpt (Some (DInt 4096)))].

#[local] Existing Instance SampleSerde.serde.

(** The output limit a client sets does not reach the agent. *)
Lemma agent_protocol_agrees_witness :
  has_ty (agent_params ProcessStart) sample_start = true ∧
  de AgentDtos.ExecParams (ser (agent_params ProcessStart) sample_start)
  = Ok (DStruct [("process_id", DStr "p1"); ("argv", DVec [DStr "ls"]); ("cwd", DStr "/tmp");
                 ("env", DMap {["K" := "v"]}); ("tty", DBool false); ("arg0", DOpt None)]).
Proof.
  split; [by vm_compute|].
  destruct (agent_protocol_agrees (S := SampleSerde.serde) SampleSerde.serde_ok) as (H & _ & _).
  destruct (H ProcessStart AgentDtos.ExecParams sample_start eq_refl eq_refl) as (-> & _ & _).
  vm_compute. reflexivity.
Defined.

Definition sample_spawn : Datum :=
  DStruct [("name", DStr "a"); ("image", DOpt None); ("env", DMap ∅); ("labels", DMap ∅);
           ("workspace", DOpt (Some (DStr "w1"))); ("extra_ports", DVec [DInt 3389])].

Lemma gateway_declarations_agree_witness :
  ∃ z, de GatewayDtos.SpawnAgentParams (ser TransportDtos.SpawnAgentParams sample_spawn) = Ok z ∧
    convert GatewayDtos.SpawnAgentParams TransportDtos.SpawnAgentParams sample_spawn = Ok z ∧
    has_ty GatewayDtos.SpawnAgentParams z = true.
Proof.
  assert (Hp : (GatewayDtos.SpawnAgentParams, TransportDtos.SpawnAgentParams) ∈ gateway_pairs)
    by (unfold gateway_pairs; right; right; left).
  destruct (gateway_declarations_agree (S := SampleSerde.serde) _ _ sample_spawn SampleSerde.serde_ok Hp)
    as (H & _). apply H. vm_compute. reflexivity.
Defined.
