(* ===== verification/AgentWire.v ===== *)
(** The parameter, result and notification structs of the agent's own
    protocol ([protocol/wire.rs]), as its handlers consume and build them. *)
From S2P Require Import Prelude Wire.

(* @src crates/nexal-agent/src/core/process_id.rs ProcessId *)
Definition ProcessId : Type := string.

(* @src crates/nexal-agent/src/protocol/methods.rs ExecOutputStream *)
Inductive ExecOutputStream := Stdout | Stderr | Pty.

#[export] Instance ExecOutputStream_eq_dec : EqDecision ExecOutputStream.
Proof. solve_decision. Defined.

(* @src crates/nexal-agent/src/protocol/methods.rs WriteStatus *)
Inductive WriteStatus := Accepted | UnknownProcess | StdinClosed | Starting_.

(** * Lifecycle *)

(* @src crates/nexal-agent/src/protocol/wire.rs InitializeParams *)
Record InitializeParams := mkInitializeParams { ip_client_name : string }.

(* @src crates/nexal-agent/src/protocol/wire.rs InitializeResponse *)
Record InitializeResponse := mkInitializeResponse {
  ir_default_shell : option string;
  ir_cwd : option string;
}.

(** * Processes *)

(* @src crates/nexal-agent/src/protocol/wire.rs ExecParams *)
Record ExecParams := mkExecParams {
  ep_process_id : ProcessId;
  ep_argv : list string;
  ep_cwd : string;
  ep_env : gmap string string;
  ep_tty : bool;
  ep_arg0 : option string;
}.

(* @src crates/nexal-agent/src/protocol/wire.rs ExecResponse *)
Record ExecResponse := mkExecResponse { er_process_id : ProcessId }.

(* @src crates/nexal-agent/src/protocol/wire.rs ReadParams *)
Record ReadParams := mkReadParams {
  rp_process_id : ProcessId;
  rp_after_seq : option Z;
  rp_max_bytes : option Z;
  rp_wait_ms : option Z;
}.

(* @src crates/nexal-agent/src/protocol/wire.rs ProcessOutputChunk *)
Record ProcessOutputChunk := mkProcessOutputChunk {
  pc_seq : Z;
  pc_stream : ExecOutputStream;
  pc_chunk : bytes;
}.

(* @src crates/nexal-agent/src/protocol/wire.rs ReadResponse *)
Record ReadResponse := mkReadResponse {
  rr_chunks : list ProcessOutputChunk;
  rr_next_seq : Z;
  rr_exited : bool;
  rr_exit_code : option Z;
  rr_closed : bool;
  rr_failure : option string;
}.

(* @src crates/nexal-agent/src/protocol/wire.rs WriteParams *)
Record WriteParams := mkWriteParams { wp_process_id : ProcessId; wp_chunk : bytes }.

(* @src crates/nexal-agent/src/protocol/wire.rs WriteResponse *)
Record WriteResponse := mkWriteResponse { wr_status : WriteStatus }.

(* @src crates/nexal-agent/src/protocol/wire.rs TerminateParams *)
Record TerminateParams := mkTerminateParams { tp_process_id : ProcessId }.

(* @src crates/nexal-agent/src/protocol/wire.rs TerminateResponse *)
Record TerminateResponse := mkTerminateResponse { tr_running : bool }.

(** * Notifications (agent to gateway) *)

(* @src crates/nexal-agent/src/protocol/wire.rs ExecOutputDeltaNotification *)
Record ExecOutputDeltaNotification := mkOutputDelta {
  on_process_id : ProcessId;
  on_seq : Z;
  on_stream : ExecOutputStream;
  on_chunk : bytes;
}.

(* @src crates/nexal-agent/src/protocol/wire.rs ExecExitedNotification *)
Record ExecExitedNotification := mkExited {
  xn_process_id : ProcessId;
  xn_seq : Z;
  xn_exit_code : Z;
}.

(* @src crates/nexal-agent/src/protocol/wire.rs ExecClosedNotification *)
Record ExecClosedNotification := mkClosed { cn_process_id : ProcessId; cn_seq : Z }.

(* @src crates/nexal-agent/src/process/events.rs ProcessEvent *)
Inductive ProcessEvent :=
  | OutputDelta (n : ExecOutputDeltaNotification)
  | Exited (n : ExecExitedNotification)
  | Closed (n : ExecClosedNotification).

(** The process an event belongs to, and its sequence number. *)
Definition event_pid (e : ProcessEvent) : ProcessId :=
  match e with
  | OutputDelta n => on_process_id n
  | Exited n => xn_process_id n
  | Closed n => cn_process_id n
  end.

Definition event_seq (e : ProcessEvent) : Z :=
  match e with
  | OutputDelta n => on_seq n
  | Exited n => xn_seq n
  | Closed n => cn_seq n
  end.

(* @src crates/utils/transport/src/agent/notifications.rs PROCESS_OUTPUT *)
Definition PROCESS_OUTPUT := "process/output".
(* @src crates/utils/transport/src/agent/notifications.rs PROCESS_EXITED *)
Definition PROCESS_EXITED := "process/exited".
(* @src crates/utils/transport/src/agent/notifications.rs PROCESS_CLOSED *)
Definition PROCESS_CLOSED := "process/closed".

(** * Proxies *)

(* @src crates/nexal-agent/src/protocol/wire.rs ProxyRegisterParams *)
Record ProxyRegisterParams := mkProxyRegisterParams {
  xr_socket_path : string;
  xr_upstream_url : string;
  xr_headers : gmap string string;
}.

(* @src crates/nexal-agent/src/protocol/wire.rs ProxyRegisterResponse *)
Record ProxyRegisterResponse := mkProxyRegisterResponse { xrr_ok : bool }.

(* @src crates/nexal-agent/src/protocol/wire.rs ProxyUnregisterParams *)
Record ProxyUnregisterParams := mkProxyUnregisterParams { xu_socket_path : string }.

(* @src crates/nexal-agent/src/protocol/wire.rs ProxyUnregisterResponse *)
Record ProxyUnregisterResponse := mkProxyUnregisterResponse { xur_ok : bool }.

(** * Filesystem.  An [AbsolutePathBuf] travels as its path text. *)

(* @src crates/nexal-agent/src/protocol/wire.rs FsReadFileParams *)
Record FsReadFileParams := mkFsReadFileParams { frf_path : string }.

(* @src crates/nexal-agent/src/protocol/wire.rs FsReadFileResponse *)
Record FsReadFileResponse := mkFsReadFileResponse { frf_data : bytes }.

(* @src crates/nexal-agent/src/protocol/wire.rs FsWriteFileParams *)
Record FsWriteFileParams := mkFsWriteFileParams { fwf_path : string; fwf_data : bytes }.

(* @src crates/nexal-agent/src/protocol/wire.rs FsWriteFileResponse *)
Record FsWriteFileResponse := mkFsWriteFileResponse {}.

(* @src crates/nexal-agent/src/protocol/wire.rs FsCreateDirectoryParams *)
Record FsCreateDirectoryParams := mkFsCreateDirectoryParams {
  fcd_path : string; fcd_recursive : option bool }.

(* @src crates/nexal-agent/src/protocol/wire.rs FsCreateDirectoryResponse *)
Record FsCreateDirectoryResponse := mkFsCreateDirectoryResponse {}.

(* @src crates/nexal-agent/src/protocol/wire.rs FsGetMetadataParams *)
Record FsGetMetadataParams := mkFsGetMetadataParams { fgm_path : string }.

(* @src crates/nexal-agent/src/protocol/wire.rs FsGetMetadataResponse *)
Record FsGetMetadataResponse := mkFsGetMetadataResponse {
  fgm_is_directory : bool;
  fgm_is_file : bool;
  fgm_created_at_ms : Z;
  fgm_modified_at_ms : Z;
}.

(* @src crates/nexal-agent/src/protocol/wire.rs FsReadDirectoryParams *)
Record FsReadDirectoryParams := mkFsReadDirectoryParams { frd_path : string }.

(* @src crates/nexal-agent/src/protocol/wire.rs FsReadDirectoryEntry *)
Record FsReadDirectoryEntry := mkFsReadDirectoryEntry {
  fde_file_name : string;
  fde_is_directory : bool;
  fde_is_file : bool;
}.

(* @src crates/nexal-agent/src/protocol/wire.rs FsReadDirectoryResponse *)
Record FsReadDirectoryResponse := mkFsReadDirectoryResponse {
  frd_entries : list FsReadDirectoryEntry }.

(* @src crates/nexal-agent/src/protocol/wire.rs FsRemoveParams *)
Record FsRemoveParams := mkFsRemoveParams {
  frm_path : string; frm_recursive : option bool; frm_force : option bool }.

(* @src crates/nexal-agent/src/protocol/wire.rs FsRemoveResponse *)
Record FsRemoveResponse := mkFsRemoveResponse {}.

(* @src crates/nexal-agent/src/protocol/wire.rs FsCopyParams *)
Record FsCopyParams := mkFsCopyParams {
  fcp_source_path : string;
  fcp_destination_path : string;
  fcp_recursive : bool;
}.

(* @src crates/nexal-agent/src/protocol/wire.rs FsCopyResponse *)
Record FsCopyResponse := mkFsCopyResponse {}.
