(* ===== verification/GatewayWire.v ===== *)
(** The parameter and result structs of the frontend's methods
    ([utils/transport/src/gateway/methods.rs]) and how results are encoded. *)
From S2P Require Import Prelude Wire.

(* @src crates/utils/transport/src/gateway/methods.rs HelloParams *)
Record HelloParams := mkHelloParams {
  hp_access_key : string;
  hp_client_name : string;
  hp_ts : Z;
  hp_nonce : string;
  hp_signature : string;
}.

(* @src crates/utils/transport/src/gateway/methods.rs HelloResponse *)
Record HelloResponse := mkHelloResponse {
  hr_ok : bool;
  hr_gateway_version : string;
}.

(* @src crates/utils/transport/src/gateway/methods.rs SpawnAgentParams *)
Record SpawnAgentParams := mkSpawnAgentParams {
  sp_name : string;
  sp_image : option string;
  sp_env : gmap string string;
  sp_labels : gmap string string;
  sp_workspace : option string;
  sp_extra_ports : list Z;
}.

(* @src crates/utils/transport/src/gateway/methods.rs SpawnAgentResponse *)
Record SpawnAgentResponse := mkSpawnAgentResponse {
  sr_agent_id : string;
  sr_container_name : string;
}.

(* @src crates/utils/transport/src/gateway/methods.rs AgentIdParams *)
Record AgentIdParams := mkAgentIdParams {
  ai_agent_id : string;
}.

(* @src crates/utils/transport/src/gateway/methods.rs OkResponse *)
Record OkResponse := mkOkResponse {
  ok_ok : bool;
}.

(* @src crates/utils/transport/src/gateway/methods.rs AttachAgentParams *)
Record AttachAgentParams := mkAttachAgentParams {
  aa_container_name : string;
}.

(* @src crates/utils/transport/src/gateway/methods.rs AgentSummary *)
Record AgentSummary := mkAgentSummary {
  as_agent_id : string;
  as_container_name : string;
  as_created_at_unix_ms : Z;
}.

(* @src crates/utils/transport/src/gateway/methods.rs AgentInvokeParams *)
Record AgentInvokeParams := mkAgentInvokeParams {
  ip_agent_id : string;
  ip_method : string;
  ip_params : option Value;
}.

(* @src crates/utils/transport/src/gateway/methods.rs AgentNotifyParams *)
Record AgentNotifyParams := mkAgentNotifyParams {
  np_agent_id : string;
  np_method : string;
  np_params : option Value;
}.

(* @src crates/utils/transport/src/gateway/methods.rs RegisterProxyParams *)
Record RegisterProxyParams := mkRegisterProxyParams {
  rpp_agent_id : string;
  rpp_name : string;
  rpp_upstream_url : string;
  rpp_headers : gmap string string;
}.

(* @src crates/utils/transport/src/gateway/methods.rs RegisterProxyResponse *)
Record RegisterProxyResponse := mkRegisterProxyResponse {
  rpr_token : string;
  rpr_socket_path : string;
}.

(* @src crates/utils/transport/src/gateway/methods.rs UnregisterProxyParams *)
Record UnregisterProxyParams := mkUnregisterProxyParams {
  upp_agent_id : string;
  upp_name : string;
}.

(* @src crates/utils/transport/src/gateway/methods.rs RegisterStreamProxyParams *)
Record RegisterStreamProxyParams := mkRegisterStreamProxyParams {
  rsp_agent_id : string;
  rsp_name : string;
  rsp_container_port : Z;
}.

(* @src crates/utils/transport/src/gateway/methods.rs RegisterStreamProxyResponse *)
Record RegisterStreamProxyResponse := mkRegisterStreamProxyResponse {
  rsr_listen_addr : string;
}.

(* @src crates/utils/transport/src/gateway/methods.rs UnregisterStreamProxyParams *)
Record UnregisterStreamProxyParams := mkUnregisterStreamProxyParams {
  usp_agent_id : string;
  usp_name : string;
}.

(** * Encoding ([to_msgpack] of a struct: a map with one entry per field) *)

#[export] Instance HelloResponse_to_value : ToValue HelloResponse := λ r,
  VMap [(VStr "ok", VBool (hr_ok r)); (VStr "gateway_version", VStr (hr_gateway_version r))].

#[export] Instance SpawnAgentResponse_to_value : ToValue SpawnAgentResponse := λ r,
  VMap [(VStr "agent_id", VStr (sr_agent_id r));
        (VStr "container_name", VStr (sr_container_name r))].

#[export] Instance OkResponse_to_value : ToValue OkResponse := λ r,
  VMap [(VStr "ok", VBool (ok_ok r))].

#[export] Instance AgentSummary_to_value : ToValue AgentSummary := λ s,
  VMap [(VStr "agent_id", VStr (as_agent_id s));
        (VStr "container_name", VStr (as_container_name s));
        (VStr "created_at_unix_ms", VInt (as_created_at_unix_ms s))].

(* @src crates/utils/transport/src/gateway/methods.rs ListAgentsResponse *)
Record ListAgentsResponse := mkListAgentsResponse { la_agents : list AgentSummary }.

#[export] Instance ListAgentsResponse_to_value : ToValue ListAgentsResponse := λ r,
  VMap [(VStr "agents", VArray (map to_value (la_agents r)))].

#[export] Instance AgentNotifyParams_to_value : ToValue AgentNotifyParams := λ n,
  VMap ([(VStr "agent_id", VStr (np_agent_id n)); (VStr "method", VStr (np_method n))]
        ++ opt_field "params" (np_params n)).

#[export] Instance RegisterProxyResponse_to_value : ToValue RegisterProxyResponse := λ r,
  VMap [(VStr "token", VStr (rpr_token r)); (VStr "socket_path", VStr (rpr_socket_path r))].

#[export] Instance RegisterStreamProxyResponse_to_value : ToValue RegisterStreamProxyResponse := λ r,
  VMap [(VStr "listen_addr", VStr (rsr_listen_addr r))].
