(* ===== verification/Process.v ===== *)
(** The agent's process table ([process/local.rs]).

    [Inner] is the shared state behind [LocalProcess].  Every section of the
    code that runs under the [processes] lock is one definition; the code
    between two locks runs on its own task, so the system of Section
    [machine] interleaves those sections freely.  Launching a child is
    the operating system's work: a launch outcome is an input. *)
From S2P Require Import Prelude Wire AgentWire.

(* @src crates/nexal-agent/src/process/local.rs RETAINED_OUTPUT_BYTES_PER_PROCESS *)
Definition RETAINED_OUTPUT_BYTES_PER_PROCESS : Z := 1024 * 1024.

(* @src crates/nexal-agent/src/process/local.rs RetainedOutputChunk *)
Record RetainedOutputChunk := mkRetained {
  rc_seq : Z;
  rc_stream : ExecOutputStream;
  rc_chunk : bytes;
}.

(** A child's session handle ([ExecCommandSession]), named by a number. *)
Definition SessionId := nat.

(* @src crates/nexal-agent/src/process/local.rs RunningProcess *)
Record RunningProcess := mkRunning {
  p_session : SessionId;
  p_tty : bool;
  p_output : list RetainedOutputChunk;
  p_retained_bytes : Z;
  p_next_seq : Z;
  p_exit_code : option Z;
  p_open_streams : Z;
  p_closed : bool;
}.

(* @src crates/nexal-agent/src/process/local.rs ProcessEntry *)
Inductive ProcessEntry :=
  | Starting
  | Running (p : RunningProcess).

(* @src crates/nexal-agent/src/process/local.rs Inner *)
Record Inner := mkInner {
  processes : gmap ProcessId ProcessEntry;
  initialize_requested : bool;
  initialized_flag : bool;
}.

(* @src crates/nexal-agent/src/process/local.rs new *)
Definition LocalProcess_new : Inner := mkInner ∅ false false.

Definition with_processes (f : gmap ProcessId ProcessEntry → gmap ProcessId ProcessEntry)
    (st : Inner) : Inner :=
  mkInner (f (processes st)) (initialize_requested st) (initialized_flag st).

(** The running process under an id. *)
Definition running (st : Inner) (pid : ProcessId) : option RunningProcess :=
  match processes st !! pid with Some (Running p) => Some p | _ => None end.

Definition set_running (pid : ProcessId) (p : RunningProcess) : Inner → Inner :=
  with_processes (<[pid := Running p]>).

(** * Lifecycle *)

(* @src crates/nexal-agent/src/process/local.rs shutdown *)
Definition shutdown (st : Inner) : Inner * list SessionId :=
  (with_processes (λ _, ∅) st,
   omap (λ kv : ProcessId * ProcessEntry,
           match kv.2 with Starting => None | Running p => Some (p_session p) end)
        (map_to_list (processes st))).

(* @src crates/nexal-agent/src/process/local.rs initialize *)
Definition initialize (default_shell cwd : option string) (st : Inner)
    : Inner * result InitializeResponse ChannelError :=
  let st' := mkInner (processes st) true (initialized_flag st) in
  if initialize_requested st then
    (st', Err (invalid_request "initialize may only be sent once per connection"))
  else (st', Ok (mkInitializeResponse default_shell cwd)).

(* @src crates/nexal-agent/src/process/local.rs initialized *)
Definition initialized (st : Inner) : Inner * result unit string :=
  if initialize_requested st then
    (mkInner (processes st) (initialize_requested st) true, Ok tt)
  else (st, Err "received `initialized` notification before `initialize`").

(* @src crates/nexal-agent/src/process/local.rs require_initialized_for *)
Definition require_initialized_for (st : Inner) (method_family : string)
    : result unit ChannelError :=
  if negb (initialize_requested st) then
    Err (invalid_request ("client must call initialize before using "
                          +:+ method_family +:+ " methods"))
  else if negb (initialized_flag st) then
    Err (invalid_request ("client must send initialized before using "
                          +:+ method_family +:+ " methods"))
  else Ok tt.

(** * Starting a process *)

(* @src crates/nexal-agent/src/process/local.rs start_process "self.require_initialized_for" .. "process_map.insert(process_id.clone(), ProcessEntry::Starting);" *)
Definition start_reserve (params : ExecParams) (st : Inner) : result Inner ChannelError :=
  _ ←? require_initialized_for st "exec";
  match ep_argv params with
  | [] => Err (invalid_params "argv must not be empty")
  | _ :: _ =>
      let pid := ep_process_id params in
      if decide (is_Some (processes st !! pid)) then
        Err (invalid_request ("process " +:+ pid +:+ " already exists"))
      else Ok (with_processes (<[pid := Starting]>) st)
  end.

(* @src crates/nexal-agent/src/process/local.rs start_process "ProcessEntry::Running(Box::new(RunningProcess {" .. "closed: false," *)
Definition initial_process (session : SessionId) (tty : bool) : RunningProcess :=
  mkRunning session tty [] 0 1 None 2 false.

(** The second half, once the launch has an outcome: a session or an error. *)
(* @src crates/nexal-agent/src/process/local.rs start_process "let spawned = match spawned_result" .. "Ok((ExecResponse { process_id }, wake_tx))" *)
Definition start_commit (params : ExecParams) (spawned_result : result SessionId string)
    (st : Inner) : Inner * result ExecResponse ChannelError :=
  let pid := ep_process_id params in
  match spawned_result with
  | Err err =>
      (match processes st !! pid with
       | Some Starting => with_processes (delete pid) st
       | _ => st
       end, Err (internal_error err))
  | Ok session =>
      (set_running pid (initial_process session (ep_tty params)) st,
       Ok (mkExecResponse pid))
  end.

(** The streams the two reader tasks carry. *)
(* @src crates/nexal-agent/src/process/local.rs start_process "tokio::spawn(stream_output(" .. "output_notify,"  *)
Definition reader_streams (tty : bool) : list ExecOutputStream :=
  if tty then [Pty; Pty] else [Stdout; Stderr].

(** Without other tasks in between, the call is its two halves. *)
(* @src crates/nexal-agent/src/process/local.rs exec *)
Definition exec (params : ExecParams) (spawned_result : result SessionId string)
    (st : Inner) : Inner * result ExecResponse ChannelError :=
  match start_reserve params st with
  | Err e => (st, Err e)
  | Ok st1 => start_commit params spawned_result st1
  end.

(** * Output, exit, close *)

(** Drop retained chunks from the front while the budget is exceeded. *)
(* @src crates/nexal-agent/src/process/local.rs stream_output "while process.retained_bytes > RETAINED_OUTPUT_BYTES_PER_PROCESS" .. "process.retained_bytes = process.retained_bytes.saturating_sub(evicted.chunk.len());" *)
Fixpoint evict (output : list RetainedOutputChunk) (retained_bytes : Z)
    : list RetainedOutputChunk * Z :=
  match output with
  | [] => ([], retained_bytes)
  | evicted :: rest =>
      if (RETAINED_OUTPUT_BYTES_PER_PROCESS <? retained_bytes)%Z
      then evict rest (saturating_sub retained_bytes (len (rc_chunk evicted)))
      else (output, retained_bytes)
  end.

(** One chunk of a reader: [None] is the [break] that ends the task. *)
(* @src crates/nexal-agent/src/process/local.rs stream_output "while let Some(chunk) = receiver.recv().await" .. "output_notify.notify_waiters();" *)
Definition push_output (pid : ProcessId) (stream : ExecOutputStream) (chunk : bytes)
    (st : Inner) : option (Inner * ExecOutputDeltaNotification) :=
  match processes st !! pid with
  | Some (Running p) =>
      let seq := p_next_seq p in
      let '(output, retained) :=
        evict (p_output p ++ [mkRetained seq stream chunk])
              (p_retained_bytes p + len chunk) in
      Some (set_running pid
              (mkRunning (p_session p) (p_tty p) output retained (wrap_u64 (seq + 1))
                 (p_exit_code p) (p_open_streams p) (p_closed p)) st,
            mkOutputDelta pid seq stream chunk)
  | _ => None
  end.

(* @src crates/nexal-agent/src/process/local.rs watch_exit "let exit_code = exit_rx.await.unwrap_or(-1);" .. "output_notify.notify_waiters();" *)
Definition record_exit (pid : ProcessId) (exit : option Z) (st : Inner)
    : Inner * option ExecExitedNotification :=
  let exit_code := default (-1)%Z exit in
  match processes st !! pid with
  | Some (Running p) =>
      let seq := p_next_seq p in
      (set_running pid
         (mkRunning (p_session p) (p_tty p) (p_output p) (p_retained_bytes p)
            (wrap_u64 (seq + 1)) (Some exit_code) (p_open_streams p) (p_closed p)) st,
       Some (mkExited pid seq exit_code))
  | _ => (st, None)
  end.

(* @src crates/nexal-agent/src/process/local.rs finish_output_stream *)
Definition finish_output_stream (pid : ProcessId) (st : Inner) : option Inner :=
  match processes st !! pid with
  | Some (Running p) =>
      let open := if decide (0 < p_open_streams p)%Z then (p_open_streams p - 1)%Z
                  else p_open_streams p in
      Some (set_running pid
              (mkRunning (p_session p) (p_tty p) (p_output p) (p_retained_bytes p)
                 (p_next_seq p) (p_exit_code p) open (p_closed p)) st)
  | _ => None
  end.

(* @src crates/nexal-agent/src/process/local.rs maybe_emit_closed *)
Definition maybe_emit_closed (pid : ProcessId) (st : Inner)
    : Inner * option ExecClosedNotification :=
  match processes st !! pid with
  | Some (Running p) =>
      if p_closed p || negb (bool_decide (p_open_streams p = 0%Z))
         || negb (bool_decide (is_Some (p_exit_code p)))
      then (st, None)
      else
        let seq := p_next_seq p in
        (set_running pid
           (mkRunning (p_session p) (p_tty p) (p_output p) (p_retained_bytes p)
              (wrap_u64 (seq + 1)) (p_exit_code p) (p_open_streams p) true) st,
         Some (mkClosed pid seq))
  | _ => (st, None)
  end.

(** The retention timer after an exit. *)
(* @src crates/nexal-agent/src/process/local.rs watch_exit "tokio::time::sleep(EXITED_PROCESS_RETENTION).await;" .. "processes.remove(&process_id);" *)
Definition expire (pid : ProcessId) (exit : option Z) (st : Inner) : Inner :=
  match processes st !! pid with
  | Some (Running p) =>
      if decide (p_exit_code p = Some (default (-1)%Z exit))
      then with_processes (delete pid) st else st
  | _ => st
  end.

(** * Reading *)

(** The collection loop over the chunks after the cursor: [next_seq] and
    [total] are its two accumulators. *)
(* @src crates/nexal-agent/src/process/local.rs exec_read "for retained in process.output.iter()" .. "if total_bytes >= max_bytes" *)
Fixpoint read_loop (max_bytes : Z) (pending : list RetainedOutputChunk)
    (chunks : list ProcessOutputChunk) (total next_seq : Z)
    : list ProcessOutputChunk * Z :=
  match pending with
  | [] => (chunks, next_seq)
  | retained :: rest =>
      let chunk_len := len (rc_chunk retained) in
      if negb (bool_decide (chunks = [])) && (max_bytes <? total + chunk_len)%Z
      then (chunks, next_seq)
      else
        let total' := (total + chunk_len)%Z in
        let chunks' := chunks ++ [mkProcessOutputChunk (rc_seq retained)
                                    (rc_stream retained) (rc_chunk retained)] in
        let next' := wrap_u64 (rc_seq retained + 1) in
        if (max_bytes <=? total')%Z then (chunks', next')
        else read_loop max_bytes rest chunks' total' next'
  end.

#[export] Instance ProcessOutputChunk_eq_dec : EqDecision ProcessOutputChunk.
Proof. solve_decision. Defined.

(* @src crates/nexal-agent/src/process/local.rs exec_read "let mut chunks = Vec::new();" .. "failure: None," *)
Definition read_process (after_seq max_bytes : Z) (p : RunningProcess) : ReadResponse :=
  let '(chunks, next_seq) :=
    read_loop max_bytes (filter (λ c, after_seq < rc_seq c)%Z (p_output p))
      [] 0 (p_next_seq p) in
  mkReadResponse chunks next_seq (bool_decide (is_Some (p_exit_code p)))
    (p_exit_code p) (p_closed p) None.

(** One turn of the read loop: answer now, or wait for a notification.
    [expired] says whether the deadline has passed. *)
Inductive read_turn := Answer (r : ReadResponse) | Wait.

(* @src crates/nexal-agent/src/process/local.rs exec_read "loop {" .. "let _ = tokio::time::timeout" *)
Definition exec_read_turn (params : ReadParams) (st : Inner) (expired : bool)
    : result read_turn ChannelError :=
  let pid := rp_process_id params in
  match processes st !! pid with
  | None => Err (invalid_request ("unknown process id " +:+ pid))
  | Some Starting => Err (invalid_request ("process id " +:+ pid +:+ " is starting"))
  | Some (Running p) =>
      let response := read_process (default 0%Z (rp_after_seq params))
                        (default USIZE_MAX (rp_max_bytes params)) p in
      if negb (bool_decide (rr_chunks response = [])) || rr_exited response || expired
      then Ok (Answer response) else Ok Wait
  end.

(** The whole call over the states and clock readings it observes, one per
    wake-up; [None] if it is still waiting when they run out. *)
(* @src crates/nexal-agent/src/process/local.rs exec_read *)
Fixpoint exec_read_over (params : ReadParams) (observed : list (Inner * bool))
    : option (result ReadResponse ChannelError) :=
  match observed with
  | [] => None
  | (st, expired) :: rest =>
      match exec_read_turn params st expired with
      | Err e => Some (Err e)
      | Ok (Answer r) => Some (Ok r)
      | Ok Wait => exec_read_over params rest
      end
  end.

(* @src crates/nexal-agent/src/process/local.rs exec_read *)
Definition exec_read (params : ReadParams) (first : Inner) (observed : list (Inner * bool))
    : option (result ReadResponse ChannelError) :=
  match require_initialized_for first "exec" with
  | Err e => Some (Err e)
  | Ok _ => exec_read_over params observed
  end.

(** * Writing and terminating *)

(** The session the chunk goes to, or the status reported without sending. *)
(* @src crates/nexal-agent/src/process/local.rs exec_write "let writer_tx = {" .. "process.session.writer_sender()" *)
Definition write_target (params : WriteParams) (st : Inner) : WriteStatus + SessionId :=
  match processes st !! wp_process_id params with
  | None => inl UnknownProcess
  | Some Starting => inl Starting_
  | Some (Running p) => if p_tty p then inr (p_session p) else inl StdinClosed
  end.

(** [send] is the session's writer channel: [true] if it took the chunk. *)
(* @src crates/nexal-agent/src/process/local.rs exec_write *)
Definition exec_write (send : SessionId → bytes → bool) (params : WriteParams) (st : Inner)
    : result WriteResponse ChannelError :=
  _ ←? require_initialized_for st "exec";
  match write_target params st with
  | inl status => Ok (mkWriteResponse status)
  | inr session =>
      if send session (wp_chunk params) then Ok (mkWriteResponse Accepted)
      else Err (internal_error "failed to write to process stdin")
  end.

(** The response, and the session that was told to terminate. *)
(* @src crates/nexal-agent/src/process/local.rs terminate_process *)
Definition terminate_process (params : TerminateParams) (st : Inner)
    : result (TerminateResponse * option SessionId) ChannelError :=
  _ ←? require_initialized_for st "exec";
  match processes st !! tp_process_id params with
  | Some (Running p) =>
      if decide (is_Some (p_exit_code p)) then Ok (mkTerminateResponse false, None)
      else Ok (mkTerminateResponse true, Some (p_session p))
  | Some Starting | None => Ok (mkTerminateResponse false, None)
  end.

(** * The tasks around the table

    [start_process] spawns two readers and one exit watcher.  A task holds
    its place in the code between two lock sections. *)

Inductive task :=
  | TLaunch (params : ExecParams)                       (* awaiting the launch *)
  | TRead (pid : ProcessId) (stream : ExecOutputStream) (* receiver.recv().await *)
  | TSendOutput (pid : ProcessId) (stream : ExecOutputStream)
      (n : ExecOutputDeltaNotification)                 (* notify(..).await *)
  | TFinish (pid : ProcessId)                           (* finish_output_stream *)
  | TWatch (pid : ProcessId)                            (* exit_rx.await *)
  | TSendExited (pid : ProcessId) (exit : option Z) (n : ExecExitedNotification)
  | TClose (pid : ProcessId) (k : option (option Z))    (* maybe_emit_closed *)
  | TSendClosed (pid : ProcessId) (k : option (option Z)) (n : ExecClosedNotification)
  | TSleep (pid : ProcessId) (exit : option Z).         (* retention sleep *)

(** What a waiting task is woken with. *)
Inductive input :=
  | IChunk (chunk : bytes)
  | IEof
  | ISend (accepted : bool)
  | IExit (code : option Z)
  | ILaunched (r : result SessionId string)
  | IGo.

(** After [maybe_emit_closed] a reader is done; the watcher goes to sleep. *)
Definition continue (pid : ProcessId) (k : option (option Z)) : list task :=
  match k with Some exit => [TSleep pid exit] | None => [] end.

(** One step of a task: the new table, the tasks it becomes, and the events it
    broadcasts; [None] if the input is not one it waits for. *)
(* @src crates/nexal-agent/src/process/local.rs stream_output *)
Definition stream_output_step (t : task) (i : input) (st : Inner)
    : option (Inner * list task * list ProcessEvent) :=
  match t, i with
  | TRead pid stream, IChunk chunk =>
      match push_output pid stream chunk st with
      | Some (st', n) => Some (st', [TSendOutput pid stream n], [])
      | None => Some (st, [TFinish pid], [])
      end
  | TRead pid stream, IEof => Some (st, [TFinish pid], [])
  | TSendOutput pid stream n, ISend true => Some (st, [TRead pid stream], [OutputDelta n])
  | TSendOutput pid stream n, ISend false => Some (st, [TFinish pid], [])
  | TFinish pid, IGo =>
      match finish_output_stream pid st with
      | Some st' => Some (st', [TClose pid None], [])
      | None => Some (st, [], [])
      end
  | _, _ => None
  end.

(* @src crates/nexal-agent/src/process/local.rs watch_exit *)
Definition watch_exit_step (t : task) (i : input) (st : Inner)
    : option (Inner * list task * list ProcessEvent) :=
  match t, i with
  | TWatch pid, IExit code =>
      match record_exit pid code st with
      | (st', Some n) => Some (st', [TSendExited pid code n], [])
      | (st', None) => Some (st', [TClose pid (Some code)], [])
      end
  | TSendExited pid code n, ISend true =>
      Some (st, [TClose pid (Some code)], [Exited n])
  | TSendExited pid code n, ISend false => Some (st, [], [])
  | TSleep pid code, IGo => Some (expire pid code st, [], [])
  | _, _ => None
  end.

(* @src crates/nexal-agent/src/process/local.rs maybe_emit_closed *)
Definition close_step (t : task) (i : input) (st : Inner)
    : option (Inner * list task * list ProcessEvent) :=
  match t, i with
  | TClose pid k, IGo =>
      match maybe_emit_closed pid st with
      | (st', Some n) => Some (st', [TSendClosed pid k n], [])
      | (st', None) => Some (st', continue pid k, [])
      end
  | TSendClosed pid k n, ISend _ => Some (st, continue pid k, [Closed n])
  | _, _ => None
  end.

(* @src crates/nexal-agent/src/process/local.rs start_process *)
Definition launch_step (t : task) (i : input) (st : Inner)
    : option (Inner * list task * list ProcessEvent) :=
  match t, i with
  | TLaunch params, ILaunched r =>
      let pid := ep_process_id params in
      match start_commit params r st with
      | (st', Ok _) =>
          Some (st', (TRead pid <$> reader_streams (ep_tty params)) ++ [TWatch pid], [])
      | (st', Err _) => Some (st', [], [])
      end
  | _, _ => None
  end.

Definition run_task (t : task) (i : input) (st : Inner)
    : option (Inner * list task * list ProcessEvent) :=
  match t with
  | TLaunch _ => launch_step t i st
  | TRead _ _ | TSendOutput _ _ _ | TFinish _ => stream_output_step t i st
  | TWatch _ | TSendExited _ _ _ | TSleep _ _ => watch_exit_step t i st
  | TClose _ _ | TSendClosed _ _ _ => close_step t i st
  end.

(** The agent's process component: the table, the live tasks, the events
    broadcast so far, and the ids ever handed to [start_process]. *)
Record Sys := mkSys {
  inner : Inner;
  tasks : list task;
  log : list ProcessEvent;
  used : gset ProcessId;
}.

Inductive label :=
  | LCall (params : ExecParams)
  | LTask (index : nat) (i : input)
  | LInitialize | LInitialized | LShutdown.

Definition sys_step (s : Sys) (l : label) : option Sys :=
  match l with
  | LCall params =>
      match start_reserve params (inner s) with
      | Ok st => Some (mkSys st (tasks s ++ [TLaunch params]) (log s)
                         ({[ep_process_id params]} ∪ used s))
      | Err _ => Some s
      end
  | LTask n i =>
      t ← tasks s !! n;
      '(st, ts, evs) ← run_task t i (inner s);
      Some (mkSys st (take n (tasks s) ++ ts ++ drop (S n) (tasks s)) (log s ++ evs) (used s))
  | LInitialize => Some (mkSys (initialize None None (inner s)).1 (tasks s) (log s) (used s))
  | LInitialized => Some (mkSys (initialized (inner s)).1 (tasks s) (log s) (used s))
  | LShutdown => Some (mkSys (shutdown (inner s)).1 (tasks s) (log s) (used s))
  end.

Definition sys_init : Sys := mkSys LocalProcess_new [] [] ∅.

Fixpoint sys_run (s : Sys) (ls : list label) : option Sys :=
  match ls with
  | [] => Some s
  | l :: ls' => s' ← sys_step s l; sys_run s' ls'
  end.

(** A client that never uses a process id twice. *)
Fixpoint fresh_ids (seen : gset ProcessId) (ls : list label) : bool :=
  match ls with
  | [] => true
  | LCall params :: ls' =>
      bool_decide (ep_process_id params ∉ seen) &&
      fresh_ids ({[ep_process_id params]} ∪ seen) ls'
  | _ :: ls' => fresh_ids seen ls'
  end.

(** * Specifications *)

Definition chunk_bytes (output : list RetainedOutputChunk) : Z :=
  sum_Z (map (λ c, len (rc_chunk c)) output).

(** Well-formed running process: the budget accounting is exact, sequence
    numbers grow and stay below the next one, and [closed] is only set on a
    process that has exited with both streams finished. *)
Record process_wf (p : RunningProcess) : Prop := {
  wf_retained : p_retained_bytes p = chunk_bytes (p_output p);
  wf_budget : (p_retained_bytes p ≤ RETAINED_OUTPUT_BYTES_PER_PROCESS)%Z;
  wf_increasing : increasing (map rc_seq (p_output p));
  wf_seqs : Forall (λ c, 1 ≤ rc_seq c < p_next_seq p)%Z (p_output p);
  wf_next : (1 ≤ p_next_seq p)%Z;
  wf_streams : (0 ≤ p_open_streams p ≤ 2)%Z;
  wf_closed : p_closed p = true → p_open_streams p = 0%Z ∧ is_Some (p_exit_code p);
}.

(** Every process of the table is well-formed and has used at most [n]
    sequence numbers. *)
Definition table_wf (n : Z) (st : Inner) : Prop :=
  map_Forall (λ _ e, match e with
                     | Starting => True
                     | Running p => process_wf p ∧ (p_next_seq p ≤ 1 + n)%Z
                     end) (processes st).

(** Tasks that still count as an open stream of [pid]. *)
Definition is_reader (pid : ProcessId) (t : task) : bool :=
  match t with
  | TRead q _ | TSendOutput q _ _ | TFinish q => bool_decide (q = pid)
  | _ => false
  end.

Definition readers (pid : ProcessId) (ts : list task) : Z :=
  Z.of_nat (length (filter (λ t, is_reader pid t = true) ts)).

(** Events whose sequence number is taken but which are not broadcast yet. *)
Definition in_flight (t : task) : list ProcessEvent :=
  match t with
  | TSendOutput _ _ n => [OutputDelta n]
  | TSendExited _ _ n => [Exited n]
  | TSendClosed _ _ n => [Closed n]
  | _ => []
  end.

(** Output events of [pid], and whether its closed event is out. *)
Definition is_output_of (pid : ProcessId) (e : ProcessEvent) : Prop :=
  match e with OutputDelta n => on_process_id n = pid | _ => False end.

Definition is_closed_of (pid : ProcessId) (e : ProcessEvent) : Prop :=
  match e with Closed n => cn_process_id n = pid | _ => False end.

(** * The budget *)

Lemma chunk_bytes_app a b : chunk_bytes (a ++ b) = (chunk_bytes a + chunk_bytes b)%Z.
Proof. unfold chunk_bytes. by rewrite map_app, sum_Z_app. Qed.

Lemma chunk_bytes_nonneg l : (0 ≤ chunk_bytes l)%Z.
Proof.
  apply sum_Z_nonneg, Forall_forall. intros z Hz.
  apply list_elem_of_In, in_map_iff in Hz as (c & <- & _). apply len_nonneg.
Qed.

Lemma evict_spec output r :
  r = chunk_bytes output →
  ∃ k, (evict output r).1 = drop k output ∧
       (evict output r).2 = chunk_bytes (drop k output) ∧
       (chunk_bytes (drop k output) ≤ RETAINED_OUTPUT_BYTES_PER_PROCESS)%Z ∧
       (∀ j, (j < k)%nat → (RETAINED_OUTPUT_BYTES_PER_PROCESS < chunk_bytes (drop j output))%Z).
Proof.
  revert r. induction output as [|c output IH]; intros r Hr.
  { exists 0. simpl in *. subst r. unfold RETAINED_OUTPUT_BYTES_PER_PROCESS.
    repeat split; try (cbn; lia). }
  cbn [evict]. destruct (Z.ltb_spec RETAINED_OUTPUT_BYTES_PER_PROCESS r) as [Hlt|Hge].
  - assert (saturating_sub r (len (rc_chunk c)) = chunk_bytes output) as Hs.
    { subst r. unfold saturating_sub. pose proof (chunk_bytes_nonneg output).
      unfold chunk_bytes in *. simpl. lia. }
    destruct (IH _ Hs) as (k & H1 & H2 & H3 & H4).
    exists (S k). cbn [drop]. repeat split; try done.
    intros [|j] Hj; [by subst|]. apply H4. lia.
  - exists 0. cbn [drop]. subst r. repeat split; try done. lia.
Qed.

(** * Preservation by the lock sections *)

Lemma initial_process_wf session tty : process_wf (initial_process session tty).
Proof.
  unfold initial_process, RETAINED_OUTPUT_BYTES_PER_PROCESS.
  split; cbn; try lia; try done; constructor.
Qed.

Lemma increasing_drop k l : increasing l → increasing (drop k l).
Proof.
  intros H. rewrite <- (take_drop k l) in H. by apply increasing_app in H as (_ & ? & _).
Qed.

Lemma push_process_wf p stream chunk output retained :
  process_wf p → (p_next_seq p + 1 < 2 ^ 64)%Z →
  evict (p_output p ++ [mkRetained (p_next_seq p) stream chunk])
    (p_retained_bytes p + len chunk) = (output, retained) →
  process_wf (mkRunning (p_session p) (p_tty p) output retained
                (wrap_u64 (p_next_seq p + 1)) (p_exit_code p) (p_open_streams p)
                (p_closed p)).
Proof.
  intros [Hr Hb Hi Hs Hn Ho Hc] Hlt Hev.
  destruct (evict_spec (p_output p ++ [mkRetained (p_next_seq p) stream chunk])
              (p_retained_bytes p + len chunk)) as (k & H1 & H2 & H3 & _).
  { rewrite chunk_bytes_app. cbn. lia. }
  rewrite Hev in H1, H2. simpl in H1, H2. subst output retained.
  rewrite wrap_u64_small by lia.
  assert (Forall (λ c, 1 ≤ rc_seq c < p_next_seq p + 1)%Z
            (p_output p ++ [mkRetained (p_next_seq p) stream chunk])) as Hall.
  { apply Forall_app. split; [|repeat constructor; cbn; lia].
    eapply Forall_impl; [exact Hs|]. cbn. lia. }
  split; cbn; try done; try lia.
  - rewrite <- fmap_drop_map; apply increasing_drop. rewrite map_app.
    apply increasing_snoc; [done|]. apply Forall_map.
    eapply Forall_impl; [exact Hs|]. cbn. lia.
  - by apply Forall_drop.
Qed.

Section preservation.
Context (n : Z) (Hn : (n + 2 < 2 ^ 64)%Z).

Lemma table_wf_lookup st pid p :
  table_wf n st → processes st !! pid = Some (Running p) →
  process_wf p ∧ (p_next_seq p ≤ 1 + n)%Z.
Proof. intros H Hp. exact (H pid _ Hp). Qed.

Lemma table_wf_set st pid p m :
  (n ≤ m)%Z → table_wf n st → process_wf p → (p_next_seq p ≤ 1 + m)%Z →
  table_wf m (set_running pid p st).
Proof.
  intros Hm H Hp Hq. unfold table_wf, set_running, with_processes. cbn.
  apply map_Forall_insert_2; [done|].
  eapply map_Forall_impl; [exact H|]. intros ? [|?]; [done|]. cbn. intros [??]. split; [done|lia].
Qed.

Lemma table_wf_mono st m : (n ≤ m)%Z → table_wf n st → table_wf m st.
Proof.
  intros Hm H. eapply map_Forall_impl; [exact H|].
  intros ? [|?]; [done|]. cbn. intros [??]. split; [done|lia].
Qed.

Lemma table_wf_delete st pid :
  table_wf n st → table_wf n (with_processes (delete pid) st).
Proof. intros H. unfold table_wf, with_processes. cbn. by apply map_Forall_delete. Qed.

Lemma push_output_wf st pid stream chunk st' ev :
  table_wf n st → push_output pid stream chunk st = Some (st', ev) →
  table_wf (n + 1) st'.
Proof.
  intros H Hp. unfold push_output in Hp.
  destruct (processes st !! pid) as [[|p]|] eqn:E; try done.
  destruct (table_wf_lookup _ _ _ H E) as [Hwf Hnx].
  destruct (evict _ _) as [output retained] eqn:Hev. simplify_eq.
  apply table_wf_set; [lia|done| |].
  - apply push_process_wf with stream chunk; [done|lia|done].
  - cbn. pose proof (wf_next _ Hwf). rewrite wrap_u64_small; lia.
Qed.

Lemma record_exit_wf st pid exit :
  table_wf n st → table_wf (n + 1) (record_exit pid exit st).1.
Proof.
  intros H. unfold record_exit.
  destruct (processes st !! pid) as [[|p]|] eqn:E; cbn;
    try (apply table_wf_mono; [lia|done]).
  destruct (table_wf_lookup _ _ _ H E) as [Hwf Hnx]. pose proof (wf_next _ Hwf).
  destruct Hwf. rewrite wrap_u64_small by lia.
  apply table_wf_set; [lia|done| |cbn; lia]. split; cbn; try done; try lia.
  - eapply Forall_impl; [done|]. cbn. lia.
  - intros Hc. split; [by apply wf_closed0|eauto].
Qed.

Lemma finish_output_stream_wf st pid st' :
  table_wf n st → finish_output_stream pid st = Some st' → table_wf n st'.
Proof.
  intros H Hf. unfold finish_output_stream in Hf.
  destruct (processes st !! pid) as [[|p]|] eqn:E; simplify_eq.
  destruct (table_wf_lookup _ _ _ H E) as [[] Hnx].
  apply table_wf_set; [lia|done| |done].
  case_decide; split; cbn; try done; try lia;
    intros Hc; destruct (wf_closed0 Hc); split; (done || lia).
Qed.

Lemma maybe_emit_closed_wf st pid :
  table_wf n st → table_wf (n + 1) (maybe_emit_closed pid st).1.
Proof.
  intros H. unfold maybe_emit_closed.
  destruct (processes st !! pid) as [[|p]|] eqn:E; cbn;
    try (apply table_wf_mono; [lia|done]).
  destruct (table_wf_lookup _ _ _ H E) as [Hwf Hnx]. pose proof (wf_next _ Hwf).
  destruct (p_closed p || _ || _) eqn:Hg; cbn; [apply table_wf_mono; [lia|done]|].
  apply orb_false_iff in Hg as [Hg Hx]. apply orb_false_iff in Hg as [Hcl Ho].
  apply negb_false_iff, bool_decide_eq_true in Hx, Ho.
  destruct Hwf. rewrite wrap_u64_small by lia.
  apply table_wf_set; [lia|done| |cbn; lia]. split; cbn; try done; try lia.
  eapply Forall_impl; [done|]. cbn. lia.
Qed.

Lemma expire_wf st pid exit : table_wf n st → table_wf n (expire pid exit st).
Proof.
  intros H. unfold expire. case_match; [|done]. case_match; [done|].
  case_decide; [by apply table_wf_delete|done].
Qed.

Lemma start_commit_wf st params r :
  table_wf n st → (0 ≤ n)%Z → table_wf n (start_commit params r st).1.
Proof.
  intros H H0. destruct r as [session|err]; cbn.
  - apply table_wf_set; [lia|done|apply initial_process_wf|cbn; lia].
  - case_match; [|done]. case_match; [by apply table_wf_delete|done].
Qed.

Lemma start_reserve_wf st params st' :
  table_wf n st → start_reserve params st = Ok st' → table_wf n st'.
Proof.
  intros H Hs. unfold start_reserve in Hs. apply res_bind_Ok in Hs as (? & _ & Hs).
  case_match; [done|]. case_decide; [done|]. simplify_eq.
  unfold table_wf, with_processes. cbn. by apply map_Forall_insert_2.
Qed.
End preservation.

Lemma run_task_wf n t i st st' ts evs :
  (n + 2 < 2 ^ 64)%Z → (0 ≤ n)%Z → table_wf n st →
  run_task t i st = Some (st', ts, evs) → table_wf (n + 1) st'.
Proof.
  intros Hn H0 H Hr.
  assert (table_wf (n + 1) st) by (eapply table_wf_mono; [|done]; lia).
  destruct t, i; try done; cbn [run_task launch_step stream_output_step watch_exit_step
    close_step] in Hr; simplify_eq; try done.
  - assert (table_wf n (start_commit params r st).1) as Hw
      by (apply start_commit_wf; done || lia).
    destruct (start_commit params r st) as [st1 [?|?]]; simplify_eq;
      (eapply table_wf_mono; [|exact Hw]; lia).
  - destruct (push_output _ _ _ _) as [[??]|] eqn:E; simplify_eq; [|done].
    by eapply push_output_wf.
  - destruct accepted; simplify_eq; done.
  - destruct (finish_output_stream _ _) as [?|] eqn:E; simplify_eq; [|done].
    eapply table_wf_mono; [|by eapply finish_output_stream_wf]. lia.
  - assert (table_wf (n + 1) (record_exit pid code st).1) as Hw
      by (apply record_exit_wf; done || lia).
    destruct (record_exit _ _ _) as [? [?|]]; simplify_eq; done.
  - destruct accepted; simplify_eq; done.
  - assert (table_wf (n + 1) (maybe_emit_closed pid st).1) as Hw
      by (apply maybe_emit_closed_wf; done || lia).
    destruct (maybe_emit_closed _ _) as [? [?|]]; simplify_eq; done.
  - eapply table_wf_mono; [|by eapply expire_wf]. lia.
Qed.

Lemma sys_step_wf n s l s' :
  (n + 2 < 2 ^ 64)%Z → (0 ≤ n)%Z → table_wf n (inner s) →
  sys_step s l = Some s' → table_wf (n + 1) (inner s').
Proof.
  intros Hn H0 H Hs.
  assert (table_wf (n + 1) (inner s)) by (eapply table_wf_mono; [|done]; lia).
  destruct l; cbn in Hs.
  - case_match eqn:E; simplify_eq; [|done]. cbn.
    eapply table_wf_mono; [|by eapply start_reserve_wf]. lia.
  - destruct (tasks s !! index) as [t|]; [|done]. cbn in Hs.
    destruct (run_task t i (inner s)) as [[[st ts] evs]|] eqn:E; [|done].
    cbn in Hs. simplify_eq. cbn. by eapply run_task_wf.
  - simplify_eq. unfold initialize. cbn. by destruct (initialize_requested _).
  - simplify_eq. unfold initialized. by destruct (initialize_requested _).
  - simplify_eq. cbn. unfold table_wf. cbn. apply map_Forall_empty.
Qed.

Lemma sys_run_wf s ls s' n :
  sys_run s ls = Some s' → (0 ≤ n)%Z → (n + Z.of_nat (length ls) + 1 < 2 ^ 64)%Z →
  table_wf n (inner s) → table_wf (n + Z.of_nat (length ls)) (inner s').
Proof.
  revert s n. induction ls as [|l ls IH]; intros s n Hr H0 Hn H; cbn in Hr.
  - simplify_eq. by rewrite Z.add_0_r.
  - destruct (sys_step s l) as [s1|] eqn:E; [|done]. cbn in Hr.
    cbn [length] in *. replace (n + Z.of_nat (S (length ls)))%Z
      with ((n + 1) + Z.of_nat (length ls))%Z by lia.
    apply IH with s1; [done|lia|lia|]. eapply sys_step_wf; [| |exact H|done]; lia.
Qed.

(** * Event order for clients that do not reuse ids *)

Definition launch_of (pid : ProcessId) (t : task) : bool :=
  match t with TLaunch params => bool_decide (ep_process_id params = pid) | _ => false end.

Definition launches (pid : ProcessId) (ts : list task) : Z :=
  Z.of_nat (length (filter (λ t, launch_of pid t = true) ts)).

Definition task_pid (t : task) : ProcessId :=
  match t with
  | TLaunch params => ep_process_id params
  | TRead q _ | TSendOutput q _ _ | TFinish q | TWatch q | TSendExited q _ _
  | TClose q _ | TSendClosed q _ _ | TSleep q _ => q
  end.

Definition flight (ts : list task) : list ProcessEvent := flat_map in_flight ts.

Definition event_key (e : ProcessEvent) : ProcessId * Z := (event_pid e, event_seq e).

(** No output event of a process follows its closed event. *)
Fixpoint closed_last (evs : list ProcessEvent) : Prop :=
  match evs with
  | [] => True
  | e :: evs' =>
      (∀ pid, is_closed_of pid e → Forall (λ e', ¬ is_output_of pid e') evs') ∧
      closed_last evs'
  end.

(** A task of a known process, holding at most that process's own event. *)
Definition task_ok (seen : gset ProcessId) (t : task) : Prop :=
  task_pid t ∈ seen ∧ Forall (λ e, event_pid e = task_pid t) (in_flight t).

(** [E] is every event whose number is taken: broadcast or in flight. *)
Record ev_inv (seen : gset ProcessId) (st : Inner) (ts : list task)
    (E : list ProcessEvent) : Prop := {
  ei_table : ∀ pid, is_Some (processes st !! pid) → pid ∈ seen;
  ei_tasks : ∀ t, t ∈ ts → task_ok seen t;
  ei_events : ∀ e, e ∈ E → event_pid e ∈ seen;
  ei_running : ∀ pid p, processes st !! pid = Some (Running p) →
    readers pid ts = p_open_streams p ∧ launches pid ts = 0%Z ∧
    (∀ e, e ∈ E → event_pid e = pid → (event_seq e < p_next_seq p)%Z);
  ei_launch : ∀ pid, (0 < launches pid ts)%Z →
    launches pid ts = 1%Z ∧ readers pid ts = 0%Z ∧ (∀ e, e ∈ E → event_pid e ≠ pid);
  ei_closed : ∀ pid e, e ∈ E → is_closed_of pid e →
    readers pid ts = 0%Z ∧ launches pid ts = 0%Z;
  ei_nodup : NoDup (map event_key E);
}.

Lemma readers_cons pid t ts :
  readers pid (t :: ts) = ((if is_reader pid t then 1 else 0) + readers pid ts)%Z.
Proof. unfold readers. rewrite filter_cons. case_decide as H; rewrite ?H; [simpl; lia|].
  destruct (is_reader pid t); [done|simpl; lia]. Qed.

Lemma launches_cons pid t ts :
  launches pid (t :: ts) = ((if launch_of pid t then 1 else 0) + launches pid ts)%Z.
Proof. unfold launches. rewrite filter_cons. case_decide as H; rewrite ?H; [simpl; lia|].
  destruct (launch_of pid t); [done|simpl; lia]. Qed.

Lemma readers_app pid a b : readers pid (a ++ b) = (readers pid a + readers pid b)%Z.
Proof. unfold readers. rewrite filter_app, length_app. lia. Qed.

Lemma launches_app pid a b : launches pid (a ++ b) = (launches pid a + launches pid b)%Z.
Proof. unfold launches. rewrite filter_app, length_app. lia. Qed.

Lemma readers_nonneg pid ts : (0 ≤ readers pid ts)%Z.
Proof. unfold readers. lia. Qed.

Lemma launches_nonneg pid ts : (0 ≤ launches pid ts)%Z.
Proof. unfold launches. lia. Qed.

Lemma readers_perm pid a b : a ≡ₚ b → readers pid a = readers pid b.
Proof. intros H. unfold readers. by rewrite H. Qed.

Lemma launches_perm pid a b : a ≡ₚ b → launches pid a = launches pid b.
Proof. intros H. unfold launches. by rewrite H. Qed.

Lemma readers_fresh pid ts :
  (∀ t, t ∈ ts → task_pid t ≠ pid) → readers pid ts = 0%Z ∧ launches pid ts = 0%Z.
Proof.
  induction ts as [|t ts IH]; intros H; [done|].
  destruct IH as [I1 I2]; [intros t' Ht'; apply H; by constructor|].
  rewrite readers_cons, launches_cons, I1, I2.
  assert (task_pid t ≠ pid) by (apply H; constructor).
  destruct t; cbn in *; rewrite ?bool_decide_eq_false_2 by congruence; done.
Qed.

(** The table stays: tasks may leave, events may be dropped. *)
Lemma ev_inv_same seen st ts E ts' E' :
  ev_inv seen st ts E →
  (∀ pid, (readers pid ts' ≤ readers pid ts)%Z) →
  (∀ pid p, processes st !! pid = Some (Running p) → readers pid ts' = readers pid ts) →
  (∀ pid, (launches pid ts' ≤ launches pid ts)%Z) →
  (∀ t, t ∈ ts' → task_ok seen t) →
  (∀ e, e ∈ E' → e ∈ E) → NoDup (map event_key E') →
  ev_inv seen st ts' E'.
Proof.
  intros [H1 H2 H3 H4 H5 H6 H7] Hr Hr' Hl Ht He Hn.
  split; try done; [by auto| | |].
  - intros pid p Hp. destruct (H4 _ _ Hp) as (A & B & C).
    specialize (Hl pid). pose proof (launches_nonneg pid ts').
    rewrite (Hr' _ _ Hp). repeat split; [done|lia|eauto].
  - intros pid Hpos. specialize (Hl pid). specialize (Hr pid).
    destruct (H5 pid) as (A & B & C); [lia|].
    pose proof (readers_nonneg pid ts'). repeat split; [lia|lia|eauto].
  - intros pid e Hin Hc. destruct (H6 pid e (He _ Hin) Hc) as [A B].
    specialize (Hl pid). specialize (Hr pid).
    pose proof (readers_nonneg pid ts'). pose proof (launches_nonneg pid ts'). lia.
Qed.

(** A running process takes the next sequence number for an event. *)
Lemma ev_inv_emit seen st ts E pid p p' ts' ev :
  ev_inv seen st ts E →
  processes st !! pid = Some (Running p) →
  p_open_streams p' = p_open_streams p → p_next_seq p' = (p_next_seq p + 1)%Z →
  event_key ev = (pid, p_next_seq p) →
  (∀ q, is_closed_of q ev → p_open_streams p = 0%Z) →
  (∀ q, readers q ts' = readers q ts) → (∀ q, launches q ts' = launches q ts) →
  (∀ t, t ∈ ts' → task_ok seen t) →
  ev_inv seen (set_running pid p' st) ts' (ev :: E).
Proof.
  intros [H1 H2 H3 H4 H5 H6 H7] Hp Ho Hx Hk Hc Hr Hl Ht.
  destruct (H4 _ _ Hp) as (A & B & C). injection Hk as Hkp Hks. subst pid.
  split; try done.
  - intros q. unfold set_running, with_processes. cbn. intros [x Hx'].
    destruct (decide (event_pid ev = q)) as [<-|Hne]; [apply H1; eauto|].
    rewrite lookup_insert_ne in Hx' by done. apply H1; eauto.
  - intros e [->|He]%elem_of_cons; [|eauto]. apply H1; eauto.
  - intros q pq. unfold set_running, with_processes. cbn.
    destruct (decide (event_pid ev = q)) as [<-|Hne].
    + rewrite lookup_insert_eq. intros ?. simplify_eq. rewrite Hr, Hl, Ho.
      repeat split; try done. intros e [->|He]%elem_of_cons Heq; [rewrite Hx, Hks; lia|].
      specialize (C _ He Heq). lia.
    + rewrite lookup_insert_ne by done. intros Hq. destruct (H4 _ _ Hq) as (A' & B' & C').
      rewrite Hr, Hl. repeat split; try done.
      intros e [->|He]%elem_of_cons Heq; [congruence|eauto].
  - intros q. rewrite Hl, Hr. intros Hpos. destruct (H5 q Hpos) as (A' & B' & C').
    repeat split; try done. intros e [->|He]%elem_of_cons; [|eauto].
    intros <-. lia.
  - intros q e [->|He]%elem_of_cons Hcl; rewrite Hr, Hl; [|eauto].
    assert (event_pid ev = q) as <- by (destruct ev; cbn in *; done).
    rewrite A. split; [eauto|done].
  - cbn. constructor; [|done]. intros Hin. apply list_elem_of_In, in_map_iff in Hin.
    destruct Hin as (e & Hk' & Hin). apply list_elem_of_In in Hin.
    injection Hk' as Hk1 Hk2. specialize (C _ Hin Hk1). lia.
Qed.

Lemma ev_inv_set_streams seen st ts E pid p p' ts' :
  ev_inv seen st ts E →
  processes st !! pid = Some (Running p) →
  p_next_seq p' = p_next_seq p →
  p_open_streams p' = readers pid ts' →
  (∀ q, q ≠ pid → readers q ts' = readers q ts) →
  (readers pid ts' ≤ readers pid ts)%Z →
  (∀ q, launches q ts' = launches q ts) →
  (∀ t, t ∈ ts' → task_ok seen t) →
  ev_inv seen (set_running pid p' st) ts' E.
Proof.
  intros [H1 H2 H3 H4 H5 H6 H7] Hp Hx Ho Hr Hle Hl Ht.
  destruct (H4 _ _ Hp) as (A & B & C).
  assert (∀ q, readers q ts' ≤ readers q ts)%Z as Hle'.
  { intros q. destruct (decide (q = pid)) as [->|]; [done|]. by rewrite Hr. }
  split; try done.
  - intros q. unfold set_running, with_processes. cbn. intros [x Hx'].
    destruct (decide (pid = q)) as [<-|Hne]; [apply H1; eauto|].
    rewrite lookup_insert_ne in Hx' by done. apply H1; eauto.
  - intros q pq. unfold set_running, with_processes. cbn.
    destruct (decide (pid = q)) as [<-|Hne].
    + rewrite lookup_insert_eq. intros ?. simplify_eq. rewrite Hl, Hx. eauto.
    + rewrite lookup_insert_ne by done. intros Hq. rewrite Hl, Hr by done. eauto.
  - intros q. rewrite Hl. intros Hpos. destruct (H5 q Hpos) as (A' & B' & C').
    specialize (Hle' q). pose proof (readers_nonneg q ts'). repeat split; [done|lia|done].
  - intros q e He Hc. rewrite Hl. destruct (H6 q e He Hc). specialize (Hle' q).
    pose proof (readers_nonneg q ts'). split; [lia|done].
Qed.

Lemma ev_inv_shrink_table seen st ts E m :
  ev_inv seen st ts E → m ⊆ processes st → ev_inv seen (with_processes (λ _, m) st) ts E.
Proof.
  intros [H1 H2 H3 H4 H5 H6 H7] Hm. split; try done.
  - intros pid [x Hx]. apply H1. exists x. by eapply lookup_weaken.
  - intros pid p Hp. cbn in Hp. apply H4. by eapply lookup_weaken.
Qed.

Lemma ev_inv_processes seen st st' ts E :
  processes st' = processes st → ev_inv seen st ts E → ev_inv seen st' ts E.
Proof. intros Heq [H1 H2 H3 H4 H5 H6 H7]. by split; try rewrite Heq. Qed.

Lemma ev_inv_perm seen st ts E ts' E' :
  ts ≡ₚ ts' → E ≡ₚ E' → ev_inv seen st ts E → ev_inv seen st ts' E'.
Proof.
  intros Ht He H. apply ev_inv_same with ts E; try done.
  - intros pid. by rewrite (readers_perm pid _ _ Ht).
  - intros pid p _. by rewrite (readers_perm pid _ _ Ht).
  - intros pid. by rewrite (launches_perm pid _ _ Ht).
  - intros t. rewrite <- Ht. apply H.
  - intros e. by rewrite He.
  - rewrite <- He. apply H.
Qed.

(** Side conditions of the lemmas above on a concrete change of tasks. *)
Ltac tasks_simpl :=
  intros; rewrite ?readers_app, ?launches_app, ?readers_cons, ?launches_cons;
  cbn [is_reader launch_of continue app]; try (case_match; cbn);
  rewrite ?readers_cons, ?launches_cons; cbn [is_reader launch_of];
  repeat case_bool_decide; subst; try done; lia.

Lemma ok_one seen t :
  task_pid t ∈ seen → Forall (λ e, event_pid e = task_pid t) (in_flight t) →
  Forall (task_ok seen) [t].
Proof. intros. apply Forall_singleton. by split. Qed.

Ltac solve_ok :=
  first [ by apply Forall_nil
        | by apply ok_one; [|cbn; rewrite ?Forall_singleton, ?Forall_nil] ].

Section one_step.
Context (seen : gset ProcessId) (st : Inner) (rest : list task) (E : list ProcessEvent).

Lemma rest_ok t ts :
  (∀ u, u ∈ t :: rest → task_ok seen u) → Forall (task_ok seen) ts →
  ∀ u, u ∈ ts ++ rest → task_ok seen u.
Proof.
  intros H Ht u [Hu|Hu]%elem_of_app; [|apply H; by constructor].
  rewrite Forall_forall in Ht. by apply Ht.
Qed.

(** The task moves on without touching the table or taking a number; its
    event, if it held one, is now broadcast or dropped. *)
Lemma step_move t ts E' :
  ev_inv seen st (t :: rest) E →
  (∀ pid, readers pid ts ≤ readers pid [t])%Z →
  (∀ pid p, processes st !! pid = Some (Running p) → readers pid ts = readers pid [t]) →
  (∀ pid, launches pid ts ≤ launches pid [t])%Z →
  Forall (task_ok seen) ts → (∃ D, E ≡ₚ D ++ E') →
  ev_inv seen st (ts ++ rest) E'.
Proof.
  intros H Hr Hr' Hl Ht [D HD].
  apply ev_inv_same with (t :: rest) E; try done.
  - intros pid. change (t :: rest) with ([t] ++ rest). rewrite !readers_app.
    specialize (Hr pid). lia.
  - intros pid p Hp. change (t :: rest) with ([t] ++ rest). rewrite !readers_app.
    by rewrite (Hr' _ _ Hp).
  - intros pid. change (t :: rest) with ([t] ++ rest). rewrite !launches_app.
    specialize (Hl pid). lia.
  - apply rest_ok with t; [apply H|done].
  - intros e He. rewrite HD. set_solver.
  - pose proof (ei_nodup _ _ _ _ H) as Hn. rewrite HD, map_app in Hn.
    by apply NoDup_app in Hn as (_ & _ & ?).
Qed.

Lemma step_emit t pid p p' t' ev :
  ev_inv seen st (t :: rest) E →
  task_pid t = pid → task_pid t' = pid → in_flight t' = [ev] →
  processes st !! pid = Some (Running p) →
  p_open_streams p' = p_open_streams p → p_next_seq p' = (p_next_seq p + 1)%Z →
  event_key ev = (pid, p_next_seq p) →
  (∀ q, is_closed_of q ev → p_open_streams p = 0%Z) →
  (∀ q, is_reader q t' = is_reader q t) → launch_of pid t = false →
  (∀ q, launch_of q t' = launch_of q t) →
  ev_inv seen (set_running pid p' st) (t' :: rest) (ev :: E).
Proof.
  intros H Ht Ht' Hf Hp Ho Hn Hk Hc Hr _ Hl.
  apply ev_inv_emit with (t :: rest) p; try done.
  - intros q. by rewrite !readers_cons, Hr.
  - intros q. by rewrite !launches_cons, Hl.
  - apply (rest_ok t [t']); [apply H|]. apply ok_one.
    + rewrite Ht', <- Ht. apply (ei_tasks _ _ _ _ H t). constructor.
    + rewrite Hf, Ht'. injection Hk as Hk _. by apply Forall_singleton.
Qed.
End one_step.

Ltac kept D :=
  exists D; cbn [in_flight flight flat_map app]; rewrite ?app_nil_r, <- ?app_assoc;
  cbn [app]; first [reflexivity | solve_Permutation].

Lemma flight_app a b : flight (a ++ b) = flight a ++ flight b.
Proof. unfold flight. by rewrite flat_map_app. Qed.

Section task_cases.
Context (seen : gset ProcessId) (n : Z) (Hn : (n + 2 < 2 ^ 64)%Z).
Context (st : Inner) (Hwf : table_wf n st) (rest : list task) (log : list ProcessEvent).

Let E (t : task) := log ++ in_flight t ++ flight rest.
Let E' (evs : list ProcessEvent) (ts : list task) := (log ++ evs) ++ flight ts ++ flight rest.

Lemma stream_case t i st' ts evs :
  ev_inv seen st (t :: rest) (E t) →
  stream_output_step t i st = Some (st', ts, evs) →
  ev_inv seen st' (ts ++ rest) (E' evs ts).
Proof.
  intros H Hs.
  assert (task_ok seen t) as [Hk Hf] by (apply (ei_tasks _ _ _ _ H t); constructor).
  unfold E, E' in *. destruct t, i; try done; cbn in Hs, Hk, Hf, H; rewrite ?app_nil_r in *.
  - unfold push_output in Hs. destruct (processes st !! pid) as [[|p]|] eqn:Ep.
    + simplify_eq. rewrite app_nil_r.
      eapply step_move; [exact H|tasks_simpl|intros q p' Hp'; tasks_simpl|tasks_simpl| |by exists []].
      solve_ok.
    + destruct (evict _ _) as [output retained]. simplify_eq. rewrite app_nil_r.
      destruct (table_wf_lookup _ _ _ _ Hwf Ep) as [Hw Hx]. pose proof (wf_next _ Hw).
      eapply ev_inv_perm; [reflexivity| |
        eapply (step_emit _ _ _ _ (TRead pid stream) pid p _ _
                  (OutputDelta (mkOutputDelta pid (p_next_seq p) stream chunk)));
        [exact H|try done..]].
      * apply Permutation_middle.
      * cbn. rewrite wrap_u64_small; lia.
    + simplify_eq. rewrite app_nil_r.
      eapply step_move; [exact H|tasks_simpl|intros q p' Hp'; tasks_simpl|tasks_simpl| |by exists []].
      solve_ok.
  - simplify_eq. rewrite app_nil_r.
    eapply step_move; [exact H|tasks_simpl|intros q p' Hp'; tasks_simpl|tasks_simpl| |by exists []].
    solve_ok.
  - destruct accepted; simplify_eq; cbn [in_flight flight flat_map app]; rewrite ?app_nil_r.
    + eapply (step_move _ _ _ _ _ [TRead pid stream]); [exact H|tasks_simpl|intros q p' Hp'; tasks_simpl|tasks_simpl| |].
      * solve_ok.
      * exists []. cbn. by rewrite <- app_assoc.
    + eapply (step_move _ _ _ _ _ [TFinish pid]);
        [exact H|tasks_simpl|intros q p' Hp'; tasks_simpl|tasks_simpl| |].
      * solve_ok.
      * exists [OutputDelta n0]. cbn. by rewrite <- Permutation_middle.
  - unfold finish_output_stream in Hs.
    destruct (processes st !! pid) as [[|p]|] eqn:Ep; simplify_eq; cbn; rewrite ?app_nil_r.
    + eapply (step_move _ _ _ _ (TFinish pid) []);
        [exact H|tasks_simpl| |tasks_simpl|solve_ok|by exists []].
      intros q p' Hp'. rewrite readers_cons. cbn. case_bool_decide; [subst; congruence|done].
    + destruct (ei_running _ _ _ _ H _ _ Ep) as (Hr & _ & _).
      rewrite readers_cons in Hr. cbn in Hr. rewrite bool_decide_eq_true_2 in Hr by done.
      pose proof (readers_nonneg pid rest).
      eapply ev_inv_set_streams; [exact H|exact Ep|done|..].
      * cbn. rewrite readers_cons. cbn. rewrite decide_True; lia.
      * intros q Hq. rewrite !readers_cons. cbn. by rewrite bool_decide_eq_false_2.
      * rewrite !readers_cons. cbn. rewrite bool_decide_eq_true_2; [lia|done].
      * intros q. by rewrite !launches_cons.
      * apply (rest_ok _ _ (TFinish pid) [TClose pid None]); [apply H|].
        solve_ok.
    + eapply (step_move _ _ _ _ (TFinish pid) []);
        [exact H|tasks_simpl| |tasks_simpl|solve_ok|by exists []].
      intros q p' Hp'. rewrite readers_cons. cbn. case_bool_decide; [subst; congruence|done].
Qed.

Lemma continue_ok pid k : pid ∈ seen → Forall (task_ok seen) (continue pid k).
Proof. intros. destruct k; cbn; solve_ok. Qed.

Lemma flight_continue pid k : flight (continue pid k) = [].
Proof. by destruct k. Qed.

Lemma watch_case t i st' ts evs :
  ev_inv seen st (t :: rest) (E t) →
  watch_exit_step t i st = Some (st', ts, evs) →
  ev_inv seen st' (ts ++ rest) (E' evs ts).
Proof.
  intros H Hs.
  assert (task_ok seen t) as [Hk Hf] by (apply (ei_tasks _ _ _ _ H t); constructor).
  unfold E, E' in *. destruct t, i; try done; cbn in Hs, Hk, Hf, H; rewrite ?app_nil_r in *.
  - unfold record_exit in Hs. destruct (processes st !! pid) as [[|p]|] eqn:Ep.
    2: { simplify_eq. rewrite app_nil_r.
      destruct (table_wf_lookup _ _ _ _ Hwf Ep) as [Hw Hx]. pose proof (wf_next _ Hw).
      eapply ev_inv_perm; [reflexivity| |
        eapply (step_emit _ _ _ _ (TWatch pid) pid p _ _
                  (Exited (mkExited pid (p_next_seq p) (default (-1)%Z code))));
        [exact H|try done..]].
      * apply Permutation_middle.
      * cbn. rewrite wrap_u64_small; lia. }
    all: simplify_eq; rewrite app_nil_r;
      eapply step_move; [exact H|tasks_simpl|intros q p' Hp'; tasks_simpl|tasks_simpl| |by exists []];
      solve_ok.
  - destruct accepted; simplify_eq; cbn [in_flight flight flat_map app]; rewrite ?app_nil_r.
    + eapply (step_move _ _ _ _ _ [TClose pid (Some exit)]);
        [exact H|tasks_simpl|intros q p' Hp'; tasks_simpl|tasks_simpl|solve_ok|].
      exists []. cbn. by rewrite <- app_assoc.
    + eapply (step_move _ _ _ _ _ []);
        [exact H|tasks_simpl|intros q p' Hp'; tasks_simpl|tasks_simpl|solve_ok|].
      exists [Exited n0]. cbn. by rewrite <- Permutation_middle.
  - simplify_eq. cbn [in_flight flight flat_map app]; rewrite ?app_nil_r.
    assert (ev_inv seen st rest (log ++ flat_map in_flight rest)) as H'.
    { eapply (step_move _ _ _ _ _ []);
        [exact H|tasks_simpl|intros q p' Hp'; tasks_simpl|tasks_simpl|solve_ok|by exists []]. }
    unfold expire. case_match; [|done]. case_match; [done|]. case_decide; [|done].
    apply (ev_inv_shrink_table _ _ _ _ (delete pid (processes st)) H').
    apply delete_subseteq.
Qed.

Lemma close_case t i st' ts evs :
  ev_inv seen st (t :: rest) (E t) →
  close_step t i st = Some (st', ts, evs) →
  ev_inv seen st' (ts ++ rest) (E' evs ts).
Proof.
  intros H Hs.
  assert (task_ok seen t) as [Hk Hf] by (apply (ei_tasks _ _ _ _ H t); constructor).
  assert (∀ pid k q, readers q (continue pid k) = 0%Z ∧ launches q (continue pid k) = 0%Z)
    as Hcont by (by intros ? []).
  unfold E, E' in *. destruct t, i; try done; cbn in Hs, Hk, Hf, H; rewrite ?app_nil_r in *.
  - assert (ev_inv seen st (continue pid k ++ rest)
              ((log ++ []) ++ flight (continue pid k) ++ flight rest)) as Hidle.
    { rewrite flight_continue, app_nil_r.
      eapply step_move; [exact H|..].
      - intros q. by rewrite (proj1 (Hcont pid k q)).
      - intros q p' Hp'. by rewrite (proj1 (Hcont pid k q)).
      - intros q. by rewrite (proj2 (Hcont pid k q)).
      - by apply continue_ok.
      - by exists []. }
    unfold maybe_emit_closed in Hs.
    destruct (processes st !! pid) as [[|p]|] eqn:Ep; simplify_eq; try done.
    destruct (p_closed p || _ || _) eqn:Hg; simplify_eq; [done|].
    apply orb_false_iff in Hg as [Hg _]. apply orb_false_iff in Hg as [_ Ho].
    apply negb_false_iff, bool_decide_eq_true in Ho. rewrite app_nil_r.
    destruct (table_wf_lookup _ _ _ _ Hwf Ep) as [Hw Hx]. pose proof (wf_next _ Hw).
    eapply ev_inv_perm; [reflexivity| |
      eapply (step_emit _ _ _ _ (TClose pid k) pid p _ _ (Closed (mkClosed pid (p_next_seq p))));
      [exact H|try done..]].
    * apply Permutation_middle.
    * cbn. rewrite wrap_u64_small; lia.
  - simplify_eq. rewrite flight_continue.
    eapply step_move; [exact H|..].
    + intros q. by rewrite (proj1 (Hcont pid k q)).
    + intros q p' Hp'. by rewrite (proj1 (Hcont pid k q)).
    + intros q. by rewrite (proj2 (Hcont pid k q)).
    + by apply continue_ok.
    + exists []. cbn. by rewrite <- app_assoc.
Qed.

Lemma launch_case t i st' ts evs :
  ev_inv seen st (t :: rest) (E t) →
  launch_step t i st = Some (st', ts, evs) →
  ev_inv seen st' (ts ++ rest) (E' evs ts).
Proof.
  intros H Hs.
  assert (task_ok seen t) as [Hk Hf] by (apply (ei_tasks _ _ _ _ H t); constructor).
  unfold E, E' in *. destruct t, i; try done; cbn in Hs, Hk, Hf, H; rewrite ?app_nil_r in *.
  set (pid := ep_process_id params) in *.
  destruct (ei_launch _ _ _ _ H pid) as (L1 & L2 & L3).
  { rewrite launches_cons. cbn. rewrite bool_decide_eq_true_2 by done.
    pose proof (launches_nonneg pid rest). lia. }
  rewrite launches_cons in L1. cbn in L1. rewrite bool_decide_eq_true_2 in L1 by done.
  rewrite readers_cons in L2. cbn in L2.
  assert (ev_inv seen st rest (log ++ flight rest)) as Hrest.
  { eapply (step_move _ _ _ _ (TLaunch params) []);
      [exact H|tasks_simpl|intros q p' Hp'; tasks_simpl|tasks_simpl|solve_ok|by exists []]. }
  destruct r as [session|err]; cbn in Hs; simplify_eq; cbn [flight flat_map app]; rewrite app_nil_r.
  - set (new := (TRead pid <$> reader_streams (ep_tty params)) ++ [TWatch pid]).
    assert (readers pid new = 2%Z ∧ launches pid new = 0%Z) as [N1 N2].
    { unfold new, reader_streams. destruct (ep_tty params); cbn [fmap list_fmap app];
        rewrite !readers_cons, !launches_cons; cbn;
        by rewrite !bool_decide_eq_true_2. }
    assert (∀ q, q ≠ pid → readers q new = 0%Z ∧ launches q new = 0%Z) as N3.
    { intros q Hq. unfold new, reader_streams. destruct (ep_tty params);
        cbn [fmap list_fmap app]; rewrite !readers_cons, !launches_cons; cbn;
        by rewrite !bool_decide_eq_false_2. }
    assert (flight new = []) as ->.
    { unfold new, reader_streams. by destruct (ep_tty params). }
    assert (Forall (task_ok seen) new) as Hnew.
    { unfold new, reader_streams. destruct (ep_tty params); cbn;
        repeat (apply Forall_cons; split); try by split; cbn. all: by apply Forall_nil. }
    clearbody new. cbn [app]. destruct Hrest as [R1 R2 R3 R4 R5 R6 R7]. split; try done.
    + intros q. unfold set_running, with_processes. cbn. intros [x Hx].
      destruct (decide (pid = q)) as [<-|Hne]; [done|].
      rewrite lookup_insert_ne in Hx by done. apply R1; eauto.
    + intros u [Hu|Hu]%elem_of_app; [by eapply Forall_forall in Hnew|by apply R2].
    + intros q pq. unfold set_running, with_processes. cbn.
      destruct (decide (pid = q)) as [<-|Hne].
      * rewrite lookup_insert_eq. intros ?. simplify_eq. cbn.
        rewrite readers_app, launches_app. repeat split; try lia.
        intros e He Hp. by destruct (L3 e He).
      * rewrite lookup_insert_ne by done. intros Hq. destruct (N3 q) as [M1 M2]; [done|].
        rewrite readers_app, launches_app, M1, M2. cbn. eauto.
    + intros q Hq. rewrite launches_app in Hq.
      destruct (decide (q = pid)) as [->|Hne]; [lia|].
      destruct (N3 q Hne) as [M1 M2]. rewrite readers_app, launches_app, M1, M2.
      rewrite M2 in Hq. cbn in *. eauto.
    + intros q e He Hc. destruct (decide (q = pid)) as [->|Hne].
      * destruct (L3 e He). destruct e; cbn in *; done.
      * destruct (N3 q Hne) as [M1 M2]. rewrite readers_app, launches_app, M1, M2. cbn. eauto.
  - case_match; [|done]. case_match; [|done].
    apply (ev_inv_shrink_table _ _ _ _ (delete pid (processes st)) Hrest).
    apply delete_subseteq.
Qed.

Lemma run_task_ev_inv t i st' ts evs :
  ev_inv seen st (t :: rest) (E t) →
  run_task t i st = Some (st', ts, evs) →
  ev_inv seen st' (ts ++ rest) (E' evs ts).
Proof.
  intros H Hs. destruct t; cbn [run_task] in Hs;
    eauto using stream_case, watch_case, close_case, launch_case.
Qed.
End task_cases.

Lemma closed_last_app a b :
  closed_last a → closed_last b →
  (∀ e pid, e ∈ a → is_closed_of pid e → Forall (λ e', ¬ is_output_of pid e') b) →
  closed_last (a ++ b).
Proof.
  induction a as [|e a IH]; intros Ha Hb H; [done|]. destruct Ha as [H1 H2]. cbn. split.
  - intros pid Hc. apply Forall_app. split; [by apply H1|]. eapply H; [constructor|done].
  - apply IH; [done|done|]. intros e' pid He'. apply H. by constructor.
Qed.

Lemma run_task_events t i st st' ts evs :
  run_task t i st = Some (st', ts, evs) → evs = [] ∨ evs = in_flight t.
Proof.
  intros H. destruct t, i; try done; cbn in H; simplify_eq; auto;
    repeat (case_match; simplify_eq; auto).
Qed.

Definition sys_inv (seen : gset ProcessId) (s : Sys) : Prop :=
  ev_inv seen (inner s) (tasks s) (log s ++ flight (tasks s)) ∧ closed_last (log s).

Lemma sys_inv_init : sys_inv ∅ sys_init.
Proof.
  split; [|done]. split; cbn.
  - intros pid [x Hx]. by rewrite lookup_empty in Hx.
  - intros t Ht. set_solver.
  - intros e He. set_solver.
  - intros pid p Hp. by rewrite lookup_empty in Hp.
  - intros pid Hp. unfold launches in Hp. simpl in Hp. lia.
  - intros pid e He. set_solver.
  - constructor.
Qed.

Lemma ev_inv_mono seen seen' st ts E :
  seen ⊆ seen' → ev_inv seen st ts E → ev_inv seen' st ts E.
Proof.
  intros Hs [H1 H2 H3 H4 H5 H6 H7]. split; try done.
  - intros pid Hp. by apply Hs, H1.
  - intros t Ht. destruct (H2 t Ht). split; [by apply Hs|done].
  - intros e He. by apply Hs, H3.
Qed.

Lemma flight_perm a b : a ≡ₚ b → flight a ≡ₚ flight b.
Proof. intros H. unfold flight. by apply Permutation_flat_map. Qed.

Lemma sys_task_inv seen n s k i s' :
  (n + 2 < 2 ^ 64)%Z → table_wf n (inner s) → sys_inv seen s →
  sys_step s (LTask k i) = Some s' → sys_inv seen s'.
Proof.
  intros Hn Hw [He Hc] Hs. cbn in Hs.
  destruct (tasks s !! k) as [t|] eqn:Et; [|done]. cbn in Hs.
  destruct (run_task t i (inner s)) as [[[st ts] evs]|] eqn:Er; [|done].
  cbn in Hs. simplify_eq.
  set (rest := take k (tasks s) ++ drop (S k) (tasks s)).
  assert (tasks s ≡ₚ t :: rest) as Hp.
  { rewrite <- (take_drop_middle _ _ _ Et) at 1. unfold rest.
    symmetry. apply Permutation_middle. }
  assert (ev_inv seen (inner s) (t :: rest) (log s ++ in_flight t ++ flight rest)) as He1.
  { eapply ev_inv_perm; [exact Hp| |exact He]. by rewrite (flight_perm _ _ Hp). }
  pose proof (run_task_ev_inv seen n Hn _ Hw rest (log s) _ _ _ _ _ He1 Er) as He2.
  assert (take k (tasks s) ++ ts ++ drop (S k) (tasks s) ≡ₚ ts ++ rest) as Hp2.
  { unfold rest. rewrite !app_assoc. by rewrite (Permutation_app_comm ts). }
  split; cbn.
  - eapply ev_inv_perm; [symmetry; exact Hp2| |exact He2].
    rewrite (flight_perm _ _ Hp2), flight_app. done.
  - apply closed_last_app; [done| |].
    + destruct (run_task_events _ _ _ _ _ _ Er) as [-> | ->]; [done|].
      destruct t; cbn; auto.
    + intros e pid Hin Hcl.
      destruct (ei_closed _ _ _ _ He1 pid e) as [Hr _]; [set_solver|done|].
      destruct (ei_tasks _ _ _ _ He1 t) as [_ Hok]; [constructor|].
      destruct (run_task_events _ _ _ _ _ _ Er) as [-> | ->]; [by apply Forall_nil|].
      destruct t; cbn in *; try by apply Forall_nil.
      * apply Forall_singleton. intros Ho. rewrite Forall_singleton in Hok. cbn in *.
        rewrite readers_cons in Hr. cbn in Hr. rewrite bool_decide_eq_true_2 in Hr by congruence.
        pose proof (readers_nonneg pid rest). lia.
      * rewrite Forall_singleton. by intros [].
      * rewrite Forall_singleton. by intros [].
Qed.

Lemma sys_call_inv seen s params s' :
  ep_process_id params ∉ seen → sys_inv seen s →
  sys_step s (LCall params) = Some s' → sys_inv ({[ep_process_id params]} ∪ seen) s'.
Proof.
  intros Hf [He Hc] Hs. cbn in Hs. set (pid := ep_process_id params) in *.
  assert (seen ⊆ {[pid]} ∪ seen) as Hsub by set_solver.
  destruct (start_reserve params (inner s)) as [st|] eqn:Er; simplify_eq;
    [|split; [by eapply ev_inv_mono|done]].
  unfold start_reserve in Er. apply res_bind_Ok in Er as (? & _ & Er).
  case_match; [done|]. case_decide as Hd; [done|]. simplify_eq.
  split; [|done]. cbn. rewrite flight_app. cbn. rewrite app_nil_r.
  assert (ev_inv ({[pid]} ∪ seen) (inner s) (tasks s) (log s ++ flight (tasks s))) as He'
    by (by eapply ev_inv_mono).
  destruct (readers_fresh pid (tasks s)) as [F1 F2].
  { intros t Ht <-. apply Hf. by destruct (ei_tasks _ _ _ _ He t Ht). }
  destruct He' as [H1 H2 H3 H4 H5 H6 H7].
  assert (∀ q, readers q (tasks s ++ [TLaunch params]) = readers q (tasks s)) as Hr.
  { intros q. rewrite readers_app, readers_cons. cbn. unfold readers at 2. simpl. lia. }
  assert (∀ q, q ≠ pid → launches q (tasks s ++ [TLaunch params]) = launches q (tasks s)) as Hl.
  { intros q Hq. rewrite launches_app, launches_cons. cbn.
    rewrite bool_decide_eq_false_2 by (unfold pid in Hq; congruence).
    unfold launches at 2. simpl. lia. }
  assert (∀ e, e ∈ log s ++ flight (tasks s) → event_pid e ≠ pid) as Hev.
  { intros e Hin <-. apply Hf. by apply (ei_events _ _ _ _ He). }
  split; cbn.
  - intros q [y Hy]. destruct (decide (pid = q)) as [<-|Hne]; [by apply elem_of_union_l, elem_of_singleton_2|].
    rewrite lookup_insert_ne in Hy by done. apply H1; eauto.
  - intros t [Ht|Ht]%elem_of_app; [eauto|]. apply list_elem_of_singleton in Ht as ->.
    split; [by apply elem_of_union_l, elem_of_singleton_2|by apply Forall_nil].
  - done.
  - intros q p. destruct (decide (pid = q)) as [<-|Hne].
    + by rewrite lookup_insert_eq.
    + rewrite lookup_insert_ne by done. intros Hq. rewrite Hr, Hl by done. eauto.
  - intros q Hpos. rewrite Hr. destruct (decide (q = pid)) as [->|Hne].
    + split; [|split; [exact F1|exact Hev]].
      rewrite launches_app, F2, launches_cons. cbn.
      rewrite bool_decide_eq_true_2 by done. unfold launches. simpl. lia.
    + rewrite Hl in * by done. eauto.
  - intros q e Hin Hcl. rewrite Hr. rewrite Hl; [eauto|].
    intros ->. apply (Hev e Hin). destruct e; cbn in *; done.
  - done.
Qed.

Lemma sys_run_inv seen ls n s s' :
  sys_run s ls = Some s' → fresh_ids seen ls = true →
  (0 ≤ n)%Z → (n + Z.of_nat (length ls) + 1 < 2 ^ 64)%Z →
  table_wf n (inner s) → sys_inv seen s → ∃ seen', sys_inv seen' s'.
Proof.
  revert seen n s. induction ls as [|l ls IH]; intros seen n s Hr Hf H0 Hn Hw Hi; cbn in Hr.
  { simplify_eq. eauto. }
  destruct (sys_step s l) as [s1|] eqn:E; [|done]. cbn in Hr. cbn [length] in Hn.
  assert (table_wf (n + 1) (inner s1)) as Hw1
    by (eapply sys_step_wf; [| |exact Hw|exact E]; lia).
  assert (∀ seen1, sys_inv seen1 s1 → fresh_ids seen1 ls = true → ∃ seen', sys_inv seen' s')
    as Hgo by (intros; eapply (IH seen1 (n + 1)%Z s1); try done; lia).
  destruct l as [params|k i| | |]; cbn in Hf.
  - apply andb_true_iff in Hf as [Hfr Hf]. apply bool_decide_eq_true in Hfr.
    eapply Hgo; [|exact Hf]. by eapply sys_call_inv.
  - eapply Hgo; [|exact Hf]. eapply sys_task_inv; [|exact Hw|done|done]. lia.
  - eapply Hgo; [|exact Hf]. cbn in E. simplify_eq. destruct Hi as [He Hc]. split; [|done].
    eapply ev_inv_processes; [|exact He].
    unfold initialize. cbn. by destruct (initialize_requested _).
  - eapply Hgo; [|exact Hf]. cbn in E. simplify_eq. destruct Hi as [He Hc]. split; [|done].
    eapply ev_inv_processes; [|exact He].
    unfold initialized. cbn. by destruct (initialize_requested _).
  - eapply Hgo; [|exact Hf]. cbn in E. simplify_eq. destruct Hi as [He Hc]. split; [|done].
    cbn. apply (ev_inv_shrink_table _ _ _ _ ∅ He). apply map_empty_subseteq.
Qed.

(** * Reading *)

Definition read_chunk (c : RetainedOutputChunk) : ProcessOutputChunk :=
  mkProcessOutputChunk (rc_seq c) (rc_stream c) (rc_chunk c).

Definition response_bytes (cs : list ProcessOutputChunk) : Z :=
  sum_Z (map (λ c, len (pc_chunk c)) cs).

Lemma response_bytes_app a b :
  response_bytes (a ++ b) = (response_bytes a + response_bytes b)%Z.
Proof. unfold response_bytes. by rewrite map_app, sum_Z_app. Qed.

(** The loop takes a prefix of the pending chunks; the cursor it returns is
    one past the last chunk taken. *)
Lemma read_loop_spec max pending chunks total next :
  total = response_bytes chunks →
  Forall (λ c, 1 ≤ rc_seq c < 2 ^ 64 - 1)%Z pending →
  ∃ k, (read_loop max pending chunks total next).1
         = chunks ++ map read_chunk (take k pending) ∧
       (read_loop max pending chunks total next).2
         = match last (take k pending) with Some c => (rc_seq c + 1)%Z | None => next end ∧
       (chunks = [] → pending ≠ [] → 1 ≤ k) ∧
       (let got := chunks ++ map read_chunk (take k pending) in
        (response_bytes got ≤ max)%Z ∨ length got ≤ 1 ∨ k = 0).
Proof.
  revert chunks total next. induction pending as [|c pending IH]; intros chunks total next Ht Hs.
  { exists 0. cbn. rewrite app_nil_r. repeat split; try done. by right; right. }
  apply Forall_cons in Hs as [Hc Hs]. cbn [read_loop].
  destruct (negb _ && _) eqn:Hfull.
  { exists 0. cbn. rewrite app_nil_r. apply andb_true_iff in Hfull as [Hne _].
    apply negb_true_iff, bool_decide_eq_false in Hne. repeat split; try done. by right; right. }
  set (chunks' := chunks ++ [mkProcessOutputChunk (rc_seq c) (rc_stream c) (rc_chunk c)]).
  assert (total + len (rc_chunk c) = response_bytes chunks')%Z as Ht'.
  { unfold chunks'. rewrite response_bytes_app. cbn. lia. }
  assert (length chunks' ≤ 1 ∨ (response_bytes chunks' ≤ max)%Z) as Hb.
  { apply andb_false_iff in Hfull as [Hne|Hle].
    - apply negb_false_iff, bool_decide_eq_true in Hne. subst chunks. left. done.
    - apply Z.ltb_ge in Hle. right. lia. }
  rewrite wrap_u64_small by lia.
  destruct (max <=? total + len (rc_chunk c))%Z eqn:Hmax.
  { exists 1. cbn. split; [done|]. split; [done|]. split; [lia|]. fold chunks'. tauto. }
  destruct (IH chunks' (total + len (rc_chunk c))%Z (rc_seq c + 1)%Z Ht' Hs)
    as (k & H1 & H2 & _ & H4).
  exists (S k). cbn [take map]. rewrite H1, H2. unfold chunks'.
  rewrite <- app_assoc. cbn [app]. split; [done|]. split; [|split; [lia|]].
  - destruct (take k pending) as [|d ds] eqn:Et; [done|].
    rewrite last_cons_cons. destruct (last (d :: ds)) eqn:El; [done|].
    by apply last_None in El.
  - cbn in H4. unfold chunks' in *. rewrite <- app_assoc in H4. cbn [app] in H4.
    destruct H4 as [H4|[H4| ->]]; [by left|by right; left|].
    cbn [take map] in *. tauto.
Qed.

Lemma filter_after_split (out : list RetainedOutputChunk) after k c :
  increasing (map rc_seq out) →
  let pending := filter (λ d, after < rc_seq d)%Z out in
  last (take k pending) = Some c →
  filter (λ d, rc_seq c < rc_seq d)%Z out = drop k pending.
Proof.
  intros Hi pending Hl.
  assert (increasing (map rc_seq pending)) as Hip.
  { unfold pending. clear -Hi. induction out as [|d out IH]; [done|].
    destruct Hi as [H1 H2]. rewrite filter_cons. case_decide; [|auto]. cbn. split; [|auto].
    rewrite Forall_map in *. rewrite Forall_forall in *.
    intros x [_ Hx]%list_elem_of_filter. by apply H1. }
  assert (after < rc_seq c)%Z as Hac.
  { assert (c ∈ pending) as Hc.
    { apply last_Some in Hl as [l Hl]. rewrite <- (take_drop k pending), Hl. set_solver. }
    by apply list_elem_of_filter in Hc as [? _]. }
  transitivity (filter (λ d, rc_seq c < rc_seq d)%Z pending).
  { unfold pending. rewrite list_filter_filter. apply list_filter_iff. intros d. lia. }
  rewrite <- (take_drop k pending) at 1. rewrite filter_app.
  apply last_Some in Hl as [l Hl].
  rewrite <- (take_drop k pending), map_app in Hip.
  apply increasing_app in Hip as (Ht & _ & Hcross). rewrite Hl in *.
  rewrite map_app in Ht, Hcross. apply increasing_app in Ht as (_ & _ & Hlc).
  rewrite (filter_none _ (l ++ [c])), (filter_all _ (drop k pending)); [done| |].
  - apply Forall_app in Hcross as [_ Hcross]. cbn in Hcross.
    rewrite Forall_singleton, Forall_map in Hcross. done.
  - apply Forall_app. split; [|apply Forall_singleton; lia].
    rewrite Forall_map in Hlc. eapply Forall_impl; [exact Hlc|]. cbn. intros d Hd.
    rewrite Forall_singleton in Hd. lia.
Qed.

(** A client that pages through the retained output with the cursor
    [next_seq - 1], until a page is empty. *)
Fixpoint read_pages (fuel : nat) (max after : Z) (p : RunningProcess)
    : list ProcessOutputChunk :=
  match fuel with
  | O => []
  | S fuel' =>
      let r := read_process after max p in
      match rr_chunks r with
      | [] => []
      | cs => cs ++ read_pages fuel' max (rr_next_seq r - 1) p
      end
  end.

Definition pending (after : Z) (p : RunningProcess) : list RetainedOutputChunk :=
  filter (λ c, after < rc_seq c)%Z (p_output p).

Lemma pending_seqs after p :
  process_wf p → (p_next_seq p < 2 ^ 64)%Z →
  Forall (λ c, 1 ≤ rc_seq c < 2 ^ 64 - 1)%Z (pending after p).
Proof.
  intros [_ _ _ Hs _ _ _] Hb. rewrite Forall_forall in *. unfold pending.
  intros c [_ Hc]%list_elem_of_filter. specialize (Hs c Hc). lia.
Qed.

(** One page: a non-empty prefix of what is pending, and a cursor that
    leaves exactly the rest. *)
Lemma read_process_page after max p :
  process_wf p → (p_next_seq p < 2 ^ 64)%Z →
  ∃ k, rr_chunks (read_process after max p) = map read_chunk (take k (pending after p)) ∧
       (pending after p ≠ [] → 1 ≤ k) ∧
       pending (rr_next_seq (read_process after max p) - 1) p = drop k (pending after p) ∧
       ((response_bytes (rr_chunks (read_process after max p)) ≤ max)%Z ∨
        length (rr_chunks (read_process after max p)) ≤ 1 ∨ k = 0).
Proof.
  intros Hwf Hb. unfold read_process. fold (pending after p).
  destruct (read_loop_spec max (pending after p) [] 0 (p_next_seq p)) as (k & H1 & H2 & H3 & H4);
    [done|by apply pending_seqs|].
  destruct (read_loop _ _ _ _ _) as [chunks next] eqn:E. cbn in H1, H2 |- *. cbn in H4.
  exists k. subst chunks. split; [done|]. split; [by apply H3|]. split; [|done].
  destruct (last (take k (pending after p))) as [c|] eqn:El.
  - subst next. replace (rc_seq c + 1 - 1)%Z with (rc_seq c) by lia.
    by apply filter_after_split; [apply wf_increasing|].
  - subst next. apply last_None in El.
    assert (pending after p = [] ∨ k = 0) as [Hnil| ->].
    { destruct (pending after p); [by left|]. destruct k; [by right|done]. }
    + rewrite Hnil, drop_nil. unfold pending. apply filter_none.
      eapply Forall_impl; [apply Hwf|]. cbn. lia.
    + destruct (pending after p) eqn:Hp; [|exfalso; specialize (H3 eq_refl); lia || (specialize (H3 ltac:(done)); lia)].
      cbn. unfold pending. apply filter_none.
      eapply Forall_impl; [apply Hwf|]. cbn. lia.
Qed.

(** * Properties *)

(** C2: In every state the agent's process table can reach, under any
    interleaving of launches, reader tasks, exit watchers, retention timers and
    shutdowns, each running process is well-formed: the retained-bytes counter
    is the exact size of the retained chunks and within the 1 MiB budget, the
    chunk numbers increase and stay below [next_seq], at most two streams are
    open, and [closed] is set only after the exit with both streams finished.
    (The bound on the number of steps keeps the 64-bit counter from wrapping.) *)
Theorem process_table_invariant ls s :
  sys_run sys_init ls = Some s → (Z.of_nat (length ls) + 1 < 2 ^ 64)%Z →
  map_Forall (λ _ e, match e with Starting => True | Running p => process_wf p end)
    (processes (inner s)).
Proof.
  intros Hr Hb. pose proof (sys_run_wf _ _ _ 0 Hr ltac:(lia) ltac:(lia)) as H.
  eapply map_Forall_impl; [apply H, map_Forall_empty|].
  intros ? [|?]; [done|]. by intros [? _].
Qed.

(** Eviction keeps the longest suffix of the retained output that fits the
    budget: the kept chunks fit, their size is the new counter, and every
    longer suffix is over the budget. *)
Theorem evict_longest_suffix output :
  ∃ k, evict output (chunk_bytes output)
         = (drop k output, chunk_bytes (drop k output)) ∧
       (chunk_bytes (drop k output) ≤ RETAINED_OUTPUT_BYTES_PER_PROCESS)%Z ∧
       (∀ j, (j < k)%nat →
          (RETAINED_OUTPUT_BYTES_PER_PROCESS < chunk_bytes (drop j output))%Z).
Proof.
  destruct (evict_spec output _ eq_refl) as (k & H1 & H2 & H3 & H4).
  exists k. destruct (evict _ _). cbn in *. by subst.
Qed.

(** C37: Paging through a process's output with the cursor the read returns
    yields every retained chunk after the cursor once and in order, whatever the
    page size. *)
Theorem read_pages_complete fuel max after p :
  process_wf p → (p_next_seq p < 2 ^ 64)%Z →
  length (pending after p) ≤ fuel →
  read_pages fuel max after p = map read_chunk (pending after p).
Proof.
  intros Hwf Hb. revert after. induction fuel as [|fuel IH]; intros after Hf.
  { destruct (pending after p); [done|simpl in Hf; lia]. }
  cbn [read_pages].
  destruct (read_process_page after max p Hwf Hb) as (k & H1 & H2 & H3 & _). rewrite H1.
  destruct (pending after p) as [|c l] eqn:Ep; [by rewrite take_nil|].
  destruct k as [|k]; [specialize (H2 ltac:(done)); lia|].
  rewrite IH.
  - rewrite H3. cbn [take map drop].
    change (read_chunk c :: map read_chunk (take k l) ++ map read_chunk (drop k l)
            = read_chunk c :: map read_chunk l).
    by rewrite <- map_app, take_drop.
  - rewrite H3. cbn [drop]. rewrite length_drop. simpl in Hf. lia.
Qed.

(** A read stays within [max_bytes] unless it returns the one chunk that
    is needed to make progress, and it returns at least one chunk when any is
    pending. *)
Theorem read_within_max_bytes after max p :
  process_wf p → (p_next_seq p < 2 ^ 64)%Z →
  let cs := rr_chunks (read_process after max p) in
  ((response_bytes cs ≤ max)%Z ∨ length cs ≤ 1) ∧ (pending after p ≠ [] → cs ≠ []).
Proof.
  intros Hwf Hb cs.
  destruct (read_process_page after max p Hwf Hb) as (k & H1 & H2 & H3 & H4).
  unfold cs. split.
  - destruct H4 as [?|[?| ->]]; [by left|by right|]. right. rewrite H1. simpl. lia.
  - intros Hne. rewrite H1. specialize (H2 Hne).
    destruct (pending after p), k; try done; lia.
Qed.

(** An initialised client's read always answers once the deadline has
    passed at some wake-up, and an answer given earlier carries output or an
    exit. *)
Theorem exec_read_answers params first observed :
  require_initialized_for first "exec" = Ok tt →
  Exists (λ o, o.2 = true) observed →
  ∃ r, exec_read params first observed = Some r ∧
       (∀ resp, r = Ok resp →
          Exists (λ o, o.2 = true ∨ rr_chunks resp ≠ [] ∨ rr_exited resp = true) observed).
Proof.
  intros Hi Hex. unfold exec_read. rewrite Hi.
  induction observed as [|[st expired] observed IH]; [by inversion Hex|].
  cbn [exec_read_over].
  destruct (exec_read_turn params st expired) as [[r|]|e] eqn:Et.
  - exists (Ok r). split; [done|]. intros resp [= <-]. constructor. cbn.
    unfold exec_read_turn in Et. case_match; [|done]. case_match; [done|].
    destruct (_ || _) eqn:Hg; simplify_eq.
    apply orb_true_iff in Hg as [Hg|Hg]; [|by left].
    apply orb_true_iff in Hg as [Hg|Hg]; [|by right; right].
    right; left. by apply negb_true_iff, bool_decide_eq_false in Hg.
  - assert (expired = false) as ->.
    { unfold exec_read_turn in Et. case_match; [|done]. case_match; [done|].
      destruct (_ || _) eqn:Hg; simplify_eq. by apply orb_false_iff in Hg as [_ ?]. }
    apply Exists_cons in Hex as [Hex|Hex]; [done|].
    destruct (IH Hex) as (r & H1 & H2). exists r. split; [done|].
    intros resp Hr. apply Exists_cons_tl. eauto.
  - exists (Err e). split; [done|]. by intros ? [=].
Qed.

(** [process/start] on every path: without the handshake, with an empty
    [argv], with an id in the table, or when the launch fails, the table is
    left exactly as it was and the matching error is returned; otherwise the id
    maps to a fresh running process. *)
Theorem exec_functional params spawned st :
  exec params spawned st =
  match require_initialized_for st "exec" with
  | Err e => (st, Err e)
  | Ok _ =>
      if decide (ep_argv params = []) then (st, Err (invalid_params "argv must not be empty"))
      else if decide (is_Some (processes st !! ep_process_id params)) then
        (st, Err (invalid_request ("process " +:+ ep_process_id params +:+ " already exists")))
      else match spawned with
           | Err err => (st, Err (internal_error err))
           | Ok session =>
               (set_running (ep_process_id params)
                  (initial_process session (ep_tty params)) st,
                Ok (mkExecResponse (ep_process_id params)))
           end
  end.
Proof.
  unfold exec, start_reserve. destruct (require_initialized_for st "exec"); [|done].
  cbn [res_bind]. destruct (ep_argv params) as [|a l] eqn:Ea.
  { destruct (decide ([] = [])); done. }
  destruct (decide (a :: l = [])) as [|_]; [done|]. case_decide as Hd; [done|].
  destruct st as [m b1 b2], spawned as [session|err]; cbn.
  - unfold set_running, with_processes. cbn. by rewrite insert_insert_eq.
  - rewrite lookup_insert_eq. unfold with_processes. cbn.
    rewrite delete_insert_id; [done|]. by apply eq_None_not_Some.
Qed.

(** C29: For clients that never reuse a process id, no output event of a
    process is broadcast after its closed event. *)
Theorem closed_event_is_last ls s :
  sys_run sys_init ls = Some s → fresh_ids ∅ ls = true →
  (Z.of_nat (length ls) + 1 < 2 ^ 64)%Z → closed_last (log s).
Proof.
  intros Hr Hf Hb. destruct (sys_run_inv ∅ ls 0 sys_init s) as [seen [_ H]];
    [done|done|lia|lia|apply map_Forall_empty|apply sys_inv_init|done].
Qed.

(** For clients that never reuse a process id, the events broadcast for a
    process carry pairwise distinct sequence numbers, and the open-stream count
    of a running process is the number of its reader tasks still alive. *)
Theorem event_numbers_and_streams ls s :
  sys_run sys_init ls = Some s → fresh_ids ∅ ls = true →
  (Z.of_nat (length ls) + 1 < 2 ^ 64)%Z →
  NoDup (map event_key (log s)) ∧
  (∀ pid p, running (inner s) pid = Some p → p_open_streams p = readers pid (tasks s)).
Proof.
  intros Hr Hf Hb. destruct (sys_run_inv ∅ ls 0 sys_init s) as [seen [He _]];
    [done|done|lia|lia|apply map_Forall_empty|apply sys_inv_init|].
  split.
  - pose proof (ei_nodup _ _ _ _ He) as Hn. rewrite map_app in Hn.
    by apply NoDup_app in Hn as (? & _).
  - intros pid p Hp. unfold running in Hp.
    destruct (processes (inner s) !! pid) as [[|q]|] eqn:E; simplify_eq.
    by destruct (ei_running _ _ _ _ He _ _ E) as (-> & _).
Qed.

(** A run in which a client starts a second process under the id of one that
    has exited and whose entry has expired, while the first child's pipes are
    still held open (by a grandchild). *)
Definition sample_params : ExecParams := mkExecParams "p" ["sh"] "/" ∅ false None.

Definition reuse_trace : list label :=
  [LInitialize; LInitialized; LCall sample_params; LTask 0 (ILaunched (Ok 1));
   LTask 2 (IExit (Some 0%Z)); LTask 2 (ISend true); LTask 2 IGo; LTask 2 IGo;
   (* the entry is gone; the id is used again *)
   LCall sample_params; LTask 2 (ILaunched (Ok 2));
   (* the first child's readers are tasks 0 and 1 *)
   LTask 0 (IChunk [x41]); LTask 0 (ISend true);
   LTask 0 IEof; LTask 0 IGo; LTask 0 IGo;
   LTask 0 IEof; LTask 0 IGo; LTask 0 IGo;
   (* the second child exits; its own readers are tasks 0 and 1 now *)
   LTask 2 (IExit (Some 0%Z)); LTask 2 (ISend true); LTask 2 IGo; LTask 2 (ISend true);
   LTask 0 (IChunk [x42]); LTask 0 (ISend true)].

Definition reuse_result : option Sys := sys_run sys_init reuse_trace.

(** Readers are tied to a process id, not to a launch: when an id is used
    again after its entry expired, a reader left over from the first child
    delivers its output into the second child's buffer and ends the second
    child's stream count, so that the second child is reported closed and its
    own output is broadcast after that. *)
Theorem stale_reader_crosses_over :
  ∃ s p, sys_run sys_init reuse_trace = Some s ∧
    running (inner s) "p" = Some p ∧ p_session p = 2 ∧
    map rc_chunk (p_output p) = [[x41]; [x42]] ∧
    readers "p" (tasks s) = 2%Z ∧ p_open_streams p = 0%Z ∧
    ¬ closed_last (log s).
Proof.
  destruct reuse_result as [s|] eqn:E; [|by vm_compute in E].
  exists s. vm_compute in E. injection E as <-.
  eexists. split; [vm_compute; reflexivity|]. split; [reflexivity|].
  do 4 (split; [reflexivity|]).
  cbn. intros H. repeat match goal with H : _ ∧ _ |- _ => destruct H end.
  match goal with
  | H : ∀ pid, "p" = pid → Forall _ [_] |- _ => apply (Forall_inv (H "p" eq_refl)); reflexivity
  end.
Qed.

(** Until the client has sent [initialize] and then [initialized], every
    process method is refused with an invalid-request error and changes
    nothing, whatever its parameters. *)
Theorem process_methods_need_handshake st :
  initialize_requested st && initialized_flag st = false →
  ∃ e, ce_kind e = InvalidRequest ∧
    (∀ params spawned, exec params spawned st = (st, Err e)) ∧
    (∀ params observed, exec_read params st observed = Some (Err e)) ∧
    (∀ send params, exec_write send params st = Err e) ∧
    (∀ params, terminate_process params st = Err e).
Proof.
  intros H. destruct (require_initialized_for st "exec") as [u|e] eqn:E.
  { unfold require_initialized_for in E.
    destruct (initialize_requested st), (initialized_flag st); done. }
  exists e. repeat split.
  - unfold require_initialized_for in E. do 2 (case_match; [by simplify_eq|]). done.
  - intros. unfold exec, start_reserve. by rewrite E.
  - intros. unfold exec_read. by rewrite E.
  - intros. unfold exec_write. by rewrite E.
  - intros. unfold terminate_process. by rewrite E.
Qed.

(** After a [terminate] request the reported [running] flag is true exactly
    when the process is in the table, launched and not yet exited, and exactly
    then its session, and no other, is told to terminate. *)
Theorem terminate_functional params st :
  require_initialized_for st "exec" = Ok tt →
  ∃ resp told, terminate_process params st = Ok (resp, told) ∧
    (tr_running resp = true ↔
       ∃ p, running st (tp_process_id params) = Some p ∧ p_exit_code p = None) ∧
    (∀ session, told = Some session ↔
       ∃ p, running st (tp_process_id params) = Some p ∧ p_exit_code p = None ∧
            session = p_session p).
Proof.
  intros H. unfold terminate_process, running. rewrite H. cbn [res_bind].
  destruct (processes st !! tp_process_id params) as [[|p]|]; [| |].
  - do 2 eexists. split; [reflexivity|]. cbn. naive_solver.
  - case_decide as Hd; do 2 eexists; (split; [reflexivity|]); cbn.
    + assert (p_exit_code p ≠ None) by (intros E; rewrite E in Hd; by destruct Hd).
      naive_solver.
    + apply eq_None_not_Some in Hd. split; [naive_solver|]. intros session.
      split; [intros [= <-]|intros (q & [= <-] & _ & ->)]; eauto.
  - do 2 eexists. split; [reflexivity|]. cbn. naive_solver.
Qed.

(** * Witnesses *)

Definition sample_trace : list label :=
  [LInitialize; LInitialized; LCall sample_params; LTask 0 (ILaunched (Ok 1));
   LTask 0 (IChunk [x41]); LTask 0 (ISend true); LTask 0 IEof; LTask 0 IGo; LTask 0 IGo;
   LTask 1 (IExit (Some 0%Z)); LTask 1 (ISend true); LTask 1 IGo;
   LTask 0 IEof; LTask 0 IGo; LTask 0 IGo; LTask 0 (ISend true)].

Definition sample_sys : Sys := default sys_init (sys_run sys_init sample_trace).

Definition sample_process : RunningProcess :=
  mkRunning 1 false [mkRetained 1 Stdout [x41; x42]; mkRetained 2 Stderr [x43]] 3 3 None 2 false.

Lemma process_table_invariant_witness :
  map_Forall (λ _ e, match e with Starting => True | Running p => process_wf p end)
    (processes (inner sample_sys)).
Proof.
  apply (process_table_invariant sample_trace); [vm_compute; reflexivity|vm_compute; reflexivity].
Defined.

Lemma sample_process_wf : process_wf sample_process.
Proof.
  split; cbn; try done; try (unfold RETAINED_OUTPUT_BYTES_PER_PROCESS; lia).
  - split; [repeat constructor; lia|]. split; [constructor|done].
  - repeat constructor; cbn; lia.
Qed.

Lemma read_pages_complete_witness :
  read_pages 2 1 0 sample_process = map read_chunk (pending 0 sample_process).
Proof.
  apply (read_pages_complete 2 1 0 sample_process);
    [apply sample_process_wf|vm_compute; reflexivity|vm_compute; lia].
Defined.

Lemma read_within_max_bytes_witness :
  let cs := rr_chunks (read_process 0 1 sample_process) in
  ((response_bytes cs ≤ 1)%Z ∨ length cs ≤ 1) ∧ (pending 0 sample_process ≠ [] → cs ≠ []).
Proof.
  apply (read_within_max_bytes 0 1 sample_process);
    [apply sample_process_wf|vm_compute; reflexivity].
Defined.

Lemma exec_read_answers_witness :
  let st := inner sample_sys in
  let params := mkReadParams "p" (Some 5%Z) None (Some 10%Z) in
  ∃ r, exec_read params st [(st, true)] = Some r ∧
       (∀ resp, r = Ok resp →
          Exists (λ o, o.2 = true ∨ rr_chunks resp ≠ [] ∨ rr_exited resp = true) [(st, true)]).
Proof.
  apply (exec_read_answers (mkReadParams "p" (Some 5%Z) None (Some 10%Z)) (inner sample_sys));
    [vm_compute; reflexivity|by constructor].
Defined.

Lemma closed_event_is_last_witness : closed_last (log sample_sys).
Proof.
  apply (closed_event_is_last sample_trace);
    [vm_compute; reflexivity|vm_compute; reflexivity|vm_compute; reflexivity].
Defined.

Lemma event_numbers_and_streams_witness :
  NoDup (map event_key (log sample_sys)) ∧
  (∀ pid p, running (inner sample_sys) pid = Some p →
            p_open_streams p = readers pid (tasks sample_sys)).
Proof.
  apply (event_numbers_and_streams sample_trace);
    [vm_compute; reflexivity|vm_compute; reflexivity|vm_compute; reflexivity].
Defined.

Lemma process_methods_need_handshake_witness :
  ∃ e, ce_kind e = InvalidRequest ∧
    (∀ params spawned, exec params spawned LocalProcess_new = (LocalProcess_new, Err e)) ∧
    (∀ params observed, exec_read params LocalProcess_new observed = Some (Err e)) ∧
    (∀ send params, exec_write send params LocalProcess_new = Err e) ∧
    (∀ params, terminate_process params LocalProcess_new = Err e).
Proof. apply (process_methods_need_handshake LocalProcess_new). reflexivity. Defined.

Lemma terminate_functional_witness :
  ∃ resp told, terminate_process (mkTerminateParams "p") (inner sample_sys) = Ok (resp, told) ∧
    (tr_running resp = true ↔
       ∃ p, running (inner sample_sys) "p" = Some p ∧ p_exit_code p = None) ∧
    (∀ session, told = Some session ↔
       ∃ p, running (inner sample_sys) "p" = Some p ∧ p_exit_code p = None ∧
            session = p_session p).
Proof.
  apply (terminate_functional (mkTerminateParams "p") (inner sample_sys)).
  vm_compute. reflexivity.
Defined.
