(* ===== verification/PtyOs.v ===== *)
(** What [utils/pty] asks of the operating system: signals to process groups
    ([process_group.rs]), pseudo-terminals and the descriptors a child keeps
    ([pty.rs]), and the commands the three ways of spawning build
    ([pipe.rs], [pty.rs]).

    System calls are the operations of a class [Unix]; what theorems need of
    them is a class of laws.  Numbers are Linux's. *)
From S2P Require Import Prelude.

Open Scope Z_scope.

(** * [std::io::Error] *)

(** The kinds the source tells apart. *)
Inductive ErrorKind := NotFound | Interrupted | WouldBlock | OtherKind.

#[export] Instance ErrorKind_eq_decision : EqDecision ErrorKind.
Proof. solve_decision. Defined.

(** [std]'s table from error numbers to kinds: [ENOENT], [EINTR], [EAGAIN]. *)
Definition decode_error_kind (errno : Z) : ErrorKind :=
  if decide (errno = 2) then NotFound
  else if decide (errno = 4) then Interrupted
  else if decide (errno = 11) then WouldBlock
  else OtherKind.

Inductive io_error :=
  | OsError (errno : Z)
  | Custom (kind : ErrorKind) (text : string).

Definition raw_os_error (e : io_error) : option Z :=
  match e with OsError n => Some n | Custom _ _ => None end.

Definition kind (e : io_error) : ErrorKind :=
  match e with OsError n => decode_error_kind n | Custom k _ => k end.

(** [anyhow::Error]: a message, or an error of the system. *)
Inductive SpawnError := Message (text : string) | IoError (e : io_error).

Definition EPERM : Z := 1.
Definition ESRCH : Z := 3.
Definition EBADF : Z := 9.
Definition SIGKILL : Z := 9.
Definition SIGTERM : Z := 15.
Definition FD_CLOEXEC : Z := 1.

(** * System calls *)

(* @src crates/utils/pty/src/process.rs TerminalSize *)
Record TerminalSize := mkSize { rows : Z; cols : Z }.

(* @src crates/utils/pty/src/process.rs TerminalSize::default *)
Definition TerminalSize_default : TerminalSize := mkSize 24 80.

(** [libc::winsize] and [portable_pty::PtySize]: cells and pixels. *)
Record winsize := mkWinsize { ws_row : Z; ws_col : Z; ws_xpixel : Z; ws_ypixel : Z }.

(* @src crates/utils/pty/src/process.rs PtySize::from *)
Definition winsize_of (value : TerminalSize) : winsize := mkWinsize (rows value) (cols value) 0 0.

(** A failed call leaves its error number. *)
Class Unix (K : Type) := {
  sys_setsid : K → K * result Z Z;
  sys_setpgid : Z → Z → K → K * result unit Z;
  sys_getpgid : Z → K → result Z Z;
  sys_killpg : Z → Z → K → K * result unit Z;
  sys_set_pdeathsig : Z → K → K * result unit Z;
  sys_getppid : K → Z;
  sys_raise : Z → K → K;
  sys_signal_default : Z → K → K;
  sys_sigprocmask_empty : K → K;
  sys_set_ctty : Z → K → K * result unit Z;
  sys_set_winsize : Z → winsize → K → K * result unit Z;
  sys_openpty : winsize → K → K * result (Z * Z) Z;
  sys_getfd : Z → K → result Z Z;
  sys_setfd : Z → Z → K → K * result unit Z;
  sys_close : Z → K → K;
  (** the names in [/dev/fd], those that can be read and are text *)
  read_dev_fd : K → option (list (option string));
}.

(** A call that may fail with an [io::Error], and [?]. *)
Definition sys (K A : Type) : Type := K → K * result A io_error.

Section calls.
Context {K : Type}.

Definition os_ret {A} (a : A) : sys K A := λ k, (k, Ok a).

Definition os_bind {A B} (m : sys K A) (f : A → sys K B) : sys K B := λ k,
  match m k with
  | (k', Ok a) => f a k'
  | (k', Err e) => (k', Err e)
  end.

(** [if result == -1 { return Err(io::Error::last_os_error()) }] *)
Definition last_os_error {A} (m : K → K * result A Z) : sys K A := λ k,
  let '(k', r) := m k in (k', map_err OsError r).

Definition os_do (f : K → K) : sys K unit := λ k, (f k, Ok tt).

(** The [anyhow::Error] of a spawn. *)
Definition anyhow_io {A} (m : sys K A) : K → K * result A SpawnError := λ k,
  let '(k', r) := m k in (k', map_err IoError r).

Definition and_then {A B E} (m : K → K * result A E) (f : A → K → K * result B E)
    : K → K * result B E := λ k,
  match m k with
  | (k', Ok a) => f a k'
  | (k', Err e) => (k', Err e)
  end.
End calls.

Notation "m ;;; k" := (os_bind m (λ _, k))
  (at level 100, k at level 200, right associativity, only parsing) : nexal_scope.

(** * Process groups *)

Section groups.
Context {K : Type} {U : Unix K}.

(* @src crates/utils/pty/src/process_group.rs set_process_group *)
Definition set_process_group : sys K unit := last_os_error (sys_setpgid 0 0).

(* @src crates/utils/pty/src/process_group.rs detach_from_tty *)
Definition detach_from_tty : sys K unit := λ k,
  match sys_setsid k with
  | (k', Err err) =>
      if decide (raw_os_error (OsError err) = Some EPERM) then set_process_group k'
      else (k', Err (OsError err))
  | (k', Ok _) => (k', Ok tt)
  end.

(* @src crates/utils/pty/src/process_group.rs set_parent_death_signal *)
Definition set_parent_death_signal (parent_pid : Z) : sys K unit :=
  last_os_error (sys_set_pdeathsig SIGTERM) ;;;
  os_do (λ k, if decide (sys_getppid k = parent_pid) then k else sys_raise SIGTERM k).

(** A signal to a group; an error of kind [NotFound] is no error. *)
(* @src crates/utils/pty/src/process_group.rs kill_process_group_by_pid "let result = unsafe { libc::killpg(pgid, libc::SIGKILL) };" .. "Ok(())" *)
Definition killpg_tolerant (pgid : Z) : sys K unit := λ k,
  match sys_killpg pgid SIGKILL k with
  | (k', Err err) =>
      if decide (kind (OsError err) = NotFound) then (k', Ok tt) else (k', Err (OsError err))
  | (k', Ok _) => (k', Ok tt)
  end.

(* @src crates/utils/pty/src/process_group.rs kill_process_group *)
Definition kill_process_group (process_group_id : Z) : sys K unit :=
  killpg_tolerant (wrap_i32 process_group_id).

(* @src crates/utils/pty/src/process_group.rs kill_process_group_by_pid *)
Definition kill_process_group_by_pid (pid : Z) : sys K unit := λ k,
  match sys_getpgid (wrap_i32 pid) k with
  | Err err =>
      if decide (kind (OsError err) = NotFound) then (k, Ok tt) else (k, Err (OsError err))
  | Ok pgid => killpg_tolerant pgid k
  end.

(* @src crates/utils/pty/src/process_group.rs terminate_process_group *)
Definition terminate_process_group (process_group_id : Z) : sys K bool := λ k,
  match sys_killpg (wrap_i32 process_group_id) SIGTERM k with
  | (k', Err err) =>
      if decide (kind (OsError err) = NotFound) then (k', Ok false) else (k', Err (OsError err))
  | (k', Ok _) => (k', Ok true)
  end.

(** [child_id] is [Child::id]: [None] once the child has been waited for. *)
(* @src crates/utils/pty/src/process_group.rs kill_child_process_group *)
Definition kill_child_process_group (child_id : option Z) : sys K unit :=
  match child_id with
  | Some pid => kill_process_group_by_pid pid
  | None => os_ret tt
  end.
End groups.

(** * Terminators *)

(** The trait [portable_pty::ChildKiller]. *)
Class ChildKiller (C K : Type) := killer_kill : C → sys K unit.

(* @src crates/utils/pty/src/pipe.rs PipeChildTerminator *)
Record PipeChildTerminator := mkPipeTerm { pipe_group_id : Z }.

(* @src crates/utils/pty/src/pty.rs RawPidTerminator *)
Record RawPidTerminator := mkRawTerm { raw_group_id : Z }.

(* @src crates/utils/pty/src/pty.rs PtyChildTerminator *)
Record PtyChildTerminator (C : Type) := mkPtyTerm { pty_killer : C; pty_group_id : option Z }.
Arguments mkPtyTerm {C}.
Arguments pty_killer {C}.
Arguments pty_group_id {C}.

(* @src crates/utils/pty/src/process.rs ChildTerminator *)
Class ChildTerminator (T K : Type) := kill : T → sys K unit.

Section terminators.
Context {K : Type} {U : Unix K}.

(* @src crates/utils/pty/src/pipe.rs PipeChildTerminator::kill *)
#[export] Instance PipeChildTerminator_kill : ChildTerminator PipeChildTerminator K :=
  λ self, kill_process_group (pipe_group_id self).

(* @src crates/utils/pty/src/pty.rs RawPidTerminator::kill *)
#[export] Instance RawPidTerminator_kill : ChildTerminator RawPidTerminator K :=
  λ self, kill_process_group (raw_group_id self).

(* @src crates/utils/pty/src/pty.rs PtyChildTerminator::kill *)
#[export] Instance PtyChildTerminator_kill {C} `{!ChildKiller C K}
    : ChildTerminator (PtyChildTerminator C) K := λ self k,
  match pty_group_id self with
  | Some process_group_id =>
      let '(k, process_group_kill_result) := kill_process_group process_group_id k in
      let '(k, child_kill_result) := killer_kill (pty_killer self) k in
      (k, match child_kill_result with
          | Ok _ => Ok tt
          | Err err =>
              if decide (kind err = NotFound) then process_group_kill_result
              else match process_group_kill_result with Ok _ => Ok tt | Err _ => Err err end
          end)
  | None => killer_kill (pty_killer self) k
  end.
End terminators.

(** [Box<dyn ChildTerminator>]: the three that are made. *)
Inductive Terminator (C : Type) :=
  | PipeTerm (t : PipeChildTerminator)
  | RawTerm (t : RawPidTerminator)
  | PtyTerm (t : PtyChildTerminator C).
Arguments PipeTerm {C}.
Arguments RawTerm {C}.
Arguments PtyTerm {C}.

#[export] Instance Terminator_kill {C K} `{!Unix K} `{!ChildKiller C K}
    : ChildTerminator (Terminator C) K := λ t,
  match t with PipeTerm t => kill t | RawTerm t => kill t | PtyTerm t => kill t end.

(** * Descriptors *)

(** Decimal digits with the value so far. *)
Fixpoint digits_value (acc : Z) (s : string) : option Z :=
  match s with
  | EmptyString => Some acc
  | String c s' =>
      if is_ascii_digit c then digits_value (acc * 10 + (Z.of_N (code c) - 48)) s' else None
  end.

(** [str::parse::<i32>]: a sign is allowed in front of the digits. *)
Definition parse_i32 (s : string) : option Z :=
  let number sign t :=
    if decide (t = "") then None
    else n ← digits_value 0 t;
         if decide (- 2 ^ 31 ≤ sign * n < 2 ^ 31) then Some (sign * n) else None in
  match s with
  | EmptyString => None
  | String c t =>
      if Ascii.eqb c "+" then number 1 t else if Ascii.eqb c "-" then number (-1) t else number 1 s
  end.

Section descriptors.
Context {K : Type} {U : Unix K}.

(* @src crates/utils/pty/src/pty.rs set_cloexec *)
Definition set_cloexec (fd : Z) : sys K unit := λ k,
  match sys_getfd fd k with
  | Err err => (k, Err (OsError err))
  | Ok flags => last_os_error (sys_setfd fd (Z.lor flags FD_CLOEXEC)) k
  end.

(** The master's and the slave's descriptors. *)
(* @src crates/utils/pty/src/pty.rs open_unix_pty *)
Definition open_unix_pty (size : TerminalSize) : K → K * result (Z * Z) SpawnError := λ k,
  match sys_openpty (winsize_of size) k with
  | (k, Err err) => (k, Err (Message "failed to openpty"))
  | (k, Ok (master, slave)) =>
      anyhow_io (set_cloexec master ;;; set_cloexec slave ;;; os_ret (master, slave)) k
  end.

(** A name of [/dev/fd] that is to be closed. *)
(* @src crates/utils/pty/src/pty.rs close_inherited_fds_except "let num = entry" .. "fds.push(num);" *)
Definition fd_to_close (preserved_fds : list Z) (k : K) (entry : option string) : option Z :=
  num ← (entry ≫= parse_i32);
  if decide (num ≤ 2 ∨ num ∈ preserved_fds) then None
  else match sys_getfd num k with
       | Err _ => None
       | Ok flags => if decide (Z.land flags FD_CLOEXEC = 0) then Some num else None
       end.

Definition close_all (fds : list Z) (k : K) : K := foldl (λ k fd, sys_close fd k) k fds.

(* @src crates/utils/pty/src/pty.rs close_inherited_fds_except *)
Definition close_inherited_fds_except (preserved_fds : list Z) (k : K) : K :=
  match read_dev_fd k with
  | Some entries => close_all (omap (fd_to_close preserved_fds k) entries) k
  | None => k
  end.

(* @src crates/utils/pty/src/process.rs resize_raw_pty *)
Definition resize_raw_pty (raw_fd : Z) (size : TerminalSize) : sys K unit :=
  last_os_error (sys_set_winsize raw_fd (winsize_of size)).

(** What a pipe's child does between [fork] and [exec]. *)
(* @src crates/utils/pty/src/pipe.rs spawn_process_with_stdin_mode "command.pre_exec(move || {" .. "Ok(())" *)
Definition pipe_pre_exec (parent_pid : Z) (inherited_fds : list Z) : sys K unit :=
  detach_from_tty ;;;
  set_parent_death_signal parent_pid ;;;
  os_do (close_inherited_fds_except inherited_fds).

(** [SIGCHLD], [SIGHUP], [SIGINT], [SIGQUIT], [SIGTERM], [SIGALRM] *)
Definition default_signals : list Z := [17; 1; 2; 3; 15; 14].

(** What the child of a pseudo-terminal with preserved descriptors does. *)
(* @src crates/utils/pty/src/pty.rs spawn_process_preserving_fds "for signo in &[" .. "Ok(())" *)
Definition pty_pre_exec (inherited_fds : list Z) : sys K unit :=
  os_do (λ k, foldl (λ k signo, sys_signal_default signo k) k default_signals) ;;;
  os_do sys_sigprocmask_empty ;;;
  last_os_error sys_setsid ;;;
  last_os_error (sys_set_ctty 0) ;;;
  os_do (close_inherited_fds_except inherited_fds).
End descriptors.

(** * Commands *)

Inductive Stdio := StdioPiped | StdioNull | StdioFd (fd : Z).

(** Settings of a [std::process::Command]: [child_argv0] is what the program
    sees as its name, [child_env] what is set over the inherited environment. *)
Record Command := mkCommand {
  child_program : string;
  child_argv0 : string;
  child_args : list string;
  child_cwd : string;
  child_env : gmap string string;
  child_stdin : Stdio;
  child_stdout : Stdio;
  child_stderr : Stdio;
}.

(** The environment the child runs in. *)
Definition environment (inherited : gmap string string) (c : Command) : gmap string string :=
  child_env c ∪ inherited.

(** Settings of a [portable_pty::CommandBuilder]: the words given to [new]
    and [arg], the first of which names the program. *)
Record CommandBuilder := mkCommandBuilder {
  builder_argv : list string;
  builder_cwd : string;
  builder_env : gmap string string;
}.

(* @src crates/utils/pty/src/pipe.rs PipeStdinMode *)
Inductive PipeStdinMode := Piped | Null.

(* @src crates/utils/pty/src/pipe.rs spawn_process_with_stdin_mode "let mut command = Command::new(program);" .. "command.stderr(Stdio::piped());" *)
Definition pipe_command (program : string) (args : list string) (cwd : string)
    (env : gmap string string) (arg0 : option string) (stdin_mode : PipeStdinMode) : Command :=
  mkCommand program (default program arg0) args cwd env
    (match stdin_mode with Piped => StdioPiped | Null => StdioNull end) StdioPiped StdioPiped.

(* @src crates/utils/pty/src/pty.rs spawn_process_portable "let mut command_builder" .. "command_builder.env(key, value);" *)
Definition portable_command (program : string) (args : list string) (cwd : string)
    (env : gmap string string) (arg0 : option string) : CommandBuilder :=
  mkCommandBuilder (default program arg0 :: args) cwd env.

(* @src crates/utils/pty/src/pty.rs spawn_process_preserving_fds "let mut command = StdCommand::new(program);" .. "let stderr = slave.try_clone()?;" *)
Definition preserving_command (program : string) (args : list string) (cwd : string)
    (env : gmap string string) (arg0 : option string) (stdin stdout stderr : Z) : Command :=
  mkCommand program (default program arg0) args cwd env
    (StdioFd stdin) (StdioFd stdout) (StdioFd stderr).

(** * Laws of descriptors and groups *)

(** [fd_table] shows a process's open descriptors, each with its
    close-on-exec flag.  Reading [/dev/fd] may fail; when it does not, it lists
    them all. *)
Class UnixFds (K : Type) {U : Unix K} (fd_table : K → gmap Z bool) := {
  nonneg_law k n : n < 0 → fd_table k !! n = None;
  getfd_law k n : sys_getfd n k =
    match fd_table k !! n with
    | Some c => Ok (if c : bool then FD_CLOEXEC else 0)
    | None => Err EBADF
    end;
  setfd_law k n c flags : fd_table k !! n = Some c →
    ∃ k', sys_setfd n flags k = (k', Ok tt)
      ∧ fd_table k' = <[n := Z.testbit flags 0]> (fd_table k);
  close_law k n : fd_table (sys_close n k) = delete n (fd_table k);
  dev_fd_law k names : read_dev_fd k = Some names →
    ∀ n, is_Some (fd_table k !! n) → ∃ name, Some name ∈ names ∧ parse_i32 name = Some n;
  openpty_law k size k' m s : sys_openpty size k = (k', Ok (m, s)) →
    m ≠ s ∧ fd_table k !! m = None ∧ fd_table k !! s = None
    ∧ fd_table k' = <[s := false]> (<[m := false]> (fd_table k));
  signal_law k n : fd_table (sys_signal_default n k) = fd_table k;
  sigprocmask_law k : fd_table (sys_sigprocmask_empty k) = fd_table k;
  raise_law k n : fd_table (sys_raise n k) = fd_table k;
  setsid_law k : fd_table (sys_setsid k).1 = fd_table k;
  setpgid_law k p g : fd_table (sys_setpgid p g k).1 = fd_table k;
  pdeathsig_law k n : fd_table (sys_set_pdeathsig n k).1 = fd_table k;
  set_ctty_law k n : fd_table (sys_set_ctty n k).1 = fd_table k;
}.

(** [members] shows the processes of a group that the caller may signal. *)
Class UnixGroups (K : Type) {U : Unix K} (members : K → Z → gset Z) := {
  killpg_gone_law k g n : members k g = ∅ → sys_killpg g n k = (k, Err ESRCH);
  killpg_law k g n : members k g ≠ ∅ → ∃ k', sys_killpg g n k = (k', Ok tt);
  sigkill_law k g : members (sys_killpg g SIGKILL k).1 g = ∅;
  getpgid_gone_law k p : (∀ g, p ∉ members k g) → sys_getpgid p k = Err ESRCH;
  getpgid_law k p g : p ∈ members k g → sys_getpgid p k = Ok g;
}.

(** The table of a process that [Command] forks: copies made with
    [File::try_clone] are marked close-on-exec, and the three standard streams
    are put in place. *)
Definition with_clones (clones : list Z) (t : gmap Z bool) : gmap Z bool :=
  foldr (λ n t, <[n := true]> t) t clones.

Definition forked_table (clones : list Z) (t : gmap Z bool) : gmap Z bool :=
  <[0 := false]> (<[1 := false]> (<[2 := false]> (with_clones clones t))).

(** What is left of the descriptors when a program is executed. *)
Definition exec_table (t : gmap Z bool) : gmap Z bool := filter (λ p, p.2 = false) t.

(** * Which descriptors a child has *)

Section fds.
Context {K : Type} {U : Unix K} {fd_table : K → gmap Z bool} {L : UnixFds K fd_table}.

Lemma close_all_table fds k :
  fd_table (close_all fds k) = filter (λ p, p.1 ∉ fds) (fd_table k).
Proof.
  revert k. induction fds as [|fd fds IH]; intros k; cbn.
  - symmetry. apply map_filter_id. intros n c _ ?%elem_of_nil. done.
  - unfold close_all in IH. rewrite IH, close_law. apply map_eq. intros n.
    apply option_eq. intros c. rewrite !map_lookup_filter_Some, lookup_delete_Some. cbn.
    rewrite not_elem_of_cons. naive_solver.
Qed.

Lemma fd_to_close_Some preserved k name n :
  fd_to_close preserved k (Some name) = Some n ↔
  parse_i32 name = Some n ∧ 2 < n ∧ n ∉ preserved ∧ fd_table k !! n = Some false.
Proof.
  unfold fd_to_close. cbn. destruct (parse_i32 name) as [m|]; cbn; [|naive_solver].
  rewrite getfd_law. case_decide as Hm.
  - split; [done|]. intros ([= ->] & ? & ? & _). destruct Hm; [lia|done].
  - destruct (Decidable.not_or _ _ Hm) as [Hlo Hp].
    destruct (fd_table k !! m) as [[]|] eqn:Em.
    + rewrite decide_False by done. split; [done|]. intros ([= ->] & _ & _ & ?). congruence.
    + rewrite decide_True by done. split; [|by intros ([= ->] & _)].
      intros [= <-]. split_and!; [done|lia|done|done].
    + split; [done|]. intros ([= ->] & _ & _ & ?). congruence.
Qed.

(** Closed are the descriptors past the standard streams that are neither
    preserved nor marked close-on-exec; none, when they cannot be listed. *)
Lemma close_inherited_table preserved k :
  fd_table (close_inherited_fds_except preserved k) =
  filter (λ p, p.1 ≤ 2 ∨ p.1 ∈ preserved ∨ p.2 = true ∨ read_dev_fd k = None) (fd_table k).
Proof.
  unfold close_inherited_fds_except. destruct (read_dev_fd k) as [names|] eqn:Hread.
  2: { symmetry. apply map_filter_id. intros n c _. by right; right; right. }
  pose proof (dev_fd_law k names Hread) as Hnames.
  rewrite close_all_table. apply map_filter_ext. intros n c Hn. cbn.
  rewrite list_elem_of_omap. split.
  - intros Hkept. destruct (decide (n ≤ 2)); [by left|]. destruct (decide (n ∈ preserved)); [by right; left|].
    right. right. left. destruct c; [done|]. exfalso. apply Hkept.
    destruct (Hnames n) as (name & Hin & Hp); [by eexists|].
    exists (Some name). split; [done|]. apply fd_to_close_Some. split_and!; [done|lia|done|done].
  - intros Hk ([name|] & Hin & Hc); [|done]. apply fd_to_close_Some in Hc as (_ & ? & ? & Hf).
    destruct Hk as [?|[?|[?|?]]]; [lia|done| |done]. congruence.
Qed.

Lemma exec_close_inherited preserved k :
  exec_table (fd_table (close_inherited_fds_except preserved k)) =
  filter (λ p, p.2 = false ∧ (p.1 ≤ 2 ∨ p.1 ∈ preserved ∨ read_dev_fd k = None)) (fd_table k).
Proof.
  unfold exec_table. rewrite close_inherited_table, map_filter_filter.
  apply map_filter_ext. intros n c _. cbn. destruct c; naive_solver.
Qed.

(** A call that succeeds and leaves the table alone. *)
Definition keeps_fds {A} (m : sys K A) : Prop := ∀ k, fd_table (m k).1 = fd_table k.

Lemma keeps_last_os_error {A} (m : K → K * result A Z) :
  (∀ k, fd_table (m k).1 = fd_table k) → keeps_fds (last_os_error m).
Proof. intros H k. specialize (H k). unfold last_os_error. by destruct (m k). Qed.

Lemma keeps_do f : (∀ k, fd_table (f k) = fd_table k) → keeps_fds (os_do f).
Proof. intros H k. apply H. Qed.

Lemma keeps_detach : keeps_fds detach_from_tty.
Proof.
  intros k. unfold detach_from_tty. pose proof (setsid_law k) as Hs.
  destruct (sys_setsid k) as [k1 [p|e]]; [done|]. case_decide; [|done].
  unfold set_process_group. cbn in Hs. rewrite <- Hs.
  apply (keeps_last_os_error (sys_setpgid 0 0)). intros k'. apply setpgid_law.
Qed.

Lemma keeps_default_signals l : keeps_fds (os_do (λ k, foldl (λ k n, sys_signal_default n k) k l)).
Proof.
  apply keeps_do. induction l as [|n l IH]; intros k; cbn; [done|]. by rewrite IH, signal_law.
Qed.

Lemma bind_Ok_inv {A B} (m : sys K A) (f : A → sys K B) k k' b :
  os_bind m f k = (k', Ok b) → ∃ k1 a, m k = (k1, Ok a) ∧ f a k1 = (k', Ok b).
Proof. unfold os_bind. destruct (m k) as [k1 [a|e]]; [eauto|done]. Qed.

Lemma keeps_then {A B} (m : sys K A) (f : A → sys K B) k k' b :
  keeps_fds m → os_bind m f k = (k', Ok b) →
  ∃ k1 a, fd_table k1 = fd_table k ∧ f a k1 = (k', Ok b).
Proof.
  intros Hm (k1 & a & Hk & Hf)%bind_Ok_inv. exists k1, a. split; [|done].
  specialize (Hm k). by rewrite Hk in Hm.
Qed.

Lemma parent_death_keeps pid : keeps_fds (set_parent_death_signal pid).
Proof.
  intros k. unfold set_parent_death_signal, os_bind, last_os_error.
  pose proof (pdeathsig_law k SIGTERM) as Hp.
  destruct (sys_set_pdeathsig SIGTERM k) as [k1 [[]|e]]; cbn in *; [|done].
  case_decide; [done|]. by rewrite raise_law.
Qed.

Lemma pty_pre_exec_table preserved k k' :
  pty_pre_exec preserved k = (k', Ok tt) →
  ∃ k1, fd_table k1 = fd_table k ∧ k' = close_inherited_fds_except preserved k1.
Proof.
  unfold pty_pre_exec. intros H.
  apply keeps_then in H as (k1 & [] & E1 & H); [|apply keeps_default_signals].
  apply keeps_then in H as (k2 & [] & E2 & H); [|apply keeps_do, sigprocmask_law].
  apply keeps_then in H as (k3 & x & E3 & H); [|apply keeps_last_os_error, setsid_law].
  apply keeps_then in H as (k4 & [] & E4 & H);
    [|apply keeps_last_os_error; intros; apply set_ctty_law].
  exists k4. split; [congruence|]. by injection H as <-.
Qed.

Lemma pipe_pre_exec_table parent preserved k k' :
  pipe_pre_exec parent preserved k = (k', Ok tt) →
  ∃ k1, fd_table k1 = fd_table k ∧ k' = close_inherited_fds_except preserved k1.
Proof.
  unfold pipe_pre_exec. intros H.
  apply keeps_then in H as (k1 & [] & E1 & H); [|apply keeps_detach].
  apply keeps_then in H as (k2 & [] & E2 & H); [|apply parent_death_keeps].
  exists k2. split; [congruence|]. by injection H as <-.
Qed.

Lemma set_cloexec_table fd k c :
  fd_table k !! fd = Some c →
  ∃ k', set_cloexec fd k = (k', Ok tt) ∧ fd_table k' = <[fd := true]> (fd_table k).
Proof.
  intros Hc. unfold set_cloexec. rewrite getfd_law, Hc.
  destruct (setfd_law k fd c (Z.lor (if c then FD_CLOEXEC else 0) FD_CLOEXEC) Hc) as (k' & E & Et).
  exists k'. unfold last_os_error. rewrite E. split; [done|].
  rewrite Et. by destruct c.
Qed.

(** The new descriptors are marked; nothing else changes. *)
Lemma open_unix_pty_table size k k' r :
  sys_openpty (winsize_of size) k = (k', Ok r) →
  ∃ k1 m s, r = (m, s) ∧ open_unix_pty size k = (k1, Ok (m, s))
    ∧ fd_table k !! m = None ∧ fd_table k !! s = None
    ∧ fd_table k1 = <[s := true]> (<[m := true]> (fd_table k)).
Proof.
  destruct r as [m s]. intros E. destruct (openpty_law _ _ _ _ _ E) as (Hne & Hm & Hs & Ht).
  unfold open_unix_pty. rewrite E.
  destruct (set_cloexec_table m k' false) as (k1 & E1 & T1).
  { rewrite Ht, lookup_insert_ne by done. apply lookup_insert_eq. }
  destruct (set_cloexec_table s k1 false) as (k2 & E2 & T2).
  { rewrite T1, lookup_insert_ne by done. rewrite Ht. apply lookup_insert_eq. }
  exists k2, m, s. split_and!; try done.
  - unfold anyhow_io, os_bind. rewrite E1, E2. done.
  - rewrite T2, T1, Ht. apply map_eq. intros n. rewrite !lookup_insert.
    repeat case_decide; congruence.
Qed.

Lemma clones_lookup clones t n c :
  with_clones clones t !! n = Some c ↔
  (n ∈ clones ∧ c = true) ∨ (n ∉ clones ∧ t !! n = Some c).
Proof.
  induction clones as [|m l IH]; cbn.
  - split; [intros ?; right; split; [apply not_elem_of_nil|done]|].
    intros [[?%elem_of_nil _]|[_ ?]]; done.
  - rewrite lookup_insert_Some, IH, elem_of_cons. destruct (decide (m = n)); naive_solver.
Qed.

Lemma forked_lookup clones t n :
  forked_table clones t !! n = Some false ↔
  0 ≤ n ≤ 2 ∨ (¬ 0 ≤ n ≤ 2 ∧ n ∉ clones ∧ t !! n = Some false).
Proof.
  unfold forked_table. rewrite !lookup_insert_Some, clones_lookup. split.
  - intros [[<- _]|[? [[<- _]|[? [[<- _]|[? [[_ ?]|[??]]]]]]]]; try (left; lia).
    destruct (decide (0 ≤ n ≤ 2)); [by left|right]. done.
  - intros [?|(? & ? & ?)].
    + destruct (decide (n = 0)) as [->|]; [by left|right]. split; [done|].
      destruct (decide (n = 1)) as [->|]; [by left|right]. split; [done|].
      left. split; [lia|done].
    + right. split; [lia|]. right. split; [lia|]. right. split; [lia|]. right. done.
Qed.

Lemma open_unix_pty_Ok size k k1 m s :
  open_unix_pty size k = (k1, Ok (m, s)) →
  fd_table k1 = <[s := true]> (<[m := true]> (fd_table k)).
Proof.
  intros H. destruct (sys_openpty (winsize_of size) k) as [k' [r|e]] eqn:E;
    [|unfold open_unix_pty in H; rewrite E in H; done].
  destruct (open_unix_pty_table _ _ _ _ E) as (k2 & m' & s' & _ & E2 & _ & _ & T).
  rewrite H in E2. by injection E2 as -> -> ->.
Qed.

(** C32: Which descriptors a process starts with that is spawned on a
    pseudo-terminal with descriptors to preserve ([spawn_process_preserving_fds]).
    When its [/dev/fd] can be read: its three standard streams and those of the
    preserved descriptors that were open and not marked close-on-exec, and no
    others, so neither the terminal's master nor any descriptor of another
    session.  When it cannot, nothing is closed, and it also has every other
    descriptor of the agent that is not marked close-on-exec; the terminal's two
    are marked.  (A preserved descriptor that is marked is lost either way.) *)
Theorem pty_child_descriptors size preserved clones k0 k1 m s child k' :
  open_unix_pty size k0 = (k1, Ok (m, s)) →
  fd_table child = forked_table clones (fd_table k1) →
  (∀ n, n ∈ clones → fd_table k1 !! n = None) →
  pty_pre_exec preserved child = (k', Ok tt) →
  ∃ k2, fd_table k2 = fd_table child ∧ k' = close_inherited_fds_except preserved k2
    ∧ ∀ n, n ∈ dom (exec_table (fd_table k')) ↔
         0 ≤ n ≤ 2
         ∨ n ≠ m ∧ n ≠ s ∧ fd_table k0 !! n = Some false ∧ (n ∈ preserved ∨ read_dev_fd k2 = None).
Proof.
  intros Hopen Hchild Hclones (k2 & Hk2 & ->)%pty_pre_exec_table.
  exists k2. split; [done|]. split; [done|]. intros n.
  rewrite exec_close_inherited, Hk2, Hchild, elem_of_dom.
  apply open_unix_pty_Ok in Hopen.
  assert (is_Some (filter (λ p, p.2 = false ∧ (p.1 ≤ 2 ∨ p.1 ∈ preserved ∨ read_dev_fd k2 = None))
                     (forked_table clones (fd_table k1)) !! n) ↔
          forked_table clones (fd_table k1) !! n = Some false
          ∧ (n ≤ 2 ∨ n ∈ preserved ∨ read_dev_fd k2 = None)) as ->.
  { unfold is_Some. setoid_rewrite map_lookup_filter_Some. naive_solver. }
  rewrite forked_lookup, Hopen, !lookup_insert_Some. split.
  - intros [[?|(Hn & _ & [[_ ?]|[? [[_ ?]|[? Hf]]]])] Hkeep]; try done; [by left|right].
    assert (¬ n < 0) by (intros Hneg; by rewrite (nonneg_law k0 n Hneg) in Hf).
    destruct Hkeep; [lia|]. done.
  - intros [?|(? & ? & Hf & Hp)]; [split; left; lia|].
    destruct (decide (0 ≤ n ≤ 2)); [split; left; lia|].
    split; [right; split_and!; [done| |by right; split; [|right]]|by right].
    intros Hc%Hclones. rewrite Hopen, !lookup_insert_ne in Hc by done. congruence.
Qed.
End fds.

(** The same for a pipe's child, of whichever table it starts with. *)
Theorem pipe_child_descriptors {K} {U : Unix K} {fd_table} {L : UnixFds K fd_table}
    parent preserved child k' :
  pipe_pre_exec parent preserved child = (k', Ok tt) →
  ∃ k1, fd_table k1 = fd_table child
    ∧ exec_table (fd_table k') =
      filter (λ p, p.2 = false ∧ (p.1 ≤ 2 ∨ p.1 ∈ preserved ∨ read_dev_fd k1 = None)) (fd_table child).
Proof.
  intros (k1 & Hk & ->)%pipe_pre_exec_table. exists k1. by rewrite exec_close_inherited, Hk.
Qed.

(** * What signalling reports *)

Section signalling.
Context {K : Type} {U : Unix K} {members : K → Z → gset Z} {L : UnixGroups K members}.

(** Signalling a process group.  A group with members is signalled and the
    helpers report success; after a kill nobody is left of it.  A group that
    is gone is reported as an error, because [ESRCH] is not of kind
    [NotFound]: [terminate_process_group] never answers [Ok(false)]. *)
Theorem group_signals pgid k :
  0 ≤ pgid < 2 ^ 31 →
  (members k pgid ≠ ∅ →
     (kill_process_group pgid k).2 = Ok tt
     ∧ (terminate_process_group pgid k).2 = Ok true)
  ∧ (members k pgid = ∅ →
     kill_process_group pgid k = (k, Err (OsError ESRCH))
     ∧ terminate_process_group pgid k = (k, Err (OsError ESRCH)))
  ∧ members (kill_process_group pgid k).1 pgid = ∅
  ∧ ∀ pid, 0 ≤ pid < 2 ^ 31 →
      (pid ∈ members k pgid → (kill_process_group_by_pid pid k).2 = Ok tt
         ∧ members (kill_process_group_by_pid pid k).1 pgid = ∅)
      ∧ ((∀ g, pid ∉ members k g) →
         kill_process_group_by_pid pid k = (k, Err (OsError ESRCH))).
Proof.
  intros Hg. unfold kill_process_group, terminate_process_group, killpg_tolerant.
  rewrite wrap_i32_small by lia. pose proof (sigkill_law k pgid) as Hdead. split_and!.
  - intros Hm. destruct (killpg_law k pgid SIGKILL Hm) as [k1 ->].
    by destruct (killpg_law k pgid SIGTERM Hm) as [k2 ->].
  - intros Hm. by rewrite !killpg_gone_law.
  - destruct (sys_killpg pgid SIGKILL k) as [k1 [?|e]]; cbn in *; [done|].
    by case_decide.
  - intros pid Hp. unfold kill_process_group_by_pid, killpg_tolerant. rewrite wrap_i32_small by lia.
    split.
    + intros Hin. rewrite (getpgid_law k pid pgid Hin).
      destruct (killpg_law k pgid SIGKILL) as [k1 E]; [set_solver|]. by rewrite E in *.
    + intros Hno. by rewrite getpgid_gone_law.
Qed.
End signalling.

(** The terminator of a pseudo-terminal tries the group and the child, and
    succeeds if one of the two does.  If neither does, the child's error is
    reported, or the group's if the child was not found. *)
Theorem pty_kill_result {C K} `{!Unix K} `{!ChildKiller C K} (killer : C) pgid k :
  let group := kill_process_group pgid k in
  let child := killer_kill killer group.1 in
  let r := kill (mkPtyTerm killer (Some pgid)) k in
  r.1 = child.1
  ∧ (r.2 = Ok tt ↔ group.2 = Ok tt ∨ child.2 = Ok tt)
  ∧ (∀ e, r.2 = Err e →
      (child.2 = Err e ∧ kind e ≠ NotFound)
      ∨ (group.2 = Err e ∧ ∃ ce, child.2 = Err ce ∧ kind ce = NotFound)).
Proof.
  unfold kill, PtyChildTerminator_kill. cbn.
  destruct (kill_process_group pgid k) as [k1 g]. cbn.
  destruct (killer_kill killer k1) as [k2 c]. cbn.
  destruct c as [[]|ce], g as [[]|ge]; cbn; try case_decide; naive_solver.
Qed.

(** With [arg0] the portable way of spawning runs the program of that name;
    the two others run [program] under that name. *)
Lemma arg0_programs program args cwd env a mode fd0 fd1 fd2 :
  child_program (pipe_command program args cwd env (Some a) mode) = program
  ∧ child_argv0 (pipe_command program args cwd env (Some a) mode) = a
  ∧ child_program (preserving_command program args cwd env (Some a) fd0 fd1 fd2) = program
  ∧ head (builder_argv (portable_command program args cwd env (Some a))) = Some a.
Proof. done. Qed.

(** The child's environment is the agent's with the caller's settings over it. *)
Lemma child_environment inherited program args cwd env arg0 mode key :
  environment inherited (pipe_command program args cwd env arg0 mode) !! key =
  match env !! key with Some v => Some v | None => inherited !! key end.
Proof.
  unfold environment. cbn. rewrite lookup_union.
  destruct (env !! key), (inherited !! key); done.
Qed.

(** * A small system

    Ten descriptors at most, and groups: enough for the laws to hold. *)
Module SmallUnix.

Record Sys := mkSys { fds : gmap Z bool; groups : gmap Z Z }.

Definition names : list (Z * string) :=
  [(0, "0"); (1, "1"); (2, "2"); (3, "3"); (4, "4"); (5, "5"); (6, "6"); (7, "7"); (8, "8"); (9, "9")].

Definition table (k : Sys) : gmap Z bool := filter (λ p, p.1 ∈ names.*1) (fds k).
Definition group (k : Sys) (g : Z) : gset Z := dom (filter (λ p, p.2 = g) (groups k)).
Definition set_fds (f : gmap Z bool → gmap Z bool) (k : Sys) : Sys := mkSys (f (fds k)) (groups k).

Definition free (k : Sys) : list Z := filter (λ n, table k !! n = None) names.*1.

(** The two lowest free numbers, or [EMFILE]. *)
Definition take_two (k : Sys) : Sys * result (Z * Z) Z :=
  match free k with
  | m :: s :: _ => (set_fds (λ t, <[s := false]> (<[m := false]> t)) k, Ok (m, s))
  | _ => (k, Err 24)
  end.

#[export] Instance small_unix : Unix Sys := {|
  sys_setsid k := (k, Ok 7);
  sys_setpgid p g k := (k, Ok tt);
  sys_getpgid p k := ok_or (groups k !! p) ESRCH;
  sys_killpg g n k :=
    if decide (group k g = ∅) then (k, Err ESRCH)
    else (if decide (n = SIGKILL) then mkSys (fds k) (filter (λ p, p.2 ≠ g) (groups k)) else k, Ok tt);
  sys_set_pdeathsig n k := (k, Ok tt);
  sys_getppid k := 1;
  sys_raise n k := k;
  sys_signal_default n k := k;
  sys_sigprocmask_empty k := k;
  sys_set_ctty n k := (k, Ok tt);
  sys_set_winsize n w k := (k, Ok tt);
  sys_openpty w k := take_two k;
  sys_getfd n k := match table k !! n with
                   | Some c => Ok (if c : bool then FD_CLOEXEC else 0)
                   | None => Err EBADF
                   end;
  sys_setfd n f k := if decide (n ∈ names.*1) then (set_fds <[n := Z.testbit f 0]> k, Ok tt)
                     else (k, Err EBADF);
  sys_close n k := set_fds (delete n) k;
  read_dev_fd k := Some (Some <$> names.*2);
|}.

Lemma table_insert n c k :
  n ∈ names.*1 → table (set_fds <[n := c]> k) = <[n := c]> (table k).
Proof. intros Hn. unfold table, set_fds. cbn. by rewrite map_filter_insert_True. Qed.

Lemma table_range k n c : table k !! n = Some c → n ∈ names.*1.
Proof. unfold table. rewrite map_lookup_filter_Some. by intros [_ ?]. Qed.

Lemma free_spec k n : n ∈ free k → n ∈ names.*1 ∧ table k !! n = None.
Proof. unfold free. rewrite list_elem_of_filter. by intros [? ?]. Qed.

Lemma names_NoDup : NoDup names.*1.
Proof. by apply (bool_decide_unpack _). Qed.

#[export] Instance small_fds : UnixFds Sys table.
Proof.
  split; try done.
  - intros k n Hn. destruct (table k !! n) as [c|] eqn:E; [|done].
    apply table_range in E. exfalso. unfold names in E. cbn in E.
    repeat (apply elem_of_cons in E as [->|E]; [lia|]). by apply elem_of_nil in E.
  - intros k n c flags Hc. apply table_range in Hc as Hr. eexists. split; [|by apply table_insert].
    cbn. by rewrite decide_True.
  - intros k n. unfold table, set_fds. cbn. by rewrite map_filter_delete.
  - intros k l [= <-] n [c Hc]. apply table_range in Hc.
    assert (Forall (λ p : Z * string, Some p.2 ∈ Some <$> names.*2 ∧ parse_i32 p.2 = Some p.1) names) as Hall.
    { repeat constructor; apply (bool_decide_unpack _); vm_compute; exact I. }
    apply list_elem_of_fmap in Hc as (p & -> & Hp). rewrite Forall_forall in Hall.
    exists p.2. by apply Hall.
  - intros k w k' m s. change (sys_openpty w k) with (take_two k). unfold take_two.
    destruct (free k) as [|a [|b l]] eqn:E; intros ?; simplify_eq.
    destruct (free_spec k m) as [Ha Ta]; [rewrite E; by left|].
    destruct (free_spec k s) as [Hb Tb]; [rewrite E; right; by left|].
    split_and!; [|done..|].
    + assert (NoDup (free k)) as Hnd by (apply NoDup_filter, names_NoDup).
      rewrite E in Hnd. apply NoDup_cons in Hnd as [Hnd _]. intros ->. apply Hnd. by left.
    + unfold set_fds, table. cbn. by rewrite !map_filter_insert_True.
Qed.

#[export] Instance small_groups : UnixGroups Sys group.
Proof.
  split.
  - intros k g n Hg. cbn. by rewrite decide_True.
  - intros k g n Hg. cbn. rewrite decide_False by done. by eexists.
  - intros k g. cbn. case_decide as Hg; [done|]. cbn. unfold group. cbn.
    apply elem_of_equiv_empty_L. intros p [x Hx]%elem_of_dom.
    apply map_lookup_filter_Some in Hx as [Hx Hg'].
    by apply map_lookup_filter_Some in Hx as [_ ?].
  - intros k p Hp. cbn. destruct (groups k !! p) as [g|] eqn:E; [|done]. exfalso.
    apply (Hp g). apply elem_of_dom. exists g. by apply map_lookup_filter_Some.
  - unfold group. intros k p g [x Hx]%elem_of_dom. apply map_lookup_filter_Some in Hx as [Hx <-]. cbn.
    by rewrite Hx.
Qed.

(** The agent: standard streams, a listening socket kept from children (3),
    and one to hand down (4); processes 20 and 21 form a group. *)
Definition agent : Sys :=
  mkSys {[0 := false; 1 := false; 2 := false; 3 := false; 4 := false]} {[20 := 20; 21 := 20]}.
End SmallUnix.

#[local] Existing Instances SmallUnix.small_unix SmallUnix.small_fds SmallUnix.small_groups.

(** The agent starts a process on a pseudo-terminal, handing down 4. *)
Lemma pty_child_descriptors_witness :
  let k0 := SmallUnix.agent in
  let k1 := (open_unix_pty TerminalSize_default k0).1 in
  let child := SmallUnix.set_fds (λ _, forked_table [7; 8; 9] (SmallUnix.table k1)) k1 in
  (open_unix_pty TerminalSize_default k0).2 = Ok (5, 6)
  ∧ ∃ k2, SmallUnix.table k2 = SmallUnix.table child
      ∧ (pty_pre_exec [4] child).1 = close_inherited_fds_except [4] k2
      ∧ ∀ n, n ∈ (dom (exec_table (SmallUnix.table (pty_pre_exec [4] child).1)) : gset Z) ↔
           0 ≤ n ≤ 2 ∨ n ≠ 5 ∧ n ≠ 6 ∧ SmallUnix.table k0 !! n = Some false ∧ (n ∈ [4] ∨ read_dev_fd k2 = None).
Proof.
  intros k0 k1 child. split; [vm_compute; reflexivity|].
  apply (pty_child_descriptors TerminalSize_default [4] [7; 8; 9] k0 k1 5 6 child).
  - vm_compute. reflexivity.
  - apply (bool_decide_unpack _). vm_compute. exact I.
  - apply Forall_forall. apply (bool_decide_unpack _). vm_compute. exact I.
  - vm_compute. reflexivity.
Defined.

(** The group of process 20, and one that is gone. *)
Lemma group_signals_witness :
  (kill_process_group 20 SmallUnix.agent).2 = Ok tt
  ∧ terminate_process_group 30 SmallUnix.agent = (SmallUnix.agent, Err (OsError ESRCH)).
Proof.
  split.
  - apply (group_signals (members := SmallUnix.group) 20 SmallUnix.agent ltac:(lia)).
    apply (bool_decide_unpack _). vm_compute. exact I.
  - apply (group_signals (members := SmallUnix.group) 30 SmallUnix.agent ltac:(lia)).
    apply (bool_decide_unpack _). vm_compute. exact I.
Defined.
