(* ===== verification/PtyProcess.v ===== *)
(** A spawned process ([utils/pty]): its handle ([process.rs]), the tasks
    that carry its input, output and exit, and the three ways of spawning it
    ([pipe.rs], [pty.rs]).

    Each task is a program counter, and each of its turns between two awaits a
    step.  [abort] asks a task of the async runtime to end; it does so at an
    await.  A task given to [spawn_blocking] waits for a thread of the pool:
    [abort] before it has one keeps it from ever starting, and after that does
    nothing (as tokio documents).  A [Mutex] of the handle is never poisoned: a
    panic ends the program. *)
From S2P Require Import Prelude PtyOs.
From S2P Require AgentWire.

Open Scope nat_scope.

(** * Tasks *)

(** The tasks a spawned process can have. *)
Inductive tid := WriterTask | StdoutTask | StderrTask | JoinTask | WaitTask.

#[export] Instance tid_eq_decision : EqDecision tid.
Proof. solve_decision. Defined.

Inductive task_kind := Async | Blocking.

#[export] Instance task_kind_eq_decision : EqDecision task_kind.
Proof. solve_decision. Defined.

(** Where a task is. *)
Inductive pc :=
  | PQueued                    (* waiting for a thread of the blocking pool *)
  | PRead                      (* reader.read(&mut buf) *)
  | PSend (chunk : bytes)      (* output_tx.send(chunk) *)
  | PRecv                      (* writer_rx.recv() *)
  | PWrite (msg : bytes)       (* write_all(&bytes), flush() *)
  | PEmpty                     (* tokio::spawn(async {}) *)
  | PJoin (l : list tid)       (* the handles still to be awaited *)
  | PWait                      (* child.wait() *)
  | PStore (code : Z)          (* wait_exit_status is set, wait_exit_code not yet *)
  | PReport (code : Z).        (* exit_tx.send(code) *)

#[export] Instance pc_eq_decision : EqDecision pc.
Proof. solve_decision. Defined.

Inductive progress := Running (p : pc) | Finished | Aborted.

#[export] Instance progress_eq_decision : EqDecision progress.
Proof. solve_decision. Defined.

Record Task := mkTask { t_kind : task_kind; t_cancelled : bool; t_progress : progress }.

Definition ended (t : Task) : bool :=
  match t_progress t with Running _ => false | _ => true end.

Definition at_await (p : pc) : bool :=
  match p with PStore _ | PReport _ | PEmpty => false | _ => true end.

(** [JoinHandle::abort], [AbortHandle::abort] *)
Definition abort (t : Task) : Task := mkTask (t_kind t) true (t_progress t).

Definition go (t : Task) (p : progress) : Task := mkTask (t_kind t) (t_cancelled t) p.

(** The runtime drops a task it was asked to end: an async one at an await, a
    blocking one that has not started. *)
Definition cancel (t : Task) : option Task :=
  match t_cancelled t, t_progress t with
  | true, Running p =>
      let droppable := match t_kind t, p with
                       | Async, _ => at_await p
                       | Blocking, PQueued => true
                       | Blocking, _ => false
                       end in
      if droppable : bool then Some (go t Aborted) else None
  | _, _ => None
  end.

(** A thread of the pool takes up a task, unless it was aborted; [first] is where
    the task begins. *)
Definition start (first : pc) (t : Task) : option Task :=
  match t_progress t with
  | Running PQueued => if t_cancelled t then None else Some (go t (Running first))
  | _ => None
  end.

(** * The three flows *)

(** One output: what the child wrote and what is still in the pipe; the
    channel with the chunks handed to it ([sent]) and taken from it. *)
Record Output := mkOutput {
  o_written : bytes;
  o_unread : bytes;
  o_open : bool;
  o_sent : list bytes;
  o_queue : list bytes;
  o_received : list bytes;
  o_rx : bool;
}.

Definition BUF : nat := 8192.
Definition CHANNEL : nat := 128.

(** What [read] returns. *)
Inductive read_result := ReadN (n : nat) | ReadErr (k : ErrorKind).

Definition retried (kind : task_kind) (k : ErrorKind) : bool :=
  match k with
  | Interrupted => true
  | WouldBlock => match kind with Blocking => true | Async => false end
  | _ => false
  end.

(** Reading [n] bytes takes them from the pipe; none means that all writers
    are gone.  The three loops differ in one case: those on a thread of their
    own also go on after [WouldBlock]. *)
(* @src crates/utils/pty/src/pipe.rs read_output_stream "match reader.read(&mut buf).await {" .. "Err(_) => break," *)
Definition reader_read (r : read_result) (t : Task) (o : Output) : option (Task * Output) :=
  match t_progress t, r with
  | Running PRead, ReadN 0 =>
      if decide (o_unread o = [] ∧ o_open o = false) then Some (go t Finished, o) else None
  | Running PRead, ReadN n =>
      if decide (n ≤ BUF ∧ n ≤ length (o_unread o)) then
        Some (go t (Running (PSend (take n (o_unread o)))),
              mkOutput (o_written o) (drop n (o_unread o)) (o_open o) (o_sent o) (o_queue o)
                (o_received o) (o_rx o))
      else None
  | Running PRead, ReadErr k =>
      if retried (t_kind t) k then Some (t, o) else Some (go t Finished, o)
  | _, _ => None
  end.

(** [let _ = output_tx.send(..).await]: waits for room, and drops the chunk if
    the receiver is gone. *)
(* @src crates/utils/pty/src/pipe.rs read_output_stream "let _ = output_tx.send" .. "let _ = output_tx.send" *)
Definition reader_send (t : Task) (o : Output) : option (Task * Output) :=
  match t_progress t with
  | Running (PSend chunk) =>
      let pushed queue := (go t (Running PRead),
        mkOutput (o_written o) (o_unread o) (o_open o) (o_sent o ++ [chunk]) queue
          (o_received o) (o_rx o)) in
      if o_rx o then
        if decide (length (o_queue o) < CHANNEL) then Some (pushed (o_queue o ++ [chunk])) else None
      else Some (pushed (o_queue o))
  | _ => None
  end.

(** The input: the channel's queue, the messages it ever took, the senders
    outside the handle, and what was written to the child. *)
Record Input := mkInput {
  i_queue : list bytes;
  i_accepted : list bytes;
  i_senders : nat;
  i_written : bytes;
}.

(** [true] if a sender is left. *)
Definition senders_left (held : bool) (i : Input) : bool :=
  held || (if decide (i_senders i = 0) then false else true).

(** [while let Some(bytes) = writer_rx.recv().await] *)
(* @src crates/utils/pty/src/pipe.rs spawn_process_with_stdin_mode "while let Some(bytes) = writer_rx.recv().await {" .. "while let Some(bytes) = writer_rx.recv().await {" *)
Definition writer_recv (held : bool) (t : Task) (i : Input) : option (Task * Input) :=
  match t_progress t, i_queue i with
  | Running PRecv, m :: q =>
      Some (go t (Running (PWrite m)), mkInput q (i_accepted i) (i_senders i) (i_written i))
  | Running PRecv, [] => if senders_left held i then None else Some (go t Finished, i)
  | _, _ => None
  end.

(** [let _ = write_all(&bytes)]: [n] bytes got through, all of them unless an
    error, which is ignored, came first. *)
(* @src crates/utils/pty/src/pipe.rs spawn_process_with_stdin_mode "let mut guard = writer.lock().await;" .. "let _ = guard.flush().await;" *)
Definition writer_write (n : nat) (t : Task) (i : Input) : option (Task * Input) :=
  match t_progress t with
  | Running (PWrite m) =>
      if decide (n ≤ length m) then
        Some (go t (Running PRecv),
              mkInput (i_queue i) (i_accepted i) (i_senders i) (i_written i ++ take n m))
      else None
  | _ => None
  end.

(** How a child ends. *)
Inductive ExitStatus := Exited (code : Z) | Signaled (signal : Z).

(** [std::process::ExitStatus::code] *)
Definition status_code (s : ExitStatus) : option Z :=
  match s with Exited c => Some c | Signaled _ => None end.

(** The exit: what the kernel knows, and the three places it is published. *)
Record Exit := mkExit {
  e_child : option ExitStatus;
  exit_status : bool;
  exit_code : option Z;
  e_sent : option Z;
}.

Section wait.
(** The code a status is reported with. *)
Variable code_of : ExitStatus → Z.

(** [child.wait()] returns, and [exit_status] is set. *)
(* @src crates/utils/pty/src/pipe.rs spawn_process_with_stdin_mode "let code = match child.wait().await {" .. "wait_exit_status.store" *)
Definition wait_return (failed : bool) (t : Task) (e : Exit) : option (Task * Exit) :=
  match t_progress t with
  | Running PWait =>
      code ← (if failed then Some (-1)%Z else code_of <$> e_child e);
      Some (go t (Running (PStore code)), mkExit (e_child e) true (exit_code e) (e_sent e))
  | _ => None
  end.

(* @src crates/utils/pty/src/pipe.rs spawn_process_with_stdin_mode "if let Ok(mut guard) = wait_exit_code.lock() {" .. "let _ = exit_tx.send(code);" *)
Definition wait_publish (t : Task) (e : Exit) : option (Task * Exit) :=
  match t_progress t with
  | Running (PStore code) =>
      Some (go t (Running (PReport code)), mkExit (e_child e) (exit_status e) (Some code) (e_sent e))
  | Running (PReport code) =>
      Some (go t Finished, mkExit (e_child e) (exit_status e) (exit_code e) (Some code))
  | _ => None
  end.
End wait.

(** * The handle *)

(* @src crates/utils/pty/src/process.rs PtyMasterHandle *)
Inductive PtyMasterHandle (M : Type) :=
  | Resizable (master : M)
  | Opaque (raw_fd : Z).
Arguments Resizable {M}.
Arguments Opaque {M}.

(** The trait [portable_pty::MasterPty]. *)
Class MasterPty (M K : Type) := master_resize : M → winsize → K → K * result unit string.

(** The fields that belong to the handle alone; [exit_status] and [exit_code]
    are shared with the waiting task. *)
(* @src crates/utils/pty/src/process.rs ProcessHandle *)
Record ProcessHandle (C M : Type) := mkHandle {
  writer_tx : bool;
  killer : option (Terminator C);
  reader_handle : option tid;
  reader_abort_handles : list tid;
  writer_handle : option tid;
  wait_handle : option tid;
  pty_handles : option (PtyMasterHandle M);
}.
Arguments mkHandle {C M}.
Arguments writer_tx {C M}.
Arguments killer {C M}.
Arguments reader_handle {C M}.
Arguments reader_abort_handles {C M}.
Arguments writer_handle {C M}.
Arguments wait_handle {C M}.
Arguments pty_handles {C M}.

(* @src crates/utils/pty/src/process.rs ProcessHandle::new *)
Definition ProcessHandle_new {C M} (killer : Terminator C) (reader_handle : tid)
    (reader_abort_handles : list tid) (writer_handle wait_handle : tid)
    (pty_handles : option (PtyMasterHandle M)) : ProcessHandle C M :=
  mkHandle true (Some killer) (Some reader_handle) reader_abort_handles (Some writer_handle)
    (Some wait_handle) pty_handles.

Definition abort_all (l : list tid) (tasks : tid → Task) : tid → Task := λ n,
  if decide (n ∈ l) then abort (tasks n) else tasks n.

Section handle.
Context {C M K : Type} {U : Unix K} {CK : ChildKiller C K} {MP : MasterPty M K}.

Abbreviation Handle := (ProcessHandle C M).

(** [Some] with the kill's result if there still was a killer. *)
(* @src crates/utils/pty/src/process.rs ProcessHandle::request_terminate *)
Definition request_terminate (h : Handle) (k : K) : Handle * K * option (result unit io_error) :=
  match killer h with
  | Some t =>
      let '(k, r) := kill t k in
      (mkHandle (writer_tx h) None (reader_handle h) (reader_abort_handles h) (writer_handle h)
         (wait_handle h) (pty_handles h), k, Some r)
  | None => (h, k, None)
  end.

(** The tasks [terminate] aborts. *)
(* @src crates/utils/pty/src/process.rs ProcessHandle::terminate "if let Ok(mut h) = self.reader_handle.lock() {" .. "if let Ok(mut h) = self.wait_handle.lock() {" *)
Definition aborted_tasks (h : Handle) : list tid :=
  option_list (reader_handle h) ++ reader_abort_handles h ++
  option_list (writer_handle h) ++ option_list (wait_handle h).

(* @src crates/utils/pty/src/process.rs ProcessHandle::terminate *)
Definition terminate (h : Handle) (tasks : tid → Task) (k : K)
    : Handle * (tid → Task) * K * option (result unit io_error) :=
  let '(h, k, r) := request_terminate h k in
  (mkHandle (writer_tx h) (killer h) None [] None None (pty_handles h),
   abort_all (aborted_tasks h) tasks, k, r).

(* @src crates/utils/pty/src/process.rs ProcessHandle::close_stdin *)
Definition close_stdin (h : Handle) : Handle :=
  mkHandle false (killer h) (reader_handle h) (reader_abort_handles h) (writer_handle h)
    (wait_handle h) (pty_handles h).

(** The new sender counts if the handle has one to copy; else it is of a
    channel without a receiver. *)
(* @src crates/utils/pty/src/process.rs ProcessHandle::writer_sender *)
Definition writer_sender (h : Handle) (i : Input) : Input :=
  if writer_tx h then mkInput (i_queue i) (i_accepted i) (S (i_senders i)) (i_written i) else i.

(* @src crates/utils/pty/src/process.rs ProcessHandle::has_exited *)
Definition has_exited (e : Exit) : bool := exit_status e.

(* @src crates/utils/pty/src/process.rs ProcessHandle::exit_code *)
Definition known_exit_code (e : Exit) : option Z := exit_code e.

(* @src crates/utils/pty/src/process.rs ProcessHandle::resize *)
Definition resize (h : Handle) (size : TerminalSize) (k : K) : K * result unit string :=
  match pty_handles h with
  | None => (k, Err "process is not attached to a PTY")
  | Some (Resizable master) => master_resize master (winsize_of size) k
  | Some (Opaque raw_fd) =>
      let '(k, r) := resize_raw_pty raw_fd size k in (k, map_err (λ _, "os error") r)
  end.
End handle.

(** * Spawning *)

(** What [Child] of a spawned [Command] holds. *)
Record ChildHandles := mkChild { ch_id : option Z; ch_stdin : bool; ch_stdout : bool; ch_stderr : bool }.

(** [std::process], [tokio::process] and [portable_pty]: [command_spawn] runs
    its second argument in the child before the program. *)
Class Launch (C M K : Type) := {
  os_getpid : K → Z;
  command_spawn : Command → sys K unit → sys K ChildHandles;
  file_try_clone : Z → sys K Z;
  portable_openpty : winsize → K → K * result M string;
  portable_spawn : M → CommandBuilder → K → K * result (option Z * C) string;
  portable_try_clone_reader : M → K → K * result unit string;
  portable_take_writer : M → K → K * result unit string;
  portable_exit_code : ExitStatus → Z;
}.

Inductive SpawnMode := PipeMode | PortableMode | PreservingMode.

(** [SpawnedProcess], with the tasks, the flows and the system around it. *)
(* @src crates/utils/pty/src/process.rs SpawnedProcess *)
Record Spawned (C M K : Type) := mkSpawned {
  sp_mode : SpawnMode;
  session : ProcessHandle C M;
  tasks : tid → Task;
  stdout : Output;
  stderr : Output;
  stdin : Input;
  exit : Exit;
  kills : list (result unit io_error);
  os : K;
}.
Arguments mkSpawned {C M K}.
Arguments sp_mode {C M K}.
Arguments session {C M K}.
Arguments tasks {C M K}.
Arguments stdout {C M K}.
Arguments stderr {C M K}.
Arguments stdin {C M K}.
Arguments exit {C M K}.
Arguments kills {C M K}.
Arguments os {C M K}.

Definition new_output : Output := mkOutput [] [] true [] [] [] true.
Definition new_input : Input := mkInput [] [] 0 [].
Definition new_exit : Exit := mkExit None false None None.
Definition started (kind : task_kind) (p : pc) : Task := mkTask kind false (Running p).
Definition no_task : Task := mkTask Async false Finished.

(* @src crates/utils/pty/src/pipe.rs spawn_process_with_stdin_mode "let writer_handle = if let Some(stdin) = stdin {" .. "let (exit_tx, exit_rx)" *)
Definition pipe_tasks (c : ChildHandles) : tid → Task := λ n,
  match n with
  | WriterTask => started Async (if ch_stdin c then PRecv else PEmpty)
  | StdoutTask => if ch_stdout c then started Async PRead else no_task
  | StderrTask => if ch_stderr c then started Async PRead else no_task
  | JoinTask =>
      started Async (PJoin ((if ch_stdout c then [StdoutTask] else []) ++
                            (if ch_stderr c then [StderrTask] else [])))
  | WaitTask => started Async PWait
  end.

(* @src crates/utils/pty/src/pipe.rs spawn_process_with_stdin_mode "let mut reader_abort_handles = Vec::new();" .. "let reader_handle = tokio::spawn" *)
Definition pipe_abort_handles (c : ChildHandles) : list tid :=
  (if ch_stdout c then [StdoutTask] else []) ++ (if ch_stderr c then [StderrTask] else []).

(** A pseudo-terminal has one output; the reader and the waiter are given to the
    blocking pool. *)
(* @src crates/utils/pty/src/pty.rs spawn_process_portable "let (_stderr_tx, stderr_rx)" .. "let _ = exit_tx.send(code);" *)
Definition pty_tasks : tid → Task := λ n,
  match n with
  | WriterTask => started Async PRecv
  | StdoutTask => started Blocking PQueued
  | WaitTask => started Blocking PQueued
  | StderrTask | JoinTask => no_task
  end.

Section spawning.
Context {C M K : Type} {U : Unix K} {LA : Launch C M K}.

(* @src crates/utils/pty/src/pipe.rs spawn_process_with_stdin_mode *)
Definition spawn_process_with_stdin_mode (program : string) (args : list string) (cwd : string)
    (env : gmap string string) (arg0 : option string) (stdin_mode : PipeStdinMode)
    (inherited_fds : list Z) (k : K) : K * result (Spawned C M K) SpawnError :=
  if decide (program = "") then (k, Err (Message "missing program for pipe spawn"))
  else
    match command_spawn (pipe_command program args cwd env arg0 stdin_mode)
            (pipe_pre_exec (os_getpid k) inherited_fds) k with
    | (k, Err e) => (k, Err (IoError e))
    | (k, Ok c) =>
        match ch_id c with
        | None => (k, Err (IoError (Custom OtherKind "missing child pid")))
        | Some pid =>
            (k, Ok (mkSpawned PipeMode
                      (ProcessHandle_new (PipeTerm (mkPipeTerm pid)) JoinTask (pipe_abort_handles c)
                         WriterTask WaitTask None)
                      (pipe_tasks c) new_output new_output new_input new_exit [] k))
        end
    end.

(* @src crates/utils/pty/src/pipe.rs spawn_process *)
Definition spawn_pipe_process program args cwd env arg0 :=
  spawn_process_with_stdin_mode program args cwd env arg0 Piped [].

(* @src crates/utils/pty/src/pipe.rs spawn_process_no_stdin_with_inherited_fds *)
Definition spawn_pipe_process_no_stdin_with_inherited_fds program args cwd env arg0 inherited_fds :=
  spawn_process_with_stdin_mode program args cwd env arg0 Null inherited_fds.

(* @src crates/utils/pty/src/pipe.rs spawn_process_no_stdin *)
Definition spawn_pipe_process_no_stdin program args cwd env arg0 :=
  spawn_pipe_process_no_stdin_with_inherited_fds program args cwd env arg0 [].

Definition message {A} (m : K → K * result A string) : K → K * result A SpawnError := λ k,
  let '(k, r) := m k in (k, map_err Message r).

(** [pty_system.openpty(size.into())?] up to [take_writer()?] *)
(* @src crates/utils/pty/src/pty.rs spawn_process_portable *)
Definition spawn_process_portable (program : string) (args : list string) (cwd : string)
    (env : gmap string string) (arg0 : option string) (size : TerminalSize)
    : K → K * result (Spawned C M K) SpawnError :=
  message
    (and_then (portable_openpty (winsize_of size)) (λ master,
     and_then (portable_spawn master (portable_command program args cwd env arg0)) (λ child,
     and_then (portable_try_clone_reader master) (λ _,
     and_then (portable_take_writer master) (λ _ k,
       (k, Ok (mkSpawned PortableMode
                 (ProcessHandle_new (PtyTerm (mkPtyTerm child.2 child.1)) StdoutTask [] WriterTask
                    WaitTask (Some (Resizable master)))
                 pty_tasks new_output new_output new_input new_exit [] k))))))).

(** [m?], with the [File]s that go out of scope if it returns early. *)
Definition dropping {A} (fds : list Z) (m : sys K A) : K → K * result A SpawnError := λ k,
  match m k with
  | (k, Err e) => (close_all fds k, Err (IoError e))
  | (k, Ok a) => (k, Ok a)
  end.

(** The slave is closed once the child has it; the command, with its three
    copies of the slave, at the end. *)
(* @src crates/utils/pty/src/pty.rs spawn_process_preserving_fds *)
Definition spawn_process_preserving_fds (program : string) (args : list string) (cwd : string)
    (env : gmap string string) (arg0 : option string) (size : TerminalSize) (inherited_fds : list Z)
    : K → K * result (Spawned C M K) SpawnError :=
  and_then (open_unix_pty size) (λ p,
  let '(master, slave) := p in
  and_then (dropping [slave; master] (file_try_clone slave)) (λ stdin,
  and_then (dropping [stdin; slave; master] (file_try_clone slave)) (λ stdout,
  and_then (dropping [stdout; stdin; slave; master] (file_try_clone slave)) (λ stderr,
  let clones := [stdin; stdout; stderr] in
  and_then (dropping (slave :: master :: clones)
    (command_spawn (preserving_command program args cwd env arg0 stdin stdout stderr)
       (pty_pre_exec inherited_fds))) (λ child k,
  (and_then (dropping (master :: clones) (file_try_clone master)) (λ _,
   and_then (dropping (master :: clones) (file_try_clone master)) (λ _ k,
     let k := close_all clones k in
     (k, Ok (mkSpawned PreservingMode
               (ProcessHandle_new (RawTerm (mkRawTerm (default 0%Z (ch_id child)))) StdoutTask []
                  WriterTask WaitTask (Some (Opaque master)))
               pty_tasks new_output new_output new_input new_exit [] k)))))
    (sys_close slave k)))))).

(* @src crates/utils/pty/src/pty.rs spawn_process_with_inherited_fds *)
Definition spawn_process_with_inherited_fds (program : string) (args : list string) (cwd : string)
    (env : gmap string string) (arg0 : option string) (size : TerminalSize) (inherited_fds : list Z)
    (k : K) : K * result (Spawned C M K) SpawnError :=
  if decide (program = "") then (k, Err (Message "missing program for PTY spawn"))
  else if decide (inherited_fds = []) then spawn_process_portable program args cwd env arg0 size k
  else spawn_process_preserving_fds program args cwd env arg0 size inherited_fds k.

(* @src crates/utils/pty/src/pty.rs spawn_process *)
Definition spawn_pty_process program args cwd env arg0 size :=
  spawn_process_with_inherited_fds program args cwd env arg0 size [].

(** What the agent's process manager launches for a request. *)
(* @src crates/nexal-agent/src/process/local.rs start_process "let spawned_result = if params.tty {" .. "};" *)
Definition launch_request (params : AgentWire.ExecParams) (k : K)
    : option (K * result (Spawned C M K) SpawnError) :=
  match AgentWire.ep_argv params with
  | [] => None
  | program :: args =>
      Some (if AgentWire.ep_tty params then
              spawn_pty_process program args (AgentWire.ep_cwd params) (AgentWire.ep_env params)
                (AgentWire.ep_arg0 params) TerminalSize_default k
            else
              spawn_pipe_process_no_stdin program args (AgentWire.ep_cwd params)
                (AgentWire.ep_env params) (AgentWire.ep_arg0 params) k)
  end.
End spawning.

(** * A process running

    Steps of the child, of the tasks, of those who hold the channels' other
    ends, and of the handle's owner. *)

Inductive stream := Stdout | Stderr.

Definition reader_of (s : stream) : tid := match s with Stdout => StdoutTask | Stderr => StderrTask end.

Inductive label :=
  | LChildWrites (s : stream) (data : bytes) | LChildCloses (s : stream) | LChildExits (st : ExitStatus)
  | LRead (s : stream) (r : read_result) | LSend (s : stream)
  | LTake (s : stream) | LDropReceiver (s : stream)
  | LInput (msg : bytes) | LGetSender | LDropSender
  | LRecv | LWrite (n : nat) | LEmpty
  | LWait (failed : bool) | LPublish
  | LJoin
  | LCancel (n : tid) | LStart (n : tid)
  | LCloseStdin | LRequestTerminate | LTerminate | LDropHandle.

(** Where the closure of a blocking task begins. *)
Definition first_pc (n : tid) : pc :=
  match n with WaitTask => PWait | _ => PRead end.

(** The handles are awaited in turn. *)
(* @src crates/utils/pty/src/pipe.rs spawn_process_with_stdin_mode "let reader_handle = tokio::spawn(async move {" .. "});" *)
Definition join_step (ended_of : tid → bool) (t : Task) : option Task :=
  match t_progress t with
  | Running (PJoin []) => Some (go t Finished)
  | Running (PJoin (n :: l)) => if ended_of n then Some (go t (Running (PJoin l))) else None
  | _ => None
  end.

Definition child_writes (data : bytes) (o : Output) : option Output :=
  if o_open o then
    Some (mkOutput (o_written o ++ data) (o_unread o ++ data) true (o_sent o) (o_queue o)
            (o_received o) (o_rx o))
  else None.

Definition child_closes (o : Output) : Output :=
  mkOutput (o_written o) (o_unread o) false (o_sent o) (o_queue o) (o_received o) (o_rx o).

(** [stdout_rx.recv()] *)
Definition take_chunk (o : Output) : option Output :=
  match o_rx o, o_queue o with
  | true, chunk :: q =>
      Some (mkOutput (o_written o) (o_unread o) (o_open o) (o_sent o) q (o_received o ++ [chunk]) true)
  | _, _ => None
  end.

Definition drop_receiver (o : Output) : Output :=
  mkOutput (o_written o) (o_unread o) (o_open o) (o_sent o) [] (o_received o) false.

(** The receiver of the input channel is alive. *)
Definition takes_input (t : Task) : bool :=
  match t_progress t with Running PRecv | Running (PWrite _) => true | _ => false end.

Definition accept_input (msg : bytes) (t : Task) (i : Input) : option Input :=
  if decide (i_senders i ≠ 0 ∧ takes_input t = true ∧ length (i_queue i) < CHANNEL) then
    Some (mkInput (i_queue i ++ [msg]) (i_accepted i ++ [msg]) (i_senders i) (i_written i))
  else None.

Definition drop_sender (i : Input) : Input :=
  mkInput (i_queue i) (i_accepted i) (pred (i_senders i)) (i_written i).

Section running.
Context {C M K : Type} {U : Unix K} {CK : ChildKiller C K} {LA : Launch C M K}.

Abbreviation Proc := (Spawned C M K).

Definition set_task (n : tid) (t : Task) (p : Proc) : Proc :=
  mkSpawned (sp_mode p) (session p) (λ m, if decide (m = n) then t else tasks p m) (stdout p)
    (stderr p) (stdin p) (exit p) (kills p) (os p).

Definition output (s : stream) (p : Proc) : Output :=
  match s with Stdout => stdout p | Stderr => stderr p end.

Definition set_output (s : stream) (o : Output) (p : Proc) : Proc :=
  match s with
  | Stdout => mkSpawned (sp_mode p) (session p) (tasks p) o (stderr p) (stdin p) (exit p) (kills p) (os p)
  | Stderr => mkSpawned (sp_mode p) (session p) (tasks p) (stdout p) o (stdin p) (exit p) (kills p) (os p)
  end.

Definition set_stdin (i : Input) (p : Proc) : Proc :=
  mkSpawned (sp_mode p) (session p) (tasks p) (stdout p) (stderr p) i (exit p) (kills p) (os p).

Definition set_exit (e : Exit) (p : Proc) : Proc :=
  mkSpawned (sp_mode p) (session p) (tasks p) (stdout p) (stderr p) (stdin p) e (kills p) (os p).

Definition set_session (h : ProcessHandle C M) (p : Proc) : Proc :=
  mkSpawned (sp_mode p) h (tasks p) (stdout p) (stderr p) (stdin p) (exit p) (kills p) (os p).

(** After an operation that may have killed. *)
Definition after_kill (h : ProcessHandle C M) (ts : tid → Task) (k : K)
    (r : option (result unit io_error)) (p : Proc) : Proc :=
  mkSpawned (sp_mode p) h ts (stdout p) (stderr p) (stdin p) (exit p)
    (kills p ++ option_list r) k.

(** The code a child's status is reported with. *)
(* @src crates/utils/pty/src/pty.rs spawn_process_portable "let code = match child.wait() {" .. "};" *)
Definition code_of (m : SpawnMode) (st : ExitStatus) : Z :=
  match m with
  | PortableMode => wrap_i32 (portable_exit_code st)
  | PipeMode | PreservingMode => default (-1)%Z (status_code st)
  end.

(* @src crates/utils/pty/src/process.rs ProcessHandle::drop *)
Definition drop_handle (p : Proc) : Proc :=
  let '(h, ts, k, r) := terminate (session p) (tasks p) (os p) in
  after_kill (close_stdin h) ts k r p.

Definition with_output (s : stream) (p : Proc) (r : option (Task * Output)) : option Proc :=
  '(t, o) ← r; Some (set_output s o (set_task (reader_of s) t p)).

(** The child has this stream: a pseudo-terminal is one. *)
Definition has_stream (s : stream) (p : Proc) : bool :=
  match s, sp_mode p with Stderr, PortableMode | Stderr, PreservingMode => false | _, _ => true end.

Definition child_step (l : label) (p : Proc) : option Proc :=
  match l with
  | LChildWrites s data =>
      if has_stream s p then o ← child_writes data (output s p); Some (set_output s o p) else None
  | LChildCloses s =>
      if has_stream s p then Some (set_output s (child_closes (output s p)) p) else None
  | LChildExits st =>
      let e := exit p in
      match e_child e with
      | None => Some (set_exit (mkExit (Some st) (exit_status e) (exit_code e) (e_sent e)) p)
      | Some _ => None
      end
  | _ => None
  end.

Definition task_step (l : label) (p : Proc) : option Proc :=
  match l with
  | LRead s r => with_output s p (reader_read r (tasks p (reader_of s)) (output s p))
  | LSend s => with_output s p (reader_send (tasks p (reader_of s)) (output s p))
  | LRecv =>
      '(t, i) ← writer_recv (writer_tx (session p)) (tasks p WriterTask) (stdin p);
      Some (set_stdin i (set_task WriterTask t p))
  | LWrite n =>
      '(t, i) ← writer_write n (tasks p WriterTask) (stdin p);
      Some (set_stdin i (set_task WriterTask t p))
  | LEmpty =>
      match t_progress (tasks p WriterTask) with
      | Running PEmpty => Some (set_task WriterTask (go (tasks p WriterTask) Finished) p)
      | _ => None
      end
  | LWait failed =>
      '(t, e) ← wait_return (code_of (sp_mode p)) failed (tasks p WaitTask) (exit p);
      Some (set_exit e (set_task WaitTask t p))
  | LPublish =>
      '(t, e) ← wait_publish (tasks p WaitTask) (exit p);
      Some (set_exit e (set_task WaitTask t p))
  | LJoin =>
      t ← join_step (λ n, ended (tasks p n)) (tasks p JoinTask);
      Some (set_task JoinTask t p)
  | LCancel n => t ← cancel (tasks p n); Some (set_task n t p)
  | LStart n => t ← start (first_pc n) (tasks p n); Some (set_task n t p)
  | _ => None
  end.

Definition owner_step (l : label) (p : Proc) : option Proc :=
  match l with
  | LTake s => o ← take_chunk (output s p); Some (set_output s o p)
  | LDropReceiver s => Some (set_output s (drop_receiver (output s p)) p)
  | LInput msg => i ← accept_input msg (tasks p WriterTask) (stdin p); Some (set_stdin i p)
  | LGetSender => Some (set_stdin (writer_sender (session p) (stdin p)) p)
  | LDropSender => Some (set_stdin (drop_sender (stdin p)) p)
  | LCloseStdin => Some (set_session (close_stdin (session p)) p)
  | LRequestTerminate =>
      let '(h, k, r) := request_terminate (session p) (os p) in Some (after_kill h (tasks p) k r p)
  | LTerminate =>
      let '(h, ts, k, r) := terminate (session p) (tasks p) (os p) in Some (after_kill h ts k r p)
  | LDropHandle => Some (drop_handle p)
  | _ => None
  end.

Definition step (l : label) (p : Proc) : option Proc :=
  match l with
  | LChildWrites _ _ | LChildCloses _ | LChildExits _ => child_step l p
  | LRead _ _ | LSend _ | LRecv | LWrite _ | LEmpty | LWait _ | LPublish | LJoin | LCancel _ | LStart _ =>
      task_step l p
  | _ => owner_step l p
  end.

Fixpoint run (ls : list label) (p : Proc) : option Proc :=
  match ls with
  | [] => Some p
  | l :: ls' => p' ← step l p; run ls' p'
  end.

Definition steps_to (p p' : Proc) : Prop := ∃ l, step l p = Some p'.

(** A process as one of the two public ways of spawning gives it. *)
Inductive spawned : Proc → Prop :=
  | spawned_pipe program args cwd env arg0 mode fds k k' p :
      spawn_process_with_stdin_mode program args cwd env arg0 mode fds k = (k', Ok p) → spawned p
  | spawned_pty program args cwd env arg0 size fds k k' p :
      spawn_process_with_inherited_fds program args cwd env arg0 size fds k = (k', Ok p) → spawned p.

(** States of a process. *)
Definition reachable (p : Proc) : Prop := ∃ p0, spawned p0 ∧ rtc steps_to p0 p.

Lemma reachable_step l p p' : reachable p → step l p = Some p' → reachable p'.
Proof.
  intros (p0 & H0 & Hr) Hs. exists p0. split; [done|].
  eapply rtc_r; [done|]. by exists l.
Qed.

Lemma reachable_run ls p p' : reachable p → run ls p = Some p' → reachable p'.
Proof.
  revert p. induction ls as [|l ls IH]; intros p Hp Hr; cbn in Hr; [by simplify_eq|].
  destruct (step l p) as [p1|] eqn:E; cbn in Hr; [|done]. eauto using reachable_step.
Qed.

End running.

(** * What holds of each flow *)

Lemma sizes_positive : 0 < BUF ∧ 0 < CHANNEL.
Proof. split; apply Nat.lt_0_succ. Qed.

#[local] Opaque BUF CHANNEL.

(** The counters a task can have. *)
Definition pc_fits (n : tid) (p : pc) : bool :=
  match n, p with
  | WriterTask, (PRecv | PWrite _ | PEmpty) => true
  | (StdoutTask | StderrTask), (PQueued | PRead | PSend _) => true
  | JoinTask, PJoin _ => true
  | WaitTask, (PQueued | PWait | PStore _ | PReport _) => true
  | _, _ => false
  end.

Definition fits (n : tid) (pr : progress) : Prop :=
  match pr with Running p => pc_fits n p = true | _ => True end.

(** Chunks are not empty and fit the buffer. *)
Definition chunk_ok (chunk : bytes) : Prop := 0 < length chunk ≤ BUF.

Definition chunk_held (pr : progress) : list bytes :=
  match pr with Running (PSend chunk) => [chunk] | _ => [] end.

(** Nothing is lost on the way, but what an aborted reader held. *)
Definition accounted (pr : progress) (o : Output) : Prop :=
  match pr with
  | Aborted => ∃ lost, concat (o_sent o) ++ lost ++ o_unread o = o_written o
  | _ => concat (o_sent o) ++ concat (chunk_held pr) ++ o_unread o = o_written o
  end.

Record output_ok (pr : progress) (o : Output) : Prop := {
  ok_accounted : accounted pr o;
  ok_received : o_received o `prefix_of` o_sent o;
  ok_channel : o_rx o = true → o_sent o = o_received o ++ o_queue o;
  ok_chunks : Forall chunk_ok (o_sent o ++ chunk_held pr);
  ok_room : length (o_queue o) ≤ CHANNEL;
}.

Definition msg_held (pr : progress) : list bytes :=
  match pr with Running (PWrite m) => [m] | _ => [] end.

(** Messages are written in the order they were accepted, each of them up to
    an error of its own. *)
Definition input_ok (pr : progress) (i : Input) : Prop :=
  ∃ taken parts, i_written i = concat parts ∧ Forall2 (λ part m, part `prefix_of` m) parts taken
    ∧ match pr with
      | Aborted => ∃ lost, i_accepted i = taken ++ lost ++ i_queue i
      | Finished | Running PEmpty => i_accepted i = taken ∧ i_queue i = []
      | _ => i_accepted i = taken ++ msg_held pr ++ i_queue i
      end.

Definition right_code (code_of : ExitStatus → Z) (e : Exit) (c : Z) : Prop :=
  c = (-1)%Z ∨ ∃ st, e_child e = Some st ∧ c = code_of st.

(** The flag first, then the code, then the channel. *)
Definition exit_ok (code_of : ExitStatus → Z) (pr : progress) (e : Exit) : Prop :=
  match pr with
  | Running (PStore c) =>
      right_code code_of e c ∧ exit_status e = true ∧ exit_code e = None ∧ e_sent e = None
  | Running (PReport c) =>
      right_code code_of e c ∧ exit_status e = true ∧ exit_code e = Some c ∧ e_sent e = None
  | Finished => ∃ c, right_code code_of e c ∧ exit_status e = true ∧ exit_code e = Some c
      ∧ e_sent e = Some c
  | _ => exit_status e = false ∧ exit_code e = None ∧ e_sent e = None
  end.

Lemma reader_read_ok r t o t' o' :
  reader_read r t o = Some (t', o') → output_ok (t_progress t) o →
  output_ok (t_progress t') o' ∧ fits StdoutTask (t_progress t')
  ∧ t_kind t' = t_kind t ∧ t_cancelled t' = t_cancelled t.
Proof.
  unfold reader_read. intros Hs Hok.
  assert (∀ o, output_ok (Running PRead) o → output_ok Finished o) as Hfin
    by (intros ? []; by split).
  destruct (t_progress t) as [[]| |] eqn:Ep; try done.
  destruct r as [[|n]|k]; [case_decide|case_decide as Hn|destruct (retried _ _)];
    simplify_eq; cbn in *; try (split_and!; [by auto|done..]).
  - destruct Hok as [Ha Hr Hc Hk Hl]. split_and!; try done. split; cbn in *; try done.
    + by rewrite app_nil_r, (app_assoc _ (take _ _)), <- (app_assoc _ (take _ _)), take_drop.
    + rewrite app_nil_r in Hk. apply Forall_app. split; [done|]. apply Forall_singleton.
      unfold chunk_ok. change (0 < length (take (S n) (o_unread o)) ≤ BUF).
      rewrite length_take. lia.
  - rewrite Ep. by split_and!.
Qed.

Lemma reader_send_ok t o t' o' :
  reader_send t o = Some (t', o') → output_ok (t_progress t) o →
  output_ok (t_progress t') o' ∧ fits StdoutTask (t_progress t')
  ∧ t_kind t' = t_kind t ∧ t_cancelled t' = t_cancelled t.
Proof.
  unfold reader_send. intros Hs [Ha Hr Hc Hk Hl].
  destruct (t_progress t) as [[]| |] eqn:Ep; try done. cbn in *. rewrite app_nil_r in Ha.
  destruct (o_rx o); [case_decide|]; simplify_eq; cbn; (split_and!; [|done..]); split; cbn.
  all: try (rewrite concat_app; cbn; by rewrite app_nil_r, <- app_assoc).
  all: try (etrans; [done|by apply prefix_app_r]).
  all: try (by rewrite app_nil_r).
  - intros _. by rewrite Hc, app_assoc.
  - rewrite length_app. cbn. lia.
  - done.
  - done.
Qed.

Lemma writer_recv_ok held t i t' i' :
  writer_recv held t i = Some (t', i') → input_ok (t_progress t) i →
  input_ok (t_progress t') i' ∧ fits WriterTask (t_progress t')
  ∧ t_kind t' = t_kind t ∧ t_cancelled t' = t_cancelled t.
Proof.
  unfold writer_recv. intros Hs (taken & parts & Hw & Hp & Ha).
  destruct (t_progress t) as [[]| |]; try done. cbn in *.
  destruct (i_queue i) as [|m q] eqn:Eq.
  - destruct (senders_left held i); simplify_eq. cbn. split_and!; try done.
    exists taken, parts. rewrite Eq. rewrite app_nil_r in Ha. done.
  - simplify_eq. cbn. split_and!; try done. by exists taken, parts.
Qed.

Lemma writer_write_ok n t i t' i' :
  writer_write n t i = Some (t', i') → input_ok (t_progress t) i →
  input_ok (t_progress t') i' ∧ fits WriterTask (t_progress t')
  ∧ t_kind t' = t_kind t ∧ t_cancelled t' = t_cancelled t.
Proof.
  unfold writer_write. intros Hs (taken & parts & Hw & Hp & Ha).
  destruct (t_progress t) as [[]| |]; try done. case_decide; simplify_eq. cbn in *.
  split_and!; try done. exists (taken ++ [msg]), (parts ++ [take n msg]). split_and!; cbn.
  - by rewrite concat_app, Hw, concat_cons, app_nil_r.
  - apply Forall2_app; [done|]. constructor; [|constructor]. apply prefix_take.
  - by rewrite Ha, <- app_assoc.
Qed.

Lemma wait_return_ok code_of failed t e t' e' :
  wait_return code_of failed t e = Some (t', e') → exit_ok code_of (t_progress t) e →
  exit_ok code_of (t_progress t') e' ∧ fits WaitTask (t_progress t')
  ∧ t_kind t' = t_kind t ∧ t_cancelled t' = t_cancelled t.
Proof.
  unfold wait_return. intros Hs He. destruct (t_progress t) as [[]| |]; try done.
  destruct He as (_ & Hc & Hn). destruct failed; cbn in Hs.
  - simplify_eq. cbn. split_and!; try done. by left.
  - destruct (e_child e) as [st|] eqn:Ee; cbn in Hs; simplify_eq. cbn. split_and!; try done.
    right. by exists st.
Qed.

Lemma wait_publish_ok code_of t e t' e' :
  wait_publish t e = Some (t', e') → exit_ok code_of (t_progress t) e →
  exit_ok code_of (t_progress t') e' ∧ fits WaitTask (t_progress t')
  ∧ t_kind t' = t_kind t ∧ t_cancelled t' = t_cancelled t.
Proof.
  unfold wait_publish. intros Hs He. destruct (t_progress t) as [[]| |]; try done;
    simplify_eq; cbn in *; destruct He as (Hr & ? & ? & ?); split_and!; try done; eauto.
Qed.

(** An aborted task was at an await; what it held is lost. *)
Lemma cancel_Some t t' :
  cancel t = Some t' →
  t_cancelled t = true ∧ t' = go t Aborted
  ∧ ∃ p, t_progress t = Running p ∧ at_await p = true ∧ (t_kind t = Async ∨ p = PQueued).
Proof.
  unfold cancel. destruct t as [[] [] [p| |]]; cbn; try done; [|destruct p; try done].
  - destruct (at_await p) eqn:E; intros [= <-]. split_and!; eauto.
  - intros [= <-]. split_and!; eauto.
Qed.

Lemma start_Some first t t' :
  start first t = Some t' →
  t_progress t = Running PQueued ∧ t_cancelled t = false ∧ t' = go t (Running first).
Proof. unfold start. destruct t as [k [] [[]| |]]; cbn; try done. by intros [= <-]. Qed.

Lemma output_aborted p o : output_ok (Running p) o → output_ok Aborted o.
Proof.
  intros [Ha Hr Hc Hk Hl]. split; try done; cbn.
  - by exists (concat (chunk_held (Running p))).
  - rewrite app_nil_r. by apply Forall_app in Hk as [Hk _].
Qed.

Lemma input_aborted p i : input_ok (Running p) i → input_ok Aborted i.
Proof.
  intros (taken & parts & Hw & Hp & Ha). exists taken, parts. split_and!; [done..|].
  destruct p; try (by eexists). exists []. destruct Ha as [-> ->]. by rewrite app_nil_r.
Qed.

Lemma exit_aborted code_of p e :
  at_await p = true → exit_ok code_of (Running p) e → exit_ok code_of Aborted e.
Proof. by destruct p. Qed.

(** ** The owners' steps *)

Lemma child_writes_ok data pr o o' :
  child_writes data o = Some o' → output_ok pr o → output_ok pr o'.
Proof.
  unfold child_writes. intros Hs [Ha Hr Hc Hk Hl]. destruct (o_open o); simplify_eq.
  split; cbn; try done. unfold accounted in *. cbn.
  destruct pr; [..|destruct Ha as [lost Ha]; exists lost]; rewrite <- Ha; by rewrite <- !app_assoc.
Qed.

Lemma child_closes_ok pr o : output_ok pr o → output_ok pr (child_closes o).
Proof. intros []. by split. Qed.

Lemma take_chunk_ok pr o o' : take_chunk o = Some o' → output_ok pr o → output_ok pr o'.
Proof.
  unfold take_chunk. intros Hs [Ha Hr Hc Hk Hl].
  destruct (o_rx o) eqn:Er, (o_queue o) as [|c q] eqn:Eq; simplify_eq.
  specialize (Hc eq_refl). split; cbn; try done.
  - rewrite Hc. by eexists (q); rewrite <- app_assoc.
  - intros _. by rewrite Hc, <- app_assoc.
  - cbn in Hl. lia.
Qed.

Lemma drop_receiver_ok pr o : output_ok pr o → output_ok pr (drop_receiver o).
Proof. intros []. split; cbn; try done. lia. Qed.

Lemma accept_input_ok msg t i i' :
  accept_input msg t i = Some i' → input_ok (t_progress t) i → input_ok (t_progress t) i'.
Proof.
  unfold accept_input, takes_input. intros Hs (taken & parts & Hw & Hp & Ha).
  case_decide as Hd; simplify_eq. destruct Hd as (_ & Ht & _).
  exists taken, parts. split_and!; [done..|].
  destruct (t_progress t) as [[]| |]; try done; cbn in *; by rewrite Ha, <- !app_assoc.
Qed.

Lemma child_exits_ok code_of pr e st :
  e_child e = None → exit_ok code_of pr e →
  exit_ok code_of pr (mkExit (Some st) (exit_status e) (exit_code e) (e_sent e)).
Proof.
  intros He. assert (∀ c, right_code code_of e c →
    right_code code_of (mkExit (Some st) (exit_status e) (exit_code e) (e_sent e)) c) as Hr.
  { intros c [->|(st' & ? & _)]; [by left|]. congruence. }
  destruct pr as [[]| |]; cbn; try naive_solver.
Qed.

(** * What holds of a process *)

Definition kind_of (m : SpawnMode) (n : tid) : task_kind :=
  match m, n with
  | PipeMode, _ => Async
  | _, (StdoutTask | WaitTask) => Blocking
  | _, _ => Async
  end.

Section invariant.
Context {C M K : Type} {U : Unix K} {CK : ChildKiller C K} {LA : Launch C M K}.

Abbreviation Proc := (Spawned C M K).

Record inv (p : Proc) : Prop := {
  inv_fits n : fits n (t_progress (tasks p n));
  inv_output s : output_ok (t_progress (tasks p (reader_of s))) (output s p);
  inv_input : input_ok (t_progress (tasks p WriterTask)) (stdin p);
  inv_exit : exit_ok (code_of (M := M) (K := K) (LA := LA) (sp_mode p))
               (t_progress (tasks p WaitTask)) (exit p);
  inv_kills : length (kills p) + length (option_list (killer (session p))) = 1;
  inv_kinds n : t_kind (tasks p n) = kind_of (sp_mode p) n;
  inv_handles n : t_cancelled (tasks p n) = true ∨ ended (tasks p n) = true
                  ∨ n ∈ aborted_tasks (session p);
}.

(** A step that moves one task, and perhaps the flow it serves. *)
Lemma inv_moved n t p p' :
  inv p → tasks p' = tasks (set_task n t p) →
  sp_mode p' = sp_mode p → session p' = session p → kills p' = kills p →
  fits n (t_progress t) → t_kind t = t_kind (tasks p n) → t_cancelled t = t_cancelled (tasks p n) →
  ended (tasks p n) = false →
  (∀ s, output_ok (t_progress (tasks p' (reader_of s))) (output s p')) →
  input_ok (t_progress (tasks p' WriterTask)) (stdin p') →
  exit_ok (code_of (LA := LA) (sp_mode p')) (t_progress (tasks p' WaitTask)) (exit p') →
  inv p'.
Proof.
  intros [Hf _ _ _ Hk Hkd Hh] Ht Hm Hs Hki Hft Hkt Hct He Ho Hi Hx.
  split; try done; try (rewrite Hki, Hs; done); intros m; rewrite Ht; cbn; destruct (decide (m = n)) as [->|];
    try apply Hf; rewrite ?Hm, ?Hs; try done.
  - by rewrite Hkt, Hkd.
  - destruct (Hh n) as [?|[?|?]]; [left|congruence|by right; right]. congruence.
Qed.

(** A step of an owner that moves no task. *)
Lemma inv_owner p p' :
  inv p → tasks p' = tasks p → sp_mode p' = sp_mode p → session p' = session p →
  kills p' = kills p →
  (∀ s, output_ok (t_progress (tasks p (reader_of s))) (output s p')) →
  input_ok (t_progress (tasks p WriterTask)) (stdin p') →
  exit_ok (code_of (LA := LA) (sp_mode p)) (t_progress (tasks p WaitTask)) (exit p') →
  inv p'.
Proof.
  intros [Hf _ _ _ Hk Hkd Hh] Ht Hm Hs Hki Ho Hi Hx.
  split; intros; rewrite ?Ht, ?Hm, ?Hki, ?Hs; auto.
Qed.

(** What the invariant says of a flow that a step leaves alone. *)
Ltac from_inv H :=
  first [ exact (inv_input _ H) | exact (inv_exit _ H)
        | exact (inv_output _ H Stdout) | exact (inv_output _ H Stderr) ].

Lemma inv_output_only s o p :
  inv p → output_ok (t_progress (tasks p (reader_of s))) o → inv (set_output s o p).
Proof.
  intros Hp Ho. apply (inv_owner p); try (by destruct s); try done;
    destruct s; cbn; try from_inv Hp; intros []; cbn; try done; from_inv Hp.
Qed.

Lemma running_not_ended t p : t_progress t = Running p → ended t = false.
Proof. unfold ended. by intros ->. Qed.

Lemma inv_child_step l p p' : inv p → child_step l p = Some p' → inv p'.
Proof.
  intros Hp. destruct l; try done; cbn.
  - destruct (has_stream s p); [|done]. destruct (child_writes data (output s p)) eqn:E; [|done].
    intros [= <-]. apply inv_output_only; [done|]. eapply child_writes_ok; [done|]. apply (inv_output _ Hp).
  - destruct (has_stream s p); [|done]. intros [= <-].
    apply inv_output_only; [done|]. apply child_closes_ok, (inv_output _ Hp).
  - destruct (e_child (exit p)) eqn:E; [done|]. intros [= <-].
    apply (inv_owner p); try done; cbn; try from_inv Hp; [intros []; from_inv Hp|].
    apply child_exits_ok; [done|from_inv Hp].
Qed.

(** The tasks a step of another task leaves alone keep their flows. *)
Lemma inv_reader s t o p :
  inv p → ended (tasks p (reader_of s)) = false →
  output_ok (t_progress t) o → fits StdoutTask (t_progress t) →
  t_kind t = t_kind (tasks p (reader_of s)) →
  t_cancelled t = t_cancelled (tasks p (reader_of s)) →
  inv (set_output s o (set_task (reader_of s) t p)).
Proof.
  intros Hp He Ho Hf Hk Hc.
  apply (inv_moved (reader_of s) t p); try done; try (by destruct s); destruct s; cbn;
    try from_inv Hp; try (by destruct t as [? ? [[]| |]]);
    intros []; cbn; try done; from_inv Hp.
Qed.

Lemma inv_writer t i p :
  inv p → ended (tasks p WriterTask) = false →
  input_ok (t_progress t) i → fits WriterTask (t_progress t) →
  t_kind t = t_kind (tasks p WriterTask) → t_cancelled t = t_cancelled (tasks p WriterTask) →
  inv (set_stdin i (set_task WriterTask t p)).
Proof.
  intros Hp He Ho Hf Hk Hc.
  apply (inv_moved WriterTask t p); try done; cbn; try from_inv Hp. intros []; from_inv Hp.
Qed.

Lemma inv_waiter t e p :
  inv p → ended (tasks p WaitTask) = false →
  exit_ok (code_of (LA := LA) (sp_mode p)) (t_progress t) e → fits WaitTask (t_progress t) →
  t_kind t = t_kind (tasks p WaitTask) → t_cancelled t = t_cancelled (tasks p WaitTask) →
  inv (set_exit e (set_task WaitTask t p)).
Proof.
  intros Hp He Ho Hf Hk Hc.
  apply (inv_moved WaitTask t p); try done; cbn; try from_inv Hp. intros []; from_inv Hp.
Qed.

(** Ending a task: by itself with nothing held, or aborted at an await. *)
Lemma inv_ended n t p :
  inv p → ended (tasks p n) = false → ended t = true → t_kind t = t_kind (tasks p n) →
  t_cancelled t = t_cancelled (tasks p n) →
  (∀ s, n = reader_of s → output_ok (t_progress t) (output s p)) →
  (n = WriterTask → input_ok (t_progress t) (stdin p)) →
  (n = WaitTask → exit_ok (code_of (LA := LA) (sp_mode p)) (t_progress t) (exit p)) →
  inv (set_task n t p).
Proof.
  intros Hp He Hd Hk Hc Ho Hi Hx. apply (inv_moved n t p); try done.
  - unfold ended in Hd. by destruct (t_progress t).
  - intros s. cbn. destruct (decide (reader_of s = n)); [by apply Ho|]. destruct s; from_inv Hp.
  - cbn. destruct (decide (WriterTask = n)); [by apply Hi|]. from_inv Hp.
  - cbn. destruct (decide (WaitTask = n)); [by apply Hx|]. from_inv Hp.
Qed.

Lemma inv_cancel n t p : inv p → cancel (tasks p n) = Some t → inv (set_task n t p).
Proof.
  intros Hp (Hc & -> & c & Hr & Ha & _)%cancel_Some.
  apply inv_ended; try done; cbn.
  - by eapply running_not_ended.
  - intros s ->. apply (output_aborted c). rewrite <- Hr. apply (inv_output _ Hp).
  - intros ->. apply (input_aborted c). rewrite <- Hr. from_inv Hp.
  - intros ->. eapply (exit_aborted _ c); [done|]. rewrite <- Hr. from_inv Hp.
Qed.

(** A task that starts held nothing and holds nothing. *)
Lemma inv_start n t p : inv p → start (first_pc n) (tasks p n) = Some t → inv (set_task n t p).
Proof.
  intros Hp (Hr & Hc & ->)%start_Some. pose proof (inv_fits _ Hp n) as Hf. rewrite Hr in Hf.
  apply (inv_moved n (go (tasks p n) (Running (first_pc n))) p); try done.
  - by destruct n.
  - by eapply running_not_ended.
  - intros s. cbn. destruct (decide (reader_of s = n)) as [<-|]; [|destruct s; from_inv Hp].
    pose proof (inv_output _ Hp s) as Ho. rewrite Hr in Ho. destruct Ho.
    by destruct s; split.
  - cbn. destruct (decide (WriterTask = n)) as [<-|]; [done|]. from_inv Hp.
  - cbn. destruct (decide (WaitTask = n)) as [<-|]; [|from_inv Hp].
    pose proof (inv_exit _ Hp) as Hx. by rewrite Hr in Hx.
Qed.

Lemma inv_join t p :
  inv p → join_step (λ n, ended (tasks p n)) (tasks p JoinTask) = Some t → inv (set_task JoinTask t p).
Proof.
  intros Hp. unfold join_step. destruct (t_progress (tasks p JoinTask)) as [[]| |] eqn:E; try done.
  intros Hs. assert (∃ pr, t = go (tasks p JoinTask) pr ∧ fits JoinTask pr) as (pr & -> & Hf).
  { destruct l as [|n l]; [|destruct (ended (tasks p n)); [|done]];
    injection Hs as <-; eexists; (split; [reflexivity|done]). }
  apply (inv_moved JoinTask (go (tasks p JoinTask) pr) p); try done; cbn;
    try (by eapply running_not_ended); try from_inv Hp; intros []; from_inv Hp.
Qed.

(** A task that takes a step is running. *)
Ltac not_ended :=
  destruct (t_progress _) eqn:?; try done; by eapply running_not_ended.

Lemma inv_task_step l p p' : inv p → task_step l p = Some p' → inv p'.
Proof.
  intros Hp. destruct l; try done; cbn; unfold with_output.
  - destruct (reader_read _ _ _) as [[t o]|] eqn:E; [|done]. intros [= <-].
    assert (ended (tasks p (reader_of s)) = false) as He
      by (unfold reader_read in E; not_ended).
    apply reader_read_ok in E as (? & ? & ? & ?); [|apply (inv_output _ Hp)]. by apply inv_reader.
  - destruct (reader_send _ _) as [[t o]|] eqn:E; [|done]. intros [= <-].
    assert (ended (tasks p (reader_of s)) = false) as He
      by (unfold reader_send in E; not_ended).
    apply reader_send_ok in E as (? & ? & ? & ?); [|apply (inv_output _ Hp)]. by apply inv_reader.
  - destruct (writer_recv _ _ _) as [[t i]|] eqn:E; [|done]. intros [= <-].
    assert (ended (tasks p WriterTask) = false) as He
      by (unfold writer_recv in E; not_ended).
    apply writer_recv_ok in E as (? & ? & ? & ?); [|from_inv Hp]. by apply inv_writer.
  - destruct (writer_write _ _ _) as [[t i]|] eqn:E; [|done]. intros [= <-].
    assert (ended (tasks p WriterTask) = false) as He
      by (unfold writer_write in E; not_ended).
    apply writer_write_ok in E as (? & ? & ? & ?); [|from_inv Hp]. by apply inv_writer.
  - pose proof (inv_input _ Hp) as Hi.
    destruct (t_progress (tasks p WriterTask)) as [[]| |] eqn:E; try done. intros [= <-].
    apply inv_ended; try done; [by eapply running_not_ended|by intros []].
  - destruct (wait_return _ _ _ _) as [[t e]|] eqn:E; [|done]. intros [= <-].
    assert (ended (tasks p WaitTask) = false) as He
      by (unfold wait_return in E; not_ended).
    apply wait_return_ok in E as (? & ? & ? & ?); [|from_inv Hp]. by apply inv_waiter.
  - destruct (wait_publish _ _) as [[t e]|] eqn:E; [|done]. intros [= <-].
    assert (ended (tasks p WaitTask) = false) as He
      by (unfold wait_publish in E; not_ended).
    eapply wait_publish_ok in E as (? & ? & ? & ?); [|from_inv Hp]. by apply inv_waiter.
  - destruct (join_step _ _) as [t|] eqn:E; [|done]. intros [= <-]. by apply inv_join.
  - destruct (cancel _) as [t|] eqn:E; [|done]. intros [= <-]. by apply inv_cancel.
  - destruct (start _ _) as [t|] eqn:E; [|done]. intros [= <-]. by apply inv_start.
Qed.

(** ** The handle's operations *)

Lemma abort_all_progress l ts n :
  t_progress (abort_all l ts n) = t_progress (ts n) ∧ t_kind (abort_all l ts n) = t_kind (ts n).
Proof. unfold abort_all. by case_decide. Qed.

Lemma abort_all_cancelled l ts n :
  t_cancelled (abort_all l ts n) = true ↔ n ∈ l ∨ t_cancelled (ts n) = true.
Proof. unfold abort_all. case_decide; cbn; naive_solver. Qed.

Lemma inv_after_kill h ts k r p :
  inv p →
  (∀ n, t_progress (ts n) = t_progress (tasks p n) ∧ t_kind (ts n) = t_kind (tasks p n)) →
  length (option_list r) + length (option_list (killer h)) = length (option_list (killer (session p))) →
  (∀ n, t_cancelled (tasks p n) = true ∨ n ∈ aborted_tasks (session p) →
        t_cancelled (ts n) = true ∨ n ∈ aborted_tasks h) →
  inv (after_kill h ts k r p).
Proof.
  intros [Hf Ho Hi Hx Hk Hkd Hh] Hts Hr Hc. split; cbn.
  - intros n. rewrite (proj1 (Hts n)). apply Hf.
  - intros s. rewrite (proj1 (Hts _)). destruct s; apply (Ho Stdout) || apply (Ho Stderr).
  - by rewrite (proj1 (Hts _)).
  - by rewrite (proj1 (Hts _)).
  - rewrite length_app. lia.
  - intros n. rewrite (proj2 (Hts n)). apply Hkd.
  - intros n. unfold ended. rewrite (proj1 (Hts n)). destruct (Hh n) as [?|[?|?]]; [|by right; left|];
      destruct (Hc n); auto.
Qed.

Lemma request_terminate_spec (h : ProcessHandle C M) (k : K) h' k' r :
  request_terminate h k = (h', k', r) →
  aborted_tasks h' = aborted_tasks h ∧ killer h' = None ∧ writer_tx h' = writer_tx h
  ∧ pty_handles h' = pty_handles h
  ∧ length (option_list r) = length (option_list (killer h)).
Proof.
  unfold request_terminate. destruct (killer h) as [t|] eqn:E.
  - destruct (kill t k). intros [= <- <- <-]. done.
  - intros [= <- <- <-]. by rewrite E.
Qed.

Lemma terminate_spec (h : ProcessHandle C M) ts (k : K) h' ts' k' r :
  terminate h ts k = (h', ts', k', r) →
  ts' = abort_all (aborted_tasks h) ts ∧ killer h' = None ∧ aborted_tasks h' = []
  ∧ length (option_list r) = length (option_list (killer h)).
Proof.
  unfold terminate. destruct (request_terminate h k) as [[h1 k1] r1] eqn:E.
  apply request_terminate_spec in E as (Ha & Hk & _ & _ & Hr). intros [= <- <- <- <-].
  cbn. by rewrite Ha.
Qed.

Lemma inv_terminated h ts k r p h2 :
  inv p → terminate (session p) (tasks p) (os p) = (h, ts, k, r) →
  killer h2 = killer h → aborted_tasks h2 = [] → inv (after_kill h2 ts k r p).
Proof.
  intros Hp (-> & Hn & Ha & Hr)%terminate_spec Hk2 Ha2. apply inv_after_kill; try done.
  - intros n. apply abort_all_progress.
  - rewrite Hk2, Hn, Hr. cbn. lia.
  - intros n Hn'. left. apply abort_all_cancelled. naive_solver.
Qed.

Lemma inv_owner_step l p p' : inv p → owner_step l p = Some p' → inv p'.
Proof.
  intros Hp. destruct l; try done; cbn.
  - destruct (take_chunk _) eqn:E; [|done]. intros [= <-]. apply inv_output_only; [done|].
    eapply take_chunk_ok; [done|]. apply (inv_output _ Hp).
  - intros [= <-]. apply inv_output_only; [done|]. apply drop_receiver_ok, (inv_output _ Hp).
  - destruct (accept_input _ _ _) eqn:E; [|done]. intros [= <-].
    apply (inv_owner p); try done; cbn; try from_inv Hp; [intros []; from_inv Hp|].
    eapply accept_input_ok; [done|from_inv Hp].
  - intros [= <-]. apply (inv_owner p); try done; cbn; try from_inv Hp; [intros []; from_inv Hp|].
    unfold writer_sender. destruct (writer_tx _); from_inv Hp.
  - intros [= <-]. apply (inv_owner p); try done; cbn; try from_inv Hp; intros []; from_inv Hp.
  - intros [= <-]. destruct Hp. by split.
  - destruct (request_terminate _ _) as [[h k] r] eqn:E. intros [= <-].
    apply request_terminate_spec in E as (Ha & Hk & _ & _ & Hr).
    apply inv_after_kill; try done; [rewrite Hk, Hr; cbn; lia|]. by rewrite Ha.
  - destruct (terminate _ _ _) as [[[h ts] k] r] eqn:E. intros [= <-].
    eapply inv_terminated; try done. by apply terminate_spec in E as (_ & _ & ? & _).
  - unfold drop_handle. destruct (terminate _ _ _) as [[[h ts] k] r] eqn:E. intros [= <-].
    eapply inv_terminated; try done. by apply terminate_spec in E as (_ & _ & ? & _).
Qed.

Lemma proc_inv_step l p p' : inv p → step l p = Some p' → inv p'.
Proof.
  intros Hp Hs. destruct l; cbn [step] in Hs;
    first [by eapply inv_child_step | by eapply inv_task_step | by eapply inv_owner_step].
Qed.

Lemma new_output_ok pr : chunk_held pr = [] → output_ok pr new_output.
Proof.
  intros Hc. split; cbn; try done; [|rewrite Hc; constructor|lia].
  unfold accounted. rewrite Hc. destruct pr; try done. by exists [].
Qed.

Lemma new_input_ok pr : msg_held pr = [] → input_ok pr new_input.
Proof.
  intros Hm. exists [], []. split_and!; [done|constructor|].
  destruct pr as [[]| |]; try done. by exists [].
Qed.

Lemma inv_spawned p : spawned p → inv p.
Proof.
  intros [program args cwd env arg0 mode fds k k' p' H | program args cwd env arg0 size fds k k' p' H].
  - unfold spawn_process_with_stdin_mode in H. case_decide; [done|].
    destruct (command_spawn _ _ _) as [k1 [c|e]]; [|done]. destruct (ch_id c); simplify_eq.
    destruct c as [i [] [] []]; split; cbn; try done; try (by apply new_input_ok);
      intros []; cbn; try done; try (by apply new_output_ok); set_solver.
  - unfold spawn_process_with_inherited_fds in H. case_decide; [done|].
    assert (∃ m k h, p' = mkSpawned m (ProcessHandle_new k StdoutTask [] WriterTask WaitTask h)
      pty_tasks new_output new_output new_input new_exit [] k' ∧ m ≠ PipeMode) as (m & t & h & -> & Hm).
    { case_decide.
      - unfold spawn_process_portable, message, and_then in H. repeat case_match; simplify_eq/=; eauto.
      - unfold spawn_process_preserving_fds, and_then, dropping in H.
        repeat case_match; simplify_eq/=; eauto. }
    destruct m; try done; split; cbn; try done; try (by apply new_input_ok);
      intros []; cbn; try done; try (by apply new_output_ok); set_solver.
Qed.

Lemma reachable_inv p : reachable p → inv p.
Proof.
  intros (p0 & H0 & Hr). apply inv_spawned in H0. revert H0 Hr.
  apply rtc_invariant. intros a b Ha [l Hl]. by eapply proc_inv_step.
Qed.

(** ** What follows *)

Lemma accounted_prefix pr o : accounted pr o → concat (o_sent o) `prefix_of` o_written o.
Proof.
  intros Ha. destruct pr; [..|destruct Ha as [lost Ha]]; rewrite <- Ha; by apply prefix_app_r.
Qed.

(** The output of a process arrives in order and undamaged.  In every
    state of every process, what a receiver has taken are the first of the
    chunks handed to its channel, and those together are the beginning of what
    the child wrote on that stream; no chunk is empty or larger than the
    buffer, and at most 128 wait.  When a reader has stopped by itself with
    the pipe drained and the receiver has taken everything, it has every byte
    the child wrote. *)
Theorem spawned_output_in_order p s :
  reachable p →
  let o := output s p in
  o_received o `prefix_of` o_sent o
  ∧ concat (o_sent o) `prefix_of` o_written o
  ∧ Forall chunk_ok (o_received o)
  ∧ length (o_queue o) ≤ CHANNEL
  ∧ (t_progress (tasks p (reader_of s)) = Finished → o_unread o = [] →
     o_rx o = true → o_queue o = [] → concat (o_received o) = o_written o).
Proof.
  intros Hp o. destruct (inv_output _ (reachable_inv _ Hp) s) as [Ha Hr Hc Hk Hl].
  split_and!; try done.
  - by eapply accounted_prefix.
  - apply Forall_app in Hk as [Hk _]. destruct Hr as [l Hr]. rewrite Hr in Hk.
    by apply Forall_app in Hk as [Hk _].
  - intros He Hu Hx Hq. rewrite He in Ha. cbn in Ha. subst o. rewrite Hu, app_nil_r in Ha.
    specialize (Hc Hx). rewrite Hq, app_nil_r in Hc. by rewrite <- Hc.
Qed.

(** What reaches the child's input are the accepted messages in their order,
    each whole or up to a write error of its own; a writer that stopped by
    itself has written them all. *)
Theorem spawned_input_in_order p :
  reachable p →
  ∃ taken parts rest,
    i_accepted (stdin p) = taken ++ rest
    ∧ Forall2 (λ part m, part `prefix_of` m) parts taken
    ∧ i_written (stdin p) = concat parts
    ∧ (t_progress (tasks p WriterTask) = Finished → rest = []).
Proof.
  intros Hp. destruct (inv_input _ (reachable_inv _ Hp)) as (taken & parts & Hw & Hf & Ha).
  assert (∃ rest, i_accepted (stdin p) = taken ++ rest
    ∧ (t_progress (tasks p WriterTask) = Finished → rest = [])) as (rest & ? & ?); [|by exists taken, parts, rest].
  destruct (t_progress (tasks p WriterTask)) as [[]| |]; try (by eexists); [..|by destruct Ha; eexists];
    destruct Ha as [-> _]; exists []; by rewrite app_nil_r.
Qed.

(** The exit is published in one order: whoever receives it on the channel
    finds the code in the handle, and whoever finds the code finds the process
    marked as exited; the code is that of the child's status, or -1 if waiting
    failed. *)
Theorem exit_published_in_order p :
  reachable p →
  (∀ c, e_sent (exit p) = Some c → known_exit_code (exit p) = Some c)
  ∧ (∀ c, known_exit_code (exit p) = Some c →
       has_exited (exit p) = true ∧ right_code (code_of (LA := LA) (sp_mode p)) (exit p) c).
Proof.
  intros Hp. pose proof (inv_exit _ (reachable_inv _ Hp)) as Hx.
  unfold known_exit_code, has_exited. unfold exit_ok in Hx.
  destruct (t_progress (tasks p WaitTask)) as [[]| |]; naive_solver.
Qed.

(** A process is killed at most once, however often and in whatever order
    the handle's owner asks for it or drops it; and once the owner has asked
    it has been. *)
Theorem killed_at_most_once p :
  reachable p →
  length (kills p) ≤ 1
  ∧ ∀ l p', (l = LRequestTerminate ∨ l = LTerminate ∨ l = LDropHandle) →
      step l p = Some p' → length (kills p') = 1 ∧ killer (session p') = None.
Proof.
  intros Hp. pose proof (inv_kills _ (reachable_inv _ Hp)) as Hk. split; [lia|].
  intros l p' Hl Hs.
  pose proof (inv_kills _ (reachable_inv _ (reachable_step _ _ _ Hp Hs))) as Hk'.
  assert (killer (session p') = None) as Hn.
  { destruct Hl as [->|[->| ->]]; cbn in Hs; unfold drop_handle in Hs.
    - destruct (request_terminate _ _) as [[h k] r] eqn:E. simplify_eq.
      by apply request_terminate_spec in E as (_ & ? & _).
    - destruct (terminate _ _ _) as [[[h ts] k] r] eqn:E. simplify_eq.
      by apply terminate_spec in E as (_ & ? & _).
    - destruct (terminate _ _ _) as [[[h ts] k] r] eqn:E. simplify_eq.
      by apply terminate_spec in E as (_ & ? & _). }
  split; [|done]. rewrite Hn in Hk'. cbn in Hk'. lia.
Qed.

(** ** After [terminate] *)

Lemma set_output_frame s o (p : Proc) :
  session (set_output s o p) = session p ∧ sp_mode (set_output s o p) = sp_mode p.
Proof. by destruct s. Qed.

Lemma child_step_frame l (p p' : Proc) :
  child_step l p = Some p' → session p' = session p ∧ sp_mode p' = sp_mode p.
Proof.
  destruct l; try done; cbn; [destruct (has_stream s p); [|done]..|].
  - destruct (child_writes _ _); [|done]. intros [= <-]. apply set_output_frame.
  - intros [= <-]. apply set_output_frame.
  - destruct (e_child _); [done|]. by intros [= <-].
Qed.

Lemma task_step_frame l (p p' : Proc) :
  task_step l p = Some p' → session p' = session p ∧ sp_mode p' = sp_mode p.
Proof.
  destruct l; try done; cbn; unfold with_output.
  - destruct (reader_read _ _ _) as [[t o]|]; [|done]. intros [= <-]. by destruct s.
  - destruct (reader_send _ _) as [[t o]|]; [|done]. intros [= <-]. by destruct s.
  - destruct (writer_recv _ _ _) as [[t i]|]; [|done]. by intros [= <-].
  - destruct (writer_write _ _ _) as [[t i]|]; [|done]. by intros [= <-].
  - destruct (t_progress _) as [[]| |]; try done. by intros [= <-].
  - destruct (wait_return _ _ _ _) as [[t e]|]; [|done]. by intros [= <-].
  - destruct (wait_publish _ _) as [[t e]|]; [|done]. by intros [= <-].
  - destruct (join_step _ _) as [t|]; [|done]. by intros [= <-].
  - destruct (cancel _) as [t|]; [|done]. by intros [= <-].
  - destruct (start _ _) as [t|]; [|done]. by intros [= <-].
Qed.

Lemma owner_step_handles l (p p' : Proc) :
  owner_step l p = Some p' → aborted_tasks (session p) = [] →
  aborted_tasks (session p') = [] ∧ sp_mode p' = sp_mode p.
Proof.
  destruct l; try done; cbn.
  - destruct (take_chunk _); [|done]. intros [= <-]. by destruct s.
  - intros [= <-]. by destruct s.
  - destruct (accept_input _ _ _); [|done]. by intros [= <-].
  - by intros [= <-].
  - by intros [= <-].
  - by intros [= <-].
  - destruct (request_terminate _ _) as [[h k] r] eqn:E. intros [= <-].
    apply request_terminate_spec in E as (Ha & _). cbn. by rewrite Ha.
  - destruct (terminate _ _ _) as [[[h ts] k] r] eqn:E. intros [= <-].
    by apply terminate_spec in E as (_ & _ & ? & _).
  - unfold drop_handle. destruct (terminate _ _ _) as [[[h ts] k] r] eqn:E. intros [= <-].
    by apply terminate_spec in E as (_ & _ & ? & _).
Qed.

(** No step gives the handle a task to abort. *)
Lemma step_no_handles l (p p' : Proc) :
  step l p = Some p' → aborted_tasks (session p) = [] →
  aborted_tasks (session p') = [] ∧ sp_mode p' = sp_mode p.
Proof.
  intros Hs Ha. destruct l; cbn [step] in Hs;
    first [apply child_step_frame in Hs as [-> ->] | apply task_step_frame in Hs as [-> ->]
          | by apply owner_step_handles in Hs]; done.
Qed.

Lemma rtc_no_handles (p p' : Proc) :
  rtc steps_to p p' → aborted_tasks (session p) = [] →
  aborted_tasks (session p') = [] ∧ sp_mode p' = sp_mode p.
Proof.
  induction 1 as [|p1 p2 p3 [l Hl] _ IH]; [done|]. intros Ha.
  destruct (step_no_handles _ _ _ Hl Ha) as [Ha2 Hm]. destruct (IH Ha2). split; congruence.
Qed.

(** Steps that need nothing from outside the runtime. *)
Definition own_step (l : label) : Prop :=
  l = LPublish ∨ l = LEmpty ∨ ∃ n, l = LCancel n.

Lemma run_app ls ls' (p : Proc) : run (ls ++ ls') p = (run ls p ≫= run ls').
Proof.
  revert p. induction ls as [|l ls IH]; intros p; cbn; [done|]. by destruct (step l p); cbn.
Qed.

Lemma run_inv ls (p p' : Proc) : inv p → run ls p = Some p' → inv p'.
Proof.
  revert p. induction ls as [|l ls IH]; intros p Hp Hr; cbn in Hr; [by simplify_eq|].
  destruct (step l p) as [p1|] eqn:E; [|done]. cbn in Hr. eauto using proc_inv_step.
Qed.

(** The task has its thread. *)
Definition on_thread (t : Task) : Prop :=
  t_kind t = Blocking ∧ ∃ c, t_progress t = Running c ∧ c ≠ PQueued.

(** One task of a terminated process can be brought to its end, unless it has
    a thread. *)
Lemma end_one n (p : Proc) :
  inv p → aborted_tasks (session p) = [] → ¬ on_thread (tasks p n) →
  ∃ ls p', Forall own_step ls ∧ run ls p = Some p' ∧ ended (tasks p' n) = true
    ∧ (∀ m, m ≠ n → tasks p' m = tasks p m).
Proof.
  intros Hp Ha Hth. destruct (ended (tasks p n)) eqn:He.
  { exists [], p. split_and!; try done. }
  assert (t_cancelled (tasks p n) = true) as Hc.
  { destruct (inv_handles _ Hp n) as [?|[?|Hin]]; [done|congruence|]. rewrite Ha in Hin.
    by apply elem_of_nil in Hin. }
  pose proof (inv_fits _ Hp n) as Hf.
  unfold ended in He. destruct (t_progress (tasks p n)) as [c| |] eqn:Ep; try done.
  destruct (cancel (tasks p n)) as [t|] eqn:Ecan.
  - exists [LCancel n], (set_task n t p). split_and!; cbn.
    + constructor; [|constructor]. right. right. by exists n.
    + by rewrite Ecan.
    + rewrite decide_True by done. by apply cancel_Some in Ecan as (_ & -> & _).
    + intros m Hne. by rewrite decide_False.
  - assert (t_kind (tasks p n) = Async ∧ at_await c = false) as [Hk Haw].
    { unfold cancel in Ecan. rewrite Hc, Ep in Ecan. destruct (t_kind (tasks p n)) eqn:Hk.
      - by destruct (at_await c).
      - destruct (decide (c = PQueued)) as [->|Hne]; [done|]. destruct Hth. split; [done|]. by exists c. }
    destruct n, c; try done; [exists [LEmpty]|exists [LPublish; LPublish]|exists [LPublish]];
      eexists; (split; [repeat constructor; unfold own_step; auto|]);
      (split; [cbn; unfold wait_publish; rewrite Ep; reflexivity|]);
      split_and!; try done; intros []; done.
Qed.

Lemma end_all (l : list tid) (p : Proc) :
  inv p → aborted_tasks (session p) = [] →
  ∃ ls p', Forall own_step ls ∧ run ls p = Some p'
    ∧ ∀ n, if decide (n ∈ l) then ended (tasks p' n) = true ∨ on_thread (tasks p n)
           else tasks p' n = tasks p n.
Proof.
  revert p. induction l as [|n l IH]; intros p Hp Ha.
  { exists [], p. split_and!; [constructor|done|]. intros n. by rewrite decide_False by apply not_elem_of_nil. }
  destruct (IH p) as (ls & p1 & Hq & Hr & He); try done.
  assert (rtc steps_to p p1) as Hrtc.
  { clear -Hr. revert p Hr. induction ls as [|x ls IH]; intros p Hr; cbn in Hr; [by simplify_eq|].
    destruct (step x p) eqn:E; [|done]. eapply rtc_l; [by exists x|]. by apply IH. }
  destruct (rtc_no_handles _ _ Hrtc Ha) as [Ha1 _].
  destruct (decide (n ∈ l)) as [Hin|Hout].
  { exists ls, p1. split_and!; [done..|]. intros m. specialize (He m).
    destruct (decide (m ∈ n :: l)) as [Hm|Hm]; [rewrite decide_True in He; [done|]; set_solver|].
    rewrite decide_False in He; [done|set_solver]. }
  pose proof (He n) as Hn. rewrite decide_False in Hn by done.
  destruct (decide (ended (tasks p n) = true ∨ t_kind (tasks p n) = Async
    ∨ t_progress (tasks p n) = Running PQueued)) as [Hfree|Hth].
  - destruct (end_one n p1) as (ls2 & p2 & Hq2 & Hr2 & He2 & Hsame); [by eapply run_inv|done| |].
    { rewrite Hn. intros (Hk & c & Hc & Hne). unfold ended in Hfree. rewrite Hc in Hfree.
      destruct Hfree as [?|[?|?]]; congruence. }
    exists (ls ++ ls2), p2. split_and!; [by apply Forall_app|by rewrite run_app, Hr|].
    intros m. destruct (decide (m = n)) as [->|Hne].
    { rewrite decide_True by apply list_elem_of_here. by left. }
    specialize (He m). rewrite Hsame by done.
    destruct (decide (m ∈ n :: l)) as [Hm|Hm]; [rewrite decide_True in He; [done|]; set_solver|].
    rewrite decide_False in He; [done|set_solver].
  - exists ls, p1. split_and!; [done..|]. intros m. destruct (decide (m = n)) as [->|Hne].
    { rewrite decide_True by apply list_elem_of_here. right. split.
      - destruct (t_kind (tasks p n)); [|done]. destruct Hth. by right; left.
      - unfold ended in Hth. destruct (t_progress (tasks p n)) as [c| |]; [|destruct Hth; by left..].
        exists c. split; [done|]. intros ->. apply Hth. by right; right. }
    specialize (He m). destruct (decide (m ∈ n :: l)) as [Hm|Hm]; [rewrite decide_True in He; [done|]; set_solver|].
    rewrite decide_False in He; [done|set_solver].
Qed.

(** What a step does to a task: nothing, ask it to end, move it on (an aborted
    one that is queued does not start), or drop it. *)
Definition task_moves (t t' : Task) : Prop :=
  t' = t ∨ t' = abort t
  ∨ ∃ c pr, t_progress t = Running c ∧ t' = go t pr ∧ pr ≠ Running PQueued
    ∧ match pr with
      | Aborted => t_kind t = Async ∨ c = PQueued
      | _ => c = PQueued → t_cancelled t = false
      end.

Lemma moves_on t c pr :
  t_progress t = Running c → c ≠ PQueued → pr ≠ Running PQueued → pr ≠ Aborted → task_moves t (go t pr).
Proof. intros Hc Hq Hn Hp. right. right. exists c, pr. by destruct pr. Qed.

Lemma moves_abort l ts n : task_moves (ts n) (abort_all l ts n).
Proof. unfold abort_all. case_decide; [by right; left|by left]. Qed.

Lemma step_task_moves l (p p' : Proc) n : step l p = Some p' → task_moves (tasks p n) (tasks p' n).
Proof.
  intros Hs. assert (∀ m t, task_moves (tasks p m) t →
    task_moves (tasks p n) (tasks (set_task m t p) n)) as Hset.
  { intros m t Ht. cbn. case_decide; [by subst|by left]. }
  assert (∀ q s o, tasks (set_output s o q) = tasks (q : Proc)) as Hout by (by intros q [] o).
  destruct l; cbn [step child_step task_step owner_step] in Hs; unfold with_output in Hs.
  - destruct (has_stream s p); [|done]. destruct (child_writes _ _); simplify_eq/=. rewrite Hout. by left.
  - destruct (has_stream s p); simplify_eq/=. rewrite Hout. by left.
  - destruct (e_child _); simplify_eq/=. by left.
  - destruct (reader_read _ _ _) as [[t o]|] eqn:E; simplify_eq/=. rewrite Hout. apply Hset.
    unfold reader_read in E. destruct (t_progress _) as [[]| |] eqn:Ep; try done.
    repeat case_match; simplify_eq/=; first [by left|by eapply moves_on].
  - destruct (reader_send _ _) as [[t o]|] eqn:E; simplify_eq/=. rewrite Hout. apply Hset.
    unfold reader_send in E. destruct (t_progress _) as [[]| |] eqn:Ep; try done.
    repeat case_match; simplify_eq/=; by eapply moves_on.
  - destruct (take_chunk _); simplify_eq/=. rewrite Hout. by left.
  - simplify_eq. rewrite Hout. by left.
  - destruct (accept_input _ _ _); simplify_eq/=. by left.
  - simplify_eq. by left.
  - simplify_eq. by left.
  - destruct (writer_recv _ _ _) as [[t i]|] eqn:E; simplify_eq/=. apply (Hset WriterTask).
    unfold writer_recv in E. destruct (t_progress _) as [[]| |] eqn:Ep; try done.
    repeat case_match; simplify_eq/=; by eapply moves_on.
  - destruct (writer_write _ _ _) as [[t i]|] eqn:E; simplify_eq/=. apply (Hset WriterTask).
    unfold writer_write in E. destruct (t_progress _) as [[]| |] eqn:Ep; try done.
    repeat case_match; simplify_eq/=; by eapply moves_on.
  - destruct (t_progress (tasks p WriterTask)) as [[]| |] eqn:Ep; simplify_eq/=.
    apply (Hset WriterTask). by eapply moves_on.
  - destruct (wait_return _ _ _ _) as [[t e]|] eqn:E; simplify_eq/=. apply (Hset WaitTask).
    unfold wait_return in E. destruct (t_progress _) as [[]| |] eqn:Ep; try done.
    destruct (if failed then _ else _); simplify_eq/=. by eapply moves_on.
  - destruct (wait_publish _ _) as [[t e]|] eqn:E; simplify_eq/=. apply (Hset WaitTask).
    unfold wait_publish in E. destruct (t_progress _) as [[]| |] eqn:Ep; try done;
      simplify_eq/=; by eapply moves_on.
  - destruct (join_step _ _) as [t|] eqn:E; simplify_eq/=. apply (Hset JoinTask).
    unfold join_step in E. destruct (t_progress _) as [[]| |] eqn:Ep; try done.
    repeat case_match; simplify_eq/=; by eapply moves_on.
  - destruct (cancel _) as [t|] eqn:E; simplify_eq/=. apply (Hset n0).
    apply cancel_Some in E as (_ & -> & c & Hc & _ & Hk). right. right. by exists c, Aborted.
  - destruct (start _ _) as [t|] eqn:E; simplify_eq/=. apply (Hset n0).
    apply start_Some in E as (Hr & Hc & ->). right. right.
    exists PQueued, (Running (first_pc n0)). by destruct n0.
  - simplify_eq. by left.
  - destruct (request_terminate _ _) as [[h k] r]. simplify_eq. by left.
  - destruct (terminate _ _ _) as [[[h ts] k] r] eqn:E. simplify_eq.
    apply terminate_spec in E as (-> & _). apply moves_abort.
  - unfold drop_handle in Hs. destruct (terminate _ _ _) as [[[h ts] k] r] eqn:E. simplify_eq.
    apply terminate_spec in E as (-> & _). apply moves_abort.
Qed.

(** A task that has ended stays ended, and a kill is never forgotten. *)
Lemma step_ended l (p p' : Proc) n :
  step l p = Some p' →
  (ended (tasks p n) = true → ended (tasks p' n) = true) ∧ ∃ ks, kills p' = kills p ++ ks.
Proof.
  intros Hs. assert (∀ m t, ended (tasks p m) = false →
    ended (tasks p n) = true → ended (tasks (set_task m t p) n) = true) as Hset.
  { intros m t Ht. cbn. case_decide; [by subst; rewrite Ht|done]. }
  assert (∃ ks, kills p = kills p ++ ks) as Hnil by (exists []; by rewrite app_nil_r).
  assert (∀ s o q, kills (set_output s o q) = kills (q : Proc)) as Hout by (by intros []).
  assert (∀ s o q, tasks (set_output s o q) = tasks (q : Proc)) as Htsk by (by intros []).
  destruct l; cbn [step child_step task_step owner_step] in Hs; unfold with_output in Hs.
  - destruct (has_stream s p); [|done]. destruct (child_writes _ _); simplify_eq/=.
    by rewrite Hout, Htsk.
  - destruct (has_stream s p); simplify_eq/=. by rewrite Hout, Htsk.
  - destruct (e_child _); by simplify_eq/=.
  - destruct (reader_read _ _ _) as [[t o]|] eqn:E; simplify_eq/=. rewrite Hout, Htsk. split; [|done].
    apply Hset. unfold reader_read in E. not_ended.
  - destruct (reader_send _ _) as [[t o]|] eqn:E; simplify_eq/=. rewrite Hout, Htsk. split; [|done].
    apply Hset. unfold reader_send in E. not_ended.
  - destruct (take_chunk _); simplify_eq/=. by rewrite Hout, Htsk.
  - simplify_eq. by rewrite Hout, Htsk.
  - destruct (accept_input _ _ _); by simplify_eq/=.
  - by simplify_eq.
  - by simplify_eq.
  - destruct (writer_recv _ _ _) as [[t i]|] eqn:E; simplify_eq/=. split; [|done].
    apply Hset. unfold writer_recv in E. not_ended.
  - destruct (writer_write _ _ _) as [[t i]|] eqn:E; simplify_eq/=. split; [|done].
    apply Hset. unfold writer_write in E. not_ended.
  - destruct (t_progress (tasks p WriterTask)) as [[]| |] eqn:E; simplify_eq/=. split; [|done].
    apply Hset. by eapply running_not_ended.
  - destruct (wait_return _ _ _ _) as [[t e]|] eqn:E; simplify_eq/=. split; [|done].
    apply Hset. unfold wait_return in E. not_ended.
  - destruct (wait_publish _ _) as [[t e]|] eqn:E; simplify_eq/=. split; [|done].
    apply Hset. unfold wait_publish in E. not_ended.
  - destruct (join_step _ _) as [t|] eqn:E; simplify_eq/=. split; [|done].
    apply Hset. unfold join_step in E. not_ended.
  - destruct (cancel _) as [t|] eqn:E; simplify_eq/=. split; [|done].
    apply cancel_Some in E as (_ & _ & c & Hc & _). apply Hset. by eapply running_not_ended.
  - destruct (start _ _) as [t|] eqn:E; simplify_eq/=. split; [|done].
    apply start_Some in E as (Hc & _). apply Hset. by eapply running_not_ended.
  - by simplify_eq.
  - destruct (request_terminate _ _) as [[h k] r]. simplify_eq. split; [done|by eexists].
  - destruct (terminate _ _ _) as [[[h ts] k] r] eqn:E. simplify_eq.
    apply terminate_spec in E as (-> & _). split; [|by eexists]. cbn. unfold ended.
    by rewrite (proj1 (abort_all_progress _ _ _)).
  - unfold drop_handle in Hs. destruct (terminate _ _ _) as [[[h ts] k] r] eqn:E. simplify_eq.
    apply terminate_spec in E as (-> & _). split; [|by eexists]. cbn. unfold ended.
    by rewrite (proj1 (abort_all_progress _ _ _)).
Qed.

Lemma step_mode l (p p' : Proc) : step l p = Some p' → sp_mode p' = sp_mode p.
Proof.
  intros Hs. destruct l; cbn [step] in Hs;
    first [by apply child_step_frame in Hs as [_ ->] | by apply task_step_frame in Hs as [_ ->] | idtac];
    cbn in Hs.
  - destruct (take_chunk _); simplify_eq/=. by destruct s.
  - simplify_eq. by destruct s.
  - destruct (accept_input _ _ _); by simplify_eq/=.
  - by simplify_eq.
  - by simplify_eq.
  - by simplify_eq.
  - destruct (request_terminate _ _) as [[h k] r]. by simplify_eq.
  - destruct (terminate _ _ _) as [[[h ts] k] r]. by simplify_eq.
  - unfold drop_handle in Hs. destruct (terminate _ _ _) as [[[h ts] k] r]. by simplify_eq.
Qed.

Lemma on_thread_kind (p : Proc) n :
  inv p → on_thread (tasks p n) → sp_mode p ≠ PipeMode ∧ (n = StdoutTask ∨ n = WaitTask).
Proof.
  intros Hp [Hk _]. rewrite (inv_kinds _ Hp) in Hk. destruct (sp_mode p), n; try done; auto.
Qed.

(** What stays true of a task, step by step. *)
Lemma rtc_task (Q : Task → Prop) n (p p' : Proc) :
  (∀ t t', Q t → task_moves t t' → Q t') → rtc steps_to p p' → Q (tasks p n) → Q (tasks p' n).
Proof. intros HQ. induction 1 as [|p1 p2 p3 [l Hl] _ IH]; [done|]. eauto using step_task_moves. Qed.

(** A task that has its thread is not aborted; one that was aborted before it had
    one never gets one. *)
Lemma thread_kept t t' :
  t_kind t = Blocking ∧ t_progress t ≠ Running PQueued ∧ t_progress t ≠ Aborted → task_moves t t' →
  t_kind t' = Blocking ∧ t_progress t' ≠ Running PQueued ∧ t_progress t' ≠ Aborted.
Proof.
  intros (Hk & Hq & Ha) [->|[->|(c & pr & Hc & -> & Hn & Hpr)]]; [done|done|]. cbn. split; [done|].
  split; [done|]. intros ->. destruct Hpr as [?| ->]; congruence.
Qed.

Lemma queued_kept t t' :
  t_cancelled t = true ∧ (t_progress t = Running PQueued ∨ t_progress t = Aborted) → task_moves t t' →
  t_cancelled t' = true ∧ (t_progress t' = Running PQueued ∨ t_progress t' = Aborted).
Proof.
  intros [Hx Hq] [->|[->|(c & pr & Hc & -> & _ & Hpr)]]; [done|done|]. cbn. split; [done|].
  destruct Hq as [Hq|Hq]; [|congruence]. rewrite Hc in Hq. injection Hq as ->.
  destruct pr; [|by specialize (Hpr eq_refl); congruence|by right].
  specialize (Hpr eq_refl). congruence.
Qed.

Lemma ended_kept t t' : ended t = true → task_moves t t' → ended t' = true.
Proof.
  intros He [->|[->|(c & pr & Hc & _)]]; [done|done|]. unfold ended in He. by rewrite Hc in He.
Qed.

Lemma kind_kept k t t' : t_kind t = k → task_moves t t' → t_kind t' = k.
Proof. by intros Hk [->|[->|(c & pr & _ & -> & _)]]. Qed.

(** No task gets a thread after it was aborted. *)
Lemma thread_before n (p p' : Proc) :
  (t_progress (tasks p n) = Running PQueued → t_cancelled (tasks p n) = true) →
  rtc steps_to p p' → on_thread (tasks p' n) → on_thread (tasks p n).
Proof.
  intros Hq Hr [Hk (c & Hc & Hne)]. split.
  - destruct (t_kind (tasks p n)) eqn:E; [|done].
    pose proof (rtc_task _ n _ _ (kind_kept Async) Hr E). congruence.
  - destruct (t_progress (tasks p n)) as [c0| |] eqn:E.
    + exists c0. split; [done|]. intros ->.
      assert (t_cancelled (tasks p n) = true ∧ (t_progress (tasks p n) = Running PQueued ∨ t_progress (tasks p n) = Aborted))
        as H0 by (split; [by apply Hq|by left]).
      destruct (rtc_task _ n _ _ queued_kept Hr H0) as [_ [?|?]]; congruence.
    + assert (ended (tasks p n) = true) as He by (unfold ended; by rewrite E).
      apply (rtc_task _ n _ _ ended_kept Hr) in He. unfold ended in He. by rewrite Hc in He.
    + assert (ended (tasks p n) = true) as He by (unfold ended; by rewrite E).
      apply (rtc_task _ n _ _ ended_kept Hr) in He. unfold ended in He. by rewrite Hc in He.
Qed.

(** [terminate] asks all that run to end and moves none. *)
Lemma terminate_asks (p p1 : Proc) n :
  inv p → step LTerminate p = Some p1 →
  aborted_tasks (session p1) = [] ∧ t_progress (tasks p1 n) = t_progress (tasks p n)
  ∧ t_kind (tasks p1 n) = t_kind (tasks p n)
  ∧ (ended (tasks p n) = false → t_cancelled (tasks p1 n) = true).
Proof.
  intros Hi Hs. cbn in Hs. destruct (terminate _ _ _) as [[[h ts] k] r] eqn:E. simplify_eq.
  apply terminate_spec in E as (-> & _ & Ha & _). cbn.
  destruct (abort_all_progress (aborted_tasks (session p)) (tasks p) n) as [-> ->].
  split_and!; [done..|]. intros He. apply abort_all_cancelled.
  destruct (inv_handles _ Hi n) as [?|[?|?]]; [by right|congruence|by left].
Qed.

(** C30: What [terminate] ends.  Whatever happens after it, the runtime alone, without
    anything from the child or from those who hold the channels, can bring
    every task to an end but those that had a thread of the blocking pool by
    then; those, and only those, no later step aborts, so the output of a
    terminal still arrives and its exit is still published.  Only the reader
    and the waiter of a pseudo-terminal can have one, so all tasks of a process
    on pipes end; and a reader or waiter that was still waiting for its thread
    never runs. *)
Theorem terminate_by_mode p p1 p2 :
  reachable p → step LTerminate p = Some p1 → rtc steps_to p1 p2 →
  (∃ ls p3, Forall own_step ls ∧ run ls p2 = Some p3
     ∧ ∀ n, ended (tasks p3 n) = true ∨ on_thread (tasks p n))
  ∧ (∀ n, on_thread (tasks p n) → t_progress (tasks p2 n) ≠ Aborted)
  ∧ (∀ n, on_thread (tasks p n) → sp_mode p ≠ PipeMode ∧ (n = StdoutTask ∨ n = WaitTask))
  ∧ (∀ n, t_progress (tasks p n) = Running PQueued →
       t_progress (tasks p2 n) = Running PQueued ∨ t_progress (tasks p2 n) = Aborted).
Proof.
  intros Hp Hs Hr. pose proof (reachable_inv _ Hp) as Hi.
  pose proof (reachable_step _ _ _ Hp Hs) as Hp1.
  assert (inv p2) as Hi2.
  { apply reachable_inv. destruct Hp1 as (p0 & ? & ?). exists p0. split; [done|]. by etrans. }
  destruct (rtc_no_handles _ _ Hr) as [Ha2 _]; [by apply (terminate_asks p p1 WaitTask)|].
  assert (∀ n, t_progress (tasks p1 n) = Running PQueued → t_cancelled (tasks p1 n) = true) as Hq.
  { intros n Hn. destruct (terminate_asks p p1 n Hi Hs) as (_ & E & _ & Hc). apply Hc.
    unfold ended. by rewrite <- E, Hn. }
  split_and!.
  - destruct (end_all [WriterTask; StdoutTask; StderrTask; JoinTask; WaitTask] p2)
      as (ls & p3 & ? & ? & He); [done|done|].
    exists ls, p3. split_and!; [done..|]. intros n. specialize (He n).
    rewrite decide_True in He by (destruct n; set_solver). destruct He as [?|Hth]; [by left|right].
    apply (thread_before _ _ _ (Hq n) Hr) in Hth. destruct (terminate_asks p p1 n Hi Hs) as (_ & E1 & E2 & _).
    unfold on_thread in *. by rewrite <- E1, <- E2.
  - intros n [Hk (c & Hc & Hne)]. destruct (terminate_asks p p1 n Hi Hs) as (_ & E1 & E2 & _).
    apply (rtc_task _ n _ _ thread_kept Hr). rewrite E1, E2, Hc. split_and!; congruence.
  - intros n. by apply on_thread_kind.
  - intros n Hn. destruct (terminate_asks p p1 n Hi Hs) as (_ & E1 & _ & _). rewrite <- E1 in Hn.
    eapply (rtc_task _ n _ _ queued_kept Hr). split; [by apply Hq|by left].
Qed.

(** ** Draining *)

(** Steps of one stream's reader and receiver, the reader's start among them. *)
Definition drain_step (s : stream) (l : label) : Prop :=
  l = LSend s ∨ l = LTake s ∨ l = LStart (reader_of s) ∨ ∃ r, l = LRead s r.

Lemma output_set_same s o (p : Proc) : output s (set_output s o p) = o.
Proof. by destruct s. Qed.

Lemma reader_set_same s t o (p : Proc) :
  tasks (set_output s o (set_task (reader_of s) t p)) (reader_of s) = t.
Proof. by destruct s. Qed.

(** [p'] is a state of the same child with everything read so far. *)
Definition drains_to (s : stream) (p p' : Proc) : Prop :=
  (∃ ls, Forall (drain_step s) ls ∧ run ls p = Some p')
  ∧ o_written (output s p') = o_written (output s p)
  ∧ o_open (output s p') = o_open (output s p) ∧ o_rx (output s p') = o_rx (output s p).

Lemma drains_refl s p : drains_to s p p.
Proof. split; [by exists []|done]. Qed.

Lemma drains_trans s p1 p2 p3 : drains_to s p1 p2 → drains_to s p2 p3 → drains_to s p1 p3.
Proof.
  intros [(ls1 & F1 & R1) (? & ? & ?)] [(ls2 & F2 & R2) (? & ? & ?)]. split; [|split_and!; congruence].
  exists (ls1 ++ ls2). split; [by apply Forall_app|]. by rewrite run_app, R1.
Qed.

Lemma drains_inv s p p' : drains_to s p p' → inv p → inv p'.
Proof. intros [(ls & _ & Hr) _] Hp. by eapply run_inv. Qed.

Lemma drain_take s p c q :
  o_rx (output s p) = true → o_queue (output s p) = c :: q →
  ∃ p', drains_to s p p' ∧ o_queue (output s p') = q ∧ tasks p' = tasks p
    ∧ o_unread (output s p') = o_unread (output s p).
Proof.
  intros Hx Hq. eexists. split; [split; [exists [LTake s]; split;
    [apply Forall_singleton; right; by left|cbn; unfold take_chunk; rewrite Hx, Hq; reflexivity]|]|].
  - rewrite !output_set_same. cbn. by rewrite Hx.
  - rewrite output_set_same. by destruct s.
Qed.

Lemma drain_queue s p :
  o_rx (output s p) = true →
  ∃ p', drains_to s p p' ∧ o_queue (output s p') = [] ∧ tasks p' = tasks p
    ∧ o_unread (output s p') = o_unread (output s p).
Proof.
  remember (o_queue (output s p)) as q eqn:Hq. revert p Hq.
  induction q as [|c q IH]; intros p Hq Hx; [exists p; split; [apply drains_refl|done]|].
  destruct (drain_take s p c q Hx) as (p1 & Hd & Hq1 & Ht1 & Hu1); [done|].
  destruct (IH p1) as (p2 & Hd2 & ? & ? & ?); [done|destruct Hd as (_ & _ & _ & ->); done|].
  exists p2. split; [by eapply drains_trans|]. split_and!; congruence.
Qed.

Lemma drain_send s p c :
  t_progress (tasks p (reader_of s)) = Running (PSend c) →
  o_rx (output s p) = true → o_queue (output s p) = [] →
  ∃ p', drains_to s p p' ∧ t_progress (tasks p' (reader_of s)) = Running PRead
    ∧ o_unread (output s p') = o_unread (output s p).
Proof.
  intros Hc Hx Hq. eexists. split; [split; [exists [LSend s]; split;
    [apply Forall_singleton; by left
    |cbn; unfold reader_send; rewrite Hc, Hx, Hq, decide_True by apply sizes_positive; reflexivity]|]|].
  - rewrite !output_set_same. cbn. by rewrite Hx.
  - rewrite output_set_same, reader_set_same. done.
Qed.

Lemma drain_read s p n :
  t_progress (tasks p (reader_of s)) = Running PRead →
  S n ≤ BUF → S n ≤ length (o_unread (output s p)) →
  ∃ p' c, drains_to s p p' ∧ t_progress (tasks p' (reader_of s)) = Running (PSend c)
    ∧ o_unread (output s p') = drop (S n) (o_unread (output s p))
    ∧ o_queue (output s p') = o_queue (output s p).
Proof.
  intros Hc Hb Hn. eexists _, _. split; [split; [exists [LRead s (ReadN (S n))]; split;
    [apply Forall_singleton; right; right; right; by eexists
    |cbn; unfold reader_read; rewrite Hc, decide_True by done; reflexivity]|]|].
  - by rewrite !output_set_same.
  - rewrite output_set_same, reader_set_same. done.
Qed.

Lemma drain_eof s p :
  t_progress (tasks p (reader_of s)) = Running PRead →
  o_unread (output s p) = [] → o_open (output s p) = false →
  ∃ p', drains_to s p p' ∧ t_progress (tasks p' (reader_of s)) = Finished
    ∧ output s p' = output s p.
Proof.
  intros Hc Hu Ho. eexists. split; [split; [exists [LRead s (ReadN 0)]; split;
    [apply Forall_singleton; right; right; right; by eexists
    |cbn; unfold reader_read; rewrite Hc, decide_True by done; reflexivity]|]|].
  - by rewrite !output_set_same.
  - rewrite output_set_same, reader_set_same. done.
Qed.

Lemma drain_start s p :
  t_progress (tasks p (reader_of s)) = Running PQueued → t_cancelled (tasks p (reader_of s)) = false →
  ∃ p', drains_to s p p' ∧ t_progress (tasks p' (reader_of s)) = Running PRead
    ∧ output s p' = output s p.
Proof.
  intros Hc Hx. eexists. split; [split; [exists [LStart (reader_of s)]; split;
    [apply Forall_singleton; right; right; by left|cbn; unfold start; rewrite Hc, Hx; reflexivity]|]|].
  - by destruct s.
  - cbn. rewrite decide_True by done. by destruct s.
Qed.

(** A reader that is not at its read can be brought there. *)
Lemma drain_flush s p c :
  inv p → t_progress (tasks p (reader_of s)) = Running c →
  (c = PQueued → t_cancelled (tasks p (reader_of s)) = false) → o_rx (output s p) = true →
  ∃ p', drains_to s p p' ∧ t_progress (tasks p' (reader_of s)) = Running PRead
    ∧ o_queue (output s p') = [] ∧ o_unread (output s p') = o_unread (output s p).
Proof.
  intros Hp Hc Hst Hx. destruct (drain_queue s p Hx) as (p1 & Hd1 & Hq1 & Ht1 & Hu1).
  assert (o_rx (output s p1) = true) as Hx1 by (destruct Hd1 as (_ & _ & _ & ->); done).
  pose proof (inv_fits _ Hp (reader_of s)) as Hf. rewrite Hc in Hf.
  assert (c = PQueued ∨ c = PRead ∨ ∃ chunk, c = PSend chunk) as [->|[->|[chunk ->]]].
  { destruct c, s; try done; first [by left | by right; left | by right; right; eexists]. }
  { destruct (drain_start s p1) as (p2 & Hd2 & Hc2 & E2); [by rewrite Ht1|rewrite Ht1; by apply Hst|].
    exists p2. rewrite E2. split; [by eapply drains_trans|done]. }
  { exists p1. by rewrite Ht1. }
  destruct (drain_send s p1 chunk) as (p2 & Hd2 & Hc2 & Hu2); [by rewrite Ht1|done..|].
  destruct (drain_queue s p2) as (p3 & Hd3 & Hq3 & Ht3 & Hu3);
    [destruct Hd2 as (_ & _ & _ & ->); done|].
  exists p3. split; [by eapply drains_trans, drains_trans|]. split_and!; congruence.
Qed.

Lemma drain_all s n p :
  inv p → length (o_unread (output s p)) ≤ n →
  t_progress (tasks p (reader_of s)) = Running PRead → o_queue (output s p) = [] →
  o_open (output s p) = false → o_rx (output s p) = true →
  ∃ p', drains_to s p p' ∧ t_progress (tasks p' (reader_of s)) = Finished
    ∧ o_queue (output s p') = [] ∧ o_unread (output s p') = [].
Proof.
  revert p. induction n as [|n IH]; intros p Hp Hn Hc Hq Ho Hx.
  - assert (o_unread (output s p) = []) as Hu by (apply length_zero_iff_nil; lia).
    destruct (drain_eof s p Hc Hu Ho) as (p' & Hd & Hf & E). exists p'. by rewrite E.
  - destruct (o_unread (output s p)) as [|b l] eqn:Hu.
    + destruct (drain_eof s p Hc Hu Ho) as (p' & Hd & Hf & E). exists p'. by rewrite E.
    + destruct (drain_read s p 0 Hc) as (p1 & c & Hd1 & Hc1 & Hu1 & Hq1);
        [apply sizes_positive|rewrite Hu; cbn; lia|].
      pose proof (drains_inv _ _ _ Hd1 Hp) as Hp1.
      destruct (drain_flush s p1 (PSend c) Hp1 Hc1) as (p2 & Hd2 & Hc2 & Hq2 & Hu2);
        [done|destruct Hd1 as (_ & _ & _ & ->); done|].
      pose proof (drains_trans _ _ _ _ Hd1 Hd2) as Hd.
      destruct (IH p2) as (p3 & Hd3 & ?); [by eapply drains_inv|..|].
      * rewrite Hu2, Hu1, Hu. cbn in *. rewrite drop_0. lia.
      * done.
      * done.
      * destruct Hd as (_ & _ & -> & _). done.
      * destruct Hd as (_ & _ & _ & ->). done.
      * exists p3. split; [by eapply drains_trans|done].
Qed.

(** C31: All of a process's output can be had.  While a stream's reader runs and
    its receiver is kept, once the child has closed the stream the reader and
    the receiver alone bring the reader to its end, with every byte the child
    wrote received.  [request_terminate] does not stop the reader, so this
    holds after it too.  (A terminal's reader that is still waiting for its
    thread counts as running, unless it was aborted.) *)
Theorem output_drains s p c :
  reachable p → t_progress (tasks p (reader_of s)) = Running c →
  (c = PQueued → t_cancelled (tasks p (reader_of s)) = false) →
  o_open (output s p) = false → o_rx (output s p) = true →
  ∃ ls p', Forall (drain_step s) ls ∧ run ls p = Some p'
    ∧ t_progress (tasks p' (reader_of s)) = Finished
    ∧ concat (o_received (output s p')) = o_written (output s p).
Proof.
  intros Hr Hc Hst Ho Hx. pose proof (reachable_inv _ Hr) as Hp.
  destruct (drain_flush s p c Hp Hc Hst Hx) as (p1 & Hd1 & Hc1 & Hq1 & Hu1).
  destruct (drain_all s (length (o_unread (output s p1))) p1) as (p2 & Hd2 & Hf & Hq2 & Hu2);
    [by eapply drains_inv|done..| | |].
  { destruct Hd1 as (_ & _ & -> & _). done. }
  { destruct Hd1 as (_ & _ & _ & ->). done. }
  pose proof (drains_trans _ _ _ _ Hd1 Hd2) as Hd.
  pose proof (inv_output _ (drains_inv _ _ _ Hd Hp) s) as [Ha _ Hch _ _].
  destruct Hd as ((ls & Hls & Hrun) & Hw & _ & Hx2). exists ls, p2. split_and!; try done.
  rewrite Hf in Ha. cbn in Ha. rewrite Hu2, app_nil_r in Ha. rewrite <- Hw, <- Ha.
  f_equal. rewrite Hch by congruence. by rewrite Hq2, app_nil_r.
Qed.

(** The waiting task, while it runs, reports a child that has exited. *)
Lemma exit_reported st p :
  t_progress (tasks p WaitTask) = Running PWait → e_child (exit p) = Some st →
  ∃ p', run [LWait false; LPublish; LPublish] p = Some p'
    ∧ has_exited (exit p') = true
    ∧ known_exit_code (exit p') = Some (code_of (LA := LA) (sp_mode p) st)
    ∧ e_sent (exit p') = known_exit_code (exit p').
Proof.
  intros Hc He. cbn. unfold wait_return, wait_publish. rewrite Hc, He. cbn.
  eexists. split; [reflexivity|]. done.
Qed.

(** An aborted waiter never reports: the exit of a process on pipes that was
    terminated in time stays unknown. *)
Lemma aborted_wait_silent p :
  reachable p → t_progress (tasks p WaitTask) = Aborted →
  has_exited (exit p) = false ∧ known_exit_code (exit p) = None ∧ e_sent (exit p) = None.
Proof.
  intros Hr Ha. pose proof (inv_exit _ (reachable_inv _ Hr)) as Hx. by rewrite Ha in Hx.
Qed.
End invariant.

(** * One receiver for two *)

(** [combine_output_receivers]: the chunks that are still to come on each side
    before its senders are gone, whether a side is still selected, and what
    was sent on. *)
Record Combined := mkCombined {
  from_stdout : list bytes;
  from_stderr : list bytes;
  stdout_open : bool;
  stderr_open : bool;
  combined : list bytes;
}.

(** One turn of the loop with the side that [select!] takes. *)
(* @src crates/utils/pty/src/process.rs combine_output_receivers *)
Definition combine_step (side : stream) (c : Combined) : option Combined :=
  let 'mkCombined a b oa ob out := c in
  match side with
  | Stdout =>
      if oa then
        Some (match a with
              | chunk :: a => mkCombined a b oa ob (out ++ [chunk])
              | [] => mkCombined [] b false ob out
              end)
      else None
  | Stderr =>
      if ob then
        Some (match b with
              | chunk :: b => mkCombined a b oa ob (out ++ [chunk])
              | [] => mkCombined a [] oa false out
              end)
      else None
  end.

Fixpoint combine_run (sides : list stream) (c : Combined) : option Combined :=
  match sides with
  | [] => Some c
  | side :: sides' => c' ← combine_step side c; combine_run sides' c'
  end.

(** [else => break] *)
Definition combine_done (c : Combined) : bool := negb (stdout_open c) && negb (stderr_open c).

(** [l] holds the elements of [a] and of [b], each in their order. *)
Inductive interleaving {A} : list A → list A → list A → Prop :=
  | il_nil : interleaving [] [] []
  | il_left a b l x : interleaving a b l → interleaving (a ++ [x]) b (l ++ [x])
  | il_right a b l x : interleaving a b l → interleaving a (b ++ [x]) (l ++ [x]).

(** What a run has taken from each side. *)
Definition combines (a b : list bytes) (n : nat) (c : Combined) : Prop :=
  ∃ a1 b1, a = a1 ++ from_stdout c ∧ b = b1 ++ from_stderr c ∧ interleaving a1 b1 (combined c)
    ∧ (stdout_open c = false → from_stdout c = []) ∧ (stderr_open c = false → from_stderr c = [])
    ∧ n + length (from_stdout c) + length (from_stderr c)
      + (if stdout_open c then 1 else 0) + (if stderr_open c then 1 else 0) = length a + length b + 2.

Lemma combine_step_combines a b n side c c' :
  combines a b n c → combine_step side c = Some c' → combines a b (S n) c'.
Proof.
  destruct c as [x y oa ob out]. intros (a1 & b1 & Ha & Hb & Hi & Hx & Hy & Hn) Hs. cbn in *.
  destruct side; [destruct oa; [|done]; destruct x as [|chunk x]
                 |destruct ob; [|done]; destruct y as [|chunk y]]; simplify_eq/=;
    unfold combines; cbn.
  - exists a1, b1. split_and!; try done. destruct ob; cbn in *; lia.
  - exists (a1 ++ [chunk]), b1. split_and!; try done; [by rewrite <- app_assoc|by constructor|].
    destruct ob; cbn in *; lia.
  - exists a1, b1. split_and!; try done. destruct oa; cbn in *; lia.
  - exists a1, (b1 ++ [chunk]). split_and!; try done; [by rewrite <- app_assoc|by constructor|].
    destruct oa; cbn in *; lia.
Qed.

Lemma combine_run_combines a b n sides c c' :
  combines a b n c → combine_run sides c = Some c' → combines a b (n + length sides) c'.
Proof.
  revert n c. induction sides as [|side l IH]; intros n c Hc Hr; cbn in Hr.
  - simplify_eq. by rewrite Nat.add_0_r.
  - destruct (combine_step side c) as [c1|] eqn:E; [|done]. cbn in *.
    rewrite <- Nat.add_succ_comm. by eapply IH; [eapply combine_step_combines|].
Qed.

(** The combined output is an interleaving of the two: whichever side is
    taken in each turn, each side's chunks are passed on in order, all of them
    once the loop ends; and the loop ends after one turn for each chunk and
    each end of a side, never earlier or later. *)
Theorem combined_output_interleaves a b sides c :
  combine_run sides (mkCombined a b true true []) = Some c →
  (combine_done c = true ↔ length sides = length a + length b + 2)
  ∧ (combine_done c = true → interleaving a b (combined c))
  ∧ (combine_done c = false → ∃ side c', combine_step side c = Some c')
  ∧ ∃ a1 b1, a1 `prefix_of` a ∧ b1 `prefix_of` b ∧ interleaving a1 b1 (combined c).
Proof.
  intros Hr. eapply (combine_run_combines a b 0) in Hr.
  2: { exists [], []. split_and!; try done; [constructor|cbn; lia]. }
  destruct Hr as (a1 & b1 & Ha & Hb & Hi & Hx & Hy & Hn). cbn in Hn.
  destruct c as [x y oa ob out]. cbn in *. split_and!.
  - destruct oa, ob; cbn; split; try done; try lia.
    intros _. rewrite Hx, Hy in Hn by done. cbn in Hn. lia.
  - intros Hd. destruct oa, ob; try done. rewrite Hx, Hy in * by done.
    by rewrite Ha, Hb, !app_nil_r.
  - destruct oa; [intros _; exists Stdout; by eexists|].
    destruct ob; [intros _; exists Stderr; by eexists|done].
  - exists a1, b1. rewrite Ha, Hb. split_and!; [by apply prefix_app_r..|done].
Qed.

(** * A small system

    The programs of [SmallUnix], started with three pipes or on a
    pseudo-terminal of the third-party kind. *)
Module SmallProcess.
Import SmallUnix.

#[export] Instance small_killer : ChildKiller unit Sys := λ _, os_ret tt.

#[export] Instance small_launch : Launch unit unit Sys := {|
  os_getpid _ := 1%Z;
  command_spawn c pre k :=
    (k, Ok (mkChild (Some 20%Z)
              (match child_stdin c with StdioPiped => true | _ => false end)
              (match child_stdout c with StdioPiped => true | _ => false end)
              (match child_stderr c with StdioPiped => true | _ => false end)));
  file_try_clone fd := os_ret 7%Z;
  portable_openpty size k := (k, Ok tt);
  portable_spawn m c k := (k, Ok (Some 20%Z, tt));
  portable_try_clone_reader m k := (k, Ok tt);
  portable_take_writer m k := (k, Ok tt);
  portable_exit_code st := match st with Exited c => c | Signaled _ => 1%Z end;
|}.

(** [cat] on pipes, and on a pseudo-terminal. *)
Definition cat : Spawned unit unit Sys :=
  mkSpawned PipeMode
    (ProcessHandle_new (PipeTerm (mkPipeTerm 20)) JoinTask [StdoutTask; StderrTask] WriterTask
       WaitTask None)
    (pipe_tasks (mkChild (Some 20%Z) true true true)) new_output new_output new_input new_exit [] agent.

Definition tty_cat : Spawned unit unit Sys :=
  mkSpawned PortableMode
    (ProcessHandle_new (PtyTerm (mkPtyTerm tt (Some 20%Z))) StdoutTask [] WriterTask WaitTask
       (Some (Resizable tt)))
    pty_tasks new_output new_output new_input new_exit [] agent.

Lemma cat_spawned : spawned cat.
Proof. by apply (spawned_pipe "cat" [] "/" ∅ None Piped [] agent agent). Qed.

Lemma tty_cat_spawned : spawned tty_cat.
Proof. by apply (spawned_pty "cat" [] "/" ∅ None TerminalSize_default [] agent agent). Qed.

Definition after (ls : list label) (p : Spawned unit unit Sys) : Spawned unit unit Sys :=
  default p (run ls p).

Definition runs (ls : list label) (p : Spawned unit unit Sys) : bool :=
  match run ls p with Some _ => true | None => false end.

Lemma after_reachable ls p : spawned p → reachable (after ls p).
Proof.
  intros Hp. assert (reachable p) as Hr by (by exists p).
  unfold after. destruct (run ls p) eqn:E; [by eapply reachable_run|done].
Qed.

Lemma after_run ls p : runs ls p = true → run ls p = Some (after ls p).
Proof. unfold runs, after. by destruct (run ls p). Qed.

Lemma after_terminate p : step LTerminate p = Some (after [LTerminate] p).
Proof. unfold after. cbn. by destruct (terminate _ _ _) as [[[h ts] k] r]. Qed.

(** A session: a line goes in, the child echoes it and ends. *)
Definition line : bytes := [x68; x69; x0a]%byte.
Definition session : list label :=
  [LGetSender; LInput line; LRecv; LWrite 3; LChildWrites Stdout line; LRead Stdout (ReadErr Interrupted);
   LRead Stdout (ReadN 2); LSend Stdout; LChildCloses Stdout; LChildExits (Exited 0)].

(** On a terminal, once the reader and the waiter have their threads. *)
Definition tty_session : list label := LStart StdoutTask :: LStart WaitTask :: session.

Lemma session_runs : runs session cat = true ∧ runs tty_session tty_cat = true.
Proof. split; vm_compute; reflexivity. Qed.
End SmallProcess.

Section witnesses.
Import SmallUnix SmallProcess.

Lemma spawned_output_in_order_witness :
  let o := output Stdout (after (session ++ [LTake Stdout; LRead Stdout (ReadN 1); LSend Stdout;
                                            LTake Stdout; LRead Stdout (ReadN 0)]) cat) in
  concat (o_received o) = line.
Proof.
  intros o. apply (spawned_output_in_order (after (session ++ [LTake Stdout; LRead Stdout (ReadN 1);
    LSend Stdout; LTake Stdout; LRead Stdout (ReadN 0)]) cat) Stdout).
  - apply after_reachable, cat_spawned.
  - vm_compute. reflexivity.
  - vm_compute. reflexivity.
  - vm_compute. reflexivity.
  - vm_compute. reflexivity.
Defined.

Lemma spawned_input_in_order_witness :
  i_written (stdin (after session cat)) = line
  ∧ ∃ taken parts rest, i_accepted (stdin (after session cat)) = taken ++ rest
    ∧ Forall2 (λ part m, part `prefix_of` m) parts taken
    ∧ i_written (stdin (after session cat)) = concat parts
    ∧ (t_progress (tasks (after session cat) WriterTask) = Finished → rest = []).
Proof.
  split; [vm_compute; reflexivity|].
  apply (spawned_input_in_order (after session cat)). apply after_reachable, cat_spawned.
Defined.

Lemma exit_published_in_order_witness :
  has_exited (exit (after (tty_session ++ [LWait false; LPublish]) tty_cat)) = true.
Proof.
  apply (exit_published_in_order (after (tty_session ++ [LWait false; LPublish]) tty_cat)) with (c := 0%Z).
  - apply after_reachable, tty_cat_spawned.
  - vm_compute. reflexivity.
Defined.

Lemma killed_at_most_once_witness :
  length (kills (after (session ++ [LTerminate; LRequestTerminate; LDropHandle]) cat)) = 1
  ∧ length (kills (after (session ++ [LTerminate; LRequestTerminate; LDropHandle]) cat)) ≤ 1.
Proof.
  split; [vm_compute; reflexivity|].
  apply (killed_at_most_once (after (session ++ [LTerminate; LRequestTerminate; LDropHandle]) cat)).
  apply after_reachable, cat_spawned.
Defined.

Lemma output_drains_witness :
  ∃ ls p', Forall (drain_step Stdout) ls ∧ run ls (after (session ++ [LRequestTerminate]) cat) = Some p'
    ∧ t_progress (tasks p' StdoutTask) = Finished ∧ concat (o_received (output Stdout p')) = line.
Proof.
  apply (output_drains Stdout (after (session ++ [LRequestTerminate]) cat) PRead).
  - apply after_reachable, cat_spawned.
  - vm_compute. reflexivity.
  - done.
  - vm_compute. reflexivity.
  - vm_compute. reflexivity.
Defined.

Lemma terminate_by_mode_witness :
  (∃ ls p3, Forall own_step ls ∧ run ls (after [LTerminate] (after session cat)) = Some p3
     ∧ ∀ n, ended (tasks p3 n) = true ∨ on_thread (tasks (after session cat) n))
  ∧ t_progress (tasks (after [LTerminate] (after tty_session tty_cat)) StdoutTask) ≠ Aborted
  ∧ (t_progress (tasks (after [LTerminate; LCancel WaitTask] tty_cat) WaitTask) = Running PQueued
     ∨ t_progress (tasks (after [LTerminate; LCancel WaitTask] tty_cat) WaitTask) = Aborted).
Proof.
  split; [|split].
  - apply (terminate_by_mode (after session cat) (after [LTerminate] (after session cat))).
    + apply after_reachable, cat_spawned.
    + apply after_terminate.
    + apply rtc_refl.
  - apply (terminate_by_mode (after tty_session tty_cat) (after [LTerminate] (after tty_session tty_cat))
      (after [LTerminate] (after tty_session tty_cat))).
    + apply after_reachable, tty_cat_spawned.
    + apply after_terminate.
    + apply rtc_refl.
    + split; [vm_compute; reflexivity|]. exists PRead. split; [vm_compute; reflexivity|done].
  - apply (terminate_by_mode (after [] tty_cat) (after [LTerminate] tty_cat)).
    + apply after_reachable, tty_cat_spawned.
    + apply after_terminate.
    + apply rtc_once. exists (LCancel WaitTask). vm_compute. reflexivity.
    + vm_compute. reflexivity.
Defined.

Lemma combined_output_interleaves_witness :
  combine_done (mkCombined [] [] false false [line; []; line]) = true
  ∧ interleaving [line; line] [[]] [line; []; line].
Proof.
  split; [reflexivity|].
  apply (combined_output_interleaves [line; line] [[]]
    [Stdout; Stderr; Stderr; Stdout; Stdout] (mkCombined [] [] false false [line; []; line])).
  - vm_compute. reflexivity.
  - reflexivity.
Defined.
End witnesses.
