(* ===== verification/ProcessPty.v ===== *)
(** The agent's process manager on top of its sessions: the process table of
    [Process] ([process/local.rs]) with a spawned process of [PtyProcess]
    ([utils/pty]) behind each entry.

    [start_process] moves the two output receivers of a session into its
    [stream_output] tasks and the exit receiver into [watch_exit]; here a chunk
    a task is woken with is one the session's channel gives, and an exit code
    one it was sent.  [Process] leaves both open.

    A task of the manager goes by its process id.  The table refuses an id it
    lists, and no other: a client may launch again under the id of a process
    whose entry has expired, and the tasks of both then go by one id.  Which of
    the sessions launched under its id a task reads from is left open here (the
    code's task keeps the receivers it was given, so every run of the code is
    one of these).  The theorems say when they are about clients that do not
    launch twice under one id ([ids_distinct]). *)
From S2P Require Import Prelude AgentWire Process.
From S2P Require PtyOs PtyProcess.

(** The receiver a stream's chunks come from: a pseudo-terminal has one. *)
Definition source (stream : ExecOutputStream) : PtyProcess.stream :=
  match stream with
  | Pty | Stdout => PtyProcess.Stdout
  | Stderr => PtyProcess.Stderr
  end.

#[export] Instance pty_stream_eq_decision : EqDecision PtyProcess.stream.
Proof. solve_decision. Defined.

#[export] Instance pty_stream_countable : Countable PtyProcess.stream.
Proof.
  apply (inj_countable' (λ s, match s with PtyProcess.Stdout => true | PtyProcess.Stderr => false end)
           (λ b : bool, if b then PtyProcess.Stdout else PtyProcess.Stderr)).
  by intros [].
Defined.

Section agent.
Context {C M K : Type} {U : PtyOs.Unix K} {CK : PtyOs.ChildKiller C K} {LA : PtyProcess.Launch C M K}.

Abbreviation Proc := (PtyProcess.Spawned C M K).

(** [launched] tells, of every session there has been, the process id it was
    launched under and whether it has a terminal; [receivers] which receivers a
    [stream_output] task still holds. *)
Record Agent := mkAgent {
  table : Sys;
  sessions : gmap SessionId Proc;
  launched : gmap SessionId (ProcessId * bool);
  receivers : gset (SessionId * PtyProcess.stream);
}.

Definition agent_init : Agent := mkAgent sys_init ∅ ∅ ∅.

(** The chunks of one stream among events, and those taken but not sent yet. *)
Definition chunk_of (pid : ProcessId) (stream : ExecOutputStream) (e : ProcessEvent) : option bytes :=
  match e with
  | OutputDelta n =>
      if decide (on_process_id n = pid ∧ on_stream n = stream) then Some (on_chunk n) else None
  | _ => None
  end.

Definition chunks_of (pid : ProcessId) (stream : ExecOutputStream) (l : list ProcessEvent) : list bytes :=
  omap (chunk_of pid stream) l.

Definition held_chunks (pid : ProcessId) (stream : ExecOutputStream) (ts : list task) : list bytes :=
  chunks_of pid stream (t ← ts; match t with TSendOutput _ _ n => [OutputDelta n] | _ => [] end).

Definition terminate_session (sid : SessionId) (m : gmap SessionId Proc) : gmap SessionId Proc :=
  match m !! sid ≫= PtyProcess.step PtyProcess.LTerminate with
  | Some p => <[sid := p]> m
  | None => m
  end.

Definition terminate_sessions (sids : list SessionId) (m : gmap SessionId Proc) : gmap SessionId Proc :=
  foldr terminate_session m sids.

(** The receiver is drained and its sender is gone. *)
Definition at_end (s : PtyProcess.stream) (p : Proc) : Prop :=
  PtyProcess.o_queue (PtyProcess.output s p) = []
  ∧ PtyProcess.ended (PtyProcess.tasks p (PtyProcess.reader_of s)) = true.

(** What [exit_rx] gives: the code sent, or an error once the sender is gone. *)
Definition exit_received (p : Proc) (code : option Z) : Prop :=
  match code with
  | Some c => PtyProcess.e_sent (PtyProcess.exit p) = Some c
  | None => PtyProcess.e_sent (PtyProcess.exit p) = None
            ∧ PtyProcess.ended (PtyProcess.tasks p PtyProcess.WaitTask) = true
  end.

(** Steps of a session that are not its receivers'. *)
Definition session_step (sid : SessionId) (held : gset (SessionId * PtyProcess.stream))
    (l : PtyProcess.label) : Prop :=
  match l with
  | PtyProcess.LTake _ => False
  | PtyProcess.LDropReceiver s => (sid, s) ∉ held
  | _ => True
  end.

(** Tasks that wait for neither a session nor a launch. *)
Definition internal (t : task) : bool :=
  match t with
  | TFinish _ | TSendExited _ _ _ | TClose _ _ | TSendClosed _ _ _ | TSleep _ _ => true
  | _ => false
  end.

(** How many sessions were launched under an id. *)
Definition launches (pid : ProcessId) (m : gmap SessionId (ProcessId * bool)) : nat :=
  size (filter (λ kv, kv.2.1 = pid) m).

(** The client has not launched two processes under one id. *)
Definition ids_distinct (m : gmap SessionId (ProcessId * bool)) : Prop :=
  ∀ sid1 sid2 pid tty1 tty2,
    m !! sid1 = Some (pid, tty1) → m !! sid2 = Some (pid, tty2) → sid1 = sid2.

Inductive agent_step : Agent → Agent → Prop :=
  | agent_call a l y :
      (∃ params, l = LCall params) ∨ l = LInitialize ∨ l = LInitialized →
      sys_step (table a) l = Some y →
      agent_step a (mkAgent y (sessions a) (launched a) (receivers a))
  | agent_launched a n params sid p y :
      Process.tasks (table a) !! n = Some (TLaunch params) →
      sessions a !! sid = None → launched a !! sid = None →
      (∃ k k', PtyProcess.launch_request params k = Some (k', Ok p)) →
      sys_step (table a) (LTask n (ILaunched (Ok sid))) = Some y →
      agent_step a
        (mkAgent y (<[sid := p]> (sessions a))
           (<[sid := (ep_process_id params, ep_tty params)]> (launched a))
           ({[(sid, PtyProcess.Stdout); (sid, PtyProcess.Stderr)]} ∪ receivers a))
  | agent_launch_failed a n params err y :
      Process.tasks (table a) !! n = Some (TLaunch params) →
      sys_step (table a) (LTask n (ILaunched (Err err))) = Some y →
      agent_step a (mkAgent y (sessions a) (launched a) (receivers a))
  | agent_chunk a n pid stream sid tty p chunk q p' y :
      Process.tasks (table a) !! n = Some (TRead pid stream) →
      launched a !! sid = Some (pid, tty) → stream ∈ reader_streams tty →
      (sid, source stream) ∈ receivers a →
      length (held_chunks pid stream (Process.tasks (table a))) < launches pid (launched a) →
      sessions a !! sid = Some p →
      PtyProcess.o_queue (PtyProcess.output (source stream) p) = chunk :: q →
      PtyProcess.step (PtyProcess.LTake (source stream)) p = Some p' →
      sys_step (table a) (LTask n (IChunk chunk)) = Some y →
      agent_step a
        (mkAgent y (<[sid := p']> (sessions a)) (launched a)
           (if decide (is_Some (running (inner (table a)) pid)) then receivers a
            else receivers a ∖ {[(sid, source stream)]}))
  | agent_eof a n pid stream s sid tty p y :
      Process.tasks (table a) !! n = Some (TRead pid stream) →
      launched a !! sid = Some (pid, tty) → s = source stream ∨ tty = true →
      (sid, s) ∈ receivers a → sessions a !! sid = Some p → at_end s p →
      sys_step (table a) (LTask n IEof) = Some y →
      agent_step a (mkAgent y (sessions a) (launched a) (receivers a ∖ {[(sid, s)]}))
  | agent_sent a n pid stream sid tty e ok y :
      Process.tasks (table a) !! n = Some (TSendOutput pid stream e) →
      launched a !! sid = Some (pid, tty) →
      sys_step (table a) (LTask n (ISend ok)) = Some y →
      agent_step a
        (mkAgent y (sessions a) (launched a)
           (if ok : bool then receivers a else receivers a ∖ {[(sid, source stream)]}))
  | agent_exit a n pid sid tty p code y :
      Process.tasks (table a) !! n = Some (TWatch pid) →
      launched a !! sid = Some (pid, tty) → sessions a !! sid = Some p → exit_received p code →
      sys_step (table a) (LTask n (IExit code)) = Some y →
      agent_step a (mkAgent y (sessions a) (launched a) (receivers a))
  | agent_internal a n t i y :
      Process.tasks (table a) !! n = Some t → internal t = true →
      sys_step (table a) (LTask n i) = Some y →
      agent_step a (mkAgent y (sessions a) (launched a) (receivers a))
  | agent_session a sid p l p' :
      sessions a !! sid = Some p → session_step sid (receivers a) l →
      PtyProcess.step l p = Some p' →
      agent_step a (mkAgent (table a) (<[sid := p']> (sessions a)) (launched a) (receivers a))
  | agent_terminate a params r sid :
      terminate_process params (inner (table a)) = Ok (r, Some sid) →
      agent_step a (mkAgent (table a) (terminate_session sid (sessions a)) (launched a) (receivers a))
  | agent_shutdown a y :
      sys_step (table a) LShutdown = Some y →
      agent_step a
        (mkAgent y (terminate_sessions (shutdown (inner (table a))).2 (sessions a)) (launched a)
           (receivers a)).

Definition agent_reachable (a : Agent) : Prop := rtc agent_step agent_init a.

(** * Chunks on their way *)

Lemma chunks_app pid stream l k : chunks_of pid stream (l ++ k) = chunks_of pid stream l ++ chunks_of pid stream k.
Proof. apply omap_app. Qed.

Lemma held_app pid stream ts us :
  held_chunks pid stream (ts ++ us) = held_chunks pid stream ts ++ held_chunks pid stream us.
Proof. unfold held_chunks. by rewrite bind_app, chunks_app. Qed.

Lemma task_step_inv s n i y t :
  sys_step s (LTask n i) = Some y → Process.tasks s !! n = Some t →
  ∃ st ts evs, run_task t i (inner s) = Some (st, ts, evs)
    ∧ y = mkSys st (take n (Process.tasks s) ++ ts ++ drop (S n) (Process.tasks s)) (log s ++ evs) (used s).
Proof.
  cbn. intros H Ht. rewrite Ht in H. cbn in H.
  destruct (run_task t i (inner s)) as [[[st ts] evs]|]; [|done]. injection H as <-. eauto.
Qed.

(** A task that passes on what it held, and no more, keeps the whole. *)
Lemma conserve pid stream (l : list ProcessEvent) ts n t us evs :
  ts !! n = Some t → length (held_chunks pid stream ts) ≤ 1 →
  chunks_of pid stream evs ++ held_chunks pid stream us = held_chunks pid stream [t] →
  chunks_of pid stream (l ++ evs) ++ held_chunks pid stream (take n ts ++ us ++ drop (S n) ts)
  = chunks_of pid stream l ++ held_chunks pid stream ts
  ∧ length (held_chunks pid stream (take n ts ++ us ++ drop (S n) ts)) ≤ 1.
Proof.
  intros Ht Hl Hc.
  assert (held_chunks pid stream ts = held_chunks pid stream (take n ts)
    ++ held_chunks pid stream [t] ++ held_chunks pid stream (drop (S n) ts)) as Hts.
  { rewrite <- !held_app. f_equal. symmetry. by apply take_drop_middle. }
  rewrite Hts in Hl |- *. rewrite chunks_app, !held_app.
  rewrite <- Hc in Hl |- *. rewrite !length_app in *.
  set (a := held_chunks pid stream (take n ts)) in *.
  set (b := held_chunks pid stream (drop (S n) ts)) in *.
  set (x := chunks_of pid stream evs) in *. set (z := held_chunks pid stream us) in *.
  split; [|lia]. destruct a; [by rewrite <- !app_assoc|]. cbn in Hl.
  destruct x, z, b; cbn in Hl; try lia. by rewrite !app_nil_r.
Qed.

(** The stream is one of those the launched process has. *)
Definition carried (a : Agent) (pid : ProcessId) (stream : ExecOutputStream) : Prop :=
  ∃ sid tty, launched a !! sid = Some (pid, tty) ∧ stream ∈ reader_streams tty.

Definition task_fits (a : Agent) (t : task) : Prop :=
  match t with
  | TRead pid stream => carried a pid stream
  | TSendOutput pid stream n =>
      carried a pid stream ∧ on_process_id n = pid ∧ on_stream n = stream
  | _ => True
  end.

Definition passed (a : Agent) (pid : ProcessId) (stream : ExecOutputStream) : list bytes :=
  chunks_of pid stream (log (table a)) ++ held_chunks pid stream (Process.tasks (table a)).

Record agent_inv (a : Agent) : Prop := {
  ai_sessions sid pid tty : launched a !! sid = Some (pid, tty) →
    ∃ p, sessions a !! sid = Some p ∧ PtyProcess.reachable p;
  ai_inj : ids_distinct (launched a);
  ai_tasks : Forall (task_fits a) (Process.tasks (table a));
  ai_receivers sid s : (sid, s) ∈ receivers a → is_Some (launched a !! sid);
  ai_single pid stream : length (held_chunks pid stream (Process.tasks (table a))) ≤ 1;
  ai_none pid stream : ¬ carried a pid stream → passed a pid stream = [];
  ai_passed sid stream pid tty p :
    launched a !! sid = Some (pid, tty) → stream ∈ reader_streams tty → sessions a !! sid = Some p →
    passed a pid stream `prefix_of` PtyProcess.o_received (PtyProcess.output (source stream) p)
    ∧ ((sid, source stream) ∈ receivers a →
       passed a pid stream = PtyProcess.o_received (PtyProcess.output (source stream) p));
}.

Lemma agent_init_inv : agent_inv agent_init.
Proof.
  split; cbn; try done. intros. lia.
Qed.

(** One task at a time is busy with a stream then. *)
Lemma one_launch m pid sid tty :
  ids_distinct m → m !! sid = Some (pid, tty) → launches pid m = 1.
Proof.
  intros Hd Hm. unfold launches.
  replace (filter (λ kv, kv.2.1 = pid) m) with ({[sid := (pid, tty)]} : gmap SessionId (ProcessId * bool)).
  { apply map_size_singleton. }
  apply map_eq. intros sid'. destruct (decide (sid' = sid)) as [->|Hne].
  - rewrite lookup_singleton_eq. symmetry. by apply map_lookup_filter_Some.
  - rewrite lookup_singleton_ne by done. symmetry. apply map_lookup_filter_None. right.
    intros [pid' tty'] Hm' E. cbn in E. subst pid'. by eapply Hne, Hd.
Qed.

(** A step of the table that passes on what was held. *)
Lemma inv_table a y rs :
  agent_inv a → rs ⊆ receivers a →
  Forall (task_fits a) (Process.tasks y) →
  (∀ pid stream,
     chunks_of pid stream (log y) ++ held_chunks pid stream (Process.tasks y) = passed a pid stream
     ∧ length (held_chunks pid stream (Process.tasks y)) ≤ 1) →
  agent_inv (mkAgent y (sessions a) (launched a) rs).
Proof.
  intros [Hs Hi Ht Hr H1 Hn Hp] Hrs Hty Hc. split; try done.
  - intros sid s Hin. apply (Hr sid s). set_solver.
  - intros. apply Hc.
  - intros pid stream Hno. unfold passed. cbn. rewrite (proj1 (Hc pid stream)). by apply Hn.
  - intros sid stream pid tty p Hl Hin Hss. unfold passed. cbn.
    rewrite (proj1 (Hc pid stream)). destruct (Hp sid stream pid tty p Hl Hin Hss) as [Hpre Heq].
    split; [done|]. intros Hr'. apply Heq. set_solver.
Qed.

Lemma inv_task a n t i y rs :
  agent_inv a → Process.tasks (table a) !! n = Some t → rs ⊆ receivers a →
  sys_step (table a) (LTask n i) = Some y →
  (∀ st ts evs, run_task t i (inner (table a)) = Some (st, ts, evs) →
     Forall (task_fits a) ts
     ∧ ∀ pid stream, chunks_of pid stream evs ++ held_chunks pid stream ts = held_chunks pid stream [t]) →
  agent_inv (mkAgent y (sessions a) (launched a) rs).
Proof.
  intros Ha Ht Hrs Hs Hc.
  destruct (task_step_inv _ _ _ _ _ Hs Ht) as (st & ts & evs & Hrun & ->).
  destruct (Hc _ _ _ Hrun) as [Hts Hcons]. pose proof (ai_tasks _ Ha) as Hall.
  apply inv_table; [done|done| |]; cbn.
  - apply Forall_app. split; [by apply Forall_take|]. apply Forall_app.
    split; [done|by apply Forall_drop].
  - intros pid stream. apply (conserve _ _ _ _ _ t); [done|apply (ai_single _ Ha)|apply Hcons].
Qed.

(** ** Sessions *)

(** Only a receiver takes chunks. *)
Lemma received_same l (p p' : Proc) s :
  PtyProcess.step l p = Some p' → (∀ s, l ≠ PtyProcess.LTake s) →
  PtyProcess.o_received (PtyProcess.output s p') = PtyProcess.o_received (PtyProcess.output s p).
Proof.
  intros Hs Hl.
  assert (∀ s0 o (q : Proc), PtyProcess.o_received o = PtyProcess.o_received (PtyProcess.output s0 q) →
    PtyProcess.o_received (PtyProcess.output s (PtyProcess.set_output s0 o q))
    = PtyProcess.o_received (PtyProcess.output s q)) as Hset by (by intros [] o q H; destruct s).
  destruct l; cbn in Hs; unfold PtyProcess.with_output, PtyProcess.drop_handle in Hs; try (by destruct (Hl s0)).
  - destruct (PtyProcess.has_stream _ _); [|done].
    destruct (PtyProcess.child_writes _ _) as [o|] eqn:E; [|done]. injection Hs as <-. apply Hset.
    unfold PtyProcess.child_writes in E. case_match; by simplify_eq.
  - destruct (PtyProcess.has_stream _ _); [|done]. injection Hs as <-. by apply Hset.
  - destruct (PtyProcess.e_child _); [done|]. injection Hs as <-. by destruct s.
  - destruct (PtyProcess.reader_read _ _ _) as [[t o]|] eqn:E; [|done]. injection Hs as <-.
    rewrite Hset; [by destruct s|]. unfold PtyProcess.reader_read in E.
    repeat case_match; simplify_eq; by destruct s0.
  - destruct (PtyProcess.reader_send _ _) as [[t o]|] eqn:E; [|done]. injection Hs as <-.
    rewrite Hset; [by destruct s|]. unfold PtyProcess.reader_send in E.
    repeat case_match; simplify_eq; by destruct s0.
  - injection Hs as <-. by apply Hset.
  - destruct (PtyProcess.accept_input _ _ _); [|done]. injection Hs as <-. by destruct s.
  - injection Hs as <-. by destruct s.
  - injection Hs as <-. by destruct s.
  - destruct (PtyProcess.writer_recv _ _ _) as [[t i]|]; [|done]. injection Hs as <-. by destruct s.
  - destruct (PtyProcess.writer_write _ _ _) as [[t i]|]; [|done]. injection Hs as <-. by destruct s.
  - repeat case_match; simplify_eq; by destruct s.
  - destruct (PtyProcess.wait_return _ _ _ _) as [[t e]|]; [|done]. injection Hs as <-. by destruct s.
  - destruct (PtyProcess.wait_publish _ _) as [[t e]|]; [|done]. injection Hs as <-. by destruct s.
  - destruct (PtyProcess.join_step _ _); [|done]. injection Hs as <-. by destruct s.
  - destruct (PtyProcess.cancel _); [|done]. injection Hs as <-. by destruct s.
  - destruct (PtyProcess.start _ _); [|done]. injection Hs as <-. by destruct s.
  - injection Hs as <-. by destruct s.
  - destruct (PtyProcess.request_terminate _ _) as [[h k] r]. injection Hs as <-. by destruct s.
  - destruct (PtyProcess.terminate _ _ _) as [[[h ts] k] r]. injection Hs as <-. by destruct s.
  - destruct (PtyProcess.terminate _ _ _) as [[[h ts] k] r]. injection Hs as <-. by destruct s.
Qed.

(** A session that moves without its receivers taking anything. *)
Lemma inv_session a sid p p' l :
  agent_inv a → sessions a !! sid = Some p → PtyProcess.step l p = Some p' →
  (∀ s, l ≠ PtyProcess.LTake s) →
  agent_inv (mkAgent (table a) (<[sid := p']> (sessions a)) (launched a) (receivers a)).
Proof.
  intros [Hs Hi Ht Hr H1 Hn Hp] Hsid Hstep Hl. split; try done; cbn.
  - intros sid' pid tty Hla. destruct (Hs _ _ _ Hla) as (q & Hq & Hreach).
    destruct (decide (sid = sid')) as [->|Hne].
    + exists p'. rewrite lookup_insert_eq. split; [done|]. simplify_eq.
      by eapply PtyProcess.reachable_step.
    + exists q. by rewrite lookup_insert_ne.
  - intros sid' stream pid tty q Hla Hin Hq. destruct (decide (sid = sid')) as [->|Hne].
    + rewrite lookup_insert_eq in Hq. injection Hq as <-.
      rewrite (received_same _ _ _ _ Hstep Hl). by eapply Hp.
    + rewrite lookup_insert_ne in Hq by done. by eapply Hp.
Qed.

Lemma inv_terminate_session a sid :
  agent_inv a →
  agent_inv (mkAgent (table a) (terminate_session sid (sessions a)) (launched a) (receivers a)).
Proof.
  intros Ha. unfold terminate_session.
  destruct (sessions a !! sid) as [p|] eqn:Hp; cbn [option_bind mbind]; [|by destruct a].
  destruct (PtyProcess.step PtyProcess.LTerminate p) as [p'|] eqn:E; cbn; rewrite ?E; [|by destruct a].
  by eapply inv_session.
Qed.

Lemma inv_terminate_sessions a sids :
  agent_inv a →
  agent_inv (mkAgent (table a) (terminate_sessions sids (sessions a)) (launched a) (receivers a)).
Proof.
  intros Ha. induction sids as [|sid sids IH]; cbn; [by destruct a|].
  apply (inv_terminate_session _ sid IH).
Qed.

(** ** The steps that move chunks *)

Lemma same_source tty st1 st2 :
  st1 ∈ reader_streams tty → st2 ∈ reader_streams tty → source st1 = source st2 → st1 = st2.
Proof. destruct tty, st1, st2; set_solver. Qed.

Lemma chunk_of_eq pid stream n :
  on_process_id n = pid → on_stream n = stream → chunk_of pid stream (OutputDelta n) = Some (on_chunk n).
Proof. intros. cbn. by rewrite decide_True. Qed.

Lemma chunk_of_ne pid stream n :
  ¬ (on_process_id n = pid ∧ on_stream n = stream) → chunk_of pid stream (OutputDelta n) = None.
Proof. intros. cbn. by rewrite decide_False. Qed.

Lemma held_send pid stream q st n :
  on_process_id n = q → on_stream n = st →
  held_chunks pid stream [TSendOutput q st n] = if decide (q = pid ∧ st = stream) then [on_chunk n] else [].
Proof. intros <- <-. unfold held_chunks. cbn. by case_decide. Qed.

Lemma launch_received params k k' p :
  PtyProcess.launch_request params k = Some (k', Ok p) →
  PtyProcess.reachable p ∧ ∀ s, PtyProcess.o_received (PtyProcess.output s p) = [].
Proof.
  unfold PtyProcess.launch_request. destruct (ep_argv params) as [|program args]; [done|].
  intros [= H]. assert (PtyProcess.spawned p) as Hp.
  { destruct (ep_tty params); by econstructor. }
  assert (PtyProcess.reachable p) as Hr by (exists p; split; [done|apply rtc_refl]).
  split; [done|]. intros s.
  destruct (ep_tty params).
  - unfold PtyProcess.spawn_pty_process, PtyProcess.spawn_process_with_inherited_fds,
      PtyProcess.spawn_process_portable, PtyProcess.message, PtyOs.and_then in H.
    repeat case_match; simplify_eq/=; by destruct s.
  - unfold PtyProcess.spawn_pipe_process_no_stdin, PtyProcess.spawn_pipe_process_no_stdin_with_inherited_fds,
      PtyProcess.spawn_process_with_stdin_mode in H.
    repeat case_match; simplify_eq/=; by destruct s.
Qed.

Lemma step_launched a n params sid p y :
  let a' := mkAgent y (<[sid := p]> (sessions a))
              (<[sid := (ep_process_id params, ep_tty params)]> (launched a))
              ({[(sid, PtyProcess.Stdout); (sid, PtyProcess.Stderr)]} ∪ receivers a) in
  agent_inv a → ids_distinct (launched a') → Process.tasks (table a) !! n = Some (TLaunch params) →
  sessions a !! sid = None → launched a !! sid = None →
  (∃ k k', PtyProcess.launch_request params k = Some (k', Ok p)) →
  sys_step (table a) (LTask n (ILaunched (Ok sid))) = Some y →
  agent_inv a'.
Proof.
  intros a' [Hs Hi Ht Hr H1 Hn Hp] Hdist Htask Hfresh Hnone (k & k' & Hlaunch) Hstep.
  destruct (task_step_inv _ _ _ _ _ Hstep Htask) as (st & ts & evs & Hrun & ->).
  cbn in Hrun. injection Hrun as <- <- <-. set (pid := ep_process_id params) in *.
  destruct (launch_received _ _ _ _ Hlaunch) as [Hreach Hnew].
  assert (∀ q stream, passed a' q stream = passed a q stream
    ∧ length (held_chunks q stream (Process.tasks (table a'))) ≤ 1) as Hcons.
  { intros q stream. apply (conserve _ _ _ _ _ (TLaunch params)); [done|done|].
    by destruct (ep_tty params). }
  assert (∀ sid1 x, launched a !! sid1 = Some x → launched a' !! sid1 = Some x) as Hgrow.
  { intros sid1 x Hx. cbn. rewrite lookup_insert_ne; [done|]. intros ->. congruence. }
  assert (∀ q stream, carried a q stream → carried a' q stream) as Hmono.
  { intros q stream (sid' & tty & Hla & Hin). exists sid', tty. split; [by apply Hgrow|done]. }
  assert (∀ sid1 tty, launched a !! sid1 ≠ Some (pid, tty)) as Hdiff.
  { intros sid1 tty Hla. assert (sid1 = sid) as ->; [|congruence].
    eapply Hdist; [by apply Hgrow|apply lookup_insert_eq]. }
  split; [|exact Hdist| | | | |].
  - cbn. intros sid' q tty [[<- [= <- <-]]|[Hq Hla]]%lookup_insert_Some.
    + exists p. by rewrite lookup_insert_eq.
    + destruct (Hs _ _ _ Hla) as (x & Hx & ?). exists x. by rewrite lookup_insert_ne.
  - assert (Forall (task_fits a') (Process.tasks (table a))) as Hold.
    { eapply Forall_impl; [exact Ht|]. intros [] Hf; cbn in *; try done; [by apply Hmono|].
      destruct Hf as (? & ? & ?). split_and!; [by apply Hmono|done|done]. }
    cbn. rewrite !Forall_app. split_and!; [by apply Forall_take| | |by apply Forall_drop].
    + apply Forall_fmap, Forall_forall. intros stream Hin. exists sid, (ep_tty params).
      split; [apply lookup_insert_eq|done].
    + by repeat constructor.
  - cbn. intros q s Hin. destruct (decide (q = sid)) as [->|]; [rewrite lookup_insert_eq; by eexists|].
    rewrite lookup_insert_ne by done. apply (Hr q s). set_solver.
  - intros q stream. apply Hcons.
  - intros q stream Hno. rewrite (proj1 (Hcons q stream)). apply Hn. intros Hc. by apply Hno, Hmono.
  - intros sid' stream q tty x Hla Hin Hx. rewrite (proj1 (Hcons q stream)).
    cbn in Hla, Hx |- *. apply lookup_insert_Some in Hla as [[<- [= <- <-]]|[Hq Hla]].
    + rewrite lookup_insert_eq in Hx. injection Hx as <-. rewrite Hnew, Hn; [done|].
      intros (s' & t' & Hla & _). by eapply Hdiff.
    + rewrite lookup_insert_ne in Hx by done.
      destruct (Hp _ _ _ _ _ Hla Hin Hx) as [Hpre Heq]. split; [done|]. intros Hr'. apply Heq.
      set_solver.
Qed.

#[local] Arguments held_chunks : simpl never.
#[local] Arguments chunks_of : simpl never.

(** A task replaced by one that holds a chunk, or by one that drops it. *)
Lemma held_replace pid stream ts n (t t' : task) :
  ts !! n = Some t →
  held_chunks pid stream (take n ts ++ [t'] ++ drop (S n) ts)
  = held_chunks pid stream (take n ts) ++ held_chunks pid stream [t'] ++ held_chunks pid stream (drop (S n) ts)
  ∧ held_chunks pid stream ts
  = held_chunks pid stream (take n ts) ++ held_chunks pid stream [t] ++ held_chunks pid stream (drop (S n) ts).
Proof.
  intros Ht. rewrite <- !held_app. split; [done|]. f_equal. symmetry. by apply take_drop_middle.
Qed.

Lemma take_received s (p p' : Proc) chunk q :
  PtyProcess.o_queue (PtyProcess.output s p) = chunk :: q →
  PtyProcess.step (PtyProcess.LTake s) p = Some p' →
  ∀ s', PtyProcess.o_received (PtyProcess.output s' p')
        = PtyProcess.o_received (PtyProcess.output s' p) ++ (if decide (s' = s) then [chunk] else []).
Proof.
  intros Hq Hs s'. cbn in Hs. unfold PtyProcess.take_chunk in Hs. rewrite Hq in Hs.
  destruct (PtyProcess.o_rx _); [|done]. injection Hs as <-.
  destruct s, s'; cbn; by rewrite ?app_nil_r.
Qed.

(** The flow of every pair after a session's receiver took a chunk of
    [stream]: [gained] is what the table passed on of it. *)
Lemma inv_taken a pid stream sid tty p p' chunk q y rs gained :
  agent_inv a → (sid, source stream) ∈ receivers a →
  launched a !! sid = Some (pid, tty) → stream ∈ reader_streams tty → sessions a !! sid = Some p →
  PtyProcess.o_queue (PtyProcess.output (source stream) p) = chunk :: q →
  PtyProcess.step (PtyProcess.LTake (source stream)) p = Some p' →
  rs ⊆ receivers a → (gained = [chunk] ∨ gained = [] ∧ (sid, source stream) ∉ rs) →
  Forall (task_fits a) (Process.tasks y) →
  (∀ pid2 st2,
     chunks_of pid2 st2 (log y) ++ held_chunks pid2 st2 (Process.tasks y)
     = passed a pid2 st2 ++ (if decide (pid2 = pid ∧ st2 = stream) then gained else [])
     ∧ length (held_chunks pid2 st2 (Process.tasks y)) ≤ 1) →
  agent_inv (mkAgent y (<[sid := p']> (sessions a)) (launched a) rs).
Proof.
  intros [Hs Hi Ht Hr H1 Hn Hp] Hheld Hla Hin Hsid Hq Hstep Hrs Hg Hty Hc. split; try done.
  - cbn. intros sid2 pid2 tty2 Hla2. destruct (decide (sid2 = sid)) as [->|Hne].
    + exists p'. rewrite lookup_insert_eq. split; [done|].
      destruct (Hs _ _ _ Hla) as (x & Hx & ?). simplify_eq. by eapply PtyProcess.reachable_step.
    + rewrite lookup_insert_ne by done. by eapply Hs.
  - cbn. intros q2 s2 Hin2. apply (Hr q2 s2). set_solver.
  - intros. apply Hc.
  - intros pid2 st2 Hno. unfold passed. cbn. rewrite (proj1 (Hc pid2 st2)), Hn by done.
    rewrite decide_False; [done|]. intros [-> ->]. apply Hno. by exists sid, tty.
  - intros sid2 st2 pid2 tty2 x Hla2 Hin2 Hx. unfold passed. cbn in Hla2, Hx |- *.
    rewrite (proj1 (Hc pid2 st2)). destruct (decide (sid2 = sid)) as [->|Hne].
    + rewrite lookup_insert_eq in Hx. injection Hx as <-.
      rewrite Hla in Hla2. injection Hla2 as <- <-.
      rewrite (take_received _ _ _ _ _ Hq Hstep).
      destruct (Hp _ _ _ _ _ Hla Hin2 Hsid) as [Hpre Heq].
      destruct (decide (st2 = stream)) as [->|Hst].
      * rewrite !decide_True by done. specialize (Heq Hheld). rewrite Heq.
        destruct Hg as [->|[-> Hout]]; [done|]. rewrite app_nil_r.
        split; [by apply prefix_app_r|]. intros Hk. done.
      * rewrite decide_False by naive_solver. rewrite app_nil_r, decide_False, app_nil_r.
        { split; [done|]. intros Hk. apply Heq. set_solver. }
        intros E. apply Hst. by eapply same_source.
    + rewrite lookup_insert_ne in Hx by done. rewrite decide_False, app_nil_r.
      { destruct (Hp _ _ _ _ _ Hla2 Hin2 Hx) as [Hpre Heq]. split; [done|].
        intros Hk. apply Heq. set_solver. }
      intros [-> _]. by eapply Hne, Hi.
Qed.

Lemma step_chunk a n pid stream sid tty p chunk q p' y :
  agent_inv a → Process.tasks (table a) !! n = Some (TRead pid stream) →
  launched a !! sid = Some (pid, tty) → stream ∈ reader_streams tty →
  (sid, source stream) ∈ receivers a →
  length (held_chunks pid stream (Process.tasks (table a))) < launches pid (launched a) →
  sessions a !! sid = Some p →
  PtyProcess.o_queue (PtyProcess.output (source stream) p) = chunk :: q →
  PtyProcess.step (PtyProcess.LTake (source stream)) p = Some p' →
  sys_step (table a) (LTask n (IChunk chunk)) = Some y →
  agent_inv
    (mkAgent y (<[sid := p']> (sessions a)) (launched a)
       (if decide (is_Some (running (inner (table a)) pid)) then receivers a
        else receivers a ∖ {[(sid, source stream)]})).
Proof.
  intros Ha Htask Hla Hin Hrec Hfew Hsid Hq Hstep Hs.
  pose proof (ai_tasks _ Ha) as Hall.
  assert (carried a pid stream) as Hcar by (by exists sid, tty).
  assert (held_chunks pid stream (Process.tasks (table a)) = []) as Hheld.
  { rewrite (one_launch _ _ _ _ (ai_inj _ Ha) Hla) in Hfew.
    destruct (held_chunks _ _ _); [done|]. cbn in Hfew. lia. }
  destruct (task_step_inv _ _ _ _ _ Hs Htask) as (st & ts & evs & Hrun & ->). cbn in Hrun.
  assert (∃ t' gained, ts = [t'] ∧ evs = [] ∧ task_fits a t'
    ∧ (∀ pid2 st2, held_chunks pid2 st2 [t'] = if decide (pid2 = pid ∧ st2 = stream) then gained else [])
    ∧ ((gained = [chunk] ∧ is_Some (running (inner (table a)) pid))
       ∨ gained = [] ∧ running (inner (table a)) pid = None)) as (t' & gained & -> & -> & Hfit & Ht' & Hg).
  { unfold push_output in Hrun. unfold running.
    destruct (processes (inner (table a)) !! pid) as [[|r]|] eqn:Er.
    - injection Hrun as <- <- <-. exists (TFinish pid), []. split_and!; try done; [|by right].
      intros. by case_decide.
    - destruct (evict _ _) as [output retained]. injection Hrun as <- <- <-.
      eexists _, [chunk]. split_and!; [done|done| | |by left; split; [|eexists]].
      + cbn. done.
      + intros pid2 st2. rewrite (held_send _ _ pid stream) by done. cbn.
        repeat case_decide; naive_solver.
    - injection Hrun as <- <- <-. exists (TFinish pid), []. split_and!; try done; [|by right].
      intros. by case_decide. }
  eapply (inv_taken a pid stream sid tty p p' chunk q _ _ gained); try done.
  - case_decide; set_solver.
  - destruct Hg as [[-> _]|[-> Hno]]; [by left|right]. split; [done|]. rewrite Hno.
    rewrite decide_False by (by intros [? ?]). set_solver.
  - cbn. rewrite Forall_app, Forall_cons. split_and!; [by apply Forall_take|done|by apply Forall_drop].
  - intros pid2 st2. cbn. rewrite app_nil_r. unfold passed.
    destruct (held_replace pid2 st2 _ n _ t' Htask) as [Hnew Hold].
    pose proof (ai_single _ Ha pid2 st2) as Hl.
    change (take n (Process.tasks (table a)) ++ t' :: drop (S n) (Process.tasks (table a)))
      with (take n (Process.tasks (table a)) ++ [t'] ++ drop (S n) (Process.tasks (table a))).
    rewrite Hnew, Ht'. destruct (decide (pid2 = pid ∧ st2 = stream)) as [[-> ->]|Hne].
    + rewrite Hold in Hheld. apply app_eq_nil in Hheld as [E1 Hheld].
      apply app_eq_nil in Hheld as [_ E2]. rewrite Hold, E1, E2. cbn. rewrite !app_nil_r.
      split; [done|]. destruct Hg as [[-> _]|[-> _]]; cbn; lia.
    + rewrite Hold in Hl |- *. cbn in Hl |- *. by rewrite app_nil_r.
Qed.

(** A chunk that was taken and could not be sent: its reader stops. *)
Lemma step_unsent a n pid stream sid tty e y :
  agent_inv a → Process.tasks (table a) !! n = Some (TSendOutput pid stream e) →
  launched a !! sid = Some (pid, tty) →
  sys_step (table a) (LTask n (ISend false)) = Some y →
  agent_inv (mkAgent y (sessions a) (launched a) (receivers a ∖ {[(sid, source stream)]})).
Proof.
  intros Ha Htask Hsender Hs. pose proof (ai_tasks _ Ha) as Hall.
  assert (carried a pid stream ∧ on_process_id e = pid ∧ on_stream e = stream) as (Hcar & Hpid & Hst).
  { rewrite Forall_lookup in Hall. apply (Hall _ _ Htask). }
  destruct (task_step_inv _ _ _ _ _ Hs Htask) as (st & ts & evs & Hrun & ->).
  cbn in Hrun. injection Hrun as <- <- <-.
  assert (∀ pid2 st2,
    let new := chunks_of pid2 st2 (log (table a)) ++ held_chunks pid2 st2
        (take n (Process.tasks (table a)) ++ [TFinish pid] ++ drop (S n) (Process.tasks (table a))) in
    (if decide (pid2 = pid ∧ st2 = stream) then new `prefix_of` passed a pid2 st2
     else new = passed a pid2 st2)
    ∧ length (held_chunks pid2 st2
        (take n (Process.tasks (table a)) ++ [TFinish pid] ++ drop (S n) (Process.tasks (table a)))) ≤ 1)
    as Hc.
  { intros pid2 st2. destruct (held_replace pid2 st2 _ n _ (TFinish pid) Htask) as [Hnew Hold].
    pose proof (ai_single _ Ha pid2 st2) as Hl. unfold passed. cbv zeta.
    rewrite Hnew, Hold in *. rewrite (held_send _ _ pid stream) in * by done.
    change (held_chunks pid2 st2 [TFinish pid]) with (@nil bytes).
    rewrite !length_app in *. case_decide as Hd.
    - rewrite decide_True in * by (by destruct Hd). cbn in Hl. split; [|cbn; lia].
      apply prefix_app, prefix_app. rewrite app_nil_l.
      destruct (held_chunks pid2 st2 (drop _ _)); [apply prefix_nil|cbn in Hl; lia].
    - rewrite decide_False in * by (intros [-> ->]; by apply Hd). split; [done|cbn in *; lia]. }
  destruct Ha as [Hss Hi Ht Hr H1 Hn Hp]. split; try done; cbn.
  - rewrite Forall_app, Forall_cons. split_and!; [by apply Forall_take|done|by apply Forall_drop].
  - intros q s Hin. apply (Hr q s). set_solver.
  - intros pid2 st2. apply Hc.
  - intros pid2 st2 Hno. unfold passed. cbn. rewrite app_nil_r.
    destruct (Hc pid2 st2) as [Hpass _]. rewrite decide_False in Hpass.
    { etrans; [exact Hpass|]. by apply Hn. }
    intros [-> ->]. by apply Hno.
  - intros sid2 st2 pid2 tty2 p Hla Hin Hsid. unfold passed. cbn. rewrite app_nil_r.
    destruct (Hc pid2 st2) as [Hpass _]. destruct (Hp _ _ _ _ _ Hla Hin Hsid) as [Hpre Heq].
    case_decide as Hd; cbn in Hpass.
    + destruct Hd as [-> ->]. assert (sid2 = sid) as -> by (by eapply Hi).
      split; [by etrans|]. set_solver.
    + split; [by etrans; [exists []; rewrite app_nil_r; symmetry; exact Hpass|]|].
      intros Hk. etrans; [exact Hpass|]. apply Heq. set_solver.
Qed.

Lemma internal_passes t i st st' ts evs pid stream :
  internal t = true → run_task t i st = Some (st', ts, evs) →
  Forall (λ t, internal t = true) ts ∧ chunks_of pid stream evs = [].
Proof.
  intros Ht Hr. assert (∀ q k, Forall (λ t, internal t = true) (continue q k)) as Hcont
    by (intros q []; by repeat constructor).
  destruct t; try done; destruct i; cbn in Hr; try done.
  - destruct (finish_output_stream _ _); injection Hr as <- <- <-; by repeat constructor.
  - destruct accepted; injection Hr as <- <- <-; by repeat constructor.
  - destruct (maybe_emit_closed _ _) as [st0 [x|]]; injection Hr as <- <- <-; by repeat constructor.
  - injection Hr as <- <- <-. done.
  - injection Hr as <- <- <-. by repeat constructor.
Qed.

Lemma internal_held pid stream ts :
  Forall (λ t, internal t = true) ts → held_chunks pid stream ts = [].
Proof. induction 1 as [|t ts Ht _ IH]; [done|]. unfold held_chunks in *. by destruct t. Qed.

(** Nothing is forgotten of what was launched. *)
Lemma launched_grows a a' : agent_step a a' → launched a ⊆ launched a'.
Proof. intros []; cbn; try done. by apply insert_subseteq. Qed.

Lemma distinct_before m m' : m ⊆ m' → ids_distinct m' → ids_distinct m.
Proof. intros Hm Hd sid1 sid2 pid tty1 tty2 H1 H2. eapply Hd; by eapply lookup_weaken. Qed.

Lemma inv_agent_step a a' :
  agent_inv a → agent_step a a' → ids_distinct (launched a') → agent_inv a'.
Proof.
  intros Ha Hs. destruct Hs as [a l y Hl Hy|a n params sid p y|a n params err y Ht Hy
    |a n pid stream sid tty p chunk q p' y|a n pid stream s sid tty p y Ht Hla Hsr Hr Hsid Hend Hy
    |a n pid stream sid tty e [] y Ht Hla Hy|a n pid sid tty p code y Ht Hla Hsid Hx Hy|a n t i y Ht Hin Hy
    |a sid p l p' Hsid Hl Hst|a params r sid Hr|a y Hy]; intros Hdist.
  - assert (log y = log (table a) ∧ ∃ ts, Process.tasks y = Process.tasks (table a) ++ ts
      ∧ Forall (λ t, ∃ params, t = TLaunch params) ts) as (El & ts & Et & Hts).
    { destruct Hl as [[params ->]|[->| ->]]; cbn in Hy.
      - destruct (start_reserve params (inner (table a))) as [st|]; injection Hy as <-;
          (split; [done|]); [exists [TLaunch params]; split; [done|]; repeat constructor; by eexists|].
        exists []. by rewrite app_nil_r.
      - injection Hy as <-. split; [done|]. exists []. by rewrite app_nil_r.
      - injection Hy as <-. split; [done|]. exists []. by rewrite app_nil_r. }
    assert (∀ pid stream, held_chunks pid stream ts = []) as Hh.
    { intros pid stream. clear Et. induction Hts as [|t ts' [params ->] _ IH]; [done|]. exact IH. }
    apply inv_table; try done.
    + rewrite Et. apply Forall_app. split; [apply (ai_tasks _ Ha)|].
      eapply Forall_impl; [exact Hts|]. by intros t [params ->].
    + intros pid stream. rewrite El, Et, held_app, Hh, app_nil_r. split; [done|].
      apply (ai_single _ Ha).
  - by eapply step_launched.
  - eapply inv_task; try done. intros st ts evs Hrun. cbn in Hrun. by injection Hrun as <- <- <-.
  - by eapply step_chunk.
  - eapply inv_task; try done; [set_solver|]. intros st ts evs Hrun. cbn in Hrun.
    injection Hrun as <- <- <-. split; [by repeat constructor|done].
  - eapply inv_task; try done. intros st ts evs Hrun. cbn in Hrun. injection Hrun as <- <- <-.
    pose proof (ai_tasks _ Ha) as Hall. rewrite Forall_lookup in Hall.
    destruct (Hall _ _ Ht) as (? & ? & ?). split; [by repeat constructor|].
    intros pid2 st2. exact (app_nil_r (chunks_of pid2 st2 [OutputDelta e])).
  - by eapply step_unsent.
  - eapply inv_task; try done. intros st ts evs Hrun. cbn in Hrun.
    destruct (record_exit pid code (inner (table a))) as [st0 [x|]]; injection Hrun as <- <- <-;
      (split; [by repeat constructor|done]).
  - eapply inv_task; try done. intros st ts evs Hrun. split.
    + destruct (internal_passes _ _ _ _ _ _ "" Pty Hin Hrun) as [Hts _].
      eapply Forall_impl; [exact Hts|]. by intros [].
    + intros pid stream. destruct (internal_passes _ _ _ _ _ _ pid stream Hin Hrun) as [Hts ->].
      rewrite (internal_held _ _ _ Hts), (internal_held _ _ [t]); [done|by repeat constructor].
  - eapply inv_session; try done. intros s ->. done.
  - by apply inv_terminate_session.
  - cbn in Hy. injection Hy as <-. apply (inv_terminate_sessions (mkAgent _ _ _ _)).
    apply inv_table; try done; [apply (ai_tasks _ Ha)|]. intros pid stream. split; [done|].
    apply (ai_single _ Ha).
Qed.

(** A property of runs without an id launched twice. *)
Lemma distinct_invariant (P : Agent → Prop) :
  P agent_init → (∀ a a', agent_inv a → P a → agent_step a a' → ids_distinct (launched a') → P a') →
  ∀ a, agent_reachable a → ids_distinct (launched a) → agent_inv a ∧ P a.
Proof.
  intros Hinit Hstep a Hr.
  eapply (rtc_invariant agent_step (λ a, ids_distinct (launched a) → agent_inv a ∧ P a));
    [|by split; [apply agent_init_inv|]|exact Hr].
  intros b b' Hb Hs Hd. destruct Hb as [Hi Hp]; [by eapply distinct_before; [apply launched_grows|]|].
  split; [by eapply inv_agent_step|by eapply Hstep].
Qed.

Lemma agent_reachable_inv a : agent_reachable a → ids_distinct (launched a) → agent_inv a.
Proof. intros Hr Hd. by apply (distinct_invariant (λ _, True)). Qed.

(** C5: What clients are told of a process's output is what the process wrote:
    however the manager's tasks, the session's tasks, the child and the client
    interleave, when no id has been launched twice, the output events of a
    process on one stream, put together, are the beginning of what its child
    wrote on that stream; and they are all of it once the session's reader has
    come to the end and the manager's task, still holding the receiver, has
    nothing left to take or to send.  (After a second launch under the id the
    first process's reader may push its output into the second's entry.) *)
Theorem output_events_are_child_output a pid stream sid tty p :
  agent_reachable a → ids_distinct (launched a) →
  launched a !! sid = Some (pid, tty) → stream ∈ reader_streams tty → sessions a !! sid = Some p →
  let o := PtyProcess.output (source stream) p in
  let events := chunks_of pid stream (log (table a)) in
  concat events `prefix_of` PtyProcess.o_written o
  ∧ ((sid, source stream) ∈ receivers a → held_chunks pid stream (Process.tasks (table a)) = [] →
     PtyProcess.t_progress (PtyProcess.tasks p (PtyProcess.reader_of (source stream))) = PtyProcess.Finished →
     PtyProcess.o_unread o = [] → PtyProcess.o_rx o = true → PtyProcess.o_queue o = [] →
     concat events = PtyProcess.o_written o).
Proof.
  intros Hr Hd Hla Hin Hsid o events. pose proof (agent_reachable_inv _ Hr Hd) as Ha.
  destruct (ai_passed _ Ha _ _ _ _ _ Hla Hin Hsid) as [[l Hl] Heq].
  destruct (ai_sessions _ Ha _ _ _ Hla) as (p' & Hp' & Hreach).
  assert (p' = p) as -> by congruence.
  destruct (PtyProcess.inv_output _ (PtyProcess.reachable_inv _ Hreach) (source stream))
    as [Hacc [l2 H2] Hch _ _]. split.
  - etrans; [|exact (PtyProcess.accounted_prefix _ _ Hacc)]. rewrite H2, Hl. unfold passed.
    rewrite <- !app_assoc, !concat_app. by apply prefix_app_r.
  - intros Hk Hh Hf Hu Hx Hq. specialize (Heq Hk). specialize (Hch Hx).
    unfold passed in Heq. rewrite Hh, app_nil_r in Heq. subst o events. rewrite Heq.
    rewrite Hq, app_nil_r in Hch. rewrite <- Hch. rewrite Hf in Hacc. cbn in Hacc.
    by rewrite Hu, app_nil_r in Hacc.
Qed.

(** * No process is lost sight of *)

(** What the table says of a running process. *)
Definition slot (st : Inner) (pid : ProcessId) : option (SessionId * option Z) :=
  (λ r, (p_session r, p_exit_code r)) <$> running st pid.

(** The process has been killed, or waiting for it has ended. *)
Definition gone (p : Proc) : Prop :=
  PtyProcess.kills p ≠ [] ∨ PtyProcess.ended (PtyProcess.tasks p PtyProcess.WaitTask) = true.

Lemma gone_step l (p p' : Proc) : PtyProcess.step l p = Some p' → gone p → gone p'.
Proof.
  intros Hs. destruct (PtyProcess.step_ended _ _ _ PtyProcess.WaitTask Hs) as [He [ks Hk]].
  intros [H|H]; [left|right; by apply He]. rewrite Hk. by destruct (PtyProcess.kills p).
Qed.

Lemma slot_set st pid r q :
  slot (set_running pid r st) q =
  if decide (q = pid) then Some (p_session r, p_exit_code r) else slot st q.
Proof.
  unfold slot, running, set_running, with_processes. cbn. case_decide as E; [subst|].
  - by rewrite lookup_insert_eq.
  - by rewrite lookup_insert_ne.
Qed.

Lemma slot_set_same st pid r r' :
  processes st !! pid = Some (Running r) → p_session r' = p_session r → p_exit_code r' = p_exit_code r →
  ∀ q, slot (set_running pid r' st) q = slot st q.
Proof.
  intros Hr Hs Hx q. rewrite slot_set. case_decide; [subst|done].
  unfold slot, running. by rewrite Hr, Hs, Hx.
Qed.

Lemma slot_Starting st pid q :
  processes st !! pid = None → slot (with_processes (<[pid := Starting]>) st) q = slot st q.
Proof.
  intros Hp. unfold slot, running, with_processes. cbn. destruct (decide (q = pid)) as [->|].
  - by rewrite lookup_insert_eq, Hp.
  - by rewrite lookup_insert_ne.
Qed.

(** What a turn of a task does to the table: a launch, an exit, an expiry, or
    nothing that matters here. *)
Definition slot_change (t : task) (i : input) (st st' : Inner) : Prop :=
  (∀ q, slot st' q = slot st q)
  ∨ (∃ params sid, t = TLaunch params ∧ i = ILaunched (Ok sid) ∧
       ∀ q, slot st' q = if decide (q = ep_process_id params) then Some (sid, None) else slot st q)
  ∨ (∃ pid code sid x, t = TWatch pid ∧ i = IExit code ∧ slot st pid = Some (sid, x) ∧
       ∀ q, slot st' q = if decide (q = pid) then Some (sid, Some (default (-1)%Z code)) else slot st q)
  ∨ (∃ pid exit sid c, t = TSleep pid exit ∧ slot st pid = Some (sid, Some c) ∧
       ∀ q, slot st' q = if decide (q = pid) then None else slot st q).

Lemma run_task_slots t i st st' ts evs :
  run_task t i st = Some (st', ts, evs) → slot_change t i st st'.
Proof.
  intros Hr. destruct t, i; try done; cbn in Hr.
  - destruct r as [sid|err]; injection Hr as <- _ _.
    + right. left. exists params, sid. split_and!; [done..|]. intros q. by rewrite slot_set.
    + left. intros q. destruct (processes st !! ep_process_id params) as [[|r]|] eqn:E; try done.
      unfold slot, running, with_processes. cbn. destruct (decide (q = ep_process_id params)) as [->|].
      * by rewrite lookup_delete_eq, E.
      * by rewrite lookup_delete_ne.
  - left. unfold push_output in Hr. destruct (processes st !! pid) as [[|r]|] eqn:E;
      [by injection Hr as <- _ _| |by injection Hr as <- _ _].
    destruct (evict _ _). injection Hr as <- _ _. by eapply slot_set_same.
  - left. by injection Hr as <- _ _.
  - left. destruct accepted; by injection Hr as <- _ _.
  - left. unfold finish_output_stream in Hr. destruct (processes st !! pid) as [[|r]|] eqn:E;
      injection Hr as <- _ _; try done. by eapply slot_set_same.
  - unfold record_exit in Hr. destruct (processes st !! pid) as [[|r]|] eqn:E;
      [left; by injection Hr as <- _ _| |left; by injection Hr as <- _ _].
    injection Hr as <- _ _. right. right. left. exists pid, code, (p_session r), (p_exit_code r).
    split_and!; [done|done|unfold slot, running; by rewrite E|]. intros q. by rewrite slot_set.
  - left. destruct accepted; by injection Hr as <- _ _.
  - left. unfold maybe_emit_closed in Hr. destruct (processes st !! pid) as [[|r]|] eqn:E;
      [by injection Hr as <- _ _| |by injection Hr as <- _ _].
    destruct (_ || _); injection Hr as <- _ _; [done|]. by eapply slot_set_same.
  - left. by injection Hr as <- _ _.
  - injection Hr as <- _ _. unfold expire. destruct (processes st !! pid) as [[|r]|] eqn:E; try by left.
    case_decide as Hx; [|by left]. right. right. right.
    exists pid, exit, (p_session r), (default (-1)%Z exit). split_and!; [done| |].
    + unfold slot, running. by rewrite E, <- Hx.
    + intros q. unfold slot, running, with_processes. cbn. case_decide; [subst|].
      * by rewrite lookup_delete_eq.
      * by rewrite lookup_delete_ne.
Qed.

Record tracked (a : Agent) : Prop := {
  tr_session pid sid x : slot (inner (table a)) pid = Some (sid, x) →
    ∃ tty, launched a !! sid = Some (pid, tty);
  tr_exited pid sid c p : slot (inner (table a)) pid = Some (sid, Some c) →
    sessions a !! sid = Some p → gone p;
  tr_unlisted sid pid tty p : launched a !! sid = Some (pid, tty) →
    slot (inner (table a)) pid = None → sessions a !! sid = Some p → gone p;
}.

Lemma tracked_update a y ss :
  tracked a → (∀ pid, slot (inner y) pid = slot (inner (table a)) pid) →
  (∀ sid p', ss !! sid = Some p' → ∃ p, sessions a !! sid = Some p ∧ (gone p → gone p')) →
  ∀ rs, tracked (mkAgent y ss (launched a) rs).
Proof.
  intros [Hs He Hu] Hslot Hss rs. split; cbn.
  - intros pid sid x. rewrite Hslot. apply Hs.
  - intros pid sid c p'. rewrite Hslot. intros Hp (p & Hsid & Hg)%Hss. by eapply Hg, He.
  - intros sid pid tty p' Hla. rewrite Hslot. intros Hp (p & Hsid & Hg)%Hss. by eapply Hg, Hu.
Qed.

Lemma sessions_same (m : gmap SessionId Proc) sid p' :
  m !! sid = Some p' → ∃ p, m !! sid = Some p ∧ (gone p → gone p').
Proof. intros H. by exists p'. Qed.

Lemma sessions_insert (m : gmap SessionId Proc) sid p p' l :
  m !! sid = Some p → PtyProcess.step l p = Some p' →
  ∀ sid2 x', <[sid := p']> m !! sid2 = Some x' → ∃ x, m !! sid2 = Some x ∧ (gone x → gone x').
Proof.
  intros Hp Hs sid2 x' [[<- <-]|[_ Hx]]%lookup_insert_Some; [|by exists x'].
  exists p. split; [done|]. by apply (gone_step l).
Qed.

Lemma terminate_session_lookup (m : gmap SessionId Proc) sid sid2 x' :
  terminate_session sid m !! sid2 = Some x' →
  ∃ x, m !! sid2 = Some x
    ∧ (if decide (sid2 = sid) then PtyProcess.step PtyProcess.LTerminate x = Some x' else x' = x).
Proof.
  unfold terminate_session. destruct (m !! sid) as [p|] eqn:Hp; cbn [option_bind mbind].
  - assert (∃ p', PtyProcess.step PtyProcess.LTerminate p = Some p') as [p' E].
    { cbn. destruct (PtyProcess.terminate _ _ _) as [[[h ts] k] r]. by eexists. }
    cbn [option_bind mbind]. rewrite E. intros [[<- <-]|[Hne Hx]]%lookup_insert_Some.
    + exists p. by rewrite decide_True.
    + exists x'. by rewrite decide_False.
  - cbn. intros Hx. exists x'. rewrite decide_False; [done|]. congruence.
Qed.

Lemma terminate_session_same (m : gmap SessionId Proc) sid sid2 x' :
  terminate_session sid m !! sid2 = Some x' → ∃ x, m !! sid2 = Some x ∧ (gone x → gone x').
Proof.
  intros (x & Hx & Hs)%terminate_session_lookup. exists x. split; [done|].
  case_decide; [by eapply gone_step|by subst].
Qed.

Lemma terminate_sessions_same (m : gmap SessionId Proc) sids sid2 x' :
  terminate_sessions sids m !! sid2 = Some x' → ∃ x, m !! sid2 = Some x ∧ (gone x → gone x').
Proof.
  revert x'. induction sids as [|sid sids IH]; cbn; intros x' Hx; [by apply sessions_same|].
  apply terminate_session_same in Hx as (x & Hx & Hg). destruct (IH _ Hx) as (x0 & ? & ?).
  exists x0. split; [done|]. auto.
Qed.

(** Whoever is terminated is gone. *)
Lemma terminate_kills (p p' : Proc) :
  PtyProcess.reachable p → PtyProcess.step PtyProcess.LTerminate p = Some p' → gone p'.
Proof.
  intros Hr Hs. left. destruct (PtyProcess.killed_at_most_once p Hr) as [_ Hk].
  destruct (Hk PtyProcess.LTerminate p') as [Hlen _]; [by right; left|done|].
  intros E. by rewrite E in Hlen.
Qed.

Lemma terminate_sessions_gone (m : gmap SessionId Proc) sids sid p' :
  (∀ p, m !! sid = Some p → PtyProcess.reachable p) → sid ∈ sids →
  terminate_sessions sids m !! sid = Some p' → gone p'.
Proof.
  intros Hm. assert (∀ l p, terminate_sessions l m !! sid = Some p → PtyProcess.reachable p) as Hreach.
  { induction l as [|s l IH]; cbn; [done|].
    intros q (x & Hx & Hs)%terminate_session_lookup. apply IH in Hx.
    case_decide; [by eapply PtyProcess.reachable_step|by subst]. }
  revert p'. induction sids as [|s l IH]; intros p' Hin Hp'; [by apply elem_of_nil in Hin|].
  cbn in Hp'. apply terminate_session_lookup in Hp' as (x & Hx & Hs).
  case_decide as E; [by eapply terminate_kills; [eapply Hreach|]|subst p'].
  apply IH; [|done]. by apply elem_of_cons in Hin as [->|?].
Qed.


Lemma sys_step_slots s n i y t :
  sys_step s (LTask n i) = Some y → Process.tasks s !! n = Some t →
  slot_change t i (inner s) (inner y).
Proof.
  intros Hs Ht. destruct (task_step_inv _ _ _ _ _ Hs Ht) as (st & ts & evs & Hr & ->).
  by eapply run_task_slots.
Qed.

(** The code that [exit_rx] gives means that the waiting has ended. *)
Lemma exit_received_gone p code : PtyProcess.reachable p → exit_received p code → gone p.
Proof.
  intros Hr Hx. right. destruct code as [c|]; [|apply Hx]. cbn in Hx.
  pose proof (PtyProcess.inv_exit _ (PtyProcess.reachable_inv _ Hr)) as He.
  unfold PtyProcess.ended. destruct (PtyProcess.t_progress _) as [[]| |]; cbn in He; naive_solver.
Qed.

Lemma call_slots s l y :
  (∃ params, l = LCall params) ∨ l = LInitialize ∨ l = LInitialized →
  sys_step s l = Some y → ∀ pid, slot (inner y) pid = slot (inner s) pid.
Proof.
  intros [[params ->]|[->| ->]] Hs pid; cbn in Hs.
  - unfold start_reserve in Hs. destruct (require_initialized_for _ _); cbn in Hs; [|by injection Hs as <-].
    destruct (ep_argv params); cbn in Hs; [by injection Hs as <-|].
    case_decide as Hp; injection Hs as <-; [done|]. apply slot_Starting. by apply eq_None_not_Some.
  - unfold initialize in Hs. by destruct (initialize_requested _); injection Hs as <-.
  - unfold initialized in Hs. by destruct (initialize_requested _); injection Hs as <-.
Qed.

Lemma tracked_exit a n pid sid tty p code y :
  agent_inv a → tracked a → Process.tasks (table a) !! n = Some (TWatch pid) →
  launched a !! sid = Some (pid, tty) → sessions a !! sid = Some p → exit_received p code →
  sys_step (table a) (LTask n (IExit code)) = Some y →
  tracked (mkAgent y (sessions a) (launched a) (receivers a)).
Proof.
  intros Ha Htr Ht Hla Hsid Hx Hy.
  assert (gone p) as Hg.
  { destruct (ai_sessions _ Ha _ _ _ Hla) as (x & Hx' & Hr). apply (exit_received_gone _ code); [|done].
    by simplify_eq. }
  destruct (sys_step_slots _ _ _ _ _ Hy Ht) as [Hsame|[(? & ? & ? & _)|[(pid' & code' & sid' & x & E1 & E2 & Hslot & Hch)|(? & ? & ? & ? & ? & _)]]]; try done.
  - by apply tracked_update; [|done|apply sessions_same].
  - injection E1 as <-. injection E2 as <-. destruct Htr as [Hs He Hu].
    destruct (Hs _ _ _ Hslot) as [tty' Hla'].
    assert (sid' = sid) as -> by (by eapply (ai_inj _ Ha)). split; cbn.
    + intros q sid2 x2. rewrite Hch. case_decide; [subst|apply Hs]. intros [= <- _]. eauto.
    + intros q sid2 c p2. rewrite Hch. case_decide; [|apply He]. intros [= <- _] Hp2. by simplify_eq.
    + intros sid2 q tty2 p2 Hla2. rewrite Hch. case_decide; [done|]. by eapply Hu.
Qed.

Lemma tracked_step a a' :
  agent_inv a → tracked a → agent_step a a' → ids_distinct (launched a') → tracked a'.
Proof.
  intros Ha Htr Hs. destruct Hs as [a l y Hl Hy|a n params sid p y Ht Hfresh Hn Hlaunch Hy|a n params err y Ht Hy
    |a n pid stream sid tty p chunk q p' y Ht Hla Hst0 Hr Hh Hsid Hq Hst Hy
    |a n pid stream s sid tty p y Ht Hla Hsr Hr Hsid Hend Hy
    |a n pid stream sid tty e ok y Ht Hla Hy|a n pid sid tty p code y Ht Hla Hsid Hx Hy|a n t i y Ht Hin Hy
    |a sid p l p' Hsid Hl Hst|a params r sid Hr|a y Hy]; intros Hdist;
    try (apply sys_step_slots with (t := TRead pid stream) in Hy as Hch; [|done]);
    try (apply sys_step_slots with (t := TSendOutput pid stream e) in Hy as Hch; [|done]);
    try (apply sys_step_slots with (t := TLaunch params) in Hy as Hch; [|done]);
    try (destruct Hch as [Hsame|[(params2 & sid2 & E1 & E2 & Hch)|[(? & ? & ? & ? & ? & _)|(? & ? & ? & ? & ? & _)]]];
      try done).
  - apply tracked_update; [done|by eapply call_slots|apply sessions_same].
  - cbn in Hy. rewrite Ht in Hy. cbn in Hy. injection Hy as <-. cbn in Hsame.
    specialize (Hsame (ep_process_id params)). rewrite slot_set, decide_True in Hsame by done.
    destruct (tr_session _ Htr _ _ _ (eq_sym Hsame)) as [tty Hla]. cbn in Hla. congruence.
  - injection E1 as <-. injection E2 as <-. destruct Htr as [Hs He Hu]. split; cbn.
    + intros q s2 x. rewrite Hch. case_decide as E; [subst; intros [= <- _]|intros Hq].
      * rewrite lookup_insert_eq. by eexists.
      * destruct (Hs _ _ _ Hq) as [tty Hla]. exists tty. rewrite lookup_insert_ne; [done|].
        intros <-. congruence.
    + intros q s2 c p2. rewrite Hch. case_decide as E; [done|]. intros Hq.
      rewrite lookup_insert_ne; [by eapply He|]. intros <-.
      destruct (Hs _ _ _ Hq) as [tty Hla]. congruence.
    + intros s2 q tty p2 Hla. rewrite Hch. case_decide as E; [done|].
      apply lookup_insert_Some in Hla as [[<- [= <- <-]]|[Hne Hla]]; [done|]. intros Hq.
      rewrite lookup_insert_ne by done. by eapply Hu.
  - by apply tracked_update; [|done|apply sessions_same].
  - apply tracked_update; [done|done|by eapply sessions_insert].
  - by apply tracked_update; [|done|apply sessions_same].
  - by apply tracked_update; [|done|apply sessions_same].
  - by eapply tracked_exit.
  - destruct (sys_step_slots _ _ _ _ _ Hy Ht) as [Hsame|[(? & ? & -> & _)|[(? & ? & ? & ? & -> & _)|(pid & exit & sid & c & -> & Hslot & Hch)]]];
      try done; [by apply tracked_update; [|done|apply sessions_same]|].
    destruct Htr as [Hs He Hu]. split; cbn.
    + intros q s2 x. rewrite Hch. case_decide; [done|]. apply Hs.
    + intros q s2 c2 p2. rewrite Hch. case_decide; [done|]. by apply He.
    + intros s2 q tty p2 Hla. rewrite Hch. case_decide as E; [|by eapply Hu]. subst. intros _ Hp2.
      destruct (Hs _ _ _ Hslot) as [tty' Hla'].
      assert (sid = s2) as -> by (by eapply (ai_inj _ Ha)). by eapply He.
  - apply tracked_update; [done|done|by eapply sessions_insert].
  - apply tracked_update; [done|done|apply terminate_session_same].
  - cbn in Hy. injection Hy as <-. destruct Htr as [Hs He Hu]. split; cbn.
    + intros q s2 x. unfold slot, running. cbn. by rewrite lookup_empty.
    + intros q s2 c p2. unfold slot, running. cbn. by rewrite lookup_empty.
    + intros s2 q tty p2 Hla _ Hp2. destruct (slot (inner (table a)) q) as [[s3 x]|] eqn:E.
      * destruct (Hs _ _ _ E) as [tty' Hla'].
        assert (s3 = s2) as -> by (by eapply (ai_inj _ Ha)).
        eapply terminate_sessions_gone; [| |exact Hp2].
        { intros p Hp. destruct (ai_sessions _ Ha _ _ _ Hla) as (p0 & ? & ?). by simplify_eq. }
        unfold slot, running in E. destruct (processes (inner (table a)) !! q) as [[|r]|] eqn:Er; try done.
        injection E as <- _. apply list_elem_of_omap. exists (q, Running r). split; [|done].
        by apply elem_of_map_to_list.
      * apply terminate_sessions_same in Hp2 as (x & Hx & Hg). by eapply Hg, Hu.
Qed.

(** C4: No process is lost sight of by a manager whose clients do not launch
    twice under one id: in every state, each process that was ever launched is
    listed in the table under its id, with its own session, or has been killed,
    or has ended.  After a shutdown, which empties the table, all have been
    killed or have ended. *)
Theorem no_process_lost a :
  agent_reachable a → ids_distinct (launched a) →
  (∀ sid pid tty p, launched a !! sid = Some (pid, tty) → sessions a !! sid = Some p →
     (∃ r, running (inner (table a)) pid = Some r ∧ p_session r = sid) ∨ gone p)
  ∧ ∀ sid pid tty p, launched a !! sid = Some (pid, tty) →
      terminate_sessions (shutdown (inner (table a))).2 (sessions a) !! sid = Some p → gone p.
Proof.
  intros Hr Hd.
  assert (∀ b, agent_reachable b → ids_distinct (launched b) → agent_inv b ∧ tracked b) as Hboth.
  { apply distinct_invariant; [by split|]. intros. by eapply tracked_step. }
  split.
  - intros sid pid tty p Hla Hsid. destruct (Hboth a Hr Hd) as [Ha Htr].
    destruct (slot (inner (table a)) pid) as [[s x]|] eqn:E.
    + left. destruct (tr_session _ Htr _ _ _ E) as [tty' Hla'].
      assert (s = sid) as -> by (by eapply (ai_inj _ Ha)). unfold slot in E.
      destruct (running (inner (table a)) pid) as [r|]; [|done].
      exists r. split; [done|]. by injection E.
    + right. by eapply tr_unlisted.
  - intros sid pid tty p Hla Hsid.
    set (a' := mkAgent (mkSys (shutdown (inner (table a))).1 (Process.tasks (table a)) (log (table a)) (used (table a)))
                 (terminate_sessions (shutdown (inner (table a))).2 (sessions a)) (launched a) (receivers a)).
    assert (agent_reachable a') as Hr' by (eapply rtc_r; [exact Hr|by apply agent_shutdown]).
    destruct (Hboth a' Hr' Hd) as [_ Htr]. eapply (tr_unlisted _ Htr); [exact Hla| |exact Hsid].
    unfold slot, running. cbn. by rewrite lookup_empty.
Qed.

(** A session may take any number of steps of its own. *)
Lemma agent_session_run a sid p ls p' :
  sessions a !! sid = Some p → Forall (session_step sid (receivers a)) ls →
  PtyProcess.run ls p = Some p' →
  rtc agent_step a (mkAgent (table a) (<[sid := p']> (sessions a)) (launched a) (receivers a)).
Proof.
  revert a p. induction ls as [|l ls IH]; intros a p Hsid Hls Hrun; cbn in Hrun.
  - injection Hrun as <-. rewrite insert_id by done. by destruct a.
  - apply Forall_cons in Hls as [Hl Hls].
    destruct (PtyProcess.step l p) as [p1|] eqn:E; [|done]. cbn in Hrun.
    eapply rtc_l; [by eapply agent_session|].
    specialize (IH (mkAgent (table a) (<[sid := p1]> (sessions a)) (launched a) (receivers a)) p1).
    cbn in IH. rewrite insert_insert_eq in IH. apply IH; try done. apply lookup_insert_eq.
Qed.
End agent.

(** * An echo

    A process on pipes writes a line; the manager tells its clients. *)
Section echo.
Import PtyOs.SmallUnix PtyProcess.SmallProcess.

Definition echo_params : ExecParams := mkExecParams "p1" ["echo"; "hi"] "/" ∅ false None.

Definition echo : PtyProcess.Spawned unit unit Sys :=
  PtyProcess.mkSpawned PtyProcess.PipeMode
    (PtyProcess.ProcessHandle_new (PtyOs.PipeTerm (PtyOs.mkPipeTerm 20)) PtyProcess.JoinTask
       [PtyProcess.StdoutTask; PtyProcess.StderrTask] PtyProcess.WriterTask PtyProcess.WaitTask None)
    (PtyProcess.pipe_tasks (PtyProcess.mkChild (Some 20%Z) false true true)) PtyProcess.new_output
    PtyProcess.new_output PtyProcess.new_input PtyProcess.new_exit [] agent.

Definition echo_writes : list PtyProcess.label :=
  [PtyProcess.LChildWrites PtyProcess.Stdout line; PtyProcess.LRead PtyProcess.Stdout (PtyProcess.ReadN 3);
   PtyProcess.LSend PtyProcess.Stdout].

Definition echoed : PtyProcess.Spawned unit unit Sys := default echo (PtyProcess.run echo_writes echo).

(** The manager's table once the client has initialised and asked. *)
Definition asked : Process.Sys :=
  default sys_init (sys_run sys_init [LInitialize; LInitialized; LCall echo_params]).

Definition with_table (y : Process.Sys) (l : label) : Process.Sys := default y (sys_step y l).

Lemma echo_launched :
  agent_reachable (mkAgent (with_table asked (LTask 0 (ILaunched (Ok 5)))) {[5 := echo]}
    {[5 := ("p1", false)]} {[(5, PtyProcess.Stdout); (5, PtyProcess.Stderr)]}).
Proof.
  eapply rtc_l; [eapply (agent_call _ LInitialize); [by right; left|reflexivity]|].
  eapply rtc_l; [eapply (agent_call _ LInitialized); [by right; right|reflexivity]|].
  eapply rtc_l; [eapply (agent_call _ (LCall echo_params)); [left; by eexists|reflexivity]|].
  eapply rtc_l; [|apply rtc_refl].
  refine (agent_launched (mkAgent asked ∅ ∅ ∅) 0 echo_params 5 echo _ _ _ _ _ _).
  - reflexivity.
  - reflexivity.
  - reflexivity.
  - exists PtyOs.SmallUnix.agent, PtyOs.SmallUnix.agent. reflexivity.
  - reflexivity.
Qed.

Lemma echo_alone : ids_distinct ({[5 := ("p1", false)]} : gmap SessionId (ProcessId * bool)).
Proof.
  by intros sid1 sid2 pid tty1 tty2 [<- _]%lookup_singleton_Some [<- _]%lookup_singleton_Some.
Qed.

Definition taken : PtyProcess.Spawned unit unit Sys :=
  default echoed (PtyProcess.step (PtyProcess.LTake PtyProcess.Stdout) echoed).

Definition told : Process.Sys :=
  with_table (with_table (with_table asked (LTask 0 (ILaunched (Ok 5)))) (LTask 0 (IChunk line)))
    (LTask 0 (ISend true)).

Lemma echo_told :
  agent_reachable (mkAgent told {[5 := taken]} {[5 := ("p1", false)]}
    {[(5, PtyProcess.Stdout); (5, PtyProcess.Stderr)]}).
Proof.
  unfold agent_reachable. etrans; [exact echo_launched|].
  etrans.
  { eapply (agent_session_run _ 5 echo echo_writes echoed); [reflexivity| |].
    - by repeat constructor.
    - unfold echoed. vm_compute. reflexivity. }
  eapply rtc_l; [|eapply rtc_l; [|apply rtc_refl]].
  - refine (agent_chunk _ 0 "p1" Stdout 5 false echoed line [] taken
      (with_table (with_table asked (LTask 0 (ILaunched (Ok 5)))) (LTask 0 (IChunk line)))
      _ _ _ _ _ _ _ _ _); try reflexivity; [by left|].
    apply Nat.ltb_lt. vm_compute. reflexivity.
  - refine (agent_sent _ 0 "p1" Stdout 5 false (mkOutputDelta "p1" 1 Stdout line) true told _ _ _); reflexivity.
Qed.

Lemma output_events_are_child_output_witness :
  chunks_of "p1" Stdout (log told) = [line]
  ∧ concat (chunks_of "p1" Stdout (log told))
      `prefix_of` PtyProcess.o_written (PtyProcess.output PtyProcess.Stdout taken).
Proof.
  split; [vm_compute; reflexivity|].
  apply (output_events_are_child_output
    (mkAgent told {[5 := taken]} {[5 := ("p1", false)]}
      {[(5, PtyProcess.Stdout); (5, PtyProcess.Stderr)]}) "p1" Stdout 5 false taken).
  - exact echo_told.
  - exact echo_alone.
  - reflexivity.
  - by left.
  - reflexivity.
Defined.

(** The connection ends while the process runs. *)
Lemma no_process_lost_witness :
  PtyProcess.kills taken = []
  ∧ ∀ p, terminate_sessions [5] {[5 := taken]} !! 5 = Some p → gone p.
Proof.
  split; [vm_compute; reflexivity|]. intros p Hp.
  destruct (no_process_lost (mkAgent told {[5 := taken]} {[5 := ("p1", false)]}
    {[(5, PtyProcess.Stdout); (5, PtyProcess.Stderr)]}) echo_told echo_alone) as [_ Hall].
  eapply (Hall 5 "p1" false p); [reflexivity|]. exact Hp.
Defined.
End echo.
