(* ===== verification/Proxy.v ===== *)
(** The gateway's reverse proxies: the token registry of the HTTP proxy
    ([proxy/registry.rs]), the request it forwards ([proxy/server.rs]) and the
    registry of TCP listeners ([proxy/tcp.rs]). *)
From S2P Require Import Prelude.

(** * Token registry *)

Module ProxyRegistry.

(* @src crates/nexal-gateway/src/proxy/registry.rs ProxyEntry *)
Record ProxyEntry := mkProxyEntry {
  px_agent_id : string;
  px_name : string;
  px_upstream_url : string;
  px_headers : gmap string string;
  px_token : string;
}.

(* @src crates/nexal-gateway/src/proxy/registry.rs Inner *)
Record Inner := mkInner {
  by_token : gmap string ProxyEntry;
  index : gmap (string * string) string;
}.

(* @src crates/nexal-gateway/src/proxy/registry.rs ProxyRegistry::new *)
Definition ProxyRegistry_new : Inner := mkInner ∅ ∅.

(** [if let Some(t) = index.remove(key) { by_token.remove(t) }] and whether
    there was one. *)
Definition remove_key (key : string * string) (inner : Inner) : Inner * bool :=
  match index inner !! key with
  | Some t => (mkInner (delete t (by_token inner)) (delete key (index inner)), true)
  | None => (inner, false)
  end.

(** [token] is the fresh UUID the call draws. *)
(* @src crates/nexal-gateway/src/proxy/registry.rs ProxyRegistry::register *)
Definition register (token agent_id name upstream_url : string)
    (headers : gmap string string) (inner : Inner) : Inner * ProxyEntry :=
  let key := (agent_id, name) in
  let inner := (remove_key key inner).1 in
  let entry := mkProxyEntry agent_id name upstream_url headers token in
  (mkInner (<[token := entry]> (by_token inner)) (<[key := token]> (index inner)), entry).

(* @src crates/nexal-gateway/src/proxy/registry.rs ProxyRegistry::unregister *)
Definition unregister (agent_id name : string) (inner : Inner) : Inner * bool :=
  remove_key (agent_id, name) inner.

(* @src crates/nexal-gateway/src/proxy/registry.rs ProxyRegistry::cleanup_for_agent *)
Definition cleanup_for_agent (agent_id : string) (inner : Inner) : Inner * nat :=
  let to_remove := filter (λ k : string * string, k.1 = agent_id)
                          (map_to_list (index inner)).*1 in
  (foldl (λ inner k, (remove_key k inner).1) inner to_remove, length to_remove).

(* @src crates/nexal-gateway/src/proxy/registry.rs ProxyRegistry::lookup *)
Definition lookup (token : string) (inner : Inner) : option ProxyEntry :=
  by_token inner !! token.

(** ** What the registry promises: a map from (agent, name) to its entry *)

Inductive op :=
  | ORegister (token agent_id name upstream_url : string) (headers : gmap string string)
  | OUnregister (agent_id name : string)
  | OCleanup (agent_id : string)
  | OLookup (token : string).

Inductive answer :=
  | AEntry (e : ProxyEntry)
  | ABool (b : bool)
  | ACount (n : nat)
  | AFound (e : option ProxyEntry).

Definition run_op (o : op) (inner : Inner) : Inner * answer :=
  match o with
  | ORegister t a n u h => let r := register t a n u h inner in (r.1, AEntry r.2)
  | OUnregister a n => let r := unregister a n inner in (r.1, ABool r.2)
  | OCleanup a => let r := cleanup_for_agent a inner in (r.1, ACount r.2)
  | OLookup t => (inner, AFound (lookup t inner))
  end.

Abbreviation Spec := (gmap (string * string) ProxyEntry).

Definition spec_op (o : op) (m : Spec) : Spec * answer :=
  match o with
  | ORegister t a n u h =>
      let e := mkProxyEntry a n u h t in (<[(a, n) := e]> m, AEntry e)
  | OUnregister a n => (delete (a, n) m, ABool (bool_decide (is_Some (m !! (a, n)))))
  | OCleanup a =>
      (filter (λ kv : (string * string) * ProxyEntry, kv.1.1 ≠ a) m,
       ACount (size (filter (λ kv : (string * string) * ProxyEntry, kv.1.1 = a) m)))
  | OLookup t =>
      (m, AFound (head (filter (λ e, px_token e = t) (map_to_list m).*2)))
  end.

Fixpoint run {S} (step : op → S → S * answer) (os : list op) (s : S) : list answer :=
  match os with
  | [] => []
  | o :: os' => let r := step o s in r.2 :: run step os' r.1
  end.

(** The tokens drawn by a sequence of operations. *)
Definition op_tokens (os : list op) : list string :=
  omap (λ o, match o with ORegister t _ _ _ _ => Some t | _ => None end) os.

(** The two maps describe one (agent, name) → entry map. *)
Definition related (inner : Inner) (m : Spec) : Prop :=
  index inner = px_token <$> m ∧
  (∀ t e, by_token inner !! t = Some e ↔
          px_token e = t ∧ m !! (px_agent_id e, px_name e) = Some e) ∧
  (∀ k e, m !! k = Some e → (px_agent_id e, px_name e) = k).

Lemma related_new : related ProxyRegistry_new ∅.
Proof.
  split; [done|split].
  - intros t e. cbn [by_token ProxyRegistry_new]. rewrite !lookup_empty. naive_solver.
  - intros k e. by rewrite lookup_empty.
Qed.

(** Entries with the same token are the same entry. *)
Lemma related_inj inner m k k' e e' :
  related inner m → m !! k = Some e → m !! k' = Some e' →
  px_token e = px_token e' → e = e' ∧ k = k'.
Proof.
  intros (Hi & Hb & Hk) He He' Ht.
  pose proof (Hk _ _ He) as Ek. pose proof (Hk _ _ He') as Ek'.
  assert (by_token inner !! px_token e = Some e) as H1
    by (apply Hb; by rewrite Ek).
  assert (by_token inner !! px_token e = Some e') as H2
    by (apply Hb; split; [done|by rewrite Ek']).
  rewrite H1 in H2. injection H2 as <-. by rewrite <-Ek, Ek'.
Qed.

Lemma related_remove inner m k :
  related inner m →
  related (remove_key k inner).1 (delete k m) ∧
  (remove_key k inner).2 = bool_decide (is_Some (m !! k)).
Proof.
  intros Hr. pose proof Hr as (Hi & Hb & Hk). unfold remove_key.
  rewrite Hi, lookup_fmap. destruct (m !! k) as [e|] eqn:Em; cbn.
  - split; [|done]. pose proof (Hk _ _ Em) as Ek. split_and!; cbn.
    + by rewrite fmap_delete.
    + intros t e'. rewrite lookup_delete_Some, Hb, lookup_delete_Some. split.
      * intros (Hne & Ht & He'). split_and!; [done| |done].
        intros Heq. rewrite <-Heq, Em in He'. by simplify_eq.
      * intros (Ht & Hne & He'). split_and!; [|done|done].
        intros Heq. destruct (related_inj _ _ _ _ _ _ Hr Em He') as [_ ?];
          
          [by rewrite Heq, Ht|done].
    + intros k' e' [_ He']%lookup_delete_Some. by apply Hk.
  - split; [|done]. by rewrite delete_id.
Qed.

Lemma related_register inner m t a n u h :
  related inner m → (∀ k e, m !! k = Some e → px_token e ≠ t) →
  related (register t a n u h inner).1 (<[(a, n) := mkProxyEntry a n u h t]> m).
Proof.
  intros Hr Hf. unfold register.
  destruct (related_remove inner m (a, n) Hr) as [(Hi & Hb & Hk) _].
  set (r := (remove_key (a, n) inner).1) in *. set (e0 := mkProxyEntry a n u h t).
  rewrite <-(insert_delete_eq m (a, n) e0).
  assert (∀ k e, delete (a, n) m !! k = Some e → px_token e ≠ t) as Hf'.
  { intros k e [_ He]%lookup_delete_Some. by eapply Hf. }
  split_and!; cbn.
  - by rewrite fmap_insert, <-Hi.
  - intros t' e. rewrite lookup_insert_Some. split.
    + intros [[<- <-]|[Hne He]].
      * split; [done|]. cbn. apply lookup_insert_eq.
      * apply Hb in He as [Ht He]. split; [done|]. rewrite lookup_insert_ne; [done|].
        intros Heq. rewrite <-Heq, lookup_delete_eq in He. done.
    + intros [Ht He]. apply lookup_insert_Some in He as [[_ <-]|[Hne He]].
      * by left.
      * right. split; [intros ->; by eapply Hf'|]. by apply Hb.
  - intros k e [[<- <-]|[_ He]]%lookup_insert_Some; [done|by apply Hk].
Qed.

Lemma related_foldl inner m l :
  related inner m →
  related (foldl (λ inner k, (remove_key k inner).1) inner l) (foldl (λ m k, delete k m) m l).
Proof.
  revert inner m. induction l as [|k l IH]; intros inner m Hr; [done|]. cbn.
  apply IH. by apply related_remove.
Qed.

Lemma foldl_delete_lookup {A} (m : gmap (string * string) A) l k :
  foldl (λ m k, delete k m) m l !! k = if decide (k ∈ l) then None else m !! k.
Proof.
  revert m. induction l as [|k' l IH]; intros m; cbn.
  - by rewrite decide_False by apply not_elem_of_nil.
  - rewrite IH. destruct (decide (k ∈ l)) as [Hin|Hin].
    + rewrite decide_True; [done|by apply list_elem_of_further].
    + destruct (decide (k = k')) as [->|Hne].
      * rewrite decide_True by apply list_elem_of_here. by rewrite lookup_delete_eq.
      * rewrite decide_False; [by rewrite lookup_delete_ne|].
        by intros [->|?]%elem_of_cons.
Qed.

Lemma related_cleanup inner m a :
  related inner m →
  related (cleanup_for_agent a inner).1
          (filter (λ kv : (string * string) * ProxyEntry, kv.1.1 ≠ a) m) ∧
  (cleanup_for_agent a inner).2
  = size (filter (λ kv : (string * string) * ProxyEntry, kv.1.1 = a) m).
Proof.
  intros Hr. pose proof Hr as (Hi & _). unfold cleanup_for_agent. cbn.
  set (keys := filter _ _). split.
  - replace (filter _ m) with (foldl (λ m k, delete k m) m keys);
      [by apply related_foldl|].
    apply map_eq. intros k. rewrite foldl_delete_lookup.
    assert (k ∈ keys ↔ k.1 = a ∧ is_Some (m !! k)) as Hk.
    { unfold keys. rewrite list_elem_of_filter, list_elem_of_fmap.
      split; intros [Ha He]; (split; [done|]).
      - destruct He as ([k' t] & -> & He%elem_of_map_to_list).
        rewrite Hi, lookup_fmap_Some in He. destruct He as (e & _ & He). by exists e.
      - destruct He as [e He]. exists (k, px_token e). split; [done|].
        apply elem_of_map_to_list. by rewrite Hi, lookup_fmap, He. }
    destruct (decide (k ∈ keys)) as [Hin|Hin].
    + symmetry. apply map_lookup_filter_None. right. intros e He Hne.
      cbn in Hne. by apply Hk in Hin as [].
    + destruct (m !! k) as [e|] eqn:Em; symmetry.
      * apply map_lookup_filter_Some. split; [done|]. cbn. intros Ha.
        by apply Hin, Hk.
      * apply map_lookup_filter_None. by left.
  - transitivity (length (map_to_list (filter
      (λ kv : (string * string) * ProxyEntry, kv.1.1 = a) m)).*1);
      [|by rewrite length_fmap, length_map_to_list].
    unfold keys. apply Permutation_length. rewrite Hi.
    apply NoDup_Permutation.
    + apply NoDup_filter, NoDup_fst_map_to_list.
    + apply NoDup_fst_map_to_list.
    + intros k. rewrite list_elem_of_filter, !list_elem_of_fmap. split.
      * intros [Ha ([k' t] & -> & He%elem_of_map_to_list)].
        rewrite lookup_fmap_Some in He. destruct He as (e & _ & He).
        exists (k', e). split; [done|]. apply elem_of_map_to_list.
        by apply map_lookup_filter_Some.
      * intros ([k' e] & -> & He%elem_of_map_to_list).
        apply map_lookup_filter_Some in He as [He Ha]. split; [done|].
        exists (k', px_token e). split; [done|]. apply elem_of_map_to_list.
        by rewrite lookup_fmap, He.
Qed.

Lemma related_lookup inner m t :
  related inner m →
  lookup t inner = head (filter (λ e, px_token e = t) (map_to_list m).*2).
Proof.
  intros Hr. pose proof Hr as (Hi & Hb & Hk). unfold lookup.
  assert (∀ e, e ∈ filter (λ e, px_token e = t) (map_to_list m).*2 ↔
               by_token inner !! t = Some e) as Hin.
  { intros e. rewrite list_elem_of_filter, list_elem_of_fmap, Hb. split.
    - intros [Ht ([k e'] & -> & He%elem_of_map_to_list)]. split; [done|].
      cbn in *. by rewrite (Hk _ _ He).
    - intros [Ht He]. split; [done|]. eexists (_, e). split; [done|].
      by apply elem_of_map_to_list. }
  destruct (filter _ _) as [|e l].
  - cbn. destruct (by_token inner !! t) as [e|] eqn:E; [|done].
    exfalso. eapply not_elem_of_nil, Hin, eq_refl.
  - apply Hin. apply list_elem_of_here.
Qed.

Lemma run_refines os inner m :
  related inner m → NoDup (op_tokens os) →
  (∀ k e, m !! k = Some e → px_token e ∉ op_tokens os) →
  run run_op os inner = run spec_op os m.
Proof.
  revert inner m. induction os as [|o os IH]; intros inner m Hr Hnd Hf; [done|].
  cbn [run]. destruct o as [t a n u h|a n|a|t]; cbn.
  - cbn in Hnd, Hf. apply NoDup_cons in Hnd as [Ht Hnd]. f_equal. apply IH; [|done|].
    + apply related_register; [done|]. intros k e He <-. eapply Hf; [done|].
      apply list_elem_of_here.
    + intros k e [[_ <-]|[_ He]]%lookup_insert_Some; [done|].
      intros Hin. eapply Hf; [done|]. by apply list_elem_of_further.
  - destruct (related_remove inner m (a, n) Hr) as [Hr' Hans]. unfold unregister.
    rewrite Hans. f_equal. apply IH; [done|done|].
    intros k e [_ He]%lookup_delete_Some. by eapply Hf.
  - destruct (related_cleanup inner m a Hr) as [Hr' Hans].
    rewrite <-Hans. f_equal. apply IH; [done|done|].
    intros k e [He _]%map_lookup_filter_Some. by eapply Hf.
  - rewrite (related_lookup _ _ _ Hr). f_equal. by apply IH.
Qed.

(** C13: As long as the tokens drawn are distinct (v4 UUIDs), the two maps of
    the proxy registry behave as one map from (agent, name) to its entry: any
    sequence of register, unregister, cleanup and lookup calls gets the
    answers that map would give; registering again replaces the entry and
    its old token stops resolving, and cleaning up an agent removes its
    entries and no others. *)
Theorem proxy_registry_refines os :
  NoDup (op_tokens os) →
  run run_op os ProxyRegistry_new = run spec_op os ∅.
Proof.
  intros Hnd. apply run_refines; [apply related_new|done|].
  intros k e. by rewrite lookup_empty.
Qed.

Definition sample_ops : list op :=
  [ORegister "t1" "a" "jina" "https://u1" ∅; ORegister "t2" "b" "jina" "https://u2" ∅;
   ORegister "t3" "a" "jina" "https://u3" ∅; OLookup "t1"; OLookup "t3";
   OCleanup "a"; OLookup "t3"; OLookup "t2"; OUnregister "a" "jina"].

Lemma proxy_registry_refines_witness :
  run run_op sample_ops ProxyRegistry_new = run spec_op sample_ops ∅.
Proof.
  apply (proxy_registry_refines sample_ops).
  apply (bool_decide_unpack _). vm_compute. exact I.
Defined.
End ProxyRegistry.

(** * TCP listeners

    A cancellation token is a number; [cancelled] is the set of the tokens on
    which [cancel] was called.  [register] binds and spawns its accept loop
    before it takes the lock, so other operations may come in between: it is
    two steps, and [registering] holds the calls between them. *)

Module TcpProxy.

(* @src crates/nexal-gateway/src/proxy/tcp.rs TcpProxyEntry *)
Record TcpProxyEntry := mkTcpEntry { listen_addr : string; cancel : nat }.

(** An accept loop: what [run_tcp_proxy] was spawned with. *)
Record Listener := mkListener { l_upstream : string; l_name : string }.

(* @src crates/nexal-gateway/src/proxy/tcp.rs TcpProxyRegistry *)
Record TcpProxyRegistry := mkTcp {
  inner : gmap (string * string) TcpProxyEntry;
  cancelled : gset nat;
  listeners : gmap nat Listener;
  registering : list ((string * string) * TcpProxyEntry);
  relays : list string;
  next_token : nat;
}.

(* @src crates/nexal-gateway/src/proxy/tcp.rs TcpProxyRegistry::new *)
Definition TcpProxyRegistry_new : TcpProxyRegistry := mkTcp ∅ ∅ ∅ [] [] 0.

(** Up to the lock: [bound] is what binding a random port gives. *)
(* @src crates/nexal-gateway/src/proxy/tcp.rs register "// Bind to a random port." .. "let key = (agent_id, name);" *)
Definition register_bind (agent_id name upstream_addr : string)
    (bound : result string string) (s : TcpProxyRegistry) : TcpProxyRegistry * option string :=
  match bound with
  | Err e => (s, Some e)
  | Ok addr =>
      let token := next_token s in
      (mkTcp (inner s) (cancelled s)
         (<[token := mkListener upstream_addr (agent_id +:+ "/" +:+ name)]> (listeners s))
         (registering s ++ [((agent_id, name), mkTcpEntry addr token)])
         (relays s) (S token), None)
  end.

(** [if let Some(old) = inner.remove(&key) { old.cancel.cancel() }] *)
Definition remove_cancel (key : string * string) (s : TcpProxyRegistry) : TcpProxyRegistry * bool :=
  match inner s !! key with
  | Some old =>
      (mkTcp (delete key (inner s)) ({[cancel old]} ∪ cancelled s) (listeners s)
         (registering s) (relays s) (next_token s), true)
  | None => (s, false)
  end.

Definition insert_entry (key : string * string) (e : TcpProxyEntry) (s : TcpProxyRegistry) : TcpProxyRegistry :=
  mkTcp (<[key := e]> (inner s)) (cancelled s) (listeners s)
    (registering s) (relays s) (next_token s).

(** Under the lock: the call [i] of those waiting for it. *)
(* @src crates/nexal-gateway/src/proxy/tcp.rs register "let key = (agent_id, name);" .. "Ok(listen_addr)" *)
Definition register_insert (i : nat) (s : TcpProxyRegistry) : option (TcpProxyRegistry * string) :=
  ke ← registering s !! i;
  let s := mkTcp (inner s) (cancelled s) (listeners s)
             (delete i (registering s)) (relays s) (next_token s) in
  let s := (remove_cancel ke.1 s).1 in
  Some (insert_entry ke.1 ke.2 s, listen_addr ke.2).

(* @src crates/nexal-gateway/src/proxy/tcp.rs unregister *)
Definition tcp_unregister (agent_id name : string) (s : TcpProxyRegistry) : TcpProxyRegistry * bool :=
  remove_cancel (agent_id, name) s.

(* @src crates/nexal-gateway/src/proxy/tcp.rs cleanup_for_agent *)
Definition tcp_cleanup_for_agent (agent_id : string) (s : TcpProxyRegistry) : TcpProxyRegistry * nat :=
  let to_remove := filter (λ k : string * string, k.1 = agent_id)
                          (map_to_list (inner s)).*1 in
  (foldl (λ s k, (remove_cancel k s).1) s to_remove, length to_remove).

(* @src crates/nexal-gateway/src/proxy/tcp.rs get_listen_addr *)
Definition get_listen_addr (agent_id name : string) (s : TcpProxyRegistry) : option string :=
  listen_addr <$> inner s !! (agent_id, name).

Definition end_listener (token : nat) (s : TcpProxyRegistry) : TcpProxyRegistry :=
  mkTcp (inner s) (cancelled s) (delete token (listeners s))
    (registering s) (relays s) (next_token s).

(** What wakes the [select!] of an accept loop. *)
Inductive wake := Accepted | AcceptError | Cancelled.

(* @src crates/nexal-gateway/src/proxy/tcp.rs run_tcp_proxy *)
Definition run_tcp_proxy (token : nat) (w : wake) (s : TcpProxyRegistry) : option TcpProxyRegistry :=
  l ← listeners s !! token;
  match w with
  | Accepted =>
      Some (mkTcp (inner s) (cancelled s) (listeners s) (registering s)
              (relays s ++ [l_upstream l]) (next_token s))
  | AcceptError => Some (end_listener token s)
  | Cancelled => if decide (token ∈ cancelled s) then Some (end_listener token s) else None
  end.

(** ** Interleavings *)

Inductive step : TcpProxyRegistry → TcpProxyRegistry → Prop :=
  | step_bind a n up b s : step s (register_bind a n up b s).1
  | step_insert i s s' addr : register_insert i s = Some (s', addr) → step s s'
  | step_unregister a n s : step s (tcp_unregister a n s).1
  | step_cleanup a s : step s (tcp_cleanup_for_agent a s).1
  | step_listener t w s s' : run_tcp_proxy t w s = Some s' → step s s'.

Definition holders (s : TcpProxyRegistry) : list nat :=
  map (λ ke, cancel ke.2) (map_to_list (inner s)) ++
  map (λ ke, cancel ke.2) (registering s).

(** The tokens [hs] still in someone's hands: each once, none cancelled; a
    loop whose token is not cancelled has it in someone's hands. *)
Record good (hs : list nat) (s : TcpProxyRegistry) : Prop := {
  good_nodup : NoDup hs;
  good_live : ∀ t, t ∈ hs → t ∉ cancelled s ∧ (t < next_token s)%nat;
  good_cancelled : ∀ t, t ∈ cancelled s → (t < next_token s)%nat;
  good_listeners : ∀ t, is_Some (listeners s !! t) →
    (t < next_token s)%nat ∧ (t ∈ cancelled s ∨ t ∈ hs);
}.

Definition inv (s : TcpProxyRegistry) : Prop := good (holders s) s.

Lemma good_perm hs hs' s s' :
  good hs s → hs ≡ₚ hs' → cancelled s' = cancelled s → next_token s' = next_token s →
  listeners s' = listeners s → good hs' s'.
Proof.
  intros [Hn Hl Hc Hs] Hp E1 E2 E3. split.
  - by rewrite <-Hp.
  - intros t. rewrite <-Hp, E1, E2. apply Hl.
  - rewrite E1, E2. done.
  - intros t. rewrite E1, E2, E3, <-Hp. apply Hs.
Qed.

(** Cancelling a held token lets go of it. *)
Lemma good_cancel t hs s s' :
  good (t :: hs) s → cancelled s' = {[t]} ∪ cancelled s → next_token s' = next_token s →
  listeners s' = listeners s → good hs s'.
Proof.
  intros [Hn Hl Hc Hs] E1 E2 E3. apply NoDup_cons in Hn as [Hni Hn]. split.
  - done.
  - intros u Hu. rewrite E1, E2, not_elem_of_union, not_elem_of_singleton.
    destruct (Hl u) as [? ?]; [by apply list_elem_of_further|].
    split; [split; [by intros ->|done]|done].
  - intros u. rewrite E1, E2. intros [->%elem_of_singleton|Hu]%elem_of_union; [|auto].
    apply Hl, list_elem_of_here.
  - intros u Hu. rewrite E1, E2, elem_of_union, elem_of_singleton. rewrite E3 in Hu.
    destruct (Hs u Hu) as [? [?|[->|?]%elem_of_cons]]; auto.
Qed.

Lemma holders_inner_delete s key e :
  inner s !! key = Some e →
  map (λ ke : (string * string) * TcpProxyEntry, cancel ke.2) (map_to_list (inner s)) ≡ₚ
  cancel e :: map (λ ke, cancel ke.2) (map_to_list (delete key (inner s))).
Proof. intros H. by rewrite <-(map_to_list_delete _ _ _ H). Qed.

Lemma good_remove extra key s :
  good (extra ++ holders s) s →
  good (extra ++ holders (remove_cancel key s).1) (remove_cancel key s).1.
Proof.
  intros H. unfold remove_cancel. destruct (inner s !! key) as [old|] eqn:E; [|done].
  cbn [fst]. eapply (good_cancel (cancel old) _ s); [|done..].
  eapply good_perm; [exact H| |done..]. unfold holders; cbn [inner registering].
  rewrite (holders_inner_delete _ _ _ E), <-app_comm_cons.
  by rewrite <-Permutation_middle.
Qed.

Lemma remove_cancel_gone key s : inner (remove_cancel key s).1 !! key = None.
Proof.
  unfold remove_cancel. destruct (inner s !! key) eqn:E; cbn; [|done].
  apply lookup_delete_eq.
Qed.

Lemma inv_cleanup l s : inv s → inv (foldl (λ s k, (remove_cancel k s).1) s l).
Proof.
  revert s. induction l as [|k l IH]; intros s H; [done|]. by apply IH, (good_remove []).
Qed.

(** Moving a call's entry into the map. *)
Lemma inv_register_insert i s s' addr :
  register_insert i s = Some (s', addr) → inv s → inv s'.
Proof.
  unfold register_insert. intros H Hi.
  destruct (registering s !! i) as [[key e]|] eqn:Ei; [|done]. cbn in H. injection H as <- _.
  set (s1 := mkTcp (inner s) _ _ (delete i _) _ _).
  assert (good ([cancel e] ++ holders s1) s1) as H1.
  { eapply good_perm; [exact Hi| |done..]. unfold holders, s1; cbn.
    rewrite (delete_Permutation _ _ _ Ei) at 1. cbn. by rewrite <-Permutation_middle. }
  apply (good_remove _ key) in H1. pose proof (remove_cancel_gone key s1) as Hg.
  eapply good_perm; [exact H1| |done..].
  unfold holders, insert_entry; cbn [inner registering].
  by rewrite (map_to_list_insert _ _ _ Hg).
Qed.

Lemma inv_register_bind a n up b s : inv s → inv (register_bind a n up b s).1.
Proof.
  intros [Hn Hl Hc Hs]. destruct b as [addr|]; [|done]. cbn [register_bind fst].
  assert (next_token s ∉ holders s) as Hf.
  { intros Hin. destruct (Hl _ Hin) as [_ ?]. lia. }
  unfold inv. eapply (good_perm (next_token s :: holders s)); [| |done..].
  2: { unfold holders; cbn. rewrite map_app. cbn.
       by rewrite app_assoc, <-Permutation_cons_append. }
  split; cbn.
  - by apply NoDup_cons.
  - intros t [->|Ht]%elem_of_cons.
    + split; [intros Hin; apply Hc in Hin; lia|lia].
    + destruct (Hl t Ht). split; [done|lia].
  - intros t Ht. apply Hc in Ht. lia.
  - intros t. destruct (decide (t = next_token s)) as [->|Hne].
    + split; [lia|]. right. apply list_elem_of_here.
    + rewrite lookup_insert_ne by done. intros Ht. destruct (Hs t Ht) as [? [?|?]];
        (split; [lia|]); [by left|right; by apply list_elem_of_further].
Qed.

Lemma inv_end_listener t s : inv s → inv (end_listener t s).
Proof.
  intros [Hn Hl Hc Hs]. split; cbn; try done. intros u Hu. apply Hs.
  destruct Hu as [l [_ Hu]%lookup_delete_Some]. by exists l.
Qed.

Lemma tcp_inv_step s s' : inv s → step s s' → inv s'.
Proof.
  intros Hi. destruct 1 as [a n up b s|i s s' addr H|a n s|a s|t w s s' H].
  - by apply inv_register_bind.
  - by eapply inv_register_insert.
  - by apply (good_remove []).
  - by apply inv_cleanup.
  - unfold run_tcp_proxy in H. destruct (listeners s !! t); [|done]. cbn in H.
    destruct w; [|injection H as <-; by apply inv_end_listener|case_decide; [|done];
      injection H as <-; by apply inv_end_listener].
    injection H as <-. destruct Hi as [Hn Hl Hc Hs]. by split.
Qed.

Lemma tcp_inv_new : inv TcpProxyRegistry_new.
Proof.
  split; cbn.
  - unfold holders; cbn. rewrite map_to_list_empty. constructor.
  - unfold holders; cbn. rewrite map_to_list_empty. by intros t ?%not_elem_of_nil.
  - by intros t ?%not_elem_of_empty.
  - intros t. rewrite lookup_empty. by intros [].
Qed.

(** C35: No accept loop is leaked and none is stopped early: in every state the
    operations of the TCP registry and its accept loops can reach, in any
    interleaving, and whenever no [register] call is between its bind and
    its insert, an accept loop that is still running has not been cancelled
    exactly when some (agent, name) is registered with its token, and that
    registration is unique. *)
Theorem tcp_listeners_registered s :
  rtc step TcpProxyRegistry_new s → registering s = [] →
  ∀ t, is_Some (listeners s !! t) →
    (t ∉ cancelled s ↔ ∃ key e, inner s !! key = Some e ∧ cancel e = t) ∧
    (∀ k1 k2 e1 e2, inner s !! k1 = Some e1 → inner s !! k2 = Some e2 →
       cancel e1 = t → cancel e2 = t → k1 = k2).
Proof.
  intros Hr He t Ht.
  assert (inv s) as [Hn Hl Hc Hs].
  { eapply (rtc_invariant step inv); [apply tcp_inv_step|apply tcp_inv_new|done]. }
  unfold holders in *. rewrite He, app_nil_r in Hn, Hl, Hs.
  assert (∀ key e, inner s !! key = Some e → cancel e ∈
    map (λ ke : (string * string) * TcpProxyEntry, cancel ke.2) (map_to_list (inner s)))
    as Hin.
  { intros key e H. apply list_elem_of_fmap. exists (key, e). split; [done|].
    by apply elem_of_map_to_list. }
  split; [split|].
  - intros Hc'. destruct (Hs t Ht) as [_ [?|H]]; [done|].
    apply list_elem_of_fmap in H as ([key e] & -> & H%elem_of_map_to_list). by exists key, e.
  - intros (key & e & H & <-). by apply (Hl _ (Hin _ _ H)).
  - intros k1 k2 e1 e2 H1 H2 E1 E2.
    destruct (decide (k1 = k2)) as [|Hne]; [done|]. exfalso.
    assert (delete k1 (inner s) !! k2 = Some e2) as H2' by by rewrite lookup_delete_ne.
    rewrite (holders_inner_delete _ _ _ H1) in Hn.
    apply NoDup_cons in Hn as [Hn _]. apply Hn, list_elem_of_fmap.
    exists (k2, e2). split; [by rewrite E1|]. by apply elem_of_map_to_list.
Qed.

Definition two_registered : TcpProxyRegistry :=
  let s := (register_bind "a" "rdp" "10.0.0.1:3389" (Ok "127.0.0.1:4001")
              TcpProxyRegistry_new).1 in
  let s := default s (fst <$> register_insert 0 s) in
  let s := (register_bind "a" "rdp" "10.0.0.2:3389" (Ok "127.0.0.1:4002") s).1 in
  default s (fst <$> register_insert 0 s).

Lemma two_registered_reachable : rtc step TcpProxyRegistry_new two_registered.
Proof.
  eapply rtc_l; [apply (step_bind "a" "rdp" "10.0.0.1:3389" (Ok "127.0.0.1:4001"))|].
  eapply rtc_l; [eapply (step_insert 0); reflexivity|].
  eapply rtc_l; [apply (step_bind "a" "rdp" "10.0.0.2:3389" (Ok "127.0.0.1:4002"))|].
  eapply rtc_l; [eapply (step_insert 0); reflexivity|].
  apply rtc_refl.
Qed.

Lemma tcp_listeners_registered_witness :
  (1 ∉ cancelled two_registered ↔
     ∃ key e, inner two_registered !! key = Some e ∧ cancel e = 1) ∧
  (∀ k1 k2 e1 e2, inner two_registered !! k1 = Some e1 → inner two_registered !! k2 = Some e2 →
     cancel e1 = 1 → cancel e2 = 1 → k1 = k2).
Proof.
  apply (tcp_listeners_registered two_registered).
  - apply two_registered_reachable.
  - reflexivity.
  - exists (mkListener "10.0.0.2:3389" "a/rdp"). vm_compute. reflexivity.
Defined.
End TcpProxy.

(** * Forwarding a request

    [reqwest] and the HTTP server are third-party: a request builder is a value
    of type [RB] with the operations the handler calls, and [send] answers it. *)

Module ProxyServer.
Import ProxyRegistry.

Abbreviation headers := (list (string * string)) (only parsing).

(** A request as the HTTP server hands it over: [rq_body] is what buffering
    its body gives. *)
Record Request := mkRequest {
  rq_method : string;
  rq_query : option string;
  rq_headers : headers;
  rq_body : result bytes string;
}.

Record Response := mkResponse {
  rs_status : Z;
  rs_headers : headers;
  rs_body : bytes;
}.

(* @src crates/nexal-gateway/src/proxy/server.rs build_upstream_url *)
Definition build_upstream_url (upstream rest : string) (query : option string)
    : result string string :=
  let base := trim_end_matches "/" upstream in
  let path := if decide (rest = "") then ""
              else if starts_with "/" rest then rest
              else "/" +:+ rest in
  let out := base +:+ path in
  Ok (match query with Some q => out +:+ "?" +:+ q | None => out end).

(* @src crates/nexal-gateway/src/proxy/server.rs is_hop_by_hop *)
Definition is_hop_by_hop (name : string) : bool :=
  bool_decide (string_map to_ascii_lowercase name ∈
    ["connection"; "keep-alive"; "proxy-authenticate"; "proxy-authorization"; "te";
     "trailers"; "transfer-encoding"; "upgrade"; "content-length"]).

(** Plain-text responses. *)
Definition text (s : string) : bytes := String.list_byte_of_string s.

Section forward.
Context {RB : Type}
  (request : string → string → RB)       (* [Client::request] *)
  (set_body : bytes → RB → RB)
  (header : string → string → RB → RB)
  (send : RB → result Response string)
  (iter : gmap string string → headers).  (* iteration order of a [HashMap] *)

(* @src crates/nexal-gateway/src/proxy/server.rs forward "// Carry over caller headers" .. "let upstream_resp" *)
Definition build_request (entry : ProxyEntry) (url : string) (body : bytes)
    (req : Request) : RB :=
  let b := set_body body (request (rq_method req) url) in
  let b := foldl (λ b kv,
             if is_hop_by_hop kv.1 then b
             else if decide (kv.1 = "host") then b
             else header kv.1 kv.2 b) b (rq_headers req) in
  foldl (λ b kv, header kv.1 kv.2 b) b (iter (px_headers entry)).

(* @src crates/nexal-gateway/src/proxy/server.rs forward *)
Definition forward (token rest : string) (registry : Inner) (req : Request) : Response :=
  match lookup token registry with
  | None => mkResponse 404 [] (text "unknown proxy token")
  | Some entry =>
      match build_upstream_url (px_upstream_url entry) rest (rq_query req) with
      | Err err => mkResponse 400 [] (text ("bad upstream url: " +:+ err))
      | Ok target_url =>
          match rq_body req with
          | Err err => mkResponse 400 [] (text ("body read: " +:+ err))
          | Ok body_bytes =>
              match send (build_request entry target_url body_bytes req) with
              | Err err => mkResponse 502 [] (text ("upstream: " +:+ err))
              | Ok up => mkResponse (rs_status up)
                  (filter (λ kv, is_hop_by_hop kv.1 = false) (rs_headers up)) (rs_body up)
              end
          end
      end
  end.

(* @src crates/nexal-gateway/src/proxy/server.rs handle_root *)
Definition handle_root (token : string) (registry : Inner) (req : Request) : Response :=
  forward token "" registry req.

(* @src crates/nexal-gateway/src/proxy/server.rs handle *)
Definition handle (token rest : string) (registry : Inner) (req : Request) : Response :=
  forward token rest registry req.

(** What the caller's own headers become. *)
Definition passes (kv : string * string) : Prop :=
  is_hop_by_hop kv.1 = false ∧ kv.1 ≠ "host".

#[local] Instance passes_dec kv : Decision (passes kv).
Proof. unfold passes. apply _. Defined.

Section headers_of.
(** The header list of a built request; [RequestBuilder::header] adds one
    at its end. *)
Context (hs : RB → headers).
Hypothesis hs_request : ∀ m u b, hs (set_body b (request m u)) = [].
Hypothesis hs_header : ∀ k v b, hs (header k v b) = hs b ++ [(k, v)].

Lemma hs_foldl l b : hs (foldl (λ b kv, header kv.1 kv.2 b) b l) = hs b ++ l.
Proof.
  revert b. induction l as [|[k v] l IH]; intros b; cbn; [by rewrite app_nil_r|].
  by rewrite IH, hs_header, <-app_assoc.
Qed.

Lemma hs_carry l b :
  hs (foldl (λ b kv, if is_hop_by_hop kv.1 then b
                     else if decide (kv.1 = "host") then b
                     else header kv.1 kv.2 b) b l) = hs b ++ filter passes l.
Proof.
  revert b. induction l as [|[k v] l IH]; intros b; cbn [foldl]; [by rewrite app_nil_r|].
  rewrite IH, filter_cons. cbn [fst snd].
  destruct (decide (passes (k, v))) as [[H1 H2]|H]; cbn [fst] in *.
  - by rewrite H1, decide_False, hs_header, <-app_assoc by done.
  - destruct (is_hop_by_hop k) eqn:Eh; [done|].
    destruct (decide (k = "host")); [done|]. by destruct H.
Qed.

Lemma build_request_headers entry url body req :
  hs (build_request entry url body req)
  = filter passes (rq_headers req) ++ iter (px_headers entry).
Proof. unfold build_request. by rewrite hs_foldl, hs_carry, hs_request. Qed.

(** Method, url and body of a built request. *)
Context (target : RB → string * string * bytes).
Hypothesis target_request : ∀ m u b, target (set_body b (request m u)) = (m, u, b).
Hypothesis target_header : ∀ k v b, target (header k v b) = target b.

Lemma build_request_target entry url body req :
  target (build_request entry url body req) = (rq_method req, url, body).
Proof.
  unfold build_request. rewrite <-(target_request (rq_method req) url body).
  set (b := set_body body _). clearbody b.
  assert (∀ l b, target (foldl (λ b kv, header kv.1 kv.2 b) b l) = target b) as H.
  { induction l as [|kv l IH]; intros b'; cbn; [done|]. by rewrite IH. }
  rewrite H. clear H. revert b. induction (rq_headers req) as [|[k v] l IH]; intros b; [done|].
  cbn [foldl fst snd]. rewrite IH. destruct (is_hop_by_hop k); [done|].
  by destruct (decide (k = "host")).
Qed.

(** The url appends to the upstream a path, a query or nothing: it cannot
    change the upstream's host. *)
Definition extends (base url : string) : Prop :=
  ∃ tail, url = base +:+ tail ∧
    (tail = "" ∨ starts_with "/" tail = true ∨ starts_with "?" tail = true).

Lemma build_upstream_url_extends upstream rest query url :
  build_upstream_url upstream rest query = Ok url →
  extends (trim_end_matches "/" upstream) url.
Proof.
  unfold build_upstream_url, extends. intros [= <-].
  set (base := trim_end_matches _ _). set (path := if decide _ then _ else _).
  assert (path = "" ∨ starts_with "/" path = true) as Hp.
  { unfold path. case_decide; [by left|]. right.
    destruct (starts_with "/" rest) eqn:E; [done|]. reflexivity. }
  destruct query as [q|].
  - exists (path +:+ "?" +:+ q). split; [by rewrite string_app_assoc|].
    destruct Hp as [->|Hp]; [by right; right|]. right; left.
    by apply starts_with_app.
  - exists path. destruct Hp; auto.
Qed.

(** A request under a registered token reaches the upstream with the
    caller's method and body, at the registered url extended by a path or
    a query only, with the caller's headers less the hop-by-hop ones and
    [host], in order, followed by every registered header; the caller
    gets the upstream's status, body and headers less the hop-by-hop
    ones, or a 502 when sending failed. *)
Theorem forward_registered token rest registry req entry body :
  lookup token registry = Some entry → rq_body req = Ok body →
  ∃ b url, target b = (rq_method req, url, body) ∧
    extends (trim_end_matches "/" (px_upstream_url entry)) url ∧
    hs b = filter passes (rq_headers req) ++ iter (px_headers entry) ∧
    forward token rest registry req =
      match send b with
      | Err err => mkResponse 502 [] (text ("upstream: " +:+ err))
      | Ok up => mkResponse (rs_status up)
          (filter (λ kv, is_hop_by_hop kv.1 = false) (rs_headers up)) (rs_body up)
      end.
Proof.
  intros Hl Hb. unfold forward. rewrite Hl.
  destruct (build_upstream_url _ _ _) as [url|] eqn:Eu; [|done].
  rewrite Hb. exists (build_request entry url body req), url.
  split_and!; [apply build_request_target|by eapply build_upstream_url_extends|
               apply build_request_headers|done].
Qed.

(** A registered header does not override the caller's: when the
    caller sends a header of the same name, the request that goes
    upstream carries both values, the caller's first. *)
Theorem caller_header_survives entry url body req k caller registered :
  (k, caller) ∈ rq_headers req → is_hop_by_hop k = false → k ≠ "host" →
  (k, registered) ∈ iter (px_headers entry) →
  ∃ before between after,
    hs (build_request entry url body req)
    = before ++ (k, caller) :: between ++ (k, registered) :: after.
Proof.
  intros Hc Hh Hn Hr. rewrite build_request_headers.
  assert ((k, caller) ∈ filter passes (rq_headers req)) as Hc'.
  { by apply list_elem_of_filter. }
  apply list_elem_of_split in Hc' as (b1 & b2 & ->).
  apply list_elem_of_split in Hr as (a1 & a2 & ->).
  exists b1, (b2 ++ a1), a2. by rewrite <-!app_assoc.
Qed.
End headers_of.
End forward.

(** ** Witnesses: a request builder that keeps what it is given *)

Record Built := mkBuilt { bu_method : string; bu_url : string; bu_body : bytes; bu_headers : headers }.

Definition bu_request m u := mkBuilt m u [] [].
Definition bu_set_body b r := mkBuilt (bu_method r) (bu_url r) b (bu_headers r).
Definition bu_header k v r :=
  mkBuilt (bu_method r) (bu_url r) (bu_body r) (bu_headers r ++ [(k, v)]).
Definition bu_target r := (bu_method r, bu_url r, bu_body r).
Definition bu_send (r : Built) : result Response string := Ok (mkResponse 200 (bu_headers r) []).
Definition bu_iter (m : gmap string string) : headers := map_to_list m.

Definition sample_registry : Inner :=
  (register "tok" "a" "jina" "https://api.jina.ai/"
     {["authorization" := "Bearer real"]} ProxyRegistry_new).1.

Definition sample_entry : ProxyEntry :=
  mkProxyEntry "a" "jina" "https://api.jina.ai/" {["authorization" := "Bearer real"]} "tok".

Definition sample_request : Request :=
  mkRequest "GET" (Some "q=1")
    [("host", "gw"); ("authorization", "Bearer fake"); ("te", "x")] (Ok []).

Lemma forward_registered_witness :
  ∃ b url, bu_target b = ("GET", url, []) ∧
    extends (trim_end_matches "/" "https://api.jina.ai/") url ∧
    bu_headers b = filter passes (rq_headers sample_request) ++ bu_iter (px_headers sample_entry) ∧
    forward bu_request bu_set_body bu_header bu_send bu_iter "tok" "v1" sample_registry
      sample_request =
      match bu_send b with
      | Err err => mkResponse 502 [] (text ("upstream: " +:+ err))
      | Ok up => mkResponse (rs_status up)
          (filter (λ kv, is_hop_by_hop kv.1 = false) (rs_headers up)) (rs_body up)
      end.
Proof.
  apply (forward_registered bu_request bu_set_body bu_header bu_send bu_iter bu_headers
           (λ _ _ _, eq_refl) (λ _ _ _, eq_refl) bu_target (λ _ _ _, eq_refl)
           (λ _ _ _, eq_refl) "tok" "v1" sample_registry sample_request sample_entry []);
    vm_compute; reflexivity.
Defined.

Lemma caller_header_survives_witness :
  ∃ before between after,
    bu_headers (build_request bu_request bu_set_body bu_header bu_iter sample_entry
                  "https://api.jina.ai/v1" [] sample_request)
    = before ++ ("authorization", "Bearer fake") :: between ++
        ("authorization", "Bearer real") :: after.
Proof.
  apply (caller_header_survives bu_request bu_set_body bu_header bu_iter bu_headers
           (λ _ _ _, eq_refl) (λ _ _ _, eq_refl) sample_entry "https://api.jina.ai/v1" []
           sample_request).
  - apply (bool_decide_unpack _). vm_compute. exact I.
  - vm_compute. reflexivity.
  - done.
  - apply (bool_decide_unpack _). vm_compute. exact I.
Defined.
End ProxyServer.
