(* ===== verification/AgentConn.v ===== *)
(** The gateway's connection to one in-container agent
    ([nexal-gateway/src/agent_conn.rs]).

    A connection is shared by its callers, the reader task, the tasks that
    answer the agent's own requests, and [close].  [Conn] holds what they
    share; [call] says where an [invoke] is between two of its awaits; [step]
    advances one of them by one lock section or send. *)
From S2P Require Import Prelude Wire Methods.

(** * Data *)

(* @src crates/nexal-gateway/src/agent_conn.rs AgentConnError *)
Inductive AgentConnError :=
  | Connect (m : string)
  | Send (m : string)
  | Closed
  | AgentError (code : Z) (message : string)
  | BadFrame (m : string).

(* @src crates/nexal-gateway/src/agent_conn.rs AgentNotification *)
Record AgentNotification := mkAgentNotification {
  an_method : string;
  an_params : option Value;
}.

(** [impl From<AgentConnError> for JsonRpcError] *)
(* @src crates/nexal-gateway/src/agent_conn.rs from *)
Definition JsonRpcError_from (e : AgentConnError) : JsonRpcError :=
  match e with
  | AgentError code message => mkJsonRpcError code message None
  | Closed => mkJsonRpcError (-32000) "agent connection closed" None
  | Connect m => mkJsonRpcError (-32020) ("agent connect: " +:+ m) None
  | Send m => mkJsonRpcError (-32020) ("agent send: " +:+ m) None
  | BadFrame m => mkJsonRpcError (-32603) ("agent frame: " +:+ m) None
  end.

(* @src crates/nexal-gateway/src/agent_conn.rs map_get *)
Definition conn_map_get (v : Value) (key : string) : option Value :=
  m ← as_map v;
  snd <$> find_map (λ kv : Value * Value,
                      if decide (as_str kv.1 = Some key) then Some kv else None) m.

(** [code as i32] keeps the low 32 bits. *)
(* @src crates/nexal-gateway/src/agent_conn.rs agent_error_code *)
Definition agent_error_code (err : Value) : Z :=
  match conn_map_get err "code" ≫= as_i64 with
  | Some code => wrap_i32 code
  | None =>
      match conn_map_get err "kind" ≫= as_str with
      | Some kind =>
          if decide (kind = "parse") then error_code.PARSE_ERROR
          else if decide (kind = "invalid_request") then error_code.INVALID_REQUEST
          else if decide (kind = "method_not_found") then error_code.METHOD_NOT_FOUND
          else if decide (kind = "invalid_params") then error_code.INVALID_PARAMS
          else if decide (kind = "internal") then error_code.INTERNAL_ERROR
          else error_code.INTERNAL_ERROR
      | None => error_code.INTERNAL_ERROR
      end
  end.

(* @src crates/nexal-gateway/src/agent_conn.rs msgpack_map_str *)
Definition msgpack_map_str (pairs : list (string * string)) : Value :=
  VMap (map (λ kv, (VStr kv.1, VStr kv.2)) pairs).

(* @src crates/nexal-gateway/src/agent_conn.rs build_rpc_request *)
Definition build_rpc_request (id : Z) (method : string) (params : Value) : Value :=
  VMap [(VStr "id", VInt id); (VStr "method", VStr method); (VStr "params", params)].

(* @src crates/nexal-gateway/src/agent_conn.rs build_rpc_notification *)
Definition build_rpc_notification (method : string) (params : Value) : Value :=
  VMap [(VStr "method", VStr method); (VStr "params", params)].

(** A call is known by a number; its [oneshot] by the same number. *)
Abbreviation CallId := nat (only parsing).

Abbreviation Answer := (result Value AgentConnError) (only parsing).

Inductive reader_state :=
  | Reading
  | MarkClosed     (* [run_reader] returned *)
  | Draining       (* [closed] is set, [drain_pending] is next *)
  | ReaderDone
  | Aborted.

(** Where an [invoke] stands. *)
Inductive call :=
  | Opened (method : string) (params : Value)           (* saw [closed = false] *)
  | Numbered (id : Z) (method : string) (params : Value)
  | Registered (id : Z) (method : string) (params : Value)
  | Waiting (id : Z)
  | Returned (a : Answer).

(** The handler tasks spawned for the agent's own requests. *)
Record HandlerTask := mkHandlerTask {
  ht_id : Value;
  ht_method : string;
  ht_params : option Value;
}.

(* @src crates/nexal-gateway/src/agent_conn.rs AgentConn *)
Record Conn := mkConn {
  pending : gmap Z CallId;
  next_id : Z;
  closed : bool;
  reader : reader_state;
  writer_open : bool;
  written : list Value;
  notified : list AgentNotification;
  handling : list HandlerTask;
  calls : gmap CallId call;
  resolved : gmap CallId Answer;
  draining_close : bool;
}.

(* @src crates/nexal-gateway/src/agent_conn.rs connect "let pending: Arc<Mutex<Pending>>" .. "let write_tx_for_reader" *)
Definition Conn_new : Conn := mkConn ∅ 1 false Reading true [] [] [] ∅ ∅ false.

Definition set_pending f (c : Conn) : Conn :=
  mkConn (f (pending c)) (next_id c) (closed c) (reader c) (writer_open c) (written c)
    (notified c) (handling c) (calls c) (resolved c) (draining_close c).
Definition set_next_id n (c : Conn) : Conn :=
  mkConn (pending c) n (closed c) (reader c) (writer_open c) (written c)
    (notified c) (handling c) (calls c) (resolved c) (draining_close c).
Definition set_closed (c : Conn) : Conn :=
  mkConn (pending c) (next_id c) true (reader c) (writer_open c) (written c)
    (notified c) (handling c) (calls c) (resolved c) (draining_close c).
Definition set_reader r (c : Conn) : Conn :=
  mkConn (pending c) (next_id c) (closed c) r (writer_open c) (written c)
    (notified c) (handling c) (calls c) (resolved c) (draining_close c).
Definition set_writer b (c : Conn) : Conn :=
  mkConn (pending c) (next_id c) (closed c) (reader c) b (written c)
    (notified c) (handling c) (calls c) (resolved c) (draining_close c).
Definition write v (c : Conn) : Conn :=
  mkConn (pending c) (next_id c) (closed c) (reader c) (writer_open c) (written c ++ [v])
    (notified c) (handling c) (calls c) (resolved c) (draining_close c).
Definition notify_frontend n (c : Conn) : Conn :=
  mkConn (pending c) (next_id c) (closed c) (reader c) (writer_open c) (written c)
    (notified c ++ [n]) (handling c) (calls c) (resolved c) (draining_close c).
Definition set_handling l (c : Conn) : Conn :=
  mkConn (pending c) (next_id c) (closed c) (reader c) (writer_open c) (written c)
    (notified c) l (calls c) (resolved c) (draining_close c).
Definition set_call k s (c : Conn) : Conn :=
  mkConn (pending c) (next_id c) (closed c) (reader c) (writer_open c) (written c)
    (notified c) (handling c) (<[k := s]> (calls c)) (resolved c) (draining_close c).
(** [tx.send(answer)] *)
Definition resolve k (a : Answer) (c : Conn) : Conn :=
  mkConn (pending c) (next_id c) (closed c) (reader c) (writer_open c) (written c)
    (notified c) (handling c) (calls c) (<[k := a]> (resolved c)) (draining_close c).
Definition set_draining b (c : Conn) : Conn :=
  mkConn (pending c) (next_id c) (closed c) (reader c) (writer_open c) (written c)
    (notified c) (handling c) (calls c) (resolved c) b.

(** * Frames from the agent *)

(** The answer a response frame carries. *)
(* @src crates/nexal-gateway/src/agent_conn.rs dispatch_frame "if let Some(err) = map_get(&value" .. "tx.send(Ok(result));" *)
Definition frame_answer (value : Value) : Answer :=
  match conn_map_get value "error" with
  | Some err =>
      Err (AgentError (agent_error_code err)
             (default "agent error" (conn_map_get err "message" ≫= as_str)))
  | None => Ok (default VNil (conn_map_get value "result"))
  end.

(** The pending call a frame is the response to: it has a [u64] id, no
    method, and the id is outstanding. *)
(* @src crates/nexal-gateway/src/agent_conn.rs dispatch_frame "if map_get(&value" .. "if let Some(tx) = map.remove(&id)" *)
Definition frame_reply_to (value : Value) (c : Conn) : option (Z * CallId) :=
  match conn_map_get value "method" with
  | Some _ => None
  | None =>
      id ← conn_map_get value "id" ≫= as_u64;
      k ← pending c !! id;
      Some (id, k)
  end.

(* @src crates/nexal-gateway/src/agent_conn.rs dispatch_frame *)
Definition dispatch_frame (has_handler : bool) (value : Value) (c : Conn)
    : Conn * result unit AgentConnError :=
  match frame_reply_to value c with
  | Some (id, k) => (resolve k (frame_answer value) (set_pending (delete id) c), Ok tt)
  | None =>
      let as_notification :=
        match conn_map_get value "method" ≫= as_str with
        | None => (c, Err (BadFrame "notification missing method"))
        | Some method =>
            (notify_frontend (mkAgentNotification method (conn_map_get value "params")) c, Ok tt)
        end in
      match conn_map_get value "id" with
      | Some id =>
          if has_handler then
            (set_handling (handling c ++
               [mkHandlerTask id (default "" (conn_map_get value "method" ≫= as_str))
                  (conn_map_get value "params")]) c, Ok tt)
          else as_notification
      | None => as_notification
      end
  end.

(** The frame that answers an agent's request. *)
(* @src crates/nexal-gateway/src/agent_conn.rs dispatch_frame "let response = match result" .. "let _ = write_tx.send(response).await" *)
Definition handler_response (id : Value) (r : result Value string) : Value :=
  match r with
  | Ok val => VMap [(VStr "id", id); (VStr "result", val)]
  | Err msg =>
      VMap [(VStr "id", id);
            (VStr "error", VMap [(VStr "code", VInt (-32603)); (VStr "message", VStr msg)])]
  end.

(* @src crates/nexal-gateway/src/agent_conn.rs drain_pending *)
Definition drain_pending (c : Conn) : Conn :=
  set_pending (λ _, ∅)
    (foldr (λ k c, resolve k (Err Closed) c) c (map_to_list (pending c)).*2).

(** * Steps *)

Inductive event := EMessage (v : Value) | EMalformed (reason : string) | EDisconnected.

Inductive label :=
  | LInvoke (k : CallId) (method : string) (params : option Value)
  | LCall (k : CallId)
  | LEvent (e : event)
  | LReader
  | LHandled (i : nat)
  | LNotify (method : string) (params : Value)
  | LWriterStops
  | LClose
  | LCloseDrain.

(** The next section of an [invoke]. *)
(* @src crates/nexal-gateway/src/agent_conn.rs invoke *)
Definition invoke_step (k : CallId) (s : call) (c : Conn) : option Conn :=
  match s with
  | Opened method params =>
      let v := next_id c in
      Some (set_call k (Numbered v method params) (set_next_id (wrap_u64 (v + 1)) c))
  | Numbered id method params =>
      Some (set_call k (Registered id method params) (set_pending (<[id := k]>) c))
  | Registered id method params =>
      if writer_open c then
        Some (set_call k (Waiting id) (write (build_rpc_request id method params) c))
      else Some (set_call k (Returned (Err Closed)) c)
  | Waiting id =>
      match resolved c !! k with
      | Some a => Some (set_call k (Returned a) c)
      | None => None
      end
  | Returned _ => None
  end.

(* @src crates/nexal-gateway/src/agent_conn.rs invoke "if *self.closed.lock().await" .. "let id = {" *)
Definition invoke_open (k : CallId) (method : string) (params : option Value) (c : Conn)
    : option Conn :=
  match calls c !! k with
  | Some _ => None
  | None =>
      if closed c then Some (set_call k (Returned (Err Closed)) c)
      else Some (set_call k (Opened method (default VNil params)) c)
  end.

(* @src crates/nexal-gateway/src/agent_conn.rs run_reader *)
Definition reader_event (has_handler : bool) (e : event) (c : Conn) : Conn :=
  match e with
  | EMessage value => (dispatch_frame has_handler value c).1
  | EMalformed _ => c
  | EDisconnected => set_reader MarkClosed c
  end.

(* @src crates/nexal-gateway/src/agent_conn.rs notify *)
Definition notify (method : string) (params : Value) (c : Conn) : Conn * Answer :=
  if writer_open c then (write (build_rpc_notification method params) c, Ok VNil)
  else (c, Err Closed).

(** [close] up to its drain: a reader past its last await is not cut short. *)
(* @src crates/nexal-gateway/src/agent_conn.rs AgentConn::close *)
Definition close_begin (c : Conn) : Conn :=
  set_draining true (set_writer false
    (set_reader (match reader c with ReaderDone => ReaderDone | _ => Aborted end)
       (set_closed c))).

(** The spawned reader after [run_reader] returned. *)
(* @src crates/nexal-gateway/src/agent_conn.rs connect "let reader = tokio::spawn" .. "});" *)
Definition reader_finish (c : Conn) : option Conn :=
  match reader c with
  | MarkClosed => Some (set_reader Draining (set_closed c))
  | Draining => Some (set_reader ReaderDone (drain_pending c))
  | _ => None
  end.

Section step.
Context (handler : option (string → option Value → result Value string)).

Definition step (l : label) (c : Conn) : option Conn :=
  match l with
  | LInvoke k method params => invoke_open k method params c
  | LCall k => s ← calls c !! k; invoke_step k s c
  | LEvent e =>
      match reader c with
      | Reading => Some (reader_event (bool_decide (is_Some handler)) e c)
      | _ => None
      end
  | LReader => reader_finish c
  | LHandled i =>
      t ← handling c !! i;
      h ← handler;
      let c := set_handling (delete i (handling c)) c in
      Some (if writer_open c
            then write (handler_response (ht_id t) (h (ht_method t) (ht_params t))) c
            else c)
  | LNotify method params => Some (notify method params c).1
  | LWriterStops => Some (set_writer false c)
  | LClose => Some (close_begin c)
  | LCloseDrain =>
      if draining_close c then Some (set_draining false (drain_pending c)) else None
  end.

Fixpoint steps (ls : list label) (c : Conn) : option Conn :=
  match ls with
  | [] => Some c
  | l :: ls' => c' ← step l c; steps ls' c'
  end.
End step.

(** What [connect] returns once the websocket is up, from the answers to the
    two handshake requests it sends. *)
(* @src crates/nexal-gateway/src/agent_conn.rs connect "let _init: Value = agent_conn" .. "Ok(agent_conn)" *)
Definition connect_handshake (client_name : string)
    (answer : string → option Value → Answer) : result unit AgentConnError :=
  _ ←? answer (AgentMethods.AgentMethod_as_str Initialize)
         (Some (msgpack_map_str [("client_name", client_name)]));
  _ ←? answer (AgentMethods.AgentMethod_as_str Initialized) None;
  Ok tt.

(** * Correlation of calls, ids and answers *)

Definition call_id (s : call) : option Z :=
  match s with
  | Numbered id _ _ | Registered id _ _ | Waiting id => Some id
  | Opened _ _ | Returned _ => None
  end.

(** The call has put its sender in [pending]. *)
Definition registered (s : call) : bool :=
  match s with Registered _ _ _ | Waiting _ => true | _ => false end.

Definition returned (s : call) : bool :=
  match s with Returned _ => true | _ => false end.

(** [n] bounds the ids drawn. *)
Record inv (n : Z) (c : Conn) : Prop := {
  inv_next : (1 ≤ next_id c ≤ n)%Z;
  inv_ids : ∀ k s id, calls c !! k = Some s → call_id s = Some id → (1 ≤ id < next_id c)%Z;
  inv_inj : ∀ k k' s s' id, calls c !! k = Some s → calls c !! k' = Some s' →
    call_id s = Some id → call_id s' = Some id → k = k';
  inv_pending : ∀ id k, pending c !! id = Some k →
    (1 ≤ id < next_id c)%Z ∧ resolved c !! k = None ∧
    ∃ s, calls c !! k = Some s ∧ (registered s = true ∧ call_id s = Some id ∨ returned s = true);
  inv_pending_inj : ∀ id id' k, pending c !! id = Some k → pending c !! id' = Some k → id = id';
  inv_registered : ∀ k s id, calls c !! k = Some s → registered s = true → call_id s = Some id →
    pending c !! id = Some k ∨ is_Some (resolved c !! k);
  inv_resolved : ∀ k, is_Some (resolved c !! k) →
    ∃ s, calls c !! k = Some s ∧ registered s || returned s = true;
}.

(** Fields the invariant does not read. *)
Lemma inv_same n c c' :
  inv n c → pending c' = pending c → next_id c' = next_id c → calls c' = calls c →
  resolved c' = resolved c → inv n c'.
Proof. intros [] E1 E2 E3 E4. by split; rewrite ?E1, ?E2, ?E3, ?E4. Qed.

Lemma inv_mono n m c : inv n c → (n ≤ m)%Z → inv m c.
Proof. intros [] ?. split; try done. lia. Qed.

Lemma inv_new : inv 1 Conn_new.
Proof. split; try done; try (by intros * []); lia. Qed.

(** A call that is not pending moves on without touching ids. *)
Lemma inv_set_call n c k s s' :
  inv n c → calls c !! k = s → (∀ id, call_id s' = Some id → s ≫= call_id = Some id) →
  (registered s' = true → ∃ s0, s = Some s0 ∧ registered s0 = true) →
  (∀ s0, s = Some s0 → registered s0 || returned s0 = true →
         (registered s' = true ∧ call_id s' = call_id s0) ∨ returned s' = true) →
  inv n (set_call k s' c).
Proof.
  intros [Hn Hi Hj Hp Hpj Hr Hs] E Hid Hreg Hkeep.
  assert (∀ k0 s0 id, <[k:=s']> (calls c) !! k0 = Some s0 → call_id s0 = Some id →
            ∃ s1, calls c !! k0 = Some s1 ∧ call_id s1 = Some id) as Hback.
  { intros k0 s0 id [[<- <-]|[Hne Hk]]%lookup_insert_Some Hc; [|eauto].
    apply Hid in Hc. apply bind_Some in Hc as (s1 & ? & ?). subst s. eauto. }
  split; cbn [set_call next_id calls pending resolved].
  - done.
  - intros k0 s0 id H1 H2. destruct (Hback _ _ _ H1 H2) as (s1 & ? & ?). eauto.
  - intros k1 k2 s1 s2 id H1 H2 H3 H4. destruct (Hback _ _ _ H1 H3) as (? & ? & ?).
    destruct (Hback _ _ _ H2 H4) as (? & ? & ?). eauto.
  - intros id k0 H. destruct (Hp _ _ H) as (? & ? & s0 & Hs0 & Hc).
    split; [done|split; [done|]].
    destruct (decide (k0 = k)) as [->|Hne]; [|rewrite lookup_insert_ne by done; eauto].
    rewrite lookup_insert_eq. eexists. split; [done|].
    destruct (Hkeep s0) as [[? Heq]|?]; [by rewrite <-E| |left|by right].
    + destruct Hc as [[Hc _]|Hc]; rewrite Hc; [done|by rewrite orb_true_r].
    + destruct Hc as [[_ Hc]|Hc]; [by rewrite Heq|].
      by destruct s0, s'.
  - done.
  - intros k0 s0 id [[<- <-]|[Hne Hk]]%lookup_insert_Some Hc Hd; [|eauto].
    destruct (Hreg Hc) as (s1 & Hs1 & Hr1). apply Hid in Hd. subst s.
    rewrite Hs1 in *. eauto.
  - intros k0 H. destruct (Hs _ H) as (s0 & Hs0 & Hc).
    destruct (decide (k0 = k)) as [->|Hne]; [|rewrite lookup_insert_ne by done; eauto].
    rewrite lookup_insert_eq. eexists. split; [done|].
    destruct (Hkeep s0) as [[He _]|He]; [by rewrite <-E|done|by rewrite He|].
    by rewrite He, orb_true_r.
Qed.

Lemma inv_resolve_frame n c id k a :
  inv n c → pending c !! id = Some k → inv n (resolve k a (set_pending (delete id) c)).
Proof.
  intros [Hn Hi Hj Hp Hpj Hr Hs] E.
  destruct (Hp _ _ E) as (_ & _ & s & Hks & Hk).
  split; cbn [resolve set_pending next_id calls pending resolved]; try done.
  - intros id' k' [Hne H]%lookup_delete_Some. destruct (Hp _ _ H) as (? & ? & ?).
    split; [done|split; [|done]]. rewrite lookup_insert_ne; [done|].
    intros <-. by destruct Hne; eapply Hpj.
  - intros id1 id2 k' [_ H1]%lookup_delete_Some [_ H2]%lookup_delete_Some. eauto.
  - intros k' s' id' H1 H2 H3. destruct (decide (k' = k)) as [->|Hne].
    + rewrite lookup_insert_eq. eauto.
    + rewrite lookup_insert_ne by done. destruct (Hr _ _ _ H1 H2 H3) as [H|H]; [|by right].
      left. apply lookup_delete_Some. split; [|done]. intros ->. by simplify_eq.
  - intros k' H. destruct (decide (k' = k)) as [->|Hne].
    + exists s. split; [done|]. destruct Hk as [[-> _]|Hk]; [done|by rewrite Hk, orb_true_r].
    + rewrite lookup_insert_ne in H by done. eauto.
Qed.

Lemma resolve_all_fields l c :
  let c' := foldr (λ k c, resolve k (Err Closed) c) c l in
  pending c' = pending c ∧ next_id c' = next_id c ∧ calls c' = calls c ∧
  reader c' = reader c ∧ draining_close c' = draining_close c ∧ closed c' = closed c.
Proof. induction l as [|k l IH]; cbn; [done|]. by destruct_and! IH. Qed.

Lemma resolve_all_resolved l c k :
  resolved (foldr (λ k c, resolve k (Err Closed) c) c l) !! k
  = if decide (k ∈ l) then Some (Err Closed) else resolved c !! k.
Proof.
  induction l as [|k' l IH]; cbn.
  - by rewrite decide_False by apply not_elem_of_nil.
  - destruct (decide (k = k')) as [->|Hne].
    + rewrite lookup_insert_eq, decide_True; [done|apply list_elem_of_here].
    + rewrite lookup_insert_ne, IH by done.
      destruct (decide (k ∈ l)) as [Hin|Hin].
      * rewrite decide_True; [done|by apply list_elem_of_further].
      * rewrite decide_False; [done|]. by intros [->|?]%elem_of_cons.
Qed.

Lemma pending_values c k : k ∈ (map_to_list (pending c)).*2 ↔ ∃ id, pending c !! id = Some k.
Proof.
  rewrite list_elem_of_fmap. split.
  - intros ([id k'] & -> & H%elem_of_map_to_list). by exists id.
  - intros [id H]. exists (id, k). split; [done|]. by apply elem_of_map_to_list.
Qed.

(** Draining answers [Closed] to exactly the pending calls. *)
Lemma drain_resolved c k :
  resolved (drain_pending c) !! k
  = if decide (k ∈ (map_to_list (pending c)).*2) then Some (Err Closed) else resolved c !! k.
Proof. apply resolve_all_resolved. Qed.

Lemma drain_calls c : calls (drain_pending c) = calls c.
Proof. by pose proof (resolve_all_fields (map_to_list (pending c)).*2 c) as (_ & _ & ? & _). Qed.

Lemma inv_drain n c : inv n c → inv n (drain_pending c).
Proof.
  intros [Hn Hi Hj Hp Hpj Hr Hs].
  destruct (resolve_all_fields (map_to_list (pending c)).*2 c) as (E1 & E2 & E3 & _).
  unfold drain_pending. split; cbn [set_pending pending next_id calls resolved];
    rewrite ?E2, ?E3; try done.
  - intros k s id H1 H2 H3. right. rewrite resolve_all_resolved.
    destruct (Hr _ _ _ H1 H2 H3) as [H|H]; [|by case_decide].
    rewrite decide_True; [done|]. apply pending_values. eauto.
  - intros k. rewrite resolve_all_resolved. case_decide as Hd; [|apply Hs].
    apply pending_values in Hd as [id Hd]. intros _.
    destruct (Hp _ _ Hd) as (_ & _ & s & Hks & Hk). exists s. split; [done|].
    destruct Hk as [[-> _]|Hk]; [done|by rewrite Hk, orb_true_r].
Qed.

Lemma inv_dispatch n h v c : inv n c → inv n (dispatch_frame h v c).1.
Proof.
  intros Hi. unfold dispatch_frame. destruct (frame_reply_to v c) as [[id k]|] eqn:E.
  - unfold frame_reply_to in E. case_match; [done|].
    apply bind_Some in E as (id' & _ & E). apply bind_Some in E as (k' & Hk & [= -> ->]).
    by apply inv_resolve_frame.
  - assert (inv n (match conn_map_get v "method" ≫= as_str with
      | None => (c, Err (BadFrame "notification missing method"))
      | Some method =>
          (notify_frontend (mkAgentNotification method (conn_map_get v "params")) c, Ok tt)
      end).1) as Hnot.
    { case_match; [|done]. by apply (inv_same n c). }
    destruct (conn_map_get v "id"); [|done]. destruct h; [|done]. by apply (inv_same n c).
Qed.

Lemma inv_number n c k m p :
  inv n c → calls c !! k = Some (Opened m p) → (n + 1 < 2 ^ 64)%Z →
  inv (n + 1) (set_call k (Numbered (next_id c) m p) (set_next_id (wrap_u64 (next_id c + 1)) c)).
Proof.
  intros [Hn Hi Hj Hp Hpj Hr Hs] E Hb. rewrite wrap_u64_small by lia.
  assert (∀ id, pending c !! id ≠ Some k) as Hnp.
  { intros id H. destruct (Hp _ _ H) as (_ & _ & s & Hks & Hk). simplify_eq.
    by destruct Hk as [[]|]. }
  split; cbn [set_call set_next_id next_id calls pending resolved]; try done; [lia| | | | |].
  - intros k' s id [[<- <-]|[Hne H]]%lookup_insert_Some; [intros [= <-]; lia|].
    intros Hid. specialize (Hi _ _ _ H Hid). lia.
  - intros k1 k2 s1 s2 id [[<- <-]|[Hne1 H1]]%lookup_insert_Some
      [[<- <-]|[Hne2 H2]]%lookup_insert_Some H3 H4; [done| | |eauto].
    + injection H3 as <-. specialize (Hi _ _ _ H2 H4). lia.
    + injection H4 as <-. specialize (Hi _ _ _ H1 H3). lia.
  - intros id k' H. destruct (Hp _ _ H) as (? & ? & s & ? & ?).
    split; [lia|split; [done|]]. exists s. rewrite lookup_insert_ne; [done|].
    intros <-. by eapply Hnp.
  - intros k' s id [[<- <-]|[Hne H]]%lookup_insert_Some; [done|]. eauto.
  - intros k' H. destruct (Hs _ H) as (s & Hks & Hc). exists s.
    rewrite lookup_insert_ne; [done|]. intros <-. by simplify_eq.
Qed.

Lemma inv_register n c k id m p :
  inv n c → calls c !! k = Some (Numbered id m p) →
  inv n (set_call k (Registered id m p) (set_pending (<[id := k]>) c)).
Proof.
  intros [Hn Hi Hj Hp Hpj Hr Hs] E. pose proof (Hi _ _ _ E eq_refl) as Hid.
  assert (∀ id, pending c !! id ≠ Some k) as Hnp.
  { intros id' H. destruct (Hp _ _ H) as (_ & _ & s & Hks & Hk). simplify_eq.
    by destruct Hk as [[]|]. }
  assert (resolved c !! k = None) as Hres.
  { destruct (resolved c !! k) eqn:Er; [|done].
    destruct (Hs k) as (s & Hks & Hc); [by rewrite Er|]. by simplify_eq. }
  split; cbn [set_call set_pending next_id calls pending resolved]; try done.
  - intros k' s id' [[<- <-]|[Hne H]]%lookup_insert_Some; [by intros [= <-]|eauto].
  - intros k1 k2 s1 s2 id' [[<- <-]|[Hne1 H1]]%lookup_insert_Some
      [[<- <-]|[Hne2 H2]]%lookup_insert_Some H3 H4; [done| | |eauto].
    + eapply Hj; [exact E|exact H2|exact H3|done].
    + eapply Hj; [exact H1|exact E|done|exact H4].
  - intros id' k' [[<- <-]|[Hne H]]%lookup_insert_Some.
    + split; [done|split; [done|]]. eexists. rewrite lookup_insert_eq. split; [done|]. by left.
    + destruct (Hp _ _ H) as (? & ? & s & ? & ?). split; [done|split; [done|]].
      exists s. rewrite lookup_insert_ne; [done|]. intros <-. by eapply Hnp.
  - intros id1 id2 k' [[<- <-]|[Hne1 H1]]%lookup_insert_Some
      [[<- ?]|[Hne2 H2]]%lookup_insert_Some; [done| | |eauto].
    + by destruct (Hnp id2).
    + subst. by destruct (Hnp id1).
  - intros k' s id' [[<- <-]|[Hne H]]%lookup_insert_Some H2 H3.
    + injection H3 as <-. left. apply lookup_insert_eq.
    + destruct (Hr _ _ _ H H2 H3) as [H4|H4]; [|by right]. left.
      rewrite lookup_insert_ne; [done|]. intros <-. apply Hne.
      eapply Hj; [exact E|exact H|done|done].
  - intros k' H. destruct (Hs _ H) as (s & Hks & Hc). exists s.
    rewrite lookup_insert_ne; [done|]. intros <-. by simplify_eq.
Qed.

Lemma inv_invoke_step n c c' k s :
  inv n c → calls c !! k = Some s → invoke_step k s c = Some c' → (n + 1 < 2 ^ 64)%Z →
  inv (n + 1) c'.
Proof.
  intros Hi E H Hb. destruct s as [m p|id m p|id m p|id|a]; cbn in H; [| | | |done].
  - injection H as <-. by apply inv_number.
  - injection H as <-. eapply inv_mono; [by apply inv_register|lia].
  - apply (inv_mono n); [|lia]. destruct (writer_open c); injection H as <-.
    + eapply (inv_set_call n _ k (Some (Registered id m p))); [by apply (inv_same n c)|done|done| |].
      * intros _. by eexists.
      * intros s0 [= <-] _. by left.
    + eapply (inv_set_call n c k (Some (Registered id m p))); [done..|].
      intros s0 _ _. by right.
  - apply (inv_mono n); [|lia]. destruct (resolved c !! k); [|done]. injection H as <-.
    eapply (inv_set_call n c k (Some (Waiting id))); [done..|].
    intros s0 _ _. by right.
Qed.

Lemma inv_step n h l c c' :
  inv n c → step h l c = Some c' → (n + 1 < 2 ^ 64)%Z → inv (n + 1) c'.
Proof.
  intros Hi H Hb. destruct l as [k m p|k|e| |i|m p| | |]; cbn in H.
  - apply (inv_mono n); [|lia]. unfold invoke_open in H.
    destruct (calls c !! k) eqn:E; [done|].
    destruct (closed c); injection H as <-; by eapply (inv_set_call n c k None).
  - apply bind_Some in H as (s & Hs & H). by eapply inv_invoke_step.
  - apply (inv_mono n); [|lia]. destruct (reader c); try done. injection H as <-.
    destruct e as [v|r|]; cbn; [by apply inv_dispatch|done|by apply (inv_same n c)].
  - apply (inv_mono n); [|lia]. unfold reader_finish in H.
    destruct (reader c); try done; injection H as <-; [by apply (inv_same n c)|].
    eapply inv_same; [by apply inv_drain|done..].
  - apply (inv_mono n); [|lia]. apply bind_Some in H as (t & _ & H).
    apply bind_Some in H as (f & _ & [= <-]). destruct (writer_open _); by apply (inv_same n c).
  - apply (inv_mono n); [|lia]. injection H as <-. unfold notify.
    destruct (writer_open c); by apply (inv_same n c).
  - apply (inv_mono n); [|lia]. injection H as <-. by apply (inv_same n c).
  - apply (inv_mono n); [|lia]. injection H as <-. by apply (inv_same n c).
  - apply (inv_mono n); [|lia]. destruct (draining_close c); [|done]. injection H as <-.
    eapply inv_same; [by apply inv_drain|done..].
Qed.

Lemma inv_steps h ls n c c' :
  inv n c → steps h ls c = Some c' → (n + len ls < 2 ^ 64)%Z → inv (n + len ls) c'.
Proof.
  revert n c. induction ls as [|l ls IH]; intros n c Hi H Hb.
  - injection H as <-. by rewrite Z.add_0_r.
  - cbn in H. apply bind_Some in H as (c1 & H1 & H). rewrite len_cons in *.
    pose proof (len_nonneg ls). replace (n + (1 + len ls))%Z with (n + 1 + len ls)%Z by lia.
    eapply IH; [by eapply inv_step; [| |lia]|done|lia].
Qed.

Lemma inv_reachable h ls c :
  steps h ls Conn_new = Some c → (len ls + 1 < 2 ^ 64)%Z → inv (1 + len ls) c.
Proof. intros H Hb. eapply inv_steps; [apply inv_new|done|lia]. Qed.

(** * What the connection guarantees *)

(** [v] is a response to call [k]: no method, and the id that [k] waits on. *)
Definition is_response (v : Value) (id : Z) : Prop :=
  conn_map_get v "method" = None ∧ conn_map_get v "id" ≫= as_u64 = Some id.

Lemma frame_reply_to_Some v c id k :
  frame_reply_to v c = Some (id, k) ↔ is_response v id ∧ pending c !! id = Some k.
Proof.
  unfold frame_reply_to, is_response. destruct (conn_map_get v "method").
  - split; [done|by intros [[]]].
  - split.
    + intros (id' & H1 & H)%bind_Some. apply bind_Some in H as (k' & H2 & [= -> ->]). done.
    + intros [[_ H1] H2]. apply bind_Some. exists id. split; [done|].
      apply bind_Some. by exists k.
Qed.

(** C3: Responses reach the call that asked.  However calls, frames, handler
    tasks, disconnects and [close] interleave, a frame changes the answer of
    a waiting call exactly when it has no method and carries that call's id,
    the answer is then the frame's error or result, a call is answered at
    most once, and no two calls in flight share an id.  (Ids are 64-bit; the
    run is shorter than that.) *)
Theorem responses_reach_their_call h ls c :
  steps h ls Conn_new = Some c → (len ls + 1 < 2 ^ 64)%Z →
  (∀ k k' id, calls c !! k = Some (Waiting id) → calls c !! k' = Some (Waiting id) → k = k') ∧
  (∀ has_handler v k id, calls c !! k = Some (Waiting id) →
     resolved (dispatch_frame has_handler v c).1 !! k =
     match resolved c !! k with
     | Some a => Some a
     | None => if decide (conn_map_get v "method" = None ∧
                          conn_map_get v "id" ≫= as_u64 = Some id)
               then Some (frame_answer v) else None
     end).
Proof.
  intros H Hb. destruct (inv_reachable _ _ _ H Hb) as [Hn Hi Hj Hp Hpj Hr Hs].
  split; [intros k k' id H1 H2; by eapply Hj|].
  intros hh v k id Hk. destruct (frame_reply_to v c) as [[id' k']|] eqn:E.
  - unfold dispatch_frame. rewrite E. cbn [fst resolve resolved].
    apply frame_reply_to_Some in E as [[Hm Hid] Hpk]. cbn [set_pending resolved].
    destruct (decide (k' = k)) as [->|Hne].
    + rewrite lookup_insert_eq. destruct (Hp _ _ Hpk) as (_ & -> & s & Hks & Hc).
      rewrite Hk in Hks. injection Hks as <-. destruct Hc as [[_ [= <-]]|?]; [|done].
      by rewrite decide_True.
    + rewrite lookup_insert_ne by done. destruct (resolved c !! k) eqn:Er; [done|].
      rewrite decide_False; [done|]. intros [_ Hid'].
      rewrite Hid in Hid'. injection Hid' as ->.
      destruct (Hr _ _ _ Hk eq_refl eq_refl) as [Hp'|[? ?]]; by simplify_eq.
  - assert (resolved (dispatch_frame hh v c).1 = resolved c) as ->.
    { unfold dispatch_frame. rewrite E.
      destruct (conn_map_get v "id"), hh; cbn; try done; by case_match. }
    destruct (resolved c !! k) eqn:Er; [done|]. rewrite decide_False; [done|].
    intros [Hm Hid]. destruct (Hr _ _ _ Hk eq_refl eq_refl) as [Hp'|[? ?]]; [|by simplify_eq].
    assert (frame_reply_to v c = Some (id, k)) as E' by by apply frame_reply_to_Some.
    by rewrite E in E'.
Qed.

(** Ending a connection answers its calls: right after the drain that
    [close], or the reader of a lost connection, performs, every call that was
    waiting has an answer, and it is [Closed] for each that had none. *)
Theorem drain_answers_waiting_calls h ls c :
  steps h ls Conn_new = Some c → (len ls + 1 < 2 ^ 64)%Z →
  ∀ k id, calls c !! k = Some (Waiting id) →
    resolved (drain_pending c) !! k =
      Some (default (Err Closed) (resolved c !! k)) ∧
    pending (drain_pending c) = ∅.
Proof.
  intros H Hb k id Hk. destruct (inv_reachable _ _ _ H Hb) as [Hn Hi Hj Hp Hpj Hr Hs].
  split; [|done]. rewrite drain_resolved. case_decide as Hd.
  - apply pending_values in Hd as [id' Hd]. by destruct (Hp _ _ Hd) as (_ & -> & _).
  - destruct (Hr _ _ _ Hk eq_refl eq_refl) as [Hpk|[a ->]]; [|done].
    destruct Hd. apply pending_values. by exists id.
Qed.

(** An [invoke] that passed the [closed] check just before the connection is
    lost, and puts its sender in [pending] just after the drain. *)
Definition race_trace : list label :=
  [LInvoke 0 "process/start" None; LEvent EDisconnected; LReader; LReader;
   LCall 0; LCall 0; LCall 0].

Definition stuck (c : Conn) : Prop :=
  calls c !! 0 = Some (Waiting 1) ∧ resolved c !! 0 = None ∧ reader c = ReaderDone ∧
  draining_close c = false.

Lemma stuck_step h l c c' : l ≠ LClose → stuck c → step h l c = Some c' → stuck c'.
Proof.
  intros Hl (H1 & H2 & H3 & H4) H. unfold stuck.
  destruct l as [k m p|k|e| |i|m p| | |]; cbn in H; [| | | | | | |done|].
  - unfold invoke_open in H. destruct (calls c !! k) eqn:E; [done|].
    assert (k ≠ 0) by (intros ->; by rewrite H1 in E).
    destruct (closed c); injection H as <-; cbn; by rewrite lookup_insert_ne.
  - apply bind_Some in H as (s & Hs & H). destruct (decide (k = 0)) as [->|Hne].
    { rewrite H1 in Hs. injection Hs as <-. cbn in H. by rewrite H2 in H. }
    destruct s as [m p|id m p|id m p|id|a]; cbn in H; [..|done].
    1, 2: injection H as <-; cbn; by rewrite lookup_insert_ne.
    + destruct (writer_open c); injection H as <-; cbn; by rewrite lookup_insert_ne.
    + destruct (resolved c !! k); [|done]. injection H as <-; cbn; by rewrite lookup_insert_ne.
  - by rewrite H3 in H.
  - unfold reader_finish in H. by rewrite H3 in H.
  - apply bind_Some in H as (t & _ & H). apply bind_Some in H as (f & _ & [= <-]).
    by destruct (writer_open _).
  - injection H as <-. unfold notify. by destruct (writer_open c).
  - by injection H as <-.
  - by rewrite H4 in H.
Qed.

(** A call can be lost: an [invoke] that reads [closed = false], is overtaken
    by the disconnect and its drain, and then registers and sends, never
    returns afterwards, whatever else happens, unless [close] is called. *)
Theorem invoke_can_hang h :
  ∃ c, steps h race_trace Conn_new = Some c ∧
    ∀ ls c', LClose ∉ ls → steps h ls c = Some c' →
      calls c' !! 0 = Some (Waiting 1) ∧ resolved c' !! 0 = None.
Proof.
  assert (∃ c, steps h race_trace Conn_new = Some c ∧ stuck c) as (c & H0 & Hc).
  { eexists. split; [vm_compute; reflexivity|]. done. }
  exists c. split; [done|]. clear H0. intros ls c' Hno. revert c Hc. induction ls as [|l ls IH]; intros c Hc H.
  - injection H as <-. by destruct Hc as (? & ? & _).
  - cbn in H. apply bind_Some in H as (c1 & H1 & H).
    apply not_elem_of_cons in Hno as [Hl Hno].
    eapply IH; [done| |done]. by eapply stuck_step.
Qed.

(** ** Witnesses *)

Definition two_calls : list label :=
  [LInvoke 0 "process/read" None; LCall 0; LInvoke 1 "process/write" None; LCall 1; LCall 1;
   LCall 1; LCall 0; LCall 0;
   LEvent (EMessage (VMap [(VStr "id", VInt 2); (VStr "result", VBool true)]))].

Definition two_calls_conn : Conn := default Conn_new (steps None two_calls Conn_new).

Lemma responses_reach_their_call_witness :
  (∀ k k' id, calls two_calls_conn !! k = Some (Waiting id) →
     calls two_calls_conn !! k' = Some (Waiting id) → k = k') ∧
  (∀ has_handler v k id, calls two_calls_conn !! k = Some (Waiting id) →
     resolved (dispatch_frame has_handler v two_calls_conn).1 !! k =
     match resolved two_calls_conn !! k with
     | Some a => Some a
     | None => if decide (conn_map_get v "method" = None ∧
                          conn_map_get v "id" ≫= as_u64 = Some id)
               then Some (frame_answer v) else None
     end).
Proof.
  apply (responses_reach_their_call None two_calls); vm_compute; reflexivity.
Defined.

Lemma drain_answers_waiting_calls_witness :
  resolved (drain_pending two_calls_conn) !! 0 =
    Some (default (Err Closed) (resolved two_calls_conn !! 0)) ∧
  pending (drain_pending two_calls_conn) = ∅.
Proof.
  apply (drain_answers_waiting_calls None two_calls two_calls_conn) with (id := 1%Z);
    vm_compute; reflexivity.
Defined.
