(* ===== verification/Skills.v ===== *)
(** The gateway's skills service ([nexal-gateway/src/skills.rs]): what it tells
    an agent about the files under the skills directory, and the agent
    requests it answers ([handle_agent_request] of [registry.rs]). *)
From S2P Require Import Prelude Paths Wire.

(* @src crates/nexal-gateway/src/skills.rs SkillFileEntry *)
Record SkillFileEntry := mkSkillFileEntry { sfe_path : string; sfe_size : Z }.

(* @src crates/nexal-gateway/src/skills.rs SkillInfo *)
Record SkillInfo := mkSkillInfo {
  si_name : string;
  si_description : string;
  si_files : list SkillFileEntry;
}.

(* @src crates/nexal-gateway/src/skills.rs SkillsListResponse *)
Record SkillsListResponse := mkSkillsListResponse { slr_skills : list SkillInfo }.

(* @src crates/nexal-gateway/src/skills.rs SkillsReadParams *)
Record SkillsReadParams := mkSkillsReadParams { srp_path : string }.

(* @src crates/nexal-gateway/src/skills.rs SkillsReadResponse *)
Record SkillsReadResponse := mkSkillsReadResponse { srr_data : bytes }.

(** The host file system, as [std::fs] and [Path] report it. *)
Class HostFs := {
  read_dir : string → result (list (result string string)) string;
  is_dir : string → bool;
  is_file : string → bool;
  entry_len : string → option Z;
  read_file : string → result bytes string;
  read_to_string : string → result string string;
}.

(** Go through a list of fallible items, stopping at the first error. *)
Fixpoint try_fold {A B E} (f : B → A → result B E) (acc : B) (l : list A) : result B E :=
  match l with
  | [] => Ok acc
  | x :: l' => acc' ←? f acc x; try_fold f acc' l'
  end.

(** [sort_by(|a, b| a.name.cmp(&b.name))], a stable sort. *)
Fixpoint insert_skill (s : SkillInfo) (l : list SkillInfo) : list SkillInfo :=
  match l with
  | [] => [s]
  | s' :: l' => if String.leb (si_name s) (si_name s') then s :: l
                else s' :: insert_skill s l'
  end.

Definition sort_skills (l : list SkillInfo) : list SkillInfo := foldr insert_skill [] l.

(** Names the service never shows. *)
Definition hidden (name : string) : bool :=
  starts_with "." name || bool_decide (name = "__pycache__").

(* @src crates/nexal-gateway/src/skills.rs sanitize_path *)
Definition sanitize_path (p : string) : result string string :=
  if is_absolute p then Err "absolute paths not allowed"
  else
    _ ←? try_fold (λ _ c, match c with
                          | ParentDir => Err "path traversal (..)"
                          | Normal _ => Ok tt
                          | _ => Err "invalid path component"
                          end) tt (components p);
    Ok p.

(** [Path::strip_prefix] *)
Definition path_strip_prefix (p base : string) : option string :=
  if path_starts_with p base
  then Some (of_components (drop (length (components base)) (components p)))
  else None.

Section service.
Context {HF : HostFs}.

(** The first line that is not blank and not a heading. *)
(* @src crates/nexal-gateway/src/skills.rs read_skill_description *)
Definition read_skill_description (skill_dir : string) : string :=
  match read_to_string (path_join skill_dir "SKILL.md") with
  | Ok text =>
      default "" (find_map (λ line,
        let trimmed := trim line in
        if negb (bool_decide (trimmed = "")) && negb (starts_with "#" trimmed)
        then Some trimmed else None) (lines text))
  | Err _ => ""
  end.

(** [fuel] bounds the depth of the directory tree; [None] is a deeper tree. *)
(* @src crates/nexal-gateway/src/skills.rs collect_files *)
Fixpoint collect_files (fuel : nat) (dir root : string)
    : option (result (list SkillFileEntry) string) :=
  match fuel with
  | O => None
  | S fuel' =>
      match read_dir dir with
      | Err e => Some (Err e)
      | Ok entries =>
          (fix go (entries : list (result string string)) (files : list SkillFileEntry) :=
             match entries with
             | [] => Some (Ok files)
             | Err e :: _ => Some (Err e)
             | Ok file_name :: entries' =>
                 let path := path_join dir file_name in
                 if hidden file_name then go entries' files
                 else if is_dir path then
                   match collect_files fuel' path root with
                   | None => None
                   | Some (Err e) => Some (Err e)
                   | Some (Ok sub) => go entries' (files ++ sub)
                   end
                 else if is_file path then
                   go entries' (files ++
                     [mkSkillFileEntry (default path (path_strip_prefix path root))
                        (default 0%Z (entry_len path))])
                 else go entries' files
             end) entries []
      end
  end.

(* @src crates/nexal-gateway/src/skills.rs list *)
Definition skills_list (fuel : nat) (skills_dir : string)
    : option (result SkillsListResponse string) :=
  match read_dir skills_dir with
  | Err e => Some (Err ("read skills dir: " +:+ e))
  | Ok entries =>
      (fix go (entries : list (result string string)) (skills : list SkillInfo) :=
         match entries with
         | [] => Some (Ok (mkSkillsListResponse (sort_skills skills)))
         | Err e :: _ => Some (Err ("read entry: " +:+ e))
         | Ok name :: entries' =>
             let path := path_join skills_dir name in
             if negb (is_dir path) then go entries' skills
             else if hidden name then go entries' skills
             else
               match collect_files fuel path path with
               | None => None
               | Some (Err e) => Some (Err ("collect files for " +:+ name +:+ ": " +:+ e))
               | Some (Ok files) =>
                   go entries' (skills ++ [mkSkillInfo name (read_skill_description path) files])
               end
         end) entries []
  end.

(** The file a request names, once its path was let through. *)
(* @src crates/nexal-gateway/src/skills.rs SkillsService::read "let rel = sanitize_path" .. "return Err(" *)
Definition read_target (skills_dir : string) (params : SkillsReadParams) : result string string :=
  rel ←? sanitize_path (srp_path params);
  let full := path_join skills_dir rel in
  if path_starts_with full skills_dir then Ok full else Err "path traversal".

(* @src crates/nexal-gateway/src/skills.rs SkillsService::read *)
Definition skills_read (skills_dir : string) (params : SkillsReadParams)
    : result SkillsReadResponse string :=
  full ←? read_target skills_dir params;
  data ←? map_err (λ e, "read " +:+ srp_path params +:+ ": " +:+ e) (read_file full);
  Ok (mkSkillsReadResponse data).

Section requests.
Context `{!FromValue SkillsReadParams}
  (ext_list : SkillsListResponse → result Value string)
  (ext_read : SkillsReadResponse → result Value string).

(* @src crates/nexal-gateway/src/registry.rs handle_agent_request *)
Definition handle_agent_request (fuel : nat) (skills_dir : string) (method : string)
    (params : option Value) : option (result Value string) :=
  if decide (method = "skills/list") then
    resp ← skills_list fuel skills_dir;
    Some (resp ←? resp; map_err (λ e, "serialize: " +:+ e) (ext_list resp))
  else if decide (method = "skills/read") then
    Some (params ←? ok_or (params ≫= λ p, res_ok (from_value p)) "invalid params for skills/read";
          resp ←? skills_read skills_dir params;
          map_err (λ e, "serialize: " +:+ e) (ext_read resp))
  else Some (Err ("unknown agent request: " +:+ method)).
End requests.

(** * What is read stays under the skills directory *)

Lemma try_fold_normal l :
  try_fold (λ (_ : unit) c, match c with
                            | ParentDir => Err "path traversal (..)"
                            | Normal _ => Ok tt
                            | _ => Err "invalid path component"
                            end) tt l = Ok tt ↔ ∃ names, l = map Normal names.
Proof.
  induction l as [|c l IH]; cbn.
  - split; [by exists []|done].
  - destruct c as [| | |s]; cbn; try (split; [done|by intros [[|] ?]]).
    rewrite IH. split.
    + intros [names ->]. by exists (s :: names).
    + intros [[|n names] Hl]; [done|]. exists names. by injection Hl.
Qed.

Lemma sanitize_path_Ok p q :
  sanitize_path p = Ok q ↔ q = p ∧ is_absolute p = false ∧ ∃ names, components p = map Normal names.
Proof.
  unfold sanitize_path. destruct (is_absolute p); [split; [done|by intros (_ & ? & _)]|].
  rewrite res_bind_Ok. split.
  - intros ([] & H & [= <-]). by apply try_fold_normal in H.
  - intros (-> & _ & H). exists tt. by rewrite try_fold_normal.
Qed.

Lemma leading_normal p names :
  is_absolute p = false → components p = map Normal names → leading p = [].
Proof.
  rewrite components_eq. unfold leading. intros ->.
  destruct (split_on "/" p) as [|s ss]; [done|].
  destruct (decide (s = ".")); [|done]. by destruct names.
Qed.

(** A path of plain names is joined to the directory's components, and passes
    the second guard. *)
Lemma sanitized_join skills_dir p rel :
  sanitize_path p = Ok rel →
  ∃ names, components p = map Normal names ∧
    components (path_join skills_dir rel) = components skills_dir ++ map Normal names ∧
    path_starts_with (path_join skills_dir rel) skills_dir = true.
Proof.
  intros (-> & H1 & names & H2)%sanitize_path_Ok. exists names. split; [done|].
  assert (components (path_join skills_dir p) = components skills_dir ++ map Normal names) as Hj.
  { rewrite components_join, H2; [done|by eapply leading_normal]. }
  split; [done|]. apply bool_decide_eq_true. rewrite Hj. by apply prefix_app_r.
Qed.

Lemma read_target_Ok skills_dir params full :
  read_target skills_dir params = Ok full ↔
  full = path_join skills_dir (srp_path params) ∧ is_absolute (srp_path params) = false ∧
  ∃ names, components (srp_path params) = map Normal names.
Proof.
  unfold read_target. rewrite res_bind_Ok. split.
  - intros (rel & Hs & H). destruct (sanitized_join skills_dir _ _ Hs) as (_ & _ & _ & Hst).
    rewrite Hst in H. injection H as <-. by apply sanitize_path_Ok in Hs as (-> & ?).
  - intros (-> & H). exists (srp_path params).
    assert (sanitize_path (srp_path params) = Ok (srp_path params)) as Hs by by apply sanitize_path_Ok.
    split; [done|]. by destruct (sanitized_join skills_dir _ _ Hs) as (_ & _ & _ & ->).
Qed.

(** C33: A skills read touches one file at most, and lexically it is under the
    skills directory: a path is let through exactly when it is relative and
    all its components are plain names (no [..], no leading [.]), the file
    read is then the directory's components followed by those names, and the
    second guard against leaving the directory never fires. *)
Theorem skills_read_confined skills_dir params :
  (∀ full, read_target skills_dir params = Ok full ↔
     full = path_join skills_dir (srp_path params) ∧ is_absolute (srp_path params) = false ∧
     ∃ names, components (srp_path params) = map Normal names) ∧
  (∀ full, read_target skills_dir params = Ok full →
     ∃ names, components full = components skills_dir ++ map Normal names) ∧
  read_target skills_dir params ≠ Err "path traversal" ∧
  (∀ resp, skills_read skills_dir params = Ok resp →
     ∃ full, read_target skills_dir params = Ok full ∧ read_file full = Ok (srr_data resp)).
Proof.
  split; [apply read_target_Ok|]. split; [|split].
  - intros full H. unfold read_target in H. rewrite res_bind_Ok in H.
    destruct H as (rel & Hs & H). destruct (sanitized_join skills_dir _ _ Hs) as (names & _ & Hj & Hst).
    rewrite Hst in H. injection H as <-. by exists names.
  - unfold read_target. destruct (sanitize_path (srp_path params)) as [rel|e] eqn:E; cbn.
    + by destruct (sanitized_join skills_dir _ _ E) as (_ & _ & _ & ->).
    + intros [= ->]. unfold sanitize_path in E. destruct (is_absolute _); [done|].
      revert E. generalize (components (srp_path params)). intros l.
      induction l as [|c l IH]; [done|]. by destruct c.
  - intros resp. unfold skills_read. rewrite res_bind_Ok. intros (full & Hf & Hr).
    exists full. split; [done|]. rewrite res_bind_Ok in Hr. destruct Hr as (d & Hd & [= <-]).
    by apply map_err_Ok in Hd.
Qed.
End service.

(** ** Witness: a host with one skill *)

Module SampleHost.
#[local] Instance host : HostFs := {|
  read_dir p := Ok [Ok "jina"];
  is_dir p := bool_decide (p = "/skills/jina");
  is_file p := false;
  entry_len p := None;
  read_file p := if decide (p = "/skills/jina/SKILL.md") then Ok [x41] else Err "not found";
  read_to_string p := Err "not found";
|}.

(** A nested path is read below the directory, a climbing one is refused. *)
Example read_examples :
  skills_read "/skills" (mkSkillsReadParams "jina/SKILL.md") = Ok (mkSkillsReadResponse [x41]) ∧
  skills_read "/skills" (mkSkillsReadParams "jina/../../etc/passwd") = Err "path traversal (..)" ∧
  skills_read "/skills" (mkSkillsReadParams "/etc/passwd") = Err "absolute paths not allowed".
Proof. by vm_compute. Qed.
End SampleHost.
