(* ===== verification/SockAddr.v ===== *)
(** The standard library's socket addresses ([std::net::SocketAddr]): how they are
    read from text and printed, and that reading inverts printing. *)
From S2P Require Import Prelude.
Open Scope Z_scope.

(** * Socket addresses

    [std::net]: an IPv6 address is its eight groups. *)

Definition Ipv4Addr : Type := Z * Z * Z * Z.
Definition Ipv6Addr : Type := list Z.

Inductive SocketAddr :=
  | V4 (ip : Ipv4Addr) (port : Z)
  | V6 (ip : Ipv6Addr) (port flowinfo scope_id : Z).

#[export] Instance socket_addr_eq_decision : EqDecision SocketAddr.
Proof. solve_decision. Defined.

Definition addr_port (a : SocketAddr) : Z := match a with V4 _ p => p | V6 _ p _ _ => p end.

Definition octets (ip : Ipv4Addr) : list Z := let '(a, b, c, d) := ip in [a; b; c; d].

(** What the types hold. *)
Definition addr_wf (a : SocketAddr) : Prop :=
  match a with
  | V4 ip port => Forall (λ o, 0 ≤ o < 2 ^ 8) (octets ip) ∧ 0 ≤ port < 2 ^ 16
  | V6 ip port flowinfo scope_id =>
      length ip = 8%nat ∧ Forall (λ g, 0 ≤ g < 2 ^ 16) ip ∧ 0 ≤ port < 2 ^ 16
      ∧ 0 ≤ flowinfo < 2 ^ 32 ∧ 0 ≤ scope_id < 2 ^ 32
  end.

(** ** Reading *)

(** A reader of the standard library's parser: what it read and what is left;
    one that fails consumes nothing. *)
Definition parser (A : Type) : Type := string → option (A * string).

Definition digit_value (c : ascii) : option Z :=
  let n := Z.of_N (code c) in
  if is_ascii_digit c then Some (n - 48)
  else if is_ascii_lower c then Some (n - 87)
  else if is_ascii_upper c then Some (n - 55)
  else None.

(** [char::to_digit] *)
Definition to_digit (radix : Z) (c : ascii) : option Z :=
  d ← digit_value c; if bool_decide (d < radix) then Some d else None.

(** The digits of a number below [bound], so many at most. *)
Fixpoint read_digits (radix bound : Z) (max_digits : option nat) (s : string) (result : Z) (count : nat)
    : option (Z * nat * string) :=
  match s with
  | EmptyString => Some (result, count, s)
  | String c s' =>
      match to_digit radix c with
      | None => Some (result, count, s)
      | Some digit =>
          if bool_decide (result * radix < bound) && bool_decide (result * radix + digit < bound)
             && bool_decide (S count ≤ default (S count) max_digits)%nat
          then read_digits radix bound max_digits s' (result * radix + digit) (S count)
          else None
      end
  end.

Definition read_number (radix bound : Z) (max_digits : option nat) (allow_zero_prefix : bool)
    : parser Z := λ s,
  '(result, count, rest) ← read_digits radix bound max_digits s 0 0;
  if bool_decide (count = 0%nat) then None
  else if negb allow_zero_prefix && starts_with "0" s && bool_decide (1 < count)%nat then None
  else Some (result, rest).

Definition read_given_char (c : ascii) : parser unit := λ s,
  match s with String a s' => if Ascii.eqb a c then Some (tt, s') else None | EmptyString => None end.

(** An element of a sequence, after its separator but for the first. *)
Definition read_separator {A} (sep : ascii) (index : nat) (inner : parser A) : parser A := λ s,
  match index with
  | O => inner s
  | _ => '(_, s) ← read_given_char sep s; inner s
  end.

Definition read_octet (index : nat) : parser Z :=
  read_separator "." index (read_number 10 (2 ^ 8) (Some 3%nat) false).

Definition read_ipv4_addr : parser Ipv4Addr := λ s,
  '(a, s) ← read_octet 0 s; '(b, s) ← read_octet 1 s;
  '(c, s) ← read_octet 2 s; '(d, s) ← read_octet 3 s; Some ((a, b, c, d), s).

(** [n] groups from the [i]-th on; the last two may be an IPv4 address, and
    the boolean tells that they were. *)
Fixpoint read_groups (n i : nat) (s : string) : list Z * bool * string :=
  match n with
  | O => ([], false, s)
  | S n' =>
      match (if bool_decide (n' = 0%nat) then None else read_separator ":" i read_ipv4_addr s) with
      | Some ((a, b, c, d), s') => ([a * 256 + b; c * 256 + d], true, s')
      | None =>
          match read_separator ":" i (read_number 16 (2 ^ 16) (Some 4%nat) true) s with
          | Some (group, s') =>
              let '(groups, v4, s'') := read_groups n' (S i) s' in (group :: groups, v4, s'')
          | None => ([], false, s)
          end
      end
  end.

Definition read_ipv6_addr : parser Ipv6Addr := λ s,
  let '(head, head_ipv4, s1) := read_groups 8 0 s in
  if bool_decide (length head = 8%nat) then Some (head, s1)
  else if head_ipv4 : bool then None
  else
    '(_, s2) ← read_given_char ":" s1; '(_, s3) ← read_given_char ":" s2;
    let '(tail, _, s4) := read_groups (8 - (length head + 1)) 0 s3 in
    Some (head ++ replicate (8 - length head - length tail) 0 ++ tail, s4).

Definition read_port : parser Z := λ s,
  '(_, s) ← read_given_char ":" s; read_number 10 (2 ^ 16) None true s.

Definition read_scope_id : parser Z := λ s,
  '(_, s) ← read_given_char "%" s; read_number 10 (2 ^ 32) None true s.

Definition read_socket_addr_v4 : parser SocketAddr := λ s,
  '(ip, s) ← read_ipv4_addr s; '(port, s) ← read_port s; Some (V4 ip port, s).

Definition read_socket_addr_v6 : parser SocketAddr := λ s,
  '(_, s) ← read_given_char "[" s; '(ip, s) ← read_ipv6_addr s;
  let '(scope_id, s) := match read_scope_id s with Some r => r | None => (0, s) end in
  '(_, s) ← read_given_char "]" s; '(port, s) ← read_port s; Some (V6 ip port 0 scope_id, s).

Definition read_socket_addr : parser SocketAddr := λ s,
  match read_socket_addr_v4 s with Some r => Some r | None => read_socket_addr_v6 s end.

(** [str::parse::<SocketAddr>] *)
Definition parse_socket_addr (s : string) : option SocketAddr :=
  match read_socket_addr s with Some (a, EmptyString) => Some a | _ => None end.

(** ** Printing *)

Definition digit_char (d : Z) : ascii :=
  ascii_of_N (Z.to_N (if bool_decide (d < 10) then d + 48 else d + 87)).

(** The digits of [z] before [acc]; so many at most. *)
Fixpoint print_digits (radix : Z) (fuel : nat) (z : Z) (acc : string) : string :=
  match fuel with
  | O => acc
  | S fuel' =>
      let acc := String (digit_char (z mod radix)) acc in
      if bool_decide (z / radix = 0) then acc else print_digits radix fuel' (z / radix) acc
  end.

(** [{:x}] of a [u16] *)
Definition lower_hex (z : Z) : string := print_digits 16 4 z "".

Definition print_ipv4 (ip : Ipv4Addr) : string := join "." (pretty <$> octets ip).

Record Span := mkSpan { start : nat; len : nat }.

(** The first longest run of zero groups. *)
Fixpoint longest_zeroes (groups : list Z) (i : nat) (longest current : Span) : Span :=
  match groups with
  | [] => longest
  | group :: groups' =>
      if bool_decide (group = 0) then
        let current :=
          mkSpan (if bool_decide (len current = 0%nat) then i else start current) (S (len current)) in
        longest_zeroes groups' (S i)
          (if bool_decide (len longest < len current)%nat then current else longest) current
      else longest_zeroes groups' (S i) longest (mkSpan 0 0)
  end.

Definition fmt_subslice (groups : list Z) : string := join ":" (lower_hex <$> groups).

(** [::ffff:a.b.c.d] *)
Definition to_ipv4_mapped (ip : Ipv6Addr) : option Ipv4Addr :=
  match ip with
  | [0; 0; 0; 0; 0; 65535; ab; cd] => Some (ab / 256, ab mod 256, cd / 256, cd mod 256)
  | _ => None
  end.

Definition print_ipv6 (ip : Ipv6Addr) : string :=
  match to_ipv4_mapped ip with
  | Some ipv4 => "::ffff:" +:+ print_ipv4 ipv4
  | None =>
      let zeroes := longest_zeroes ip 0 (mkSpan 0 0) (mkSpan 0 0) in
      if bool_decide (1 < len zeroes)%nat then
        fmt_subslice (take (start zeroes) ip) +:+ "::" +:+
        fmt_subslice (drop (start zeroes + len zeroes) ip)
      else fmt_subslice ip
  end.

Definition print_socket_addr (a : SocketAddr) : string :=
  match a with
  | V4 ip port => print_ipv4 ip +:+ ":" +:+ pretty port
  | V6 ip port _ scope_id =>
      "[" +:+ print_ipv6 ip +:+ (if bool_decide (scope_id = 0) then "" else "%" +:+ pretty scope_id)
      +:+ "]:" +:+ pretty port
  end.

Example printed_v6 : print_socket_addr (V6 [8193; 3512; 0; 0; 1; 0; 0; 1] 80 0 0) = "[2001:db8::1:0:0:1]:80".
Proof. vm_compute. reflexivity. Qed.
Example leading_zero : parse_socket_addr "10.0.0.07:80" = None.
Proof. vm_compute. reflexivity. Qed.
Example mapped : parse_socket_addr "[::ffff:10.0.0.7]:080" = Some (V6 [0;0;0;0;0;65535;2560;7] 80 0 0).
Proof. vm_compute. reflexivity. Qed.

(** * Numbers read back *)

(** A digit, one of sixteen. *)
Ltac each_digit d :=
  assert (d = 0 ∨ d = 1 ∨ d = 2 ∨ d = 3 ∨ d = 4 ∨ d = 5 ∨ d = 6 ∨ d = 7 ∨ d = 8 ∨ d = 9 ∨ d = 10
          ∨ d = 11 ∨ d = 12 ∨ d = 13 ∨ d = 14 ∨ d = 15) as Hdigit by lia;
  repeat (destruct Hdigit as [->|Hdigit]); [..|subst d].

Lemma to_digit_char radix d : 0 ≤ d < radix → radix ≤ 16 → to_digit radix (digit_char d) = Some d.
Proof.
  intros. unfold to_digit. assert (digit_value (digit_char d) = Some d) as -> by (by each_digit d).
  cbn -[bool_decide]. by rewrite bool_decide_true by lia.
Qed.

Lemma print_pretty fuel z acc :
  (0 < fuel)%nat → 0 < z < 10 ^ Z.of_nat fuel → pretty_N_go (Z.to_N z) acc = print_digits 10 fuel z acc.
Proof.
  revert z acc. induction fuel as [|fuel IH]; intros z acc Hf Hz; [lia|].
  rewrite pretty_N_go_step by lia. cbn [print_digits].
  assert (0 ≤ z mod 10 < 10) as Hm by (apply Z.mod_pos_bound; lia).
  assert (pretty_N_char (Z.to_N z `mod` 10) = digit_char (z mod 10)) as ->.
  { replace (Z.to_N z `mod` 10)%N with (Z.to_N (z mod 10)) by (rewrite Z2N.inj_mod by lia; done).
    generalize dependent (z mod 10). intros d Hd. by each_digit d; try lia. }
  replace (Z.to_N z `div` 10)%N with (Z.to_N (z / 10)) by (rewrite Z2N.inj_div by lia; done).
  assert (0 ≤ z / 10) by (apply Z.div_pos; lia).
  destruct (decide (z / 10 = 0)) as [E|E].
  - rewrite bool_decide_true by done. rewrite E. apply pretty_N_go_0.
  - rewrite bool_decide_false by done.
    assert (z / 10 < 10 ^ Z.of_nat fuel).
    { apply Z.div_lt_upper_bound; [lia|]. rewrite Nat2Z.inj_succ, Z.pow_succ_r in Hz; lia. }
    destruct fuel; [cbn in *; lia|]. apply IH; lia.
Qed.

Lemma pretty_print fuel z : (0 < fuel)%nat → 0 ≤ z < 10 ^ Z.of_nat fuel → pretty z = print_digits 10 fuel z "".
Proof.
  intros Hf Hz. destruct (decide (z = 0)) as [->|Hne]; [by destruct fuel; [lia|]|].
  rewrite <- print_pretty by lia. destruct z; [done| |lia].
  unfold pretty, pretty_Z, pretty_positive, pretty, pretty_N. by rewrite decide_False by done.
Qed.

Section print.
Context (radix : Z) (Hradix : 2 ≤ radix ≤ 16).

Lemma div_radix fuel z : 0 ≤ z < radix ^ Z.of_nat (S fuel) → 0 ≤ z / radix < radix ^ Z.of_nat fuel.
Proof.
  intros Hz. rewrite Nat2Z.inj_succ, Z.pow_succ_r in Hz by lia. split; [apply Z.div_pos; lia|].
  apply Z.div_lt_upper_bound; lia.
Qed.

Lemma print_digits_app fuel z acc rest :
  print_digits radix fuel z (acc +:+ rest) = print_digits radix fuel z acc +:+ rest.
Proof.
  revert z acc. induction fuel as [|fuel IH]; intros z acc; cbn [print_digits]; [done|].
  case_match; [done|]. apply (IH _ (String _ acc)).
Qed.

(** No leading zero but for zero itself. *)
Lemma print_digits_first fuel z acc :
  (0 < fuel)%nat → 0 ≤ z < radix ^ Z.of_nat fuel →
  ∃ c s, print_digits radix fuel z acc = String c s ∧ (c = "0"%char → z = 0).
Proof.
  revert z acc. induction fuel as [|fuel IH]; intros z acc Hf Hz; [lia|].
  cbn [print_digits]. case_bool_decide as E.
  - eexists _, _. split; [done|]. intros Hc.
    assert (z mod radix = z) as Hm by (apply Z.mod_small; apply Z.div_small_iff in E; lia).
    assert (0 ≤ z < 16) as Hd by (apply Z.div_small_iff in E; lia). rewrite Hm in Hc. by each_digit z.
  - apply div_radix in Hz. destruct fuel as [|fuel]; [cbn in Hz; lia|].
    destruct (IH (z / radix) (String (digit_char (z mod radix)) acc)) as (c & s & -> & Hc); [lia|done|].
    eexists _, _. split; [done|]. intros ->. by destruct E, Hc.
Qed.

(** Printed digits are read back, when they are few enough and the number fits. *)
Lemma read_print fuel z acc bound max_digits result count :
  (0 < fuel)%nat → 0 ≤ z < radix ^ Z.of_nat fuel → 0 ≤ result →
  (∀ n, (n ≤ fuel)%nat → result * radix ^ Z.of_nat n + z < bound) →
  (count + fuel ≤ default (count + fuel) max_digits)%nat →
  ∃ n, (1 ≤ n ≤ fuel)%nat ∧ (z = 0 → n = 1%nat)
    ∧ read_digits radix bound max_digits (print_digits radix fuel z acc) result count
      = read_digits radix bound max_digits acc (result * radix ^ Z.of_nat n + z) (count + n).
Proof.
  revert z acc. induction fuel as [|fuel IH]; intros z acc Hf Hz Hr Hb Hc; [lia|].
  cbn [print_digits]. assert (0 ≤ z mod radix < radix) as Hm by (apply Z.mod_pos_bound; lia).
  pose proof (Z.div_mod z radix ltac:(lia)) as Hdm. pose proof (div_radix _ _ Hz) as Hq.
  assert (∀ n r, r = result * radix ^ Z.of_nat n + z / radix → (n ≤ fuel)%nat → (S n ≤ S fuel)%nat →
    read_digits radix bound max_digits (String (digit_char (z mod radix)) acc) r (count + n)
    = read_digits radix bound max_digits acc (result * radix ^ Z.of_nat (S n) + z) (count + S n)) as Hlast.
  { intros n r -> Hn HSn. cbn [read_digits]. rewrite to_digit_char by lia.
    specialize (Hb (S n) HSn). rewrite Nat2Z.inj_succ, Z.pow_succ_r in * by lia.
    assert ((result * radix ^ Z.of_nat n + z / radix) * radix + z mod radix = result * (radix * radix ^ Z.of_nat n) + z)
      as -> by nia.
    rewrite !bool_decide_true; [by rewrite Nat.add_succ_r| |lia|nia].
    destruct max_digits; cbn in *; lia. }
  case_bool_decide as E.
  - exists 1%nat. split; [lia|]. split; [done|].
    rewrite <- (Hlast 0%nat result); [by rewrite Nat.add_0_r|rewrite E; cbn; lia|lia|lia].
  - destruct fuel as [|fuel]; [cbn in Hq; lia|].
    destruct (IH (z / radix) (String (digit_char (z mod radix)) acc)) as (n & Hn & _ & ->); try lia.
    + intros n Hn. specialize (Hb n ltac:(lia)). nia.
    + destruct max_digits; cbn in *; lia.
    + exists (S n). split; [lia|]. split; [intros ->; by rewrite Z.div_0_l in E by lia|].
      by apply Hlast; [|lia..].
Qed.
End print.

(** Where a number in this radix ends. *)
Definition stops (radix : Z) (s : string) : Prop :=
  match s with String c _ => to_digit radix c = None | EmptyString => True end.

Lemma read_number_print radix fuel z rest bound max_digits zero_prefix :
  2 ≤ radix ≤ 16 → (0 < fuel)%nat → 0 ≤ z < radix ^ Z.of_nat fuel → z < bound →
  (fuel ≤ default fuel max_digits)%nat → stops radix rest →
  read_number radix bound max_digits zero_prefix (print_digits radix fuel z "" +:+ rest) = Some (z, rest).
Proof.
  intros Hradix Hf Hz Hb Hm Hs. rewrite <- print_digits_app, string_app_nil_l.
  destruct (read_print radix Hradix fuel z rest bound max_digits 0 0) as (n & Hn & Hn0 & Hread);
    [done|done|lia|intros; lia|done|].
  destruct (print_digits_first radix Hradix fuel z rest Hf Hz) as (c & s & Hcs & Hc).
  unfold read_number. rewrite Hread, Hcs.
  assert (read_digits radix bound max_digits rest (0 * radix ^ Z.of_nat n + z) (0 + n)
          = Some (z, n, rest)) as ->.
  { destruct rest as [|a rest]; cbn [read_digits]; [done|]. cbn in Hs. by rewrite Hs. }
  cbn -[bool_decide starts_with]. rewrite bool_decide_false by lia.
  destruct (starts_with "0" (String c s)) eqn:E; [|by rewrite andb_false_r].
  rewrite (bool_decide_false (1 < n)%nat); [by rewrite andb_false_r|].
  unfold starts_with in E. cbn [strip_prefix] in E.
  destruct (Ascii.eqb_spec "0" c) as [<-|]; [|done]. rewrite Hn0 by auto. lia.
Qed.

Lemma read_decimal fuel z rest bound max_digits zero_prefix :
  (0 < fuel)%nat → 0 ≤ z < 10 ^ Z.of_nat fuel → z < bound →
  (fuel ≤ default fuel max_digits)%nat → stops 10 rest →
  read_number 10 bound max_digits zero_prefix (pretty z +:+ rest) = Some (z, rest).
Proof. intros. rewrite (pretty_print fuel) by done. by apply read_number_print. Qed.

Lemma read_hex z rest :
  0 ≤ z < 2 ^ 16 → stops 16 rest →
  read_number 16 (2 ^ 16) (Some 4%nat) true (lower_hex z +:+ rest) = Some (z, rest).
Proof. intros. unfold lower_hex. apply read_number_print; cbn; try done; lia. Qed.

Lemma read_port_print port : 0 ≤ port < 2 ^ 16 → read_port (":" +:+ pretty port) = Some (port, "").
Proof.
  intros H. unfold read_port. cbn. rewrite <- (string_app_nil_r (pretty port)).
  apply (read_decimal 5); cbn; try done; lia.
Qed.

Lemma read_octet_print i o rest :
  0 ≤ o < 2 ^ 8 → stops 10 rest →
  read_octet i ((if bool_decide (i = 0%nat) then "" else ".") +:+ pretty o +:+ rest) = Some (o, rest).
Proof.
  intros. transitivity (read_number 10 (2 ^ 8) (Some 3%nat) false (pretty o +:+ rest)).
  - by destruct i.
  - apply (read_decimal 3); cbn; try done; lia.
Qed.

Lemma read_ipv4_print ip rest :
  Forall (λ o, 0 ≤ o < 2 ^ 8) (octets ip) → stops 10 rest →
  read_ipv4_addr (print_ipv4 ip +:+ rest) = Some (ip, rest).
Proof.
  destruct ip as [[[a b] c] d]. intros Ho Hr.
  apply Forall_cons in Ho as [Ha Ho]. apply Forall_cons in Ho as [Hb Ho].
  apply Forall_cons in Ho as [Hc Ho]. apply Forall_cons in Ho as [Hd _].
  unfold read_ipv4_addr, print_ipv4. cbn [octets fmap list_fmap join]. rewrite !string_app_assoc.
  pose proof (read_octet_print 0) as H0. pose proof (read_octet_print 1) as H1.
  pose proof (read_octet_print 2) as H2. pose proof (read_octet_print 3) as H3.
  cbn [bool_decide] in *. setoid_rewrite string_app_nil_l in H0.
  rewrite H0 by done. cbn [mbind option_bind]. rewrite H1 by done. cbn [mbind option_bind].
  rewrite H2 by done. cbn [mbind option_bind]. by rewrite H3.
Qed.

(** * IPv6 addresses read back *)

(** After the decimal digits comes no dot: no IPv4 address starts here. *)
Fixpoint undotted (s : string) : Prop :=
  match s with
  | EmptyString => True
  | String c s' => match to_digit 10 c with Some _ => undotted s' | None => c ≠ "."%char end
  end.

Lemma read_digits_undotted bound m s r n r' n' rest :
  undotted s → read_digits 10 bound m s r n = Some (r', n', rest) → read_given_char "." rest = None.
Proof.
  revert r n. induction s as [|c s IH]; intros r n Hu H; cbn [read_digits undotted] in *.
  - by injection H as <- <- <-.
  - destruct (to_digit 10 c); [destruct (_ && _); [by eapply IH|done]|].
    injection H as <- <- <-. cbn. by destruct (Ascii.eqb_spec c ".").
Qed.

Lemma read_ipv4_undotted s : undotted s → read_ipv4_addr s = None.
Proof.
  intros Hu. unfold read_ipv4_addr, read_octet, read_separator.
  destruct (read_number 10 (2 ^ 8) (Some 3%nat) false s) as [[a rest]|] eqn:E; [|done].
  unfold read_number in E.
  destruct (read_digits _ _ _ _ _ _) as [[[r n] rest']|] eqn:Er; [|done].
  apply read_digits_undotted in Er; [|done]. cbn -[bool_decide starts_with] in E.
  repeat case_match; try done. injection E as -> ->. cbn -[read_given_char]. by rewrite Er.
Qed.

Lemma undotted_print fuel z acc :
  0 ≤ z → undotted acc → undotted (print_digits 16 fuel z acc).
Proof.
  revert z acc. induction fuel as [|fuel IH]; intros z acc Hz Hu; [done|]. cbn [print_digits].
  assert (undotted (String (digit_char (z mod 16)) acc)) as Hu'.
  { cbn [undotted]. assert (0 ≤ z mod 16 < 16) as Hm by (apply Z.mod_pos_bound; lia).
    generalize dependent (z mod 16). intros d Hd. by each_digit d. }
  case_match; [done|]. apply IH; [apply Z.div_pos; lia|done].
Qed.

Lemma undotted_hex z rest : 0 ≤ z → undotted rest → undotted (lower_hex z +:+ rest).
Proof.
  intros. unfold lower_hex. rewrite <- print_digits_app, string_app_nil_l. by apply undotted_print.
Qed.

(** The groups after the first. *)
Definition more_groups (groups : list Z) (rest : string) : string :=
  foldr (λ g acc, ":" +:+ lower_hex g +:+ acc) rest groups.

Lemma fmt_cons g groups rest :
  fmt_subslice (g :: groups) +:+ rest = lower_hex g +:+ more_groups groups rest.
Proof.
  unfold fmt_subslice. revert g. induction groups as [|g' groups IH]; intros g; [done|].
  change (fmt_subslice (g :: g' :: groups)) with (lower_hex g +:+ ":" +:+ fmt_subslice (g' :: groups)).
  unfold fmt_subslice in *. cbn [fmap list_fmap join] in *. rewrite !string_app_assoc. f_equal.
  cbn [more_groups foldr]. by rewrite <- IH.
Qed.

Definition no_group (i : nat) (s : string) : Prop := ∀ n, read_groups n i s = ([], false, s).

Lemma stops_more groups rest : stops 16 rest → stops 16 (more_groups groups rest).
Proof. by destruct groups. Qed.

Lemma undotted_more groups rest : undotted rest → undotted (more_groups groups rest).
Proof. by destruct groups. Qed.

Lemma read_first_group n g s :
  0 ≤ g < 2 ^ 16 → stops 16 s → undotted s →
  read_groups (S n) 0 (lower_hex g +:+ s)
  = let '(groups, v4, s') := read_groups n 1 s in (g :: groups, v4, s').
Proof.
  intros Hg Hs Hu. cbn [read_groups read_separator].
  assert ((if bool_decide (n = 0%nat) then None else read_ipv4_addr (lower_hex g +:+ s)) = None) as ->.
  { rewrite read_ipv4_undotted by (apply undotted_hex; [lia|done]). by case_match. }
  by rewrite read_hex.
Qed.

Lemma read_next_group n i g s :
  0 ≤ g < 2 ^ 16 → stops 16 s → undotted s →
  read_groups (S n) (S i) (":" +:+ lower_hex g +:+ s)
  = let '(groups, v4, s') := read_groups n (S (S i)) s in (g :: groups, v4, s').
Proof.
  intros Hg Hs Hu. cbn [read_groups].
  assert (∀ A (p : parser A) t, read_separator ":" (S i) p (":" +:+ t) = p t) as Hsep by done.
  rewrite !Hsep.
  assert ((if bool_decide (n = 0%nat) then None else read_ipv4_addr (lower_hex g +:+ s)) = None) as ->.
  { rewrite read_ipv4_undotted by (apply undotted_hex; [lia|done]). by case_match. }
  by rewrite read_hex.
Qed.

Lemma read_more_groups groups n i rest :
  (length groups ≤ n)%nat → Forall (λ g, 0 ≤ g < 2 ^ 16) groups → stops 16 rest → undotted rest →
  length groups = n ∨ (∀ j, no_group (S j) rest) →
  read_groups n (S i) (more_groups groups rest) = (groups, false, rest).
Proof.
  intros Hn Hg Hs Hu. revert n i Hn. induction Hg as [|g groups Hg _ IH]; intros n i Hn Hend.
  - destruct Hend as [<-|Hend]; [done|apply Hend].
  - destruct n as [|n]; [cbn in Hn; lia|]. cbn [more_groups foldr]. fold (more_groups groups rest).
    rewrite read_next_group by (try done; try apply stops_more; try apply undotted_more; done).
    cbn in Hn. rewrite IH; [done|lia|]. destruct Hend as [[= <-]|]; auto.
Qed.

Lemma read_groups_print groups n rest :
  (length groups ≤ n)%nat → Forall (λ g, 0 ≤ g < 2 ^ 16) groups → stops 16 rest → undotted rest →
  length groups = n ∨ (∀ j, no_group j rest) →
  read_groups n 0 (fmt_subslice groups +:+ rest) = (groups, false, rest).
Proof.
  intros Hn Hg Hs Hu Hend. destruct groups as [|g groups].
  - destruct Hend as [<-|Hend]; [done|apply Hend].
  - apply Forall_cons in Hg as [Hg Hgs]. destruct n as [|n]; [cbn in Hn; lia|].
    rewrite fmt_cons, read_first_group by (try done; try apply stops_more; try apply undotted_more; done).
    cbn in Hn. rewrite read_more_groups; [done|lia|done|done|done|].
    destruct Hend as [[= <-]|Hend]; [auto|]. right. intros j. apply Hend.
Qed.

(** What follows the groups: the scope, the bracket, or two colons. *)
Lemma no_group_scope i s : no_group i ("%" +:+ s).
Proof. intros [|n]; [done|]. cbn [read_groups]. destruct i; by destruct (bool_decide _). Qed.

Lemma no_group_bracket i s : no_group i ("]" +:+ s).
Proof. intros [|n]; [done|]. cbn [read_groups]. destruct i; by destruct (bool_decide _). Qed.

Lemma no_group_colons i s : no_group i ("::" +:+ s).
Proof. intros [|n]; [done|]. cbn [read_groups]. destruct i; by destruct (bool_decide _). Qed.

Definition zero_run (groups : list Z) (s : Span) : Prop :=
  take (len s) (drop (start s) groups) = replicate (len s) 0 ∧ (start s + len s ≤ length groups)%nat.

Lemma longest_zeroes_run groups pre longest current :
  zero_run (pre ++ groups) longest →
  (0 < len current → start current + len current = length pre)%nat → zero_run (pre ++ groups) current →
  zero_run (pre ++ groups) (longest_zeroes groups (length pre) longest current).
Proof.
  revert pre longest current. induction groups as [|g groups IH]; intros pre longest current Hl Hp Hc; [done|].
  assert (pre ++ g :: groups = (pre ++ [g]) ++ groups) as Happ by (by rewrite <- app_assoc).
  assert (S (length pre) = length (pre ++ [g])) as Hlen by (rewrite length_app; cbn; lia).
  cbn [longest_zeroes]. rewrite Happ, Hlen in *. case_bool_decide as Hg.
  - set (cur := mkSpan _ (S (len current))).
    assert (start cur + len cur = length (pre ++ [g]))%nat as Hend.
    { cbn. case_bool_decide; lia. }
    assert (zero_run ((pre ++ [g]) ++ groups) cur) as Hrun.
    { destruct Hc as [Hc Hle]. subst g. split; [|rewrite length_app; lia].
      destruct (decide (len current = 0)%nat) as [E|E].
      - cbn. rewrite bool_decide_true, E by done. rewrite <- app_assoc, drop_app_length. done.
      - cbn -[take replicate]. rewrite bool_decide_false by done.
        rewrite take_S_r with (x := 0), Hc, <- replicate_cons_app; [done|].
        rewrite lookup_drop, Hp by lia. rewrite <- app_assoc. by apply list_lookup_middle. }
    apply IH; [by case_bool_decide|done|done].
  - apply IH; [done|cbn; lia|split; [done|cbn; lia]].
Qed.

Lemma zero_run_split groups s :
  zero_run groups s →
  groups = take (start s) groups ++ replicate (len s) 0 ++ drop (start s + len s) groups.
Proof.
  intros [H _]. rewrite <- H. rewrite <- drop_drop, (take_drop (len s)). by rewrite take_drop.
Qed.

Lemma to_ipv4_mapped_Some ip v4 :
  to_ipv4_mapped ip = Some v4 → Forall (λ g, 0 ≤ g < 2 ^ 16) ip →
  Forall (λ o, 0 ≤ o < 2 ^ 8) (octets v4)
  ∧ ∃ a b c d, v4 = (a, b, c, d) ∧ ip = replicate 5 0 ++ [65535; a * 256 + b; c * 256 + d].
Proof.
  unfold to_ipv4_mapped. intros H Hf. repeat (case_match; try done). subst. injection H as <-.
  do 6 (apply Forall_cons in Hf as [_ Hf]). apply Forall_cons in Hf as [Hab Hf].
  apply Forall_cons in Hf as [Hcd _].
  assert (∀ g, 0 ≤ g < 2 ^ 16 → 0 ≤ g / 256 < 2 ^ 8 ∧ 0 ≤ g mod 256 < 2 ^ 8) as Hg.
  { intros g Hg. split; [split; [apply Z.div_pos; lia|apply Z.div_lt_upper_bound; lia]|].
    apply (Z.mod_pos_bound g 256). lia. }
  pose proof (Hg _ Hab) as [? ?]. pose proof (Hg _ Hcd) as [? ?].
  split; [cbn; do 4 (apply Forall_cons; split; [done|]); done|].
  do 4 eexists. split; [done|]. cbn. rewrite !(Z.mul_comm _ 256), <- !Z.div_mod by done. done.
Qed.

Lemma stops_10 s : stops 16 s → stops 10 s.
Proof.
  destruct s as [|c s]; [done|]. cbn. unfold to_digit. destruct (digit_value c) as [d|]; [|done].
  cbn -[bool_decide]. case_bool_decide; [done|]. intros _. by rewrite bool_decide_false by lia.
Qed.

Lemma read_ipv6_compressed s head t tail b s' :
  read_groups 8 0 s = (head, false, "::" +:+ t) → (length head < 8)%nat →
  read_groups (8 - (length head + 1)) 0 t = (tail, b, s') →
  read_ipv6_addr s = Some (head ++ replicate (8 - length head - length tail) 0 ++ tail, s').
Proof.
  intros Hh Hn Ht. unfold read_ipv6_addr. rewrite Hh, bool_decide_false by lia.
  assert (∀ u, read_given_char ":" (":" +:+ u) = Some (tt, u)) as Hc by done.
  change ("::" +:+ t) with (":" +:+ ":" +:+ t). rewrite Hc. cbn [mbind option_bind].
  rewrite Hc. cbn [mbind option_bind]. by rewrite Ht.
Qed.

Section ipv6.
Context (rest : string) (Hstops : stops 16 rest) (Hdot : undotted rest) (Hend : ∀ j, no_group j rest).

Lemma read_ipv6_mapped v4 :
  Forall (λ o, 0 ≤ o < 2 ^ 8) (octets v4) →
  read_ipv6_addr ("::ffff:" +:+ print_ipv4 v4 +:+ rest)
  = Some (let '(a, b, c, d) := v4 in replicate 5 0 ++ [65535; a * 256 + b; c * 256 + d], rest).
Proof using Hstops.
  intros Ho. destruct v4 as [[[a b] c] d].
  erewrite read_ipv6_compressed with (head := []) (tail := [65535; a * 256 + b; c * 256 + d]) (b := true);
    [done|apply (no_group_colons 0)|cbn; lia|].
  change (read_groups 7 0 (lower_hex 65535 +:+ ":" +:+ print_ipv4 (a, b, c, d) +:+ rest)
          = ([65535; a * 256 + b; c * 256 + d], true, rest)).
  rewrite read_first_group; [|lia|done|done].
  cbn [read_groups].
  assert (∀ A (p : parser A) t, read_separator ":" 1 p (":" +:+ t) = p t) as Hsep by done.
  rewrite !Hsep, bool_decide_false, read_ipv4_print by (done || by apply stops_10). done.
Qed.

Lemma read_ipv6_print ip :
  length ip = 8%nat → Forall (λ g, 0 ≤ g < 2 ^ 16) ip →
  read_ipv6_addr (print_ipv6 ip +:+ rest) = Some (ip, rest).
Proof using Hstops Hdot Hend.
  intros Hlen Hg. unfold print_ipv6. destruct (to_ipv4_mapped ip) as [v4|] eqn:Hm.
  { destruct (to_ipv4_mapped_Some _ _ Hm Hg) as (Ho & a & b & c & d & -> & ->).
    rewrite string_app_assoc. by apply read_ipv6_mapped. }
  assert (zero_run ip (longest_zeroes ip 0 (mkSpan 0 0) (mkSpan 0 0))) as Hrun.
  { apply (longest_zeroes_run ip []); cbn; try lia; (split; [done|cbn; lia]). }
  set (z := longest_zeroes _ _ _ _) in *. pose proof (zero_run_split _ _ Hrun) as Hsplit.
  case_bool_decide as Hz.
  - destruct Hrun as [_ Hle]. rewrite Hlen in Hle.
    rewrite !string_app_assoc.
    assert (length (take (start z) ip) = start z) as Ht by (rewrite length_take; lia).
    assert (length (drop (start z + len z) ip) = 8 - start z - len z)%nat as Hd
      by (rewrite length_drop; lia).
    erewrite read_ipv6_compressed.
    + rewrite Ht, Hd. replace (8 - start z - (8 - start z - len z))%nat with (len z) by lia.
      by rewrite <- Hsplit.
    + apply read_groups_print; [lia|by apply Forall_take|done|done|].
      right. intros j. apply no_group_colons.
    + lia.
    + apply read_groups_print; [lia|by apply Forall_drop|done|done|by right].
  - unfold read_ipv6_addr. rewrite read_groups_print; [|lia|done|done|done|by left].
    by rewrite bool_decide_true.
Qed.
End ipv6.

(** Printing an address and parsing the text gives the address back, but for
    the flow label of an IPv6 address, which is not printed. *)
Lemma parse_print_socket_addr a :
  addr_wf a → (∀ ip port flowinfo scope_id, a = V6 ip port flowinfo scope_id → flowinfo = 0) →
  parse_socket_addr (print_socket_addr a) = Some a.
Proof.
  intros Hwf Hflow. destruct a as [ip port|ip port flowinfo scope_id]; unfold parse_socket_addr, read_socket_addr.
  - destruct Hwf as [Hip Hport]. unfold read_socket_addr_v4, print_socket_addr.
    rewrite read_ipv4_print by done. cbn -[read_port]. by rewrite read_port_print.
  - destruct Hwf as (Hlen & Hip & Hport & _ & Hscope). rewrite (Hflow _ _ _ _ eq_refl).
    set (text := print_socket_addr _).
    assert (read_socket_addr_v4 text = None) as -> by done.
    unfold text, print_socket_addr, read_socket_addr_v6.
    assert (∀ s, read_given_char "[" ("[" +:+ s) = Some (tt, s)) as Hopen by done.
    assert (∀ s, read_given_char "]" ("]" +:+ s) = Some (tt, s)) as Hclose by done.
    assert (∀ s, read_given_char "%" ("%" +:+ s) = Some (tt, s)) as Hpercent by done.
    change ("]:" +:+ pretty port) with ("]" +:+ ":" +:+ pretty port).
    rewrite Hopen. cbn [mbind option_bind]. case_bool_decide as Hs.
    + rewrite string_app_nil_l, read_ipv6_print by (done || (intros j; apply no_group_bracket)).
      cbn [mbind option_bind].
      assert (∀ s, read_scope_id ("]" +:+ s) = None) as -> by done.
      rewrite Hclose, Hs. cbn [mbind option_bind]. by rewrite read_port_print.
    + rewrite read_ipv6_print by (done || (intros j; apply no_group_scope)).
      cbn [mbind option_bind]. unfold read_scope_id. rewrite string_app_assoc, Hpercent. cbn [mbind option_bind].
      rewrite (read_decimal 10) by (cbn; try done; lia).
      rewrite Hclose. cbn [mbind option_bind]. by rewrite read_port_print.
Qed.
