(* ===== verification/Backend.v ===== *)
(** The interface of container backends ([nexal-gateway/src/backend.rs]) and
    what its implementations share: calls that change the outside world and may
    fail, loops that poll it, and the contract of the interface. *)
From S2P Require Import Prelude.

(** * The interface *)

(* @src crates/nexal-gateway/src/backend.rs BackendError *)
Inductive BackendError :=
  | Cli (m : string)
  | PortDiscovery (name : string)
  | Io (m : string).

(* @src crates/nexal-gateway/src/backend.rs ContainerSpec *)
Record ContainerSpec := mkContainerSpec {
  cs_name : string;
  cs_image : string;
  cs_env : gmap string string;
  cs_labels : gmap string string;
  cs_agent_bin : string;
  cs_memory : option string;
  cs_cpus : option string;
  cs_pids_limit : option Z;
  cs_network : bool;
  cs_workspace_volume : option string;
  cs_extra_ports : list Z;
  cs_fuse : bool;
}.

(* @src crates/nexal-gateway/src/backend.rs ContainerHandle *)
Record ContainerHandle := mkContainerHandle {
  ch_name : string;
  ch_url : string;
  ch_port_map : gmap Z string;
}.

(* @src crates/nexal-gateway/src/backend.rs ContainerBackend *)
Class ContainerBackend (W : Type) := {
  ensure : ContainerSpec → W → W * result ContainerHandle BackendError;
  destroy : string → W → W * result unit BackendError;
  container_exists : string → W → W * result bool BackendError;
  container_url : string → W → W * result string BackendError;
}.

(** * Calls *)

(** A call of an [async fn] that returns [Result<A, BackendError>]. *)
Definition act (W A : Type) : Type := W → W * result A BackendError.

Section calls.
Context {W : Type}.

Definition ret {A} (a : A) : act W A := λ w, (w, Ok a).
Definition throw {A} (e : BackendError) : act W A := λ w, (w, Err e).

(** [m.await?] followed by the rest *)
Definition bind {A B} (m : act W A) (k : A → act W B) : act W B := λ w,
  match m w with
  | (w', Ok a) => k a w'
  | (w', Err e) => (w', Err e)
  end.

(** The result as a value: [match m.await { .. }], [let _ = m.await] *)
Definition attempt {A} (m : act W A) : act W (result A BackendError) := λ w,
  ((m w).1, Ok (m w).2).

Definition of_result {A} (r : result A BackendError) : act W A := λ w, (w, r).

(** A call that changes the world only. *)
Definition effect (f : W → W) : act W unit := λ w, (f w, Ok tt).

(** [for _ in 0..n { .. return ..; pause }] and the error after it: a turn
    that gives [None] goes on. *)
Fixpoint poll {A} (n : nat) (turn : act W (option A)) (pause : act W unit) (gave_up : BackendError)
    : act W A :=
  match n with
  | O => throw gave_up
  | S n' => bind turn (λ r,
      match r with
      | Some a => ret a
      | None => bind pause (λ _, poll n' turn pause gave_up)
      end)
  end.
End calls.

Notation "x ⇐ m ; k" := (bind m (λ x, k))
  (at level 100, m at level 90, k at level 200, right associativity, only parsing) : nexal_scope.
Notation "m ;; k" := (bind m (λ _, k))
  (at level 100, k at level 200, right associativity, only parsing) : nexal_scope.

(** * What calls leave alone *)

(** [view] shows what matters of the world. *)
Section views.
Context {W V : Type} (view : W → V).

(** The call changes nothing the view shows. *)
Definition keeps {A} (m : act W A) : Prop := ∀ w, view (m w).1 = view w.

Lemma keeps_ret {A} (a : A) : keeps (ret a).
Proof. by intros w. Qed.

Lemma keeps_throw {A} e : keeps (throw (A := A) e).
Proof. by intros w. Qed.

Lemma keeps_of_result {A} (r : result A BackendError) : keeps (of_result r).
Proof. by intros w. Qed.

Lemma keeps_bind {A B} (m : act W A) (k : A → act W B) :
  keeps m → (∀ a, keeps (k a)) → keeps (bind m k).
Proof.
  intros Hm Hk w. unfold bind. specialize (Hm w). destruct (m w) as [w' [a|e]]; cbn in *; [|done].
  by rewrite Hk.
Qed.

Lemma keeps_attempt {A} (m : act W A) : keeps m → keeps (attempt m).
Proof. intros Hm w. apply Hm. Qed.

Lemma keeps_poll {A} n (turn : act W (option A)) pause e :
  keeps turn → keeps pause → keeps (poll n turn pause e).
Proof.
  intros Ht Hp. induction n as [|n IH]; cbn; [apply keeps_throw|].
  apply keeps_bind; [done|]. intros [a|]; [apply keeps_ret|]. by apply keeps_bind.
Qed.

(** A call that answered went through each of its parts. *)
Lemma bind_Ok {A B} (m : act W A) (k : A → act W B) w w' b :
  bind m k w = (w', Ok b) ↔ ∃ w1 a, m w = (w1, Ok a) ∧ k a w1 = (w', Ok b).
Proof.
  unfold bind. destruct (m w) as [w1 [a|e]]; split; [by eauto| | |].
  - by intros (? & ? & [= <- <-] & ?).
  - done.
  - by intros (? & ? & ? & ?).
Qed.

Lemma attempt_Ok {A} (m : act W A) w w' r : attempt m w = (w', Ok r) ↔ m w = (w', r).
Proof. unfold attempt. destruct (m w) as [w1 r1]; cbn. split; by intros [= <- <-]. Qed.

(** What polling returns, one of its turns returned. *)
Lemma poll_Ok {A} n (turn : act W (option A)) pause e w w' a :
  poll n turn pause e w = (w', Ok a) → ∃ w1, turn w1 = (w', Ok (Some a)).
Proof.
  revert w. induction n as [|n IH]; intros w; cbn; [done|].
  rewrite bind_Ok. intros (w1 & [a'|] & Ht & Hk).
  - injection Hk as <- <-. by exists w.
  - apply bind_Ok in Hk as (w2 & [] & _ & Hk). by eapply IH.
Qed.
End views.

Lemma keeps_compose {W V V' A} (view : W → V) (f : V → V') (m : act W A) :
  keeps view m → keeps (λ w, f (view w)) m.
Proof. intros H w. by rewrite H. Qed.

(** [view] shows the containers of the host: the call changes none but [n]. *)
Section containers.
Context {W : Type} (view : W → gset string).

Definition only {A} (n : string) (m : act W A) : Prop := ∀ w, view (m w).1 ∖ {[n]} = view w ∖ {[n]}.

Lemma keeps_only {A} n (m : act W A) : keeps view m → only n m.
Proof. intros H w. by rewrite H. Qed.

Lemma only_bind {A B} n (m : act W A) (k : A → act W B) :
  only n m → (∀ a, only n (k a)) → only n (bind m k).
Proof.
  intros Hm Hk w. unfold bind. specialize (Hm w). destruct (m w) as [w' [a|e]]; cbn in *; [|done].
  by rewrite Hk.
Qed.

Lemma only_attempt {A} n (m : act W A) : only n m → only n (attempt m).
Proof. intros Hm w. apply Hm. Qed.
End containers.

(** * The contract *)

(** What the interface promises, for the containers a [view] shows: the calls
    for one name touch no other container; [ensure] leaves the container there
    and names it in the handle; [exists] says yes only of one that is there. [key] is the runtime's name for
    the name of a spec. *)
Class BackendContract {W} (B : ContainerBackend W) (view : W → gset string) (key : string → string) := {
  contract_ensure_only s : only view (key (cs_name s)) (ensure s);
  contract_ensure s w w' h :
    ensure s w = (w', Ok h) → ch_name h = key (cs_name s) ∧ ch_name h ∈ view w';
  contract_destroy_only n : only view n (destroy n);
  contract_exists_keeps n : keeps view (container_exists n);
  contract_exists n w w' : container_exists n w = (w', Ok true) → n ∈ view w;
  contract_url n : keeps view (container_url n);
}.

Create HintDb backend.
#[export] Hint Resolve keeps_ret keeps_throw keeps_of_result keeps_attempt keeps_poll keeps_only
  only_attempt : backend.
#[export] Hint Resolve keeps_bind only_bind | 5 : backend.
