(* ===== verification/Float64.v ===== *)
(** Rust's [f64] as the settings of the Fly backend and the delays of the transport
    use it: reading a decimal
    literal, products, the larger of two, rounding up, and the cast to [u64].
    A value is a [spec_float] of the Standard Library. *)
From S2P Require Import Prelude.
From Stdlib Require Import Floats.SpecFloat.
Open Scope Z_scope.

(** * Reading *)

Fixpoint take_digits (s : string) : string * string :=
  match s with
  | String c s' =>
      if is_ascii_digit c then let '(d, r) := take_digits s' in (String c d, r) else (""%string, s)
  | EmptyString => (""%string, ""%string)
  end.

Fixpoint digits_value (acc : Z) (s : string) : Z :=
  match s with
  | String c s' => digits_value (10 * acc + (Z.of_N (code c) - 48)) s'
  | EmptyString => acc
  end.

Definition take_sign (s : string) : bool * string :=
  match strip_prefix "-" s with
  | Some r => (true, r)
  | None => match strip_prefix "+" s with Some r => (false, r) | None => (false, s) end
  end.

(** The exponent after the digits: none, or [e] with a sign and digits. *)
Definition read_exponent (s : string) : option Z :=
  match s with
  | EmptyString => Some 0
  | String c s' =>
      if bool_decide (to_ascii_lowercase c = "e"%char) then
        let '(neg, d) := take_sign s' in
        let '(ds, rest) := take_digits d in
        if negb (bool_decide (ds = ""%string)) && bool_decide (rest = ""%string)
        then Some (if neg : bool then - digits_value 0 ds else digits_value 0 ds) else None
      else None
  end.

(** The double nearest to [m * 10 ^ e]. *)
Definition f64_of_decimal (neg : bool) (m e : Z) : spec_float :=
  match m with
  | Zpos p =>
      if 0 <=? e then binary_normalize 53 1024 (cond_Zopp neg (m * 10 ^ e)) 0 neg
      else SFdiv 53 1024 (S754_finite neg p 0) (S754_finite false (Z.to_pos (10 ^ (- e))) 0)
  | _ => S754_zero neg
  end.

(** [str::parse::<f64>] *)
Definition f64_parse (s : string) : option spec_float :=
  let '(neg, s) := take_sign s in
  let low := string_map to_ascii_lowercase s in
  if decide (low = "inf" ∨ low = "infinity")%string then Some (S754_infinity neg)
  else if decide (low = "nan")%string then Some S754_nan
  else
    let '(whole, rest) := take_digits s in
    let '(frac, rest) := match strip_prefix "." rest with
                         | Some r => take_digits r
                         | None => (""%string, rest)
                         end in
    if decide (whole +:+ frac = ""%string) then None
    else e ← read_exponent rest;
         Some (f64_of_decimal neg (digits_value 0 (whole +:+ frac)) (e - str_len frac)).

(** * Operations *)

Definition f64_of_Z (z : Z) : spec_float := binary_normalize 53 1024 z 0 false.
Definition f64_mul : spec_float → spec_float → spec_float := SFmul 53 1024.

(** The whole part of a positive number [m * 2 ^ e], rounded down or up. *)
Definition whole_down (m : positive) (e : Z) : Z :=
  if 0 <=? e then Zpos m * 2 ^ e else Zpos m / 2 ^ (- e).
Definition whole_up (m : positive) (e : Z) : Z :=
  if 0 <=? e then Zpos m * 2 ^ e else - (- Zpos m / 2 ^ (- e)).

(** [f64::max] with a whole number above zero as the other: a number that is
    none gives the other. *)
Definition f64_max_Z (x : spec_float) (z : Z) : spec_float :=
  match x with
  | S754_finite false m e => if z <=? whole_down m e then x else f64_of_Z z
  | S754_infinity false => x
  | _ => f64_of_Z z
  end.

(** [f64::ceil]; what lies between -1 and 0 becomes a zero. *)
Definition f64_ceil (x : spec_float) : spec_float :=
  match x with
  | S754_finite false m e => f64_of_Z (whole_up m e)
  | S754_finite true m e => f64_of_Z (- whole_down m e)
  | _ => x
  end.

(** [as u64]: towards zero, and to the nearest end of the range. *)
Definition f64_to_u64 (x : spec_float) : Z :=
  match x with
  | S754_finite false m e => Z.min (whole_down m e) (2 ^ 64 - 1)
  | S754_infinity false => 2 ^ 64 - 1
  | _ => 0
  end.

Lemma whole_down_nonneg m e : 0 <= whole_down m e.
Proof.
  unfold whole_down. destruct (Z.leb_spec 0 e).
  - apply Z.mul_nonneg_nonneg; [lia|]. apply Z.pow_nonneg. lia.
  - apply Z.div_pos; [lia|]. apply Z.pow_pos_nonneg; lia.
Qed.

Lemma f64_to_u64_range x : 0 <= f64_to_u64 x < 2 ^ 64.
Proof.
  destruct x as [| [] | | [] m e]; cbn [f64_to_u64]; try lia.
  pose proof (whole_down_nonneg m e). lia.
Qed.

Example f64_parse_examples :
  option_map f64_to_u64 (f64_parse "700") = Some 700 ∧
  option_map (λ x, f64_to_u64 (f64_ceil x)) (f64_parse "0.5") = Some 1 ∧
  option_map (λ x, f64_to_u64 (f64_mul x (f64_of_Z 1024))) (f64_parse "1.5") = Some 1536 ∧
  option_map f64_to_u64 (f64_parse "1e3") = Some 1000 ∧
  option_map f64_to_u64 (f64_parse "-2") = Some 0 ∧
  f64_parse "." = None ∧ f64_parse "1e" = None ∧ f64_parse "0.1" = Some (S754_finite false 7205759403792794 (-56)).
Proof. vm_compute. repeat split. Qed.
