(* ===== verification/Backoff.v ===== *)
(** The delay before a reconnection attempt ([utils/transport/src/transport.rs],
    [reconnect_delay]): exponential, capped, with a jitter on top, computed in
    doubles. *)
From S2P Require Import Prelude Float64.
From Stdlib Require Import Floats.SpecFloat.
Local Open Scope Z_scope.

(** * Operations on doubles *)

Definition f64_add : spec_float → spec_float → spec_float := SFadd 53 1024.
Definition f64_div : spec_float → spec_float → spec_float := SFdiv 53 1024.

(** [f64::min]: of a number and none, the number. *)
Definition f64_min (x y : spec_float) : spec_float :=
  match SFcompare x y with
  | Some Gt => y
  | Some _ => x
  | None => match x with S754_nan => y | _ => x end
  end.

(** [f64::round]: to the nearest whole number, halves away from zero. *)
Definition f64_round (x : spec_float) : spec_float :=
  match x with
  | S754_finite s m e =>
      let n := if 0 <=? e then Zpos m * 2 ^ e else (2 * Zpos m + 2 ^ (- e)) / (2 * 2 ^ (- e)) in
      if n =? 0 then S754_zero s else binary_normalize 53 1024 (cond_Zopp s n) 0 s
  | _ => x
  end.

(** [f64::powi] as the compiler's runtime computes it: squares of the base,
    multiplied where the exponent has a bit, inverted at the end for a negative
    exponent. *)
Fixpoint powi_loop (n : positive) (a r : spec_float) : spec_float :=
  match n with
  | xH => f64_mul r a
  | xO n => powi_loop n (f64_mul a a) r
  | xI n => powi_loop n (f64_mul a a) (f64_mul r a)
  end.

Definition f64_powi (x : spec_float) (n : Z) : spec_float :=
  match n with
  | 0 => f64_of_Z 1
  | Zpos p => powi_loop p x (f64_of_Z 1)
  | Zneg p => f64_div (f64_of_Z 1) (powi_loop p x (f64_of_Z 1))
  end.

(** * The delay *)

(** Delays in milliseconds. *)
(* @src crates/utils/transport/src/transport.rs ReconnectOptions *)
Record ReconnectOptions := mkReconnect {
  rc_attempts : option Z;
  rc_min_delay : Z;
  rc_max_delay : Z;
  rc_factor : spec_float;
  rc_jitter : spec_float;
}.

(* @src crates/utils/transport/src/transport.rs ReconnectOptions::default *)
Definition ReconnectOptions_default : ReconnectOptions :=
  mkReconnect None 500 10000 (f64_of_Z 2) (f64_of_decimal false 2 (-1)).

(** From the clock: the nanoseconds of the current second. *)
(* @src crates/utils/transport/src/transport.rs pseudo_random_unit *)
Definition pseudo_random_unit (subsec_nanos : Z) : spec_float :=
  f64_div (f64_of_Z subsec_nanos) (f64_of_Z 1000000000).

(* @src crates/utils/transport/src/transport.rs reconnect_delay *)
Definition reconnect_delay (rc : ReconnectOptions) (attempt subsec_nanos : Z) : Z :=
  let attempt := Z.max attempt 1 - 1 in
  let base_ms := f64_mul (f64_of_Z (rc_min_delay rc)) (f64_powi (rc_factor rc) (wrap_i32 attempt)) in
  let capped := f64_min base_ms (f64_of_Z (rc_max_delay rc)) in
  let jitter := f64_mul (f64_mul capped (rc_jitter rc)) (pseudo_random_unit subsec_nanos) in
  f64_to_u64 (f64_round (f64_add capped jitter)).

Example delays :
  (λ a, reconnect_delay ReconnectOptions_default a 0) <$> [0; 1; 2; 3; 4; 5; 6; 7; 2000; 2 ^ 31]
    = [500; 500; 1000; 2000; 4000; 8000; 10000; 10000; 10000; 10000]
  ∧ (λ a, reconnect_delay ReconnectOptions_default a 999999999) <$> [1; 2; 5; 6] = [600; 1200; 9600; 12000]
  ∧ reconnect_delay ReconnectOptions_default (2 ^ 31 + 1) 999999999 = 0.
Proof. vm_compute. done. Qed.

(** * Rounding *)

(** Comparing [m * 2 ^ e] with [f * 2 ^ j]. *)
Definition le2 (m e f j : Z) : Prop := m * 2 ^ (e - Z.min e j) <= f * 2 ^ (j - Z.min e j).

Lemma le2_at b m e f j : b <= e → b <= j → le2 m e f j ↔ m * 2 ^ (e - b) <= f * 2 ^ (j - b).
Proof.
  intros He Hj. unfold le2.
  replace (e - b) with ((e - Z.min e j) + (Z.min e j - b)) by lia.
  replace (j - b) with ((j - Z.min e j) + (Z.min e j - b)) by lia.
  rewrite !Z.pow_add_r, !Z.mul_assoc by lia.
  apply (Z.mul_le_mono_pos_r _ _ (2 ^ (Z.min e j - b))), Z.pow_pos_nonneg; lia.
Qed.

Lemma le2_trans m e f j g i : le2 m e f j → le2 f j g i → le2 m e g i.
Proof.
  set (b := Z.min e (Z.min j i)). rewrite !(le2_at b) by lia. lia.
Qed.

Lemma le2_same m f e : le2 m e f e ↔ m <= f.
Proof. rewrite (le2_at e) by lia. rewrite Z.sub_diag. lia. Qed.

Lemma pow2_pos n : 0 <= n → 0 < 2 ^ n.
Proof. intros. apply Z.pow_pos_nonneg; lia. Qed.

Lemma Zdigits2_bounds m : 0 < m → 2 ^ (Zdigits2 m - 1) <= m < 2 ^ Zdigits2 m ∧ 1 <= Zdigits2 m.
Proof.
  destruct m as [|p|p]; try lia. intros _. cbn [Zdigits2].
  assert (digits2_pos p = Pos.size p) as -> by (induction p; cbn; congruence).
  pose proof (Pos.size_gt p). pose proof (Pos.size_le p).
  split; [|lia]. split.
  - apply (Z.mul_le_mono_pos_r _ _ 2); [lia|].
    replace (2 ^ (Z.pos (Pos.size p) - 1) * 2) with (2 ^ Z.pos (Pos.size p)).
    + rewrite <-Pos2Z.inj_pow. lia.
    + rewrite <-(Z.pow_1_r 2) at 3. rewrite <-Z.pow_add_r by lia. f_equal. lia.
  - rewrite <-Pos2Z.inj_pow. lia.
Qed.

(** Nothing was shifted out. *)
Definition exact (r : shr_record) : Prop := shr_r r = false ∧ shr_s r = false.

(** [n] places shifted out. *)
Definition shifted (n : Z) (r r' : shr_record) : Prop :=
  0 <= shr_m r → shr_m r' = shr_m r / 2 ^ n ∧ ∀ q, exact r → shr_m r = q * 2 ^ n → exact r'.

Lemma shifted_1 r : shifted 1 r (shr_1 r).
Proof.
  destruct r as [m a s]. unfold shifted. cbn [shr_m]. intros Hm. rewrite Z.pow_1_r. split.
  - destruct m as [|[p|p|]|p]; cbn [shr_1 shr_m]; try done; try lia.
    + rewrite <-(Z.div_unique (Z.pos p~1) 2 (Z.pos p) 1); lia.
    + rewrite <-(Z.div_unique (Z.pos p~0) 2 (Z.pos p) 0); lia.
  - intros q [[= ->] [= ->]] Hq. destruct m as [|[p|p|]|p]; cbn [shr_1]; try done; lia.
Qed.

Lemma shifted_add a b r1 r2 r3 :
  0 <= a → 0 <= b → shifted a r1 r2 → shifted b r2 r3 → shifted (a + b) r1 r3.
Proof.
  intros Ha Hb H1 H2 Hm. destruct (H1 Hm) as [E1 X1].
  destruct H2 as [E2 X2]; [rewrite E1; apply Z.div_pos; [done|by apply pow2_pos]|].
  rewrite Z.pow_add_r by done. split.
  - rewrite E2, E1. apply Z.div_div; [pose proof (pow2_pos a); lia|by apply pow2_pos].
  - intros q Hr Hq. apply (X2 q).
    + apply (X1 (q * 2 ^ b)); [done|]. rewrite Hq. ring.
    + rewrite E1, Hq. replace (q * (2 ^ a * 2 ^ b)) with (q * 2 ^ b * 2 ^ a) by ring.
      apply Z.div_mul. pose proof (pow2_pos a). lia.
Qed.

Lemma shifted_iter p r : shifted (Zpos p) r (iter_pos shr_1 p r).
Proof.
  revert r. induction p as [p IH|p IH|]; intros r; cbn [iter_pos].
  - replace (Zpos p~1) with (1 + (Zpos p + Zpos p)) by lia.
    eapply shifted_add; [lia|lia|apply shifted_1|]. eapply shifted_add; [lia|lia|apply IH|apply IH].
  - replace (Zpos p~0) with (Zpos p + Zpos p) by lia. eapply shifted_add; [lia|lia|apply IH|apply IH].
  - apply shifted_1.
Qed.

Lemma shifted_shr r e n :
  shifted (Z.max 0 n) r (shr r e n).1 ∧ (shr r e n).2 = e + Z.max 0 n.
Proof.
  destruct n as [|p|p]; cbn [shr fst snd]; [| |].
  - split; [|lia]. intros _. rewrite Z.pow_0_r, Z.div_1_r. split; [done|by intros].
  - split; [|done]. apply shifted_iter.
  - split; [|lia]. intros _. rewrite Z.pow_0_r, Z.div_1_r. split; [done|by intros].
Qed.

(** The result for the mantissa [m] at exponent [e], after a carry if need be. *)
Definition finish (m e : Z) : spec_float :=
  let '(m, e) := if m =? 2 ^ 53 then (2 ^ 52, e + 1) else (m, e) in
  match m with
  | Zpos p => if e <=? 971 then S754_finite false p e else S754_infinity false
  | _ => S754_zero false
  end.

(** The exponent a value of [d] digits from exponent [e] on is rounded at. *)
Definition exponent (m e : Z) : Z := Z.max e (fexp 53 1024 (Zdigits2 m + e)).

Lemma exponent_le m e : e <= exponent m e ∧ -1074 <= exponent m e.
Proof. unfold exponent, fexp, emin. lia. Qed.

Lemma round_cases m r :
  round_nearest_even m (loc_of_shr_record r) = m
  ∨ round_nearest_even m (loc_of_shr_record r) = m + 1 ∧ ¬ exact r.
Proof.
  destruct r as [? [] []]; cbn; unfold exact; cbn; try destruct (Z.even m); intuition congruence.
Qed.

Lemma digits_upto m n : 0 <= n → 0 <= m < 2 ^ n → Zdigits2 m <= n.
Proof.
  intros Hn Hm. destruct (decide (m = 0)) as [->|]; [done|].
  destruct (Zdigits2_bounds m) as [H1 H2]; [lia|].
  destruct (Z.le_gt_cases (Zdigits2 m) n) as [|Hgt]; [done|].
  pose proof (Z.pow_le_mono_r 2 n (Zdigits2 m - 1)). lia.
Qed.

Lemma Zdigits2_unique m d : 1 <= d → 2 ^ (d - 1) <= m < 2 ^ d → Zdigits2 m = d.
Proof.
  intros Hd Hm. assert (0 < 2 ^ (d - 1)) by (apply pow2_pos; lia).
  destruct (Zdigits2_bounds m) as [Hb _]; [lia|].
  apply Z.le_antisymm; [apply digits_upto; lia|].
  destruct (Z.le_gt_cases d (Zdigits2 m)) as [|Hlt]; [done|].
  assert (2 ^ Zdigits2 m <= 2 ^ (d - 1)) by (apply Z.pow_le_mono_r; lia). lia.
Qed.

Lemma shr_none r e n : n <= 0 → shr r e n = (r, e).
Proof. by destruct n. Qed.

(** Rounding a positive number: its digits from the exponent on, or one more if
    there was something below. *)
Lemma binary_round_aux_finish m e l :
  0 < m → (l = loc_Exact ∨ e <= fexp 53 1024 (Zdigits2 m + e)) →
  let n := exponent m e - e in
  ∃ m1, (m1 = m / 2 ^ n ∨ m1 = m / 2 ^ n + 1 ∧ ¬ (l = loc_Exact ∧ ∃ q, m = q * 2 ^ n))
    ∧ 0 <= m1 <= 2 ^ 53 ∧ binary_round_aux 53 1024 false m e l = finish m1 (exponent m e).
Proof.
  intros Hm Hl n. pose proof (exponent_le m e) as Hk.
  unfold binary_round_aux. unfold shr_fexp at 1.
  set (n' := fexp 53 1024 (Zdigits2 m + e) - e).
  destruct (shifted_shr (shr_record_of_loc m l) e n') as [Hs He].
  destruct (shr (shr_record_of_loc m l) e n') as [r e1]. cbn [fst snd] in *.
  assert (Z.max 0 n' = n) as Hn by (unfold n, n', exponent; lia).
  assert (e1 = exponent m e) as -> by (rewrite He, Hn; unfold n; lia). rewrite Hn in Hs.
  assert (shr_m (shr_record_of_loc m l) = m) as Hrm by (by destruct l as [|[]]).
  assert (l = loc_Exact → exact (shr_record_of_loc m l)) as Hex by (by intros ->).
  destruct Hs as [Hr Hx]; rewrite Hrm in *; [lia|].
  assert (0 <= m / 2 ^ n < 2 ^ 53) as Hb.
  { assert (0 < 2 ^ n) by (apply pow2_pos; lia). destruct (Zdigits2_bounds m Hm) as [Hd _]. split; [by apply Z.div_pos; lia|].
    apply Z.div_lt_upper_bound; [done|]. rewrite <-Z.pow_add_r by lia.
    eapply Z.lt_le_trans; [apply Hd|]. apply Z.pow_le_mono_r; [lia|]. unfold n, exponent, fexp. lia. }
  set (m1 := round_nearest_even (shr_m r) (loc_of_shr_record r)).
  assert (m1 = m / 2 ^ n ∨ m1 = m / 2 ^ n + 1 ∧ ¬ (l = loc_Exact ∧ ∃ q, m = q * 2 ^ n)) as Hm1.
  { unfold m1. destruct (round_cases (shr_m r) r) as [->|[-> Hne]]; rewrite Hr; [by left|]. right. split; [done|].
    intros [Hle [q Hq]]. apply Hne, (Hx q); [by apply Hex|done]. }
  exists m1. split; [done|]. split; [destruct Hm1 as [->|[-> _]]; lia|].
  unfold shr_fexp, finish. destruct (Z.eqb_spec m1 (2 ^ 53)) as [->|Hne].
  - replace (fexp 53 1024 (Zdigits2 (2 ^ 53) + exponent m e) - exponent m e) with 1; [done|].
    change (Zdigits2 (2 ^ 53)) with 54. unfold fexp, emin. lia.
  - assert (Zdigits2 m1 <= 53) by (apply digits_upto; [done|]; destruct Hm1 as [->|[-> _]]; lia).
    rewrite shr_none by (unfold fexp, emin; lia).
    assert (0 <= m1) by (destruct Hm1 as [->|[-> _]]; lia).
    by destruct m1.
Qed.

(** ** Doubles as bounds *)

(** A double: at most 53 digits, and an exponent in range. *)
Definition double (f j : Z) : Prop := 0 < f < 2 ^ 53 ∧ -1074 <= j <= 971.

(** [x] is a number from [g * 2 ^ i] up to [f * 2 ^ j]. *)
Definition at_most (x : spec_float) (f j : Z) : Prop :=
  match x with
  | S754_zero false => True
  | S754_finite false m e => le2 (Zpos m) e f j
  | _ => False
  end.
Definition at_least (x : spec_float) (g i : Z) : Prop :=
  match x with
  | S754_infinity false => True
  | S754_finite false m e => le2 g i (Zpos m) e
  | _ => False
  end.

Lemma finish_at_most m k f j :
  0 <= m <= 2 ^ 53 → (2 ^ 52 <= m ∨ k <= 971) → double f j → le2 m k f j → at_most (finish m k) f j.
Proof.
  intros Hm Hk [Hf Hj] Hle. unfold finish.
  assert (∀ m e, 0 <= m → le2 m e f j → (2 ^ 52 <= m ∨ e <= 971) → 
    at_most (match m with Zpos p => if e <=? 971 then S754_finite false p e else S754_infinity false
             | _ => S754_zero false end) f j) as Hgo.
  { intros m' e Hm' H Hor. destruct m' as [|p|p]; [done| |lia].
    destruct (Z.leb_spec e 971) as [|Hgt]; [done|]. exfalso.
    destruct Hor as [Hor|]; [|lia]. apply (le2_at j) in H; [|lia|lia]. rewrite Z.sub_diag, Z.mul_1_r in H.
    assert (2 ^ 1 <= 2 ^ (e - j)) by (apply Z.pow_le_mono_r; lia). nia. }
  destruct (Z.eqb_spec m (2 ^ 53)) as [->|Hne]; [|apply Hgo; [lia|done|done]].
  apply Hgo; [done| |by left].
  eapply le2_trans; [|exact Hle]. rewrite (le2_at k) by lia. by rewrite Z.sub_diag, Z.add_simpl_l.
Qed.

Lemma finish_at_least m k g i : 0 < m <= 2 ^ 53 → le2 g i m k → at_least (finish m k) g i.
Proof.
  intros Hm Hle. unfold finish.
  assert (∀ m e, 0 < m → le2 g i m e →
    at_least (match m with Zpos p => if e <=? 971 then S754_finite false p e else S754_infinity false
             | _ => S754_zero false end) g i) as Hgo.
  { intros m' e Hm' H. destruct m' as [|p|p]; [lia| |lia]. by destruct (e <=? 971). }
  destruct (Z.eqb_spec m (2 ^ 53)) as [->|Hne]; apply Hgo; [done| |lia|done].
  eapply le2_trans; [exact Hle|]. rewrite (le2_at k) by lia. by rewrite Z.sub_diag, Z.add_simpl_l.
Qed.

(** Where a value is rounded at all, its mantissa is full or the exponent is the
    least there is. *)
Lemma exponent_full m e :
  0 < m → let n := exponent m e - e in
  n = 0 ∧ fexp 53 1024 (Zdigits2 m + e) < e ∨ exponent m e = -1074 ∨ 2 ^ (52 + n) <= m ∧ 0 <= n.
Proof.
  intros Hm n. destruct (Zdigits2_bounds m Hm) as [Hd _].
  unfold n, exponent. destruct (Z.le_gt_cases e (fexp 53 1024 (Zdigits2 m + e))) as [H|H]; [|left; lia].
  right. rewrite Z.max_r by lia. revert H. unfold fexp, emin.
  destruct (Z.le_gt_cases (Zdigits2 m + e - 53) (-1074)); [left; lia|]. intros H1. right.
  split; [|lia]. eapply Z.le_trans; [|apply Hd]. apply Z.pow_le_mono_r; lia.
Qed.

(** Rounding does not pass a double. *)
Lemma round_at_most m e l f j :
  0 < m → e <= 971 → (l = loc_Exact ∨ e <= fexp 53 1024 (Zdigits2 m + e) ∧ ¬ le2 f j m e) →
  double f j → le2 m e f j → at_most (binary_round_aux 53 1024 false m e l) f j.
Proof.
  intros Hm He Hl Hd Hle. pose proof (exponent_le m e) as [Hk1 Hk2].
  destruct (binary_round_aux_finish m e l Hm) as (m1 & Hm1 & Hb & ->); [tauto|].
  set (k := exponent m e) in *. assert (0 < 2 ^ (k - e)) as Hp by (apply pow2_pos; lia).
  pose proof (exponent_full m e Hm) as Hfull. fold k in Hfull. cbn in Hfull.
  assert (m / 2 ^ (k - e) <= m1) as Hfloor by (destruct Hm1 as [->|[-> _]]; lia).
  apply finish_at_most; [done| |done|].
  - destruct Hfull as [[Hn _]|[Hn|[Hn Hn0]]]; [right; lia|right; lia|left].
    eapply Z.le_trans; [|exact Hfloor]. apply Z.div_le_lower_bound; [lia|].
    rewrite <-Z.pow_add_r by lia. by rewrite Z.add_comm.
  - destruct Hd as [Hf Hj]. destruct (Z.le_gt_cases k j) as [Hkj|Hkj].
    + apply (le2_at e) in Hle; [|lia|lia]. rewrite Z.sub_diag, Z.mul_1_r in Hle.
      rewrite (le2_at k) by lia. rewrite Z.sub_diag, Z.mul_1_r.
      assert (f * 2 ^ (j - e) = f * 2 ^ (j - k) * 2 ^ (k - e)) as Heq.
      { rewrite <-Z.mul_assoc, <-Z.pow_add_r by lia. do 2 f_equal. lia. }
      rewrite Heq in Hle. destruct Hm1 as [->|[-> Hne]].
      * apply Z.div_le_upper_bound; lia.
      * enough (m / 2 ^ (k - e) < f * 2 ^ (j - k)) by lia. apply Z.div_lt_upper_bound; [done|].
        rewrite Z.mul_comm. apply Z.le_neq. split; [done|]. intros Hmf.
        destruct Hl as [->|[_ Hl]]; [apply Hne; split; [done|by exists (f * 2 ^ (j - k))]|].
        apply Hl. rewrite (le2_at e) by lia. rewrite Z.sub_diag. lia.
    + destruct Hfull as [[Hn Hlt]|[Hn|[Hn Hn0]]]; [|lia|].
      * destruct Hl as [->|[Hl _]]; [|lia]. rewrite Hn, Z.pow_0_r, Z.div_1_r in Hm1.
        destruct Hm1 as [->|[_ []]]; [|split; [done|exists m; lia]].
        by replace k with e by lia.
      * exfalso. apply (le2_at (Z.min e j)) in Hle; [|lia|lia]. apply (Z.lt_irrefl (f * 2 ^ (j - Z.min e j))).
        eapply Z.lt_le_trans; [|exact Hle].
        assert (f * 2 ^ (j - Z.min e j) < 2 ^ (53 + (j - Z.min e j))).
        { rewrite Z.pow_add_r by lia. apply Z.mul_lt_mono_pos_r; [apply pow2_pos; lia|lia]. }
        assert (2 ^ (52 + (k - e) + (e - Z.min e j)) <= m * 2 ^ (e - Z.min e j)).
        { rewrite Z.pow_add_r by lia. apply Z.mul_le_mono_nonneg_r; [apply Z.lt_le_incl, pow2_pos; lia|done]. }
        assert (2 ^ (53 + (j - Z.min e j)) <= 2 ^ (52 + (k - e) + (e - Z.min e j)))
          by (apply Z.pow_le_mono_r; lia). lia.
Qed.

Lemma round_at_least m e l g i :
  0 < m → (l = loc_Exact ∨ e <= fexp 53 1024 (Zdigits2 m + e)) →
  double g i → le2 g i m e → at_least (binary_round_aux 53 1024 false m e l) g i.
Proof.
  intros Hm Hl [Hg Hi] Hle. pose proof (exponent_le m e) as [Hk1 Hk2].
  destruct (binary_round_aux_finish m e l Hm Hl) as (m1 & Hm1 & Hb & ->).
  set (k := exponent m e) in *. assert (0 < 2 ^ (k - e)) as Hp by (apply pow2_pos; lia).
  pose proof (exponent_full m e Hm) as Hfull. fold k in Hfull. cbn in Hfull.
  assert (m / 2 ^ (k - e) <= m1) as Hfloor by (destruct Hm1 as [->|[-> _]]; lia).
  assert (le2 g i (m / 2 ^ (k - e)) k) as Hle1.
  { destruct (Z.le_gt_cases k i) as [Hki|Hki].
    - apply (le2_at e) in Hle; [|lia|lia]. rewrite Z.sub_diag, Z.mul_1_r in Hle.
      rewrite (le2_at k) by lia. rewrite Z.sub_diag, Z.mul_1_r. apply Z.div_le_lower_bound; [done|].
      eapply Z.le_trans; [|exact Hle]. rewrite Z.mul_comm, <-Z.mul_assoc, <-Z.pow_add_r by lia.
      apply Z.eq_le_incl. do 2 f_equal. lia.
    - destruct Hfull as [[Hn Hlt]|[Hn|[Hn Hn0]]]; [|lia|].
      + rewrite Hn, Z.pow_0_r, Z.div_1_r. by replace k with e by lia.
      + assert (2 ^ 52 <= m / 2 ^ (k - e)).
        { apply Z.div_le_lower_bound; [done|]. rewrite <-Z.pow_add_r by lia. by rewrite Z.add_comm. }
        rewrite (le2_at i) by lia. rewrite Z.sub_diag, Z.mul_1_r.
        assert (2 ^ 1 <= 2 ^ (k - i)) by (apply Z.pow_le_mono_r; lia). nia. }
  apply finish_at_least.
  - split; [|lia]. eapply Z.lt_le_trans; [|exact Hfloor].
    apply (le2_at (Z.min i k)) in Hle1; [|lia|lia].
    assert (0 < 2 ^ (i - Z.min i k)) by (apply pow2_pos; lia).
    assert (0 < 2 ^ (k - Z.min i k)) by (apply pow2_pos; lia).
    destruct (Z.le_gt_cases (m / 2 ^ (k - e)) 0) as [Hq|Hq]; [|done].
    assert (m / 2 ^ (k - e) * 2 ^ (k - Z.min i k) <= 0) as H1 by (apply Z.mul_nonpos_nonneg; lia).
    assert (0 < g * 2 ^ (i - Z.min i k)) as H2 by (apply Z.mul_pos_pos; lia).
    destruct (Z.lt_irrefl _ (Z.lt_le_trans _ _ _ H2 (Z.le_trans _ _ _ Hle1 H1))).
  - eapply le2_trans; [exact Hle1|]. by rewrite le2_same.
Qed.

(** ** Operations against bounds *)

Lemma digits2_pos_Zdigits2 p : Z.pos (digits2_pos p) = Zdigits2 (Zpos p).
Proof. done. Qed.

(** The digits that are there moved up; the value stays. *)
Lemma shl_align_value p e e' :
  let r := shl_align p e e' in Zpos r.1 = Zpos p * 2 ^ (e - r.2) ∧ r.2 = Z.min e e'.
Proof.
  unfold shl_align. destruct (e' - e) as [|d|d] eqn:E; cbn [fst snd].
  - rewrite Z.sub_diag. lia.
  - rewrite Z.sub_diag. lia.
  - split; [|lia]. replace (e - e') with (Zpos d) by lia. clear.
    rewrite <-Pos2Z.inj_pow, <-Pos2Z.inj_mul. f_equal.
    induction d as [|d IH] using Pos.peano_ind; [cbn; lia|].
    rewrite Pos.iter_succ, IH, Pos.pow_succ_r. lia.
Qed.

Lemma le2_scale p e e0 f j : e0 <= e → le2 (p * 2 ^ (e - e0)) e0 f j ↔ le2 p e f j.
Proof.
  intros He. rewrite !(le2_at (Z.min e0 j)) by lia. rewrite <-Z.mul_assoc, <-Z.pow_add_r by lia.
  by replace (e - e0 + (e0 - Z.min e0 j)) with (e - Z.min e0 j) by lia.
Qed.
Lemma le2_scale_r p e e0 f j : e0 <= e → le2 f j (p * 2 ^ (e - e0)) e0 ↔ le2 f j p e.
Proof.
  intros He. rewrite !(le2_at (Z.min e0 j)) by lia. rewrite <-Z.mul_assoc, <-Z.pow_add_r by lia.
  by replace (e - e0 + (e0 - Z.min e0 j)) with (e - Z.min e0 j) by lia.
Qed.

Lemma normalize_at_most p e f j :
  e <= 971 → double f j → le2 (Zpos p) e f j → at_most (binary_normalize 53 1024 (Zpos p) e false) f j.
Proof.
  intros He Hd Hle. unfold binary_normalize, binary_round.
  destruct (shl_align_value p e (fexp 53 1024 (Z.pos (digits2_pos p) + e))) as [Hv He'].
  destruct (shl_align _ _ _) as [q e']; cbn [fst snd] in *.
  apply round_at_most; [lia|lia|by left|done|]. rewrite Hv. apply le2_scale; [lia|done].
Qed.

Lemma normalize_at_least p e g i :
  double g i → le2 g i (Zpos p) e → at_least (binary_normalize 53 1024 (Zpos p) e false) g i.
Proof.
  intros Hd Hle. unfold binary_normalize, binary_round.
  destruct (shl_align_value p e (fexp 53 1024 (Z.pos (digits2_pos p) + e))) as [Hv He'].
  destruct (shl_align _ _ _) as [q e']; cbn [fst snd] in *.
  apply round_at_least; [lia|by left|done|]. rewrite Hv. apply le2_scale_r; [lia|done].
Qed.

(** A whole number of up to 53 digits is a double. *)
Lemma f64_of_Z_exact n :
  0 < n < 2 ^ 53 → ∃ p e, f64_of_Z n = S754_finite false p e ∧ -52 <= e <= 0 ∧ Zpos p = n * 2 ^ (- e)
    ∧ Zdigits2 (Zpos p) = 53.
Proof.
  destruct n as [|n|n]; try lia. intros Hn. unfold f64_of_Z, binary_normalize, binary_round.
  destruct (Zdigits2_bounds (Zpos n)) as [Hd Hd1]; [lia|].
  assert (Zdigits2 (Zpos n) <= 53) as Hd53 by (apply digits_upto; lia).
  destruct (shl_align_value n 0 (fexp 53 1024 (Z.pos (digits2_pos n) + 0))) as [Hv He].
  destruct (shl_align _ _ _) as [q e]; cbn [fst snd] in *.
  rewrite digits2_pos_Zdigits2 in He. revert He. unfold fexp, emin.
  rewrite Z.max_l, Z.min_r by lia. intros He.
  assert (Zdigits2 (Zpos q) = 53) as Hq.
  { apply Zdigits2_unique; [lia|]. rewrite Hv. assert (0 < 2 ^ (0 - e)) by (apply pow2_pos; lia). split.
    - replace (53 - 1) with ((Zdigits2 (Zpos n) - 1) + (0 - e)) by lia. rewrite Z.pow_add_r by lia. nia.
    - replace 53 with (Zdigits2 (Zpos n) + (0 - e)) at 1 by lia. rewrite Z.pow_add_r by lia. nia. }
  exists q, e. rewrite Hq. rewrite Z.sub_0_l in Hv. split; [|lia].
  destruct (binary_round_aux_finish (Zpos q) e loc_Exact) as (m1 & Hm1 & Hb & ->); [lia|by left|].
  assert (exponent (Zpos q) e = e) as Hk by (unfold exponent, fexp, emin; rewrite Hq; lia).
  rewrite Hk, Z.sub_diag, Z.pow_0_r, Z.div_1_r in *.
  assert (m1 = Zpos q) as -> by (destruct Hm1 as [|[_ []]]; [done|split; [done|exists (Zpos q); lia]]).
  unfold finish. destruct (Z.eqb_spec (Zpos q) (2 ^ 53)) as [Heq|_].
  - exfalso. rewrite Heq in Hq. discriminate.
  - destruct (Z.leb_spec e 971); [done|lia].
Qed.

(** Rounding to a whole number and casting, between two whole numbers. *)
Lemma to_whole_between r lo hi :
  0 < lo → hi < 2 ^ 53 → at_least r lo 0 → at_most r hi 0 →
  lo <= f64_to_u64 (f64_round r) <= hi.
Proof.
  intros Hlo Hhi Hl Hm. destruct r as [[]|[]| |[] p e]; try done.
  set (n := if 0 <=? e then Zpos p * 2 ^ e else (2 * Zpos p + 2 ^ (- e)) / (2 * 2 ^ (- e))).
  assert (lo <= n <= hi) as Hn.
  { cbn [at_least at_most] in Hl, Hm. unfold n. destruct (Z.leb_spec 0 e).
    - apply (le2_at 0) in Hl; [|lia|lia]. apply (le2_at 0) in Hm; [|lia|lia].
      rewrite !Z.sub_0_r in *. lia.
    - assert (0 < 2 ^ (- e)) by (apply pow2_pos; lia).
      apply (le2_at e) in Hl; [|lia|lia]. apply (le2_at e) in Hm; [|lia|lia].
      rewrite Z.sub_diag, Z.sub_0_l in *. split.
      + apply Z.div_le_lower_bound; nia.
      + apply Z.lt_succ_r, Z.div_lt_upper_bound; nia. }
  cbn [f64_round]. fold n. destruct (Z.eqb_spec n 0); [lia|].
  change (binary_normalize 53 1024 (cond_Zopp false n) 0 false) with (f64_of_Z n).
  destruct (f64_of_Z_exact n) as (q & e' & -> & He' & Hq & _); [lia|].
  cbn [f64_to_u64]. assert (whole_down q e' = n) as ->; [|lia].
  unfold whole_down. destruct (Z.leb_spec 0 e') as [He0|He0].
  - replace e' with 0 in * by lia. rewrite Z.pow_0_r. change (- 0) with 0 in Hq. lia.
  - rewrite Hq. apply Z.div_mul. assert (0 < 2 ^ (- e')) by (apply pow2_pos; lia). lia.
Qed.

(** A product with something up to one. *)
Lemma mul_at_most_one m e y :
  double (Zpos m) e → at_most y 1 0 → at_most (f64_mul (S754_finite false m e) y) (Zpos m) e.
Proof.
  intros Hd Hy. destruct y as [[]| | |[] p j]; try done. cbn [at_most] in Hy.
  assert (j <= 0) as Hj.
  { destruct (Z.le_gt_cases j 0) as [|Hj]; [done|]. apply (le2_at 0) in Hy; [|lia|lia].
    rewrite !Z.sub_0_r in Hy.
    assert (2 ^ 1 <= 2 ^ j) by (apply Z.pow_le_mono_r; lia).
    assert (1 * 2 ^ j <= Zpos p * 2 ^ j) by (apply Z.mul_le_mono_nonneg_r; lia). lia. }
  destruct Hd as [Hm He]. cbn [f64_mul SFmul xorb].
  change (f64_mul (S754_finite false m e) (S754_finite false p j))
    with (binary_round_aux 53 1024 false (Zpos (m * p)) (e + j) loc_Exact).
  apply round_at_most; [lia|lia|by left|done|].
  rewrite Pos2Z.inj_mul, (le2_at (e + j)) by lia. rewrite Z.sub_diag, Z.mul_1_r.
  apply (le2_at j) in Hy; [|lia|lia]. rewrite Z.sub_diag in Hy.
  replace (e - (e + j)) with (0 - j) by lia. nia.
Qed.

(** The quotient of two numbers, the first the smaller one. *)
Lemma div_at_most_one m1 e1 m2 e2 :
  ¬ le2 (Zpos m2) e2 (Zpos m1) e1 → -1000 <= Zdigits2 (Zpos m1) + e1 - (Zdigits2 (Zpos m2) + e2) →
  at_most (f64_div (S754_finite false m1 e1) (S754_finite false m2 e2)) 1 0.
Proof.
  intros Hlt Hd. unfold f64_div, SFdiv, SFdiv_core_binary. cbn [xorb].
  destruct (Zdigits2_bounds (Zpos m1)) as [Hd1 Hn1]; [lia|].
  destruct (Zdigits2_bounds (Zpos m2)) as [Hd2 Hn2]; [lia|].
  set (d1 := Zdigits2 (Zpos m1)) in *. set (d2 := Zdigits2 (Zpos m2)) in *.
  assert (d1 + e1 <= d2 + e2) as Hde.
  { destruct (Z.le_gt_cases (d1 + e1) (d2 + e2)) as [|Hgt]; [done|]. destruct Hlt.
    set (b := Z.min e1 e2). rewrite (le2_at b) by lia.
    assert (Zpos m2 * 2 ^ (e2 - b) <= 2 ^ (d2 + (e2 - b))).
    { rewrite Z.pow_add_r by lia. apply Z.mul_le_mono_nonneg_r; [apply Z.lt_le_incl, pow2_pos; lia|lia]. }
    assert (2 ^ (d1 - 1 + (e1 - b)) <= Zpos m1 * 2 ^ (e1 - b)).
    { rewrite Z.pow_add_r by lia. apply Z.mul_le_mono_nonneg_r; [apply Z.lt_le_incl, pow2_pos; lia|lia]. }
    assert (2 ^ (d2 + (e2 - b)) <= 2 ^ (d1 - 1 + (e1 - b))) by (apply Z.pow_le_mono_r; lia). lia. }
  set (e' := Z.min (fexp 53 1024 (d1 + e1 - (d2 + e2))) (e1 - e2)).
  assert (e' <= d1 + e1 - (d2 + e2) - 53 ∧ e' <= e1 - e2) as [He' He1] by (unfold e', fexp, emin; lia).
  set (s := e1 - e2 - e').
  assert (match s with 0 => Zpos m1 | Zpos _ => Z.shiftl (Zpos m1) s | Zneg _ => 0 end = Zpos m1 * 2 ^ s) as ->.
  { destruct s as [|p|p] eqn:Es; [lia|by rewrite Z.shiftl_mul_pow2|lia]. }
  pose proof (Z_div_mod (Zpos m1 * 2 ^ s) (Zpos m2)) as Hq. unfold Z.div_eucl in *.
  fold (Z.div_eucl (Zpos m1 * 2 ^ s) (Zpos m2)) in *.
  destruct (Z.div_eucl (Zpos m1 * 2 ^ s) (Zpos m2)) as [q r].
  destruct Hq as [Hq Hr]; [lia|].
  assert (2 ^ 52 <= q) as Hq52.
  { assert (2 ^ (d2 + 52) <= Zpos m1 * 2 ^ s).
    { apply Z.le_trans with (2 ^ (d1 - 1 + s)); [apply Z.pow_le_mono_r; unfold s; lia|].
      rewrite Z.pow_add_r by (unfold s; lia).
      apply Z.mul_le_mono_nonneg_r; [apply Z.lt_le_incl, pow2_pos; unfold s; lia|lia]. }
    assert (2 ^ (d2 + 52) = 2 ^ d2 * 2 ^ 52) by (apply Z.pow_add_r; lia). nia. }
  assert (q < 2 ^ (- e')) as Hq1.
  { assert (Zpos m1 * 2 ^ s < Zpos m2 * 2 ^ (- e')).
    { rewrite (le2_at (e2 + e')) in Hlt by lia. apply Z.nle_gt in Hlt.
      replace (e1 - (e2 + e')) with s in Hlt by lia. by replace (e2 - (e2 + e')) with (- e') in Hlt by lia. }
    nia. }
  assert (53 <= Zdigits2 q) as Hdq.
  { destruct (Zdigits2_bounds q) as [Hb _]; [lia|]. destruct (Z.le_gt_cases 53 (Zdigits2 q)) as [|Hlt']; [done|].
    assert (2 ^ Zdigits2 q <= 2 ^ 52) by (apply Z.pow_le_mono_r; lia). lia. }
  assert (le2 q e' 1 0) as Hle by (rewrite (le2_at e') by lia; rewrite Z.sub_diag, Z.sub_0_l; lia).
  apply round_at_most; [lia|lia| |done|done]. right. split; [unfold fexp; lia|].
  rewrite (le2_at e') by lia. rewrite Z.sub_diag, Z.sub_0_l. lia.
Qed.

(** The clock's part of a second. *)
Lemma unit_at_most_one n : 0 <= n < 1000000000 → at_most (pseudo_random_unit n) 1 0.
Proof.
  intros Hn. destruct (decide (n = 0)) as [->|]; [by vm_compute|].
  destruct (f64_of_Z_exact n) as (p & e & Hf & He & Hp & Hd); [lia|].
  destruct (f64_of_Z_exact 1000000000) as (p2 & e2 & Hf2 & He2 & Hp2 & Hd2); [lia|].
  unfold pseudo_random_unit. rewrite Hf, Hf2. apply div_at_most_one; [|lia].
  rewrite (le2_at (-52)) by lia. rewrite Hp, Hp2, <-!Z.mul_assoc, <-!Z.pow_add_r by lia.
  replace (- e2 + (e2 - -52)) with 52 by lia. replace (- e + (e - -52)) with 52 by lia. lia.
Qed.

Lemma shl_align_pos p e e' : e' <= e → Zpos (shl_align p e e').1 = Zpos p * 2 ^ (e - e').
Proof. intros H. destruct (shl_align_value p e e') as [-> ->]. by rewrite Z.min_r. Qed.

(** A number from [lo] on, and something on top of it up to what makes it [hi]. *)
Lemma add_between lo hi m e mj ej y :
  0 < lo <= hi → hi < 2 ^ 53 → e <= 971 → le2 lo 0 (Zpos m) e →
  le2 (Zpos m * 2 ^ (e - Z.min e ej) + Zpos mj * 2 ^ (ej - Z.min e ej)) (Z.min e ej) hi 0 →
  at_most y (Zpos mj) ej →
  at_least (f64_add (S754_finite false m e) y) lo 0 ∧ at_most (f64_add (S754_finite false m e) y) hi 0.
Proof.
  intros Hlo Hhi He Hl Hh Hy. assert (double lo 0 ∧ double hi 0) as [Hdl Hdh] by (unfold double; lia).
  destruct y as [[]| | |[] p j]; try done; cbn [f64_add SFadd at_most at_least] in *.
  - split; [done|]. eapply le2_trans; [|exact Hh]. rewrite (le2_at (Z.min e ej)) by lia.
    rewrite Z.sub_diag. assert (0 < 2 ^ (ej - Z.min e ej)) by (apply pow2_pos; lia). nia.
  - unfold cond_Zopp.
    set (b := Z.min (Z.min e ej) (Z.min j 0)).
    set (z := Zpos (shl_align m e (Z.min e j)).1 + Zpos (shl_align p j (Z.min e j)).1).
    assert (z * 2 ^ (Z.min e j - b) = Zpos m * 2 ^ (e - b) + Zpos p * 2 ^ (j - b)) as Hz.
    { unfold z. rewrite !shl_align_pos by lia. rewrite Z.mul_add_distr_r, <-!Z.mul_assoc, <-!Z.pow_add_r by lia.
      f_equal; do 2 f_equal; lia. }
    assert (∃ q, z = Zpos q) as [q Hq] by (unfold z; eexists; rewrite <-Pos2Z.inj_add; done).
    fold z. clearbody z. subst z.
    assert (0 < Zpos p * 2 ^ (j - b)) by (apply Z.mul_pos_pos; [lia|apply pow2_pos; lia]). split.
    + apply normalize_at_least; [done|]. rewrite (le2_at b) by lia. rewrite Hz.
      apply (le2_at b) in Hl; lia.
    + apply normalize_at_most; [lia|done|]. rewrite (le2_at b) by lia. rewrite Hz.
      apply (le2_at b) in Hy; [|lia|lia]. apply (le2_at b) in Hh; [|lia|lia].
      rewrite Z.mul_add_distr_r, <-!Z.mul_assoc, <-!Z.pow_add_r in Hh by lia.
      replace (e - Z.min e ej + (Z.min e ej - b)) with (e - b) in Hh by lia.
      replace (ej - Z.min e ej + (Z.min e ej - b)) with (ej - b) in Hh by lia. lia.
Qed.

(** ** Powers of two *)

Definition pow2f (k : Z) : spec_float :=
  if k <=? 1023 then S754_finite false (2 ^ 52)%positive (k - 52) else S754_infinity false.

(** A full mantissa times a power of two only moves. *)
Lemma mul_pow2f m e k :
  Zdigits2 (Zpos m) = 53 → 0 <= k → -74 <= e →
  f64_mul (S754_finite false m e) (pow2f k)
  = if decide (k <= 1023 ∧ e + k <= 971) then S754_finite false m (e + k) else S754_infinity false.
Proof.
  intros Hm Hk He. unfold pow2f. destruct (Z.leb_spec k 1023).
  2: { rewrite decide_False by lia. done. }
  change (f64_mul (S754_finite false m e) (S754_finite false (2 ^ 52)%positive (k - 52))) with
    (binary_round_aux 53 1024 false (Zpos (m * 2 ^ 52)) (e + (k - 52)) loc_Exact).
  assert (Zpos (m * 2 ^ 52) = Zpos m * 2 ^ 52) as Hv by apply Pos2Z.inj_mul.
  assert (Zdigits2 (Zpos (m * 2 ^ 52)) = 105) as Hd.
  { destruct (Zdigits2_bounds (Zpos m)) as [Hb _]; [lia|]. rewrite Hm in Hb.
    apply Zdigits2_unique; [lia|]. rewrite Hv. change (2 ^ (105 - 1)) with (2 ^ 52 * 2 ^ 52).
    change (2 ^ 105) with (2 ^ 53 * 2 ^ 52). change (53 - 1) with 52 in Hb.
    split; [apply Z.mul_le_mono_nonneg_r; [done|apply Hb]|apply Z.mul_lt_mono_pos_r; [done|apply Hb]]. }
  assert (exponent (Zpos (m * 2 ^ 52)) (e + (k - 52)) = e + k) as Hx.
  { unfold exponent. rewrite Hd. unfold fexp, emin. lia. }
  destruct (binary_round_aux_finish (Zpos (m * 2 ^ 52)) (e + (k - 52)) loc_Exact) as (m1 & Hm1 & Hb & ->);
    [lia|by left|]. rewrite Hx in *. replace (e + k - (e + (k - 52))) with 52 in Hm1 by lia.
  rewrite Hv, Z.div_mul in Hm1 by lia.
  assert (m1 = Zpos m) as -> by (destruct Hm1 as [|[_ []]]; [done|split; [done|by exists (Zpos m)]]).
  unfold finish. destruct (Z.eqb_spec (Zpos m) (2 ^ 53)) as [Heq|_].
  { exfalso. rewrite Heq in Hm. discriminate. }
  destruct (Z.leb_spec (e + k) 971); [rewrite decide_True by lia|rewrite decide_False by lia]; done.
Qed.

Lemma pow2f_mul a b : 0 <= a → 0 <= b → f64_mul (pow2f a) (pow2f b) = pow2f (a + b).
Proof.
  intros Ha Hb. unfold pow2f at 1 3. destruct (Z.leb_spec a 1023).
  - rewrite mul_pow2f by (done || lia). replace (a - 52 + b) with (a + b - 52) by lia.
    destruct (Z.leb_spec (a + b) 1023); [by rewrite decide_True by lia|by rewrite decide_False by lia].
  - destruct (Z.leb_spec (a + b) 1023); [lia|]. unfold pow2f. by destruct (b <=? 1023).
Qed.

Lemma powi_loop_pow2f p a r :
  0 <= a → 0 <= r → powi_loop p (pow2f a) (pow2f r) = pow2f (r + Zpos p * a).
Proof.
  revert a r. induction p as [p IH|p IH|]; intros a r Ha Hr; cbn [powi_loop].
  - rewrite !pow2f_mul, IH by lia. f_equal. lia.
  - rewrite pow2f_mul, IH by lia. f_equal. lia.
  - rewrite pow2f_mul by lia. f_equal. lia.
Qed.

Lemma powi_2 n : 0 <= n → f64_powi (f64_of_Z 2) n = pow2f n.
Proof.
  destruct n as [|p|p]; [done| |lia]. intros _. cbn [f64_powi].
  change (f64_of_Z 2) with (pow2f 1). change (f64_of_Z 1) with (pow2f 0).
  rewrite powi_loop_pow2f by lia. f_equal. lia.
Qed.

(** * How long a client waits *)

(** The delay without its jitter, for the [n]th failure in a row, from zero. *)
Definition backoff (n : Z) : Z := Z.min (500 * 2 ^ n) 10000.

Lemma backoff_cases n :
  0 <= n → n ∈ [0; 1; 2; 3; 4] ∨ 5 <= n ∧ backoff n = 10000.
Proof.
  intros Hn. destruct (Z.le_gt_cases 5 n) as [H|H].
  - right. split; [done|]. unfold backoff. assert (2 ^ 5 <= 2 ^ n) by (apply Z.pow_le_mono_r; lia). lia.
  - left. assert (n = 0 ∨ n = 1 ∨ n = 2 ∨ n = 3 ∨ n = 4) by lia. set_solver.
Qed.

Lemma capped_backoff n :
  0 <= n →
  f64_min (f64_mul (f64_of_Z 500) (f64_powi (f64_of_Z 2) n)) (f64_of_Z 10000) = f64_of_Z (backoff n).
Proof.
  intros Hn. rewrite powi_2 by done. destruct (backoff_cases n Hn) as [H|[H ->]].
  - apply list_elem_of_In in H. cbn in H. by repeat (destruct H as [<-|H]; [vm_compute; reflexivity|]).
  - change (f64_of_Z 500) with (S754_finite false 8796093022208000 (-44)).
    change (f64_of_Z 10000) with (S754_finite false 5497558138880000 (-39)).
    rewrite mul_pow2f by (done || lia). case_decide; [|done].
    unfold f64_min, SFcompare. destruct (Z.compare_spec (-44 + n) (-39)) as [->|?|?]; [done|lia|done].
Qed.

(** The jitter adds up to a fifth. *)
Lemma jitter_between c m e mj ej b u :
  f64_of_Z b = S754_finite false m e → f64_mul (S754_finite false m e) c = S754_finite false mj ej →
  0 < b <= 10000 → e <= 971 → double (Zpos mj) ej → le2 b 0 (Zpos m) e →
  le2 (Zpos m * 2 ^ (e - Z.min e ej) + Zpos mj * 2 ^ (ej - Z.min e ej)) (Z.min e ej) (b + b / 5) 0 →
  at_most u 1 0 →
  b <= f64_to_u64 (f64_round (f64_add (f64_of_Z b) (f64_mul (f64_mul (f64_of_Z b) c) u))) <= b + b / 5.
Proof.
  intros Hb Hj Hr He Hd Hl Hh Hu. rewrite Hb, Hj.
  assert (0 <= b / 5 <= 2000) by (split; [apply Z.div_pos; lia|apply Z.div_le_upper_bound; lia]).
  destruct (add_between b (b + b / 5) m e mj ej (f64_mul (S754_finite false mj ej) u)) as [H1 H2];
    [lia|lia|lia|done|done|by apply mul_at_most_one|]. apply to_whole_between; [lia|lia|done|done].
Qed.

(** C38: A client with the default options waits, before it dials again after the
    [n]th failure in a row, half a second doubled with each failure, ten seconds
    at most, and up to a fifth more, whatever the clock shows; so it never waits
    longer than twelve seconds. *)
Theorem reconnect_delay_bounds attempt nanos :
  1 <= attempt <= 2 ^ 31 → 0 <= nanos < 1000000000 →
  let delay := reconnect_delay ReconnectOptions_default attempt nanos in
  backoff (attempt - 1) <= delay <= backoff (attempt - 1) + backoff (attempt - 1) / 5
  ∧ 500 <= delay <= 12000.
Proof.
  intros Ha Hn. cbn zeta. unfold reconnect_delay. cbn [rc_min_delay rc_max_delay rc_factor rc_jitter ReconnectOptions_default].
  rewrite Z.max_l by lia. assert (wrap_i32 (attempt - 1) = attempt - 1) as ->.
  { unfold wrap_i32. rewrite Z.mod_small; lia. }
  rewrite capped_backoff by lia. pose proof (unit_at_most_one nanos Hn) as Hu.
  set (u := pseudo_random_unit nanos) in *. clearbody u.
  set (n := attempt - 1). assert (0 <= n) as Hn0 by lia. clearbody n.
  enough (backoff n <= f64_to_u64 (f64_round (f64_add (f64_of_Z (backoff n))
    (f64_mul (f64_mul (f64_of_Z (backoff n)) (f64_of_decimal false 2 (-1))) u))) <= backoff n + backoff n / 5) as H.
  { split; [exact H|]. assert (500 <= backoff n <= 10000).
    { unfold backoff. assert (0 < 2 ^ n) by (apply pow2_pos; lia). lia. }
    assert (backoff n / 5 <= 2000) by (apply Z.div_le_upper_bound; lia). lia. }
  assert (∃ b, backoff n = b ∧ b ∈ [500; 1000; 2000; 4000; 8000; 10000]) as (b & -> & Hb).
  { eexists. split; [done|]. destruct (backoff_cases n Hn0) as [H|[_ ->]]; [|set_solver].
    apply list_elem_of_In in H. cbn in H. repeat (destruct H as [<-|H]; [vm_compute; set_solver|]). done. }
  apply list_elem_of_In in Hb. cbn in Hb.
  repeat (destruct Hb as [<-|Hb]; [eapply jitter_between;
    [vm_compute; reflexivity|vm_compute; reflexivity|lia|lia|split; lia|vm_compute; discriminate
    |vm_compute; discriminate|done]|]). done.
Qed.

Lemma reconnect_delay_bounds_witness :
  500 <= reconnect_delay ReconnectOptions_default 6 999999999 <= 12000
  ∧ rc_max_delay ReconnectOptions_default < reconnect_delay ReconnectOptions_default 6 999999999.
Proof.
  destruct (reconnect_delay_bounds 6 999999999) as [_ H]; [lia|lia|].
  split; [exact H|vm_compute; reflexivity].
Defined.
