(* ===== verification/Podman.v ===== *)
(** The podman backend ([nexal-gateway/src/backend/podman.rs]): the commands it
    runs, the options of a new container, and the backend contract. *)
From S2P Require Import Prelude Backend Calendar.
Local Open Scope nexal_scope.

(** * The host *)

(** What a finished command leaves: the exit code ([None] after a signal), the
    text of its status, and its output as text. *)
Record Output := mkOutput {
  out_code : option Z;
  out_status : string;
  out_stdout : string;
  out_stderr : string;
}.

Definition out_success (o : Output) : bool := bool_decide (out_code o = Some 0%Z).

(** [tokio::process::Command], the timer and the clock. *)
Class PodmanHost (W : Type) := {
  run_command : string → list string → W → W * result Output string;
  sleep_ms : Z → W → W;
  unix_secs : W → Z;
}.

(* @src crates/nexal-gateway/src/backend/podman.rs CONTAINER_WS_PORT *)
Definition CONTAINER_WS_PORT : Z := 9100.

(** * The backend *)

(* @src crates/nexal-gateway/src/backend/podman.rs PodmanBackend *)
Record PodmanBackend := mkPodmanBackend {
  podman_bin : string;
  runtime : option string;
}.

(* @src crates/nexal-gateway/src/backend/podman.rs PodmanBackend::new *)
Definition PodmanBackend_new (bin rt : option string) : PodmanBackend :=
  mkPodmanBackend (default "podman" bin) rt.

Section podman.
Context {W : Type} {H : PodmanHost W} (self : PodmanBackend).

(** [Command::..output().await], its failure to start as an error. *)
Definition spawn_podman (args : list string) : act W Output := λ w,
  let '(w', r) := run_command (podman_bin self) args w in
  (w', map_err (λ e, Io ("spawn podman: " +:+ e)) r).

(* @src crates/nexal-gateway/src/backend/podman.rs PodmanBackend::podman *)
Definition podman (args : list string) : act W string :=
  output ⇐ spawn_podman args;
  if out_success output then ret (out_stdout output)
  else throw (Cli ("podman " +:+ join " " args +:+ " → exit " +:+ out_status output +:+ ": "
                   +:+ trim (out_stderr output))).

(* @src crates/nexal-gateway/src/backend/podman.rs container_exists *)
Definition podman_container_exists (name : string) : act W bool :=
  status ⇐ spawn_podman ["container"; "exists"; name];
  ret (out_success status).

(** The address in the first line [podman port] prints. *)
(* @src crates/nexal-gateway/src/backend/podman.rs discover_host_port "if let Ok(out)" .. "return Ok(trimmed" *)
Definition first_address (r : result string BackendError) : option string :=
  match r with
  | Ok out =>
      match lines out with
      | line :: _ => let trimmed := trim line in if decide (trimmed = "") then None else Some trimmed
      | [] => None
      end
  | Err _ => None
  end.

(* @src crates/nexal-gateway/src/backend/podman.rs discover_host_port *)
Definition discover_host_port (container_name : string) (port : Z) : act W string :=
  poll 30 (r ⇐ attempt (podman ["port"; container_name; pretty port +:+ "/tcp"]); ret (first_address r))
    (effect (sleep_ms 200)) (PortDiscovery (container_name +:+ ":" +:+ pretty port)).

(* @src crates/nexal-gateway/src/backend/podman.rs discover_url *)
Definition discover_url (container_name : string) : act W string :=
  addr ⇐ discover_host_port container_name CONTAINER_WS_PORT;
  ret ("ws://" +:+ addr).

(** The loop of [discover_extra_ports]; [map] holds the ports found so far. *)
(* @src crates/nexal-gateway/src/backend/podman.rs discover_extra_ports *)
Fixpoint discover_extra_ports (container_name : string) (ports : list Z) (map : gmap Z string)
    : act W (gmap Z string) :=
  match ports with
  | [] => ret map
  | port :: ports' =>
      r ⇐ attempt (discover_host_port container_name port);
      discover_extra_ports container_name ports'
        (match r with Ok addr => <[port := addr]> map | Err _ => map end)
  end.

(* @src crates/nexal-gateway/src/backend/podman.rs copy_agent_binary *)
Definition copy_agent_binary (spec : ContainerSpec) : act W unit :=
  if valid_utf8 (cs_agent_bin spec) then
    _ ⇐ podman ["cp"; cs_agent_bin spec; cs_name spec +:+ ":/usr/local/bin/nexal-agent"];
    ret tt
  else throw (Io "agent_bin path is not utf-8").

Definition option_arg {A} (f : A → string) (o : option A) : list string :=
  match o with Some a => [f a] | None => [] end.

(** The options after [--name <name>]; [created] is the time of the label. *)
(* @src crates/nexal-gateway/src/backend/podman.rs ensure "let publish = format!" .. ":/workspace" *)
Definition create_flags (spec : ContainerSpec) (created : string) : list string :=
  ["--userns=keep-id"; "--security-opt=no-new-privileges"; "--cap-drop=ALL"; "--workdir=/workspace";
   "--label=app=nexal"; "--label=nexal.kind=worker"; "--label=nexal.session=" +:+ cs_name spec;
   "--label=nexal.created=" +:+ created;
   "--publish=127.0.0.1::" +:+ pretty CONTAINER_WS_PORT +:+ "/tcp"] ++
  option_arg (λ rt, "--runtime=" +:+ rt) (runtime self) ++
  option_arg (λ m, "--memory=" +:+ m) (cs_memory spec) ++
  option_arg (λ c, "--cpus=" +:+ c) (cs_cpus spec) ++
  option_arg (λ p : Z, "--pids-limit=" +:+ pretty p) (cs_pids_limit spec) ++
  map (λ kv, "--env=" +:+ kv.1 +:+ "=" +:+ kv.2) (map_to_list (cs_env spec)) ++
  map (λ kv, "--label=" +:+ kv.1 +:+ "=" +:+ kv.2) (map_to_list (cs_labels spec)) ++
  ["--network=pasta"] ++
  (if cs_network spec then ["--dns=1.1.1.1"; "--dns=8.8.8.8"] else []) ++
  (if cs_fuse spec then ["--device=/dev/fuse"; "--cap-add=SYS_ADMIN"] else []) ++
  map (λ port : Z, "--publish=127.0.0.1::" +:+ pretty port +:+ "/tcp") (cs_extra_ports spec) ++
  option_arg (λ vol, "--volume=" +:+ vol +:+ ":/workspace") (cs_workspace_volume spec).

(* @src crates/nexal-gateway/src/backend/podman.rs ensure "let mut args: Vec<String> = vec![" .. "ws://[::]:" *)
Definition create_args (spec : ContainerSpec) (created : string) : list string :=
  "create" :: "--name" :: cs_name spec :: create_flags spec created ++
  [cs_image spec; "/usr/local/bin/nexal-agent"; "--listen"; "ws://[::]:" +:+ pretty CONTAINER_WS_PORT].

(** The address of a running container, as both ways of [ensure] end. *)
(* @src crates/nexal-gateway/src/backend/podman.rs ensure "let url = self.discover_url(&spec.name).await?;" .. "});" *)
Definition podman_handle (spec : ContainerSpec) : act W ContainerHandle :=
  url ⇐ discover_url (cs_name spec);
  port_map ⇐ discover_extra_ports (cs_name spec) (cs_extra_ports spec) ∅;
  ret (mkContainerHandle (cs_name spec) url port_map).

(* @src crates/nexal-gateway/src/backend/podman.rs ensure *)
Definition podman_ensure (spec : ContainerSpec) : act W ContainerHandle :=
  there ⇐ podman_container_exists (cs_name spec);
  if there : bool then
    attempt (podman ["stop"; cs_name spec]);;
    copy_agent_binary spec;;
    attempt (podman ["start"; cs_name spec]);;
    podman_handle spec
  else
    (λ w, podman (create_args spec (iso_time (unix_secs w))) w);;
    copy_agent_binary spec;;
    podman ["start"; cs_name spec];;
    attempt (podman ["exec"; cs_name spec; "/bin/sh"; "-c"; "mkdir -p /run/nexal/proxy"]);;
    podman_handle spec.

(* @src crates/nexal-gateway/src/backend/podman.rs destroy *)
Definition podman_destroy (name : string) : act W unit :=
  attempt (podman ["rm"; "-f"; name]);; ret tt.

#[local] Instance podman_backend : ContainerBackend W := {|
  ensure := podman_ensure;
  destroy := podman_destroy;
  container_exists := podman_container_exists;
  container_url := discover_url;
|}.
End podman.

(** * Addresses *)

Section addresses.
Context {W : Type} {H : PodmanHost W} (self : PodmanBackend).

(** An address is the first line podman answered when asked for the port. *)
Lemma discover_host_port_Ok n port w w' addr :
  discover_host_port self n port w = (w', Ok addr) →
  ∃ w1 out line rest, podman self ["port"; n; pretty port +:+ "/tcp"] w1 = (w', Ok out)
    ∧ lines out = line :: rest ∧ addr = trim line.
Proof.
  unfold discover_host_port. intros [w1 Ht]%poll_Ok. apply bind_Ok in Ht as (w2 & r & Hp & Ht). rewrite attempt_Ok in Hp.
  injection Ht as <- Hf. unfold first_address in Hf. destruct r as [out|e]; [|done].
  destruct (lines out) as [|line rest] eqn:El; [done|]. case_decide; [done|]. injection Hf as <-.
  by exists w1, out, line, rest.
Qed.

Lemma discover_url_Ok n w w' url :
  discover_url self n w = (w', Ok url) →
  ∃ addr, url = "ws://" +:+ addr ∧ ∃ w1, discover_host_port self n CONTAINER_WS_PORT w = (w1, Ok addr).
Proof. unfold discover_url. intros (w1 & addr & Hd & Hr)%bind_Ok. injection Hr as <- <-. eauto. Qed.

(** The url in a handle is that of the container. *)
Lemma podman_ensure_url spec w w' h :
  podman_ensure self spec w = (w', Ok h) →
  ∃ w1 w2, discover_url self (cs_name spec) w1 = (w2, Ok (ch_url h)).
Proof.
  assert (∀ w1 w2, podman_handle self spec w1 = (w2, Ok h) →
    ∃ w1 w2, discover_url self (cs_name spec) w1 = (w2, Ok (ch_url h))) as Hh.
  { unfold podman_handle. intros w1 w2 (w3 & url & Hu & Hr)%bind_Ok. apply bind_Ok in Hr as (w4 & pm & _ & Hr).
    injection Hr as _ <-. by exists w1, w3. }
  unfold podman_ensure. rewrite bind_Ok. intros (w1 & [] & _ & Hr).
  - do 3 apply bind_Ok in Hr as (? & ? & _ & Hr). by eapply Hh.
  - do 4 apply bind_Ok in Hr as (? & ? & _ & Hr). by eapply Hh.
Qed.
End addresses.

(** * Options of a new container *)

(** The leading words with a dash; the value of each option of one key, in order. *)
Fixpoint option_words (args : list string) : list string :=
  match args with
  | a :: args => if starts_with "-" a then a :: option_words args else []
  | [] => []
  end.

Definition option_word (key value : string) : string := "--" +:+ key +:+ "=" +:+ value.

Definition option_values (key : string) (opts : list string) : list string :=
  omap (strip_prefix ("--" +:+ key +:+ "=")) opts.

Definition option_keys : list string :=
  ["userns"; "security-opt"; "cap-drop"; "cap-add"; "workdir"; "label"; "env"; "publish"; "runtime";
   "memory"; "cpus"; "pids-limit"; "network"; "dns"; "device"; "volume"].

Lemma option_values_app key l k : option_values key (l ++ k) = option_values key l ++ option_values key k.
Proof. apply omap_app. Qed.

(** Options of one key. *)
Lemma option_values_same key {A} (f : A → string) l :
  option_values key (map (λ x, option_word key (f x)) l) = map f l.
Proof.
  induction l as [|x l IH]; [done|]. unfold option_values in *. cbn [omap list_omap map].
  unfold option_word at 1. replace ("--" +:+ key +:+ "=" +:+ f x) with (("--" +:+ key +:+ "=") +:+ f x)
    by (by rewrite !string_app_assoc).
  rewrite strip_prefix_app. by rewrite IH.
Qed.

(** Options of another. *)
Lemma option_values_other key key' {A} (f : A → string) l :
  (∀ v, strip_prefix ("--" +:+ key +:+ "=") (option_word key' v) = None) →
  option_values key (map (λ x, option_word key' (f x)) l) = [].
Proof.
  intros Hk. induction l as [|x l IH]; [done|]. unfold option_values in *. cbn [omap list_omap map].
  by rewrite Hk.
Qed.

Lemma option_arg_map {A} (f : A → string) o : option_arg f o = map f (option_list o).
Proof. by destruct o. Qed.

(** The options by key. *)
Lemma create_flags_keyed self spec created :
  create_flags self spec created =
    map (option_word "userns") ["keep-id"] ++ map (option_word "security-opt") ["no-new-privileges"] ++
    map (option_word "cap-drop") ["ALL"] ++ map (option_word "workdir") ["/workspace"] ++
    map (option_word "label")
      ["app=nexal"; "nexal.kind=worker"; "nexal.session=" +:+ cs_name spec; "nexal.created=" +:+ created] ++
    map (λ port : Z, option_word "publish" ("127.0.0.1::" +:+ pretty port +:+ "/tcp")) [CONTAINER_WS_PORT] ++
    map (option_word "runtime") (option_list (runtime self)) ++
    map (option_word "memory") (option_list (cs_memory spec)) ++
    map (option_word "cpus") (option_list (cs_cpus spec)) ++
    map (λ p : Z, option_word "pids-limit" (pretty p)) (option_list (cs_pids_limit spec)) ++
    map (λ kv, option_word "env" (kv.1 +:+ "=" +:+ kv.2)) (map_to_list (cs_env spec)) ++
    map (λ kv, option_word "label" (kv.1 +:+ "=" +:+ kv.2)) (map_to_list (cs_labels spec)) ++
    map (option_word "network") ["pasta"] ++
    map (option_word "dns") (if cs_network spec then ["1.1.1.1"; "8.8.8.8"] else []) ++
    map (option_word "device") (if cs_fuse spec then ["/dev/fuse"] else []) ++
    map (option_word "cap-add") (if cs_fuse spec then ["SYS_ADMIN"] else []) ++
    map (λ port : Z, option_word "publish" ("127.0.0.1::" +:+ pretty port +:+ "/tcp")) (cs_extra_ports spec) ++
    map (λ vol, option_word "volume" (vol +:+ ":/workspace")) (option_list (cs_workspace_volume spec)).
Proof.
  unfold create_flags. rewrite !option_arg_map. unfold option_word.
  destruct (cs_network spec), (cs_fuse spec); cbn [map app]; rewrite <- ?app_assoc; reflexivity.
Qed.

Ltac keyed :=
  rewrite create_flags_keyed, !option_values_app;
  rewrite ?option_values_same, ?(option_values_same _ (λ x : string, x)),
    ?option_values_other by (intros; reflexivity);
  cbn [map app]; rewrite ?app_nil_r, ?map_id.

Lemma option_words_app opts rest :
  Forall (λ a, starts_with "-" a = true) opts → option_words (opts ++ rest) = opts ++ option_words rest.
Proof. induction 1 as [|a opts Ha _ IH]; [done|]. cbn. by rewrite Ha, IH. Qed.

(** Every option is a word with one of the keys. *)
Lemma create_flags_keys self spec created :
  Forall (λ a, ∃ key value, key ∈ option_keys ∧ a = option_word key value) (create_flags self spec created).
Proof.
  assert (∀ key {A} (f : A → string) l, key ∈ option_keys →
    Forall (λ a, ∃ key value, key ∈ option_keys ∧ a = option_word key value)
      (map (λ x, option_word key (f x)) l)) as Hmap.
  { intros key A f l Hk. induction l; constructor; eauto. }
  rewrite create_flags_keyed, !Forall_app.
  split_and!; first [apply Hmap|apply (Hmap _ _ (λ x : string, x))]; by apply (bool_decide_unpack _).
Qed.

(** C10: What the command that makes a container asks podman for.  After the name
    and before the image come options, each a word of its own with one of the
    known keys, so that no variable or label a frontend sends is taken for
    another option; and option by option: all capabilities are dropped, and the
    one of FUSE is added back with FUSE's device exactly when the spec asks for
    FUSE (the registry and the pool always do); no new privileges, the user's own
    namespace, one network; the agent's port and the extra ports are published on
    the loopback address and no other; the workspace is the only volume; and
    the spec's limits, variables and labels are passed as they are.  The image
    is the word after, unchecked: the leading words with a dash are these
    options exactly when the image does not begin with a dash. *)
Theorem podman_create_options self spec created :
  let opts := create_flags self spec created in
  let args := opts ++ cs_image spec ::
                ["/usr/local/bin/nexal-agent"; "--listen"; "ws://[::]:" +:+ pretty CONTAINER_WS_PORT] in
  create_args self spec created = "create" :: "--name" :: cs_name spec :: args
  ∧ (option_words args = opts ↔ starts_with "-" (cs_image spec) = false)
  ∧ Forall (λ a, ∃ key value, key ∈ option_keys ∧ a = option_word key value) opts
  ∧ option_values "cap-drop" opts = ["ALL"]
  ∧ option_values "cap-add" opts = (if cs_fuse spec then ["SYS_ADMIN"] else [])
  ∧ option_values "device" opts = (if cs_fuse spec then ["/dev/fuse"] else [])
  ∧ option_values "security-opt" opts = ["no-new-privileges"]
  ∧ option_values "userns" opts = ["keep-id"]
  ∧ option_values "network" opts = ["pasta"]
  ∧ option_values "publish" opts
    = map (λ port : Z, "127.0.0.1::" +:+ pretty port +:+ "/tcp") (CONTAINER_WS_PORT :: cs_extra_ports spec)
  ∧ option_values "volume" opts = map (λ vol, vol +:+ ":/workspace") (option_list (cs_workspace_volume spec))
  ∧ option_values "env" opts = map (λ kv, kv.1 +:+ "=" +:+ kv.2) (map_to_list (cs_env spec))
  ∧ option_values "label" opts
    = ["app=nexal"; "nexal.kind=worker"; "nexal.session=" +:+ cs_name spec; "nexal.created=" +:+ created]
      ++ map (λ kv, kv.1 +:+ "=" +:+ kv.2) (map_to_list (cs_labels spec))
  ∧ option_values "memory" opts = option_list (cs_memory spec)
  ∧ option_values "cpus" opts = option_list (cs_cpus spec)
  ∧ option_values "pids-limit" opts = map (pretty : Z → string) (option_list (cs_pids_limit spec)).
Proof.
  intros opts args. split; [done|]. split; [|split; [apply create_flags_keys|]].
  - assert (option_words args = opts ++ option_words (drop (length opts) args)) as E.
    { unfold args. rewrite drop_app_length. apply option_words_app.
      eapply Forall_impl; [apply create_flags_keys|]. intros a (key & value & _ & ->). reflexivity. }
    rewrite E. unfold args. rewrite drop_app_length. cbn [option_words].
    destruct (starts_with "-" (cs_image spec)); [split; [|done]|by rewrite app_nil_r].
    intros H. apply (f_equal length) in H. rewrite length_app in H. cbn in H. lia.
  - unfold opts. split_and!; keyed; reflexivity.
Qed.

(** So a frontend that asks for an image of that name takes away what the
    options before it ask for. *)
Example image_read_as_option :
  let spec := mkContainerSpec "nexal-worker-a" "--privileged" ∅ ∅ "/opt/agent" None None None true None [] true in
  let opts := create_flags (PodmanBackend_new None None) spec "t" in
  option_words (opts ++ [cs_image spec; "/usr/local/bin/nexal-agent"; "--listen"; "ws://[::]:9100"])
  = opts ++ ["--privileged"].
Proof. vm_compute. reflexivity. Qed.

(** * The contract *)

(** What the manual of podman says of the commands the backend runs, for the
    containers [view] shows: [create] and [rm] do their work when they succeed
    and nothing else otherwise, [container exists] ends with code 0 only when
    the container is there, and the other commands make and remove none. *)
Class PodmanLaws {W} (H : PodmanHost W) (bin : string) (view : W → gset string) := {
  law_exists n w w' r : run_command bin ["container"; "exists"; n] w = (w', r) →
    view w' = view w ∧ ∀ o, r = Ok o → out_code o = Some 0%Z → n ∈ view w;
  law_create n opts w w' r : run_command bin ("create" :: "--name" :: n :: opts) w = (w', r) →
    view w' = match r with Ok o => if out_success o then {[n]} ∪ view w else view w | Err _ => view w end;
  law_rm n w w' r : run_command bin ["rm"; "-f"; n] w = (w', r) →
    view w' = match r with Ok o => if out_success o then view w ∖ {[n]} else view w | Err _ => view w end;
  law_quiet c args w : c ∈ ["stop"; "start"; "cp"; "exec"; "port"] →
    view (run_command bin (c :: args) w).1 = view w;
  law_sleep ms w : view (sleep_ms ms w) = view w;
}.

Section laws.
Context {W : Type} {H : PodmanHost W} (self : PodmanBackend) (view : W → gset string).
Context {L : PodmanLaws H (podman_bin self) view}.

Lemma keeps_quiet c args :
  c ∈ ["stop"; "start"; "cp"; "exec"; "port"] → keeps view (podman self (c :: args)).
Proof.
  intros Hc. apply keeps_bind.
  - intros w. pose proof (law_quiet (view := view) c args w Hc) as Hq. unfold spawn_podman.
    by destruct (run_command _ _ w).
  - intros o. destruct (out_success o); auto with backend.
Qed.

Lemma podman_exists_spec n w w' r :
  podman_container_exists self n w = (w', r) → view w' = view w ∧ (r = Ok true → n ∈ view w).
Proof.
  unfold podman_container_exists, bind, spawn_podman.
  destruct (run_command _ _ w) as [w1 r1] eqn:E. apply (law_exists (view := view)) in E as [Hv Hin].
  destruct r1 as [o|e]; intros [= <- <-]; (split; [done|]); [|done].
  intros [= Ho]. apply (Hin o); [done|]. by apply bool_decide_eq_true in Ho.
Qed.

Lemma keeps_discover n port : keeps view (discover_host_port self n port).
Proof.
  apply keeps_poll; [|intros w; apply law_sleep].
  apply keeps_bind; [apply keeps_attempt, keeps_quiet; set_solver|auto with backend].
Qed.

Lemma keeps_extra_ports n ports m : keeps view (discover_extra_ports self n ports m).
Proof.
  revert m. induction ports as [|port ports IH]; intros m; cbn; [apply keeps_ret|].
  apply keeps_bind; [apply keeps_attempt, keeps_discover|auto].
Qed.

Lemma keeps_url n : keeps view (discover_url self n).
Proof. apply keeps_bind; [apply keeps_discover|auto with backend]. Qed.

Lemma keeps_handle spec : keeps view (podman_handle self spec).
Proof.
  apply keeps_bind; [apply keeps_url|]. intros url.
  apply keeps_bind; [apply keeps_extra_ports|auto with backend].
Qed.

Lemma keeps_copy spec : keeps view (copy_agent_binary self spec).
Proof.
  unfold copy_agent_binary. destruct (valid_utf8 _); [|apply keeps_throw].
  apply keeps_bind; [apply keeps_quiet; set_solver|auto with backend].
Qed.

(** What comes after the container is known to be there. *)
Lemma keeps_after_reuse spec :
  keeps view (attempt (podman self ["stop"; cs_name spec]);;
    copy_agent_binary self spec;; attempt (podman self ["start"; cs_name spec]);; podman_handle self spec).
Proof.
  apply keeps_bind; [apply keeps_attempt, keeps_quiet; set_solver|]. intros _.
  apply keeps_bind; [apply keeps_copy|]. intros _.
  apply keeps_bind; [apply keeps_attempt, keeps_quiet; set_solver|]. intros _. apply keeps_handle.
Qed.

Lemma keeps_after_create spec :
  keeps view (copy_agent_binary self spec;; podman self ["start"; cs_name spec];;
    attempt (podman self ["exec"; cs_name spec; "/bin/sh"; "-c"; "mkdir -p /run/nexal/proxy"]);;
    podman_handle self spec).
Proof.
  apply keeps_bind; [apply keeps_copy|]. intros _.
  apply keeps_bind; [apply keeps_quiet; set_solver|]. intros _.
  apply keeps_bind; [apply keeps_attempt, keeps_quiet; set_solver|]. intros _. apply keeps_handle.
Qed.
End laws.

Section contract.
Context {W : Type} {H : PodmanHost W} (self : PodmanBackend) (view : W → gset string).
Context {L : PodmanLaws H (podman_bin self) view}.

Lemma podman_create_view s created w w' r :
  podman self (create_args self s created) w = (w', r) →
  view w' ∖ {[cs_name s]} = view w ∖ {[cs_name s]} ∧ (∀ o, r = Ok o → cs_name s ∈ view w').
Proof.
  unfold podman, bind, spawn_podman.
  destruct (run_command _ _ w) as [w3 r3] eqn:Er. apply (law_create (view := view)) in Er.
  destruct r3 as [o|e]; cbn [map_err]; [|intros [= <- <-]; by rewrite Er].
  destruct (out_success o); intros [= <- <-]; rewrite Er; (split; [set_solver|]); [set_solver|done].
Qed.

Lemma podman_ensure_only s : only view (cs_name s) (podman_ensure self s).
Proof.
  apply only_bind.
  - apply keeps_only. intros w. destruct (podman_container_exists self (cs_name s) w) as [w1 r] eqn:E.
    by apply (podman_exists_spec self view) in E as [? _].
  - intros [].
    + apply keeps_only, (keeps_after_reuse self view s).
    + apply only_bind; [|intros _; apply keeps_only, (keeps_after_create self view s)].
      intros w. destruct (podman self _ w) as [w1 r] eqn:E. by apply podman_create_view in E as [? _].
Qed.

Lemma podman_handle_name s w w' h : podman_handle self s w = (w', Ok h) → ch_name h = cs_name s.
Proof.
  unfold podman_handle. rewrite bind_Ok. intros (? & url & _ & Hk).
  apply bind_Ok in Hk as (? & pm & _ & Hk). by injection Hk as <- <-.
Qed.

Lemma podman_ensure_there s w w' h :
  podman_ensure self s w = (w', Ok h) → ch_name h = cs_name s ∧ cs_name s ∈ view w'.
Proof.
  unfold podman_ensure. rewrite bind_Ok. intros (w1 & there & E & Hr).
  apply (podman_exists_spec self view) in E as [Hv Hin]. destruct there.
  - pose proof (keeps_after_reuse self view s w1) as Hk. rewrite Hr in Hk. cbn [fst] in Hk.
    rewrite Hk, Hv. split; [|by apply Hin].
    apply bind_Ok in Hr as (w2 & r2 & _ & Hr). apply bind_Ok in Hr as (w3 & r3 & _ & Hr).
    apply bind_Ok in Hr as (w4 & r4 & _ & Hr). by eapply podman_handle_name.
  - apply bind_Ok in Hr as (w2 & out & Ec & Hr).
    pose proof (keeps_after_create self view s w2) as Hk. rewrite Hr in Hk. cbn [fst] in Hk.
    rewrite Hk. split; [|by eapply (podman_create_view s)].
    apply bind_Ok in Hr as (w3 & r3 & _ & Hr). apply bind_Ok in Hr as (w4 & r4 & _ & Hr).
    apply bind_Ok in Hr as (w5 & r5 & _ & Hr). by eapply podman_handle_name.
Qed.

Lemma podman_destroy_only n : only view n (podman_destroy self n).
Proof.
  apply only_bind; [apply only_attempt|intros _; apply keeps_only, keeps_ret].
  intros w. unfold podman, bind, spawn_podman.
  destruct (run_command _ _ w) as [w1 r1] eqn:E. apply (law_rm (view := view)) in E.
  destruct r1 as [o|e]; cbn [map_err]; [|cbn [fst]; by rewrite E].
  destruct (out_success o); cbn [fst ret throw]; rewrite E; [set_solver|done].
Qed.
End contract.

(** C11: The podman backend keeps the backend contract under the container's own
    name: no call touches another container, [ensure] leaves its container in
    place and names it, whether it was there or not and whatever fails on the
    way, and [exists] never invents one. *)
Theorem podman_contract {W} {H : PodmanHost W} self (view : W → gset string) :
  PodmanLaws H (podman_bin self) view → BackendContract (podman_backend self) view (λ n, n).
Proof.
  intros L. split.
  - apply (podman_ensure_only self view).
  - intros s w w' h Hr. apply (podman_ensure_there self view) in Hr as [E ?]. by rewrite E.
  - apply (podman_destroy_only self view).
  - intros n w. cbn. destruct (podman_container_exists self n w) as [w' r] eqn:E.
    by apply (podman_exists_spec self view) in E as [? _].
  - intros n w w' E. apply (podman_exists_spec self view) in E as [_ Hin]. by apply Hin.
  - apply (keeps_url self view).
Qed.

(** ** Witness: a host of names *)

Module SampleHost.
(** Every command works at once; [rm] fails when [stuck]. *)
Definition answer (code : Z) (out : string) : Output := mkOutput (Some code) "exit status" out "".
Definition host_step (stuck : bool) (args : list string) (w : gset string) : gset string * result Output string :=
  match args with
  | ["container"; "exists"; n] => (w, Ok (answer (if decide (n ∈ w) then 0 else 1) ""))
  | "create" :: "--name" :: n :: _ => ({[n]} ∪ w, Ok (answer 0 ""))
  | ["rm"; "-f"; n] => if stuck then (w, Ok (answer 125 "")) else (w ∖ {[n]}, Ok (answer 0 ""))
  | _ => (w, Ok (answer 0 ("127.0.0.1:40000" +:+ newline)))
  end.
Definition host (stuck : bool) : PodmanHost (gset string) := {|
  run_command _ := host_step stuck;
  sleep_ms _ w := w;
  unix_secs _ := 0%Z;
|}.
Definition self : PodmanBackend := PodmanBackend_new None None.
Definition spec (n : string) : ContainerSpec :=
  mkContainerSpec n "img" ∅ ∅ "/opt/agent" None None None true None [3389%Z] true.

Lemma podman_laws stuck : PodmanLaws (host stuck) "podman" (λ w, w).
Proof.
  split.
  - intros n w w' r [= <- <-]. split; [done|]. intros o [= <-]. cbn.
    destruct (decide (n ∈ w)); [done|]. by intros [= ?].
  - by intros n opts w w' r [= <- <-].
  - intros n w w' r. cbn. destruct stuck; by intros [= <- <-].
  - intros c args w Hc.
    assert (c = "stop" ∨ c = "start" ∨ c = "cp" ∨ c = "exec" ∨ c = "port") as Hc' by set_solver.
    by destruct Hc' as [->|[->|[->|[->| ->]]]].
  - done.
Qed.

Lemma podman_contract_witness :
  BackendContract (podman_backend (H := host false) self) (λ w : gset string, w) (λ n, n).
Proof. apply (podman_contract self _ (podman_laws false)). Defined.

Example ensure_twice :
  let r := podman_ensure (H := host false) self (spec "a") ∅ in
  r = ({["a"]}, Ok (mkContainerHandle "a" "ws://127.0.0.1:40000" {[3389%Z := "127.0.0.1:40000"]})) ∧
  podman_ensure (H := host false) self (spec "a") r.1 = r.
Proof. by vm_compute. Qed.

(** [destroy] reports success also when podman could not remove anything. *)
Example destroy_hides_failure :
  podman_destroy (H := host true) self "a" {["a"]} = ({["a"]}, Ok tt).
Proof. by vm_compute. Qed.
End SampleHost.
