(* ===== verification/RestApi.v ===== *)
(** What the Fly and Sprites backends share: JSON bodies, requests and the HTTP
    client ([reqwest]) behind an interface. *)
From S2P Require Import Prelude Backend.
Local Open Scope nexal_scope.

(** [serde_json::Value], objects in the order they are written. *)
Inductive Json :=
  | JNull
  | JBool (b : bool)
  | JNum (z : Z)
  | JStr (s : string)
  | JArr (l : list Json)
  | JObj (m : list (string * Json)).

Inductive Method := GET | POST | PUT | DELETE.

(** A body as it is given to the client: a JSON value that [serde_json] writes
    out, or bytes. *)
Inductive Body := NoBody | JsonBody (j : Json) | RawBody (b : bytes).

(** A request; every one carries the bearer token of its backend. *)
Record HttpRequest := mkHttpRequest {
  hq_method : Method;
  hq_url : string;
  hq_query : list (string * string);
  hq_token : string;
  hq_body : Body;
}.

(** The status and the text of the body, or the failure to read it. *)
Record HttpResponse := mkHttpResponse { hr_status : Z; hr_text : result string string }.

(** [reqwest::Client] and the timer. *)
Class HttpHost (W : Type) := {
  http_send : HttpRequest → W → W * result HttpResponse string;
  http_sleep_ms : Z → W → W;
}.

(** The text of a [StatusCode]: its number and the reason that goes with it. *)
Class StatusNames := status_display : Z → string.

(** [StatusCode::is_success] *)
Definition is_success (status : Z) : bool := bool_decide (200 ≤ status < 300)%Z.
Definition NOT_FOUND : Z := 404.
Definition CONFLICT : Z := 409.
Definition OK_STATUS : Z := 200.

Section rest.
Context {W : Type} {H : HttpHost W}.

(** Send, then read the body; [what] begins the error texts. *)
Definition send_text (what : string) (req : HttpRequest) : act W (Z * string) := λ w,
  match http_send req w with
  | (w', Err e) => (w', Err (Io (what +:+ ": " +:+ e)))
  | (w', Ok resp) =>
      (w', match hr_text resp with
           | Ok text => Ok (hr_status resp, text)
           | Err e => Err (Io (what +:+ ": read body: " +:+ e))
           end)
  end.

(** An answer is what the server sent. *)
Lemma send_text_Ok what req w w' status text :
  send_text what req w = (w', Ok (status, text)) →
  http_send req w = (w', Ok (mkHttpResponse status (Ok text))).
Proof.
  unfold send_text. destruct (http_send req w) as [w1 [[st [t|e]]|e]]; cbn; try done.
  by intros [= <- <- <-].
Qed.

(** Whatever came back, this was sent; an answer has the status the server gave. *)
Lemma send_text_sent what req w w' r :
  send_text what req w = (w', r) →
  ∃ r', http_send req w = (w', r') ∧ ∀ st, r = Ok st → ∃ resp, r' = Ok resp ∧ hr_status resp = st.1.
Proof.
  unfold send_text. destruct (http_send req w) as [w1 [[st [t|e]]|e]]; intros [= <- <-];
    eexists; (split; [done|]); intros ? [= <-]; by eexists.
Qed.

Lemma send_text_world what req w : (send_text what req w).1 = (http_send req w).1.
Proof. unfold send_text. by destruct (http_send req w) as [w1 [[st [t|e]]|e]]. Qed.
End rest.

(** [{status} {body}] *)
Definition status_text {S : StatusNames} (status : Z) (body : string) : string :=
  status_display status +:+ " " +:+ body.

(** [str::strip_suffix] of a character. *)
Fixpoint strip_suffix_char (c : ascii) (s : string) : option string :=
  match s with
  | EmptyString => None
  | String a EmptyString => if Ascii.eqb a c then Some "" else None
  | String a s' => String a <$> strip_suffix_char c s'
  end.
