(* ===== verification/Fly.v ===== *)
(** The Fly backend ([nexal-gateway/src/backend/fly.rs]): one machine per
    container name, over the Machines API. *)
From S2P Require Import Prelude Backend Float64 RestApi.
Local Open Scope nexal_scope.
Local Open Scope Z_scope.

(* @src crates/nexal-gateway/src/backend/fly.rs AGENT_WS_PORT *)
Definition AGENT_WS_PORT : Z := 9100.
(* @src crates/nexal-gateway/src/backend/fly.rs DEFAULT_API_BASE *)
Definition DEFAULT_API_BASE : string := "https://api.machines.dev".
(* @src crates/nexal-gateway/src/backend/fly.rs DEFAULT_AGENT_BIN *)
Definition DEFAULT_AGENT_BIN : string := "/usr/local/bin/nexal-agent".

(* @src crates/nexal-gateway/src/backend/fly.rs FlyConfig *)
Record FlyConfig := mkFlyConfig {
  fc_api_token : string;
  fc_app : string;
  fc_region : option string;
  fc_api_base : option string;
  fc_agent_bin_path : option string;
}.

(* @src crates/nexal-gateway/src/backend/fly.rs FlyBackend *)
Record FlyBackend := mkFlyBackend {
  fly_token : string;
  fly_app : string;
  fly_region : option string;
  fly_api_base : string;
  fly_agent_bin : string;
}.

(* @src crates/nexal-gateway/src/backend/fly.rs Machine *)
Record Machine := mkMachine {
  m_id : string;
  m_name : option string;
  m_state : string;
  m_private_ip : option string;
}.

(** [serde_json::from_str] into the two types the API answers with. *)
Class FlyJson := {
  machines_from : string → result (list Machine) string;
  machine_from : string → result Machine string;
}.

(** [built] is the outcome of building the HTTP client. *)
(* @src crates/nexal-gateway/src/backend/fly.rs FlyBackend::new *)
Definition FlyBackend_new (cfg : FlyConfig) (built : result unit string) : result FlyBackend BackendError :=
  if decide (fc_api_token cfg = "") then Err (Io "fly backend requires backend.fly_api_token")
  else if decide (fc_app cfg = "") then Err (Io "fly backend requires backend.fly_app")
  else
    _ ←? map_err (λ e, Io ("build fly http client: " +:+ e)) built;
    Ok (mkFlyBackend (fc_api_token cfg) (fc_app cfg) (fc_region cfg)
          (trim_end_matches "/" (default DEFAULT_API_BASE (fc_api_base cfg)))
          (default DEFAULT_AGENT_BIN (fc_agent_bin_path cfg))).

(** * Settings of a machine *)

(** Only ASCII letters are lowered here: no other character becomes one of
    those a size is written with. *)
(** The digits of a size and what one of its units is worth. *)
(* @src crates/nexal-gateway/src/backend/fly.rs parse_memory_mb "let (num, mult)" .. "};" *)
Definition memory_unit (s : string) : string * Z :=
  match strip_suffix_char "g" s with
  | Some n => (n, 1024)
  | None => match strip_suffix_char "m" s with Some n => (n, 1) | None => (s, 1) end
  end.

(** The size that is then rounded up. *)
(* @src crates/nexal-gateway/src/backend/fly.rs parse_memory_mb "Some(s) => s.trim()" .. "let mb = mb.max" *)
Definition requested_mb (s : string) : Z :=
  let s := string_map to_ascii_lowercase (trim s) in
  let num := (memory_unit s).1 in
  let mult := (memory_unit s).2 in
  let mb := f64_mul (default (f64_of_Z 512) (f64_parse (trim num))) (f64_of_Z mult) in
  f64_to_u64 (f64_max_Z mb 256).

(* @src crates/nexal-gateway/src/backend/fly.rs parse_memory_mb *)
Definition parse_memory_mb (s : option string) : Z :=
  match s with
  | None => 512
  | Some s => wrap_u64 (wrap_u64 (requested_mb s + 255) / 256 * 256)
  end.

(* @src crates/nexal-gateway/src/backend/fly.rs parse_cpus *)
Definition parse_cpus (s : option string) : Z :=
  Z.max (default 1 ((λ c, f64_to_u64 (f64_ceil c)) <$> (s ≫= λ s, f64_parse (trim s)))) 1.

Section fly.
Context {W : Type} {H : HttpHost W} {S : StatusNames} {J : FlyJson} (self : FlyBackend).

Definition agent_listen : string := "ws://[::]:" +:+ pretty AGENT_WS_PORT.

(* @src crates/nexal-gateway/src/backend/fly.rs machine_config *)
Definition machine_config (spec : ContainerSpec) : Json :=
  JObj [("image", JStr (cs_image spec));
        ("env", JObj (map (λ kv, (kv.1, JStr kv.2)) (map_to_list (cs_env spec))));
        ("auto_destroy", JBool false);
        ("restart", JObj [("policy", JStr "no")]);
        ("guest", JObj ([("cpu_kind", JStr "shared"); ("cpus", JNum (parse_cpus (cs_cpus spec)));
                         ("memory_mb", JNum (parse_memory_mb (cs_memory spec)))] ++
                        if cs_fuse spec then [("kernel_args", JArr [])] else []));
        ("init", JObj [("exec", JArr [JStr (fly_agent_bin self); JStr "--listen"; JStr agent_listen])]);
        ("metadata", JObj [("nexal", JStr "worker"); ("nexal_name", JStr (cs_name spec))])].

(* @src crates/nexal-gateway/src/backend/fly.rs handle *)
Definition fly_handle (name ip : string) (spec_extra : list Z) : ContainerHandle :=
  mkContainerHandle name ("ws://[" +:+ ip +:+ "]:" +:+ pretty AGENT_WS_PORT)
    (list_to_map (reverse (map (λ p, (p, "[" +:+ ip +:+ "]:" +:+ pretty p)) spec_extra))).

(** * Calls *)

Definition fly_request (method : Method) (path : string) (body : Body) : HttpRequest :=
  mkHttpRequest method (fly_api_base self +:+ "/v1/apps/" +:+ fly_app self +:+ path) [] (fly_token self) body.

(* @src crates/nexal-gateway/src/backend/fly.rs api *)
Definition api (method : Method) (path : string) (body : option Json) : act W (Z * string) :=
  send_text ("fly api " +:+ path)
    (fly_request method path (match body with Some b => JsonBody b | None => NoBody end)).

(* @src crates/nexal-gateway/src/backend/fly.rs find_by_name *)
Definition find_by_name (name : string) : act W (option Machine) :=
  r ⇐ api GET "/machines" None;
  if negb (is_success r.1) then throw (Cli ("list machines: " +:+ status_text r.1 r.2))
  else
    machines ⇐ of_result (map_err (λ e, Io ("parse machines list: " +:+ e)) (machines_from r.2));
    ret (find_map (λ m, if decide (m_name m = Some name) then Some m else None) machines).

(* @src crates/nexal-gateway/src/backend/fly.rs get_machine *)
Definition get_machine (id : string) : act W (option Machine) :=
  r ⇐ api GET ("/machines/" +:+ id) None;
  if decide (r.1 = NOT_FOUND) then ret None
  else if negb (is_success r.1) then throw (Cli ("get machine " +:+ id +:+ ": " +:+ status_text r.1 r.2))
  else
    m ⇐ of_result (map_err (λ e, Io ("parse machine " +:+ id +:+ ": " +:+ e)) (machine_from r.2));
    ret (Some m).

(** One turn of [wait_started]. *)
(* @src crates/nexal-gateway/src/backend/fly.rs wait_started "match self.get_machine(id).await? {" .. "disappeared" *)
Definition started_turn (id : string) : act W (option string) :=
  r ⇐ get_machine id;
  match r with
  | Some m =>
      if decide (m_state m = "started") then
        ret (match m_private_ip m with
             | Some ip => if decide (ip = "") then None else Some ip
             | None => None
             end)
      else if decide (m_state m = "failed" ∨ m_state m = "destroyed") then
        throw (Cli ("machine " +:+ id +:+ " in terminal state: " +:+ m_state m))
      else ret None
  | None => throw (Cli ("machine " +:+ id +:+ " disappeared"))
  end.

(* @src crates/nexal-gateway/src/backend/fly.rs wait_started *)
Definition wait_started (id : string) : act W string :=
  poll 120 (started_turn id) (effect (http_sleep_ms 500))
    (PortDiscovery ("machine " +:+ id +:+ ": timed out waiting for started + private_ip")).

(** The body of a create request. *)
(* @src crates/nexal-gateway/src/backend/fly.rs ensure "let mut body = json" .. "body[" *)
Definition create_body (spec : ContainerSpec) : Json :=
  JObj ([("name", JStr (cs_name spec)); ("config", machine_config spec)] ++
        match fly_region self with Some r => [("region", JStr r)] | None => [] end).

(* @src crates/nexal-gateway/src/backend/fly.rs ensure *)
Definition fly_ensure (spec : ContainerSpec) : act W ContainerHandle :=
  found ⇐ find_by_name (cs_name spec);
  match found with
  | Some m =>
      (if decide (m_state m = "started") then ret tt
       else
         r ⇐ api POST ("/machines/" +:+ m_id m +:+ "/start") None;
         if negb (is_success r.1) && negb (bool_decide (r.1 = OK_STATUS))
         then throw (Cli ("start machine " +:+ m_id m +:+ ": " +:+ status_text r.1 r.2)) else ret tt);;
      ip ⇐ wait_started (m_id m);
      ret (fly_handle (cs_name spec) ip (cs_extra_ports spec))
  | None =>
      r ⇐ api POST "/machines" (Some (create_body spec));
      if negb (is_success r.1)
      then throw (Cli ("create machine " +:+ cs_name spec +:+ ": " +:+ status_text r.1 r.2))
      else
        created ⇐ of_result (map_err (λ e, Io ("parse create response: " +:+ e)) (machine_from r.2));
        ip ⇐ wait_started (m_id created);
        ret (fly_handle (cs_name spec) ip (cs_extra_ports spec))
  end.

(* @src crates/nexal-gateway/src/backend/fly.rs destroy *)
Definition fly_destroy (name : string) : act W unit :=
  found ⇐ find_by_name name;
  match found with
  | None => ret tt
  | Some m =>
      attempt (api POST ("/machines/" +:+ m_id m +:+ "/stop") None);;
      r ⇐ api DELETE ("/machines/" +:+ m_id m +:+ "?force=true") None;
      if is_success r.1 || bool_decide (r.1 = NOT_FOUND) then ret tt
      else throw (Cli ("delete machine " +:+ m_id m +:+ " (" +:+ name +:+ "): " +:+ status_text r.1 r.2))
  end.

(* @src crates/nexal-gateway/src/backend/fly.rs exists *)
Definition fly_exists (name : string) : act W bool :=
  found ⇐ find_by_name name; ret (bool_decide (is_Some found)).

(* @src crates/nexal-gateway/src/backend/fly.rs url *)
Definition fly_url (name : string) : act W string :=
  found ⇐ find_by_name name;
  m ⇐ of_result (ok_or found (Cli ("machine " +:+ name +:+ " not found")));
  (if decide (m_state m = "started") then ret tt
   else attempt (api POST ("/machines/" +:+ m_id m +:+ "/start") None);; ret tt);;
  ip ⇐ wait_started (m_id m);
  ret ("ws://[" +:+ ip +:+ "]:" +:+ pretty AGENT_WS_PORT).

#[local] Instance fly_backend : ContainerBackend W := {|
  ensure := fly_ensure;
  destroy := fly_destroy;
  container_exists := fly_exists;
  container_url := fly_url;
|}.

(** Every address handed out is a machine's at the agent's port. *)
Lemma fly_url_Ok name w w' url :
  fly_url name w = (w', Ok url) → ∃ ip, url = "ws://[" +:+ ip +:+ "]:" +:+ pretty AGENT_WS_PORT.
Proof.
  unfold fly_url. intros Hr. do 3 apply bind_Ok in Hr as (? & ? & _ & Hr).
  apply bind_Ok in Hr as (w1 & ip & _ & Hr). injection Hr as _ <-. by exists ip.
Qed.

Lemma fly_ensure_url spec w w' h :
  fly_ensure spec w = (w', Ok h) → ∃ ip, ch_url h = "ws://[" +:+ ip +:+ "]:" +:+ pretty AGENT_WS_PORT.
Proof.
  unfold fly_ensure. intros Hr. apply bind_Ok in Hr as (w1 & [m|] & _ & Hr).
  - apply bind_Ok in Hr as (? & ? & _ & Hr). apply bind_Ok in Hr as (? & ip & _ & Hr).
    injection Hr as _ <-. by exists ip.
  - apply bind_Ok in Hr as (? & r & _ & Hr). destruct (negb _); [done|].
    apply bind_Ok in Hr as (? & ? & _ & Hr). apply bind_Ok in Hr as (? & ip & _ & Hr).
    injection Hr as _ <-. by exists ip.
Qed.
End fly.

(** * Memory *)

Lemma f64_max_Z_256 x : 256 <= f64_to_u64 (f64_max_Z x 256).
Proof.
  assert (256 <= f64_to_u64 (f64_of_Z 256)) as H256 by (vm_compute; discriminate).
  destruct x as [sg|[]| |[] m e]; cbn [f64_max_Z]; try exact H256.
  - cbn [f64_to_u64]. lia.
  - destruct (Z.leb_spec 256 (whole_down m e)); [|exact H256]. cbn [f64_to_u64]. lia.
Qed.

(** The memory asked of Fly is a multiple of 256 MB and never less than the
    setting says, unless the setting is so large that the rounding wraps: then
    it is 0, which Fly refuses. *)
Theorem parse_memory_mb_bounds s :
  256 <= requested_mb s < 2 ^ 64 ∧
  (256 | parse_memory_mb (Some s)) ∧
  (requested_mb s <= 2 ^ 64 - 256 → requested_mb s <= parse_memory_mb (Some s) < requested_mb s + 256) ∧
  (2 ^ 64 - 256 < requested_mb s → parse_memory_mb (Some s) = 0) ∧
  parse_memory_mb (Some "inf") = 0.
Proof.
  assert (256 <= requested_mb s < 2 ^ 64) as Hr.
  { unfold requested_mb. split; [apply f64_max_Z_256|apply f64_to_u64_range]. }
  split; [done|]. unfold parse_memory_mb.
  assert (requested_mb "inf" = 2 ^ 64 - 1) as Einf by (vm_compute; reflexivity).
  rewrite Einf. change (wrap_u64 (wrap_u64 (2 ^ 64 - 1 + 255) / 256 * 256)) with 0.
  set (r := requested_mb s) in *. unfold wrap_u64.
  destruct (Z_le_gt_dec r (2 ^ 64 - 256)) as [Hle|Hgt].
  - rewrite (Z.mod_small (r + 255)) by lia.
    rewrite Z.mod_small by (Z.to_euclidean_division_equations; lia).
    split; [by exists ((r + 255) / 256)|]. split; [intros _; Z.to_euclidean_division_equations; lia|].
    split; [lia|done].
  - assert ((r + 255) mod 2 ^ 64 / 256 = 0) as ->.
    { apply Z.div_small. rewrite <-(Z_mod_plus_full (r + 255) (-1)).
      rewrite Z.mod_small by lia. lia. }
    split; [by exists 0|]. split; [lia|]. split; [done|done].
Qed.

(** The sizes the tests of the backend expect. *)
Example parse_memory_examples :
  parse_memory_mb (Some "512m") = 512 ∧ parse_memory_mb (Some "1g") = 1024 ∧
  parse_memory_mb (Some "700m") = 768 ∧ parse_memory_mb (Some "100m") = 256 ∧
  parse_memory_mb None = 512 ∧
  parse_cpus (Some "1.0") = 1 ∧ parse_cpus (Some "2") = 2 ∧ parse_cpus (Some "0.5") = 1 ∧ parse_cpus None = 1.
Proof. vm_compute. repeat split. Qed.

(** * The contract *)

(** What the Machines API does, for the machines of the app by id, each with
    its name: a list tells all, a machine is made under a fresh id and with the
    name asked for, a delete that succeeds or finds nothing leaves no machine of
    the id, names are unique, and the other calls make and remove none.  A call
    that fails may have been done or not. *)
Class FlyLaws {W} (H : HttpHost W) (J : FlyJson) (self : FlyBackend)
    (machines : W → gmap string (option string)) := {
  fly_list w w' status text ms :
    http_send (fly_request self GET "/machines" NoBody) w = (w', Ok (mkHttpResponse status (Ok text))) →
    is_success status = true → machines_from text = Ok ms →
    (∀ m, m ∈ ms → machines w !! m_id m = Some (m_name m)) ∧
    (∀ id n, machines w !! id = Some (Some n) → ∃ m, m ∈ ms ∧ m_name m = Some n);
  fly_get path w : machines (http_send (fly_request self GET path NoBody) w).1 = machines w;
  fly_start_stop id op w : op ∈ ["/start"; "/stop"] →
    machines (http_send (fly_request self POST ("/machines/" +:+ id +:+ op) NoBody) w).1 = machines w;
  fly_create n rest w w' r :
    http_send (fly_request self POST "/machines" (JsonBody (JObj (("name", JStr n) :: rest)))) w = (w', r) →
    (∃ id, machines w !! id = None ∧ machines w' = <[id := Some n]> (machines w)) ∨
    (machines w' = machines w ∧ ∀ resp, r = Ok resp → is_success (hr_status resp) = false);
  fly_delete id w w' r :
    http_send (fly_request self DELETE ("/machines/" +:+ id +:+ "?force=true") NoBody) w = (w', r) →
    machines w' = delete id (machines w) ∨
    (machines w' = machines w ∧
     ∀ resp, r = Ok resp → is_success (hr_status resp) = false ∧ hr_status resp ≠ NOT_FOUND);
  fly_unique w i j n : machines w !! i = Some (Some n) → machines w !! j = Some (Some n) → i = j;
  fly_sleep ms w : machines (http_sleep_ms ms w) = machines w;
}.

(** The names in use. *)
Definition names_of (machines : gmap string (option string)) : gset string :=
  list_to_set (omap snd (map_to_list machines)).

Lemma elem_of_names ms n : n ∈ names_of ms ↔ ∃ id, ms !! id = Some (Some n).
Proof.
  unfold names_of. rewrite elem_of_list_to_set, list_elem_of_omap. split.
  - intros ([id n'] & Hin & E). cbn in E. subst n'. exists id. by apply elem_of_map_to_list.
  - intros [id Hid]. exists (id, Some n). by rewrite elem_of_map_to_list.
Qed.

Section contract.
Context {W : Type} {H : HttpHost W} {S : StatusNames} {J : FlyJson} (self : FlyBackend).
Context (machines : W → gmap string (option string)) {L : FlyLaws H J self machines}.

Lemma keeps_api_get path : keeps machines (api self GET path None).
Proof. intros w. unfold api. rewrite send_text_world. apply fly_get. Qed.

Lemma keeps_api_op id op : op ∈ ["/start"; "/stop"] →
  keeps machines (api self POST ("/machines/" +:+ id +:+ op) None).
Proof. intros Hop w. unfold api. rewrite send_text_world. by apply fly_start_stop. Qed.

Lemma keeps_find n : keeps machines (find_by_name self n).
Proof.
  apply keeps_bind; [apply keeps_api_get|]. intros r. destruct (negb _); auto with backend.
Qed.

Lemma keeps_wait id : keeps machines (wait_started self id).
Proof.
  apply keeps_poll; [|intros w; apply fly_sleep].
  apply keeps_bind.
  - apply keeps_bind; [apply keeps_api_get|]. intros r.
    destruct (decide _); [auto with backend|]. destruct (negb _); auto with backend.
  - intros [m|]; [|auto with backend]. destruct (decide _); [auto with backend|].
    destruct (decide _); auto with backend.
Qed.

(** A machine that is found has the name and is there; if none is found the
    name is free. *)
Lemma find_by_name_spec n w w' found :
  find_by_name self n w = (w', Ok found) →
  match found with
  | Some m => machines w !! m_id m = Some (Some n)
  | None => n ∉ names_of (machines w)
  end.
Proof.
  unfold find_by_name. rewrite bind_Ok. intros (w1 & [status text] & Hs & Hk). cbn [fst snd] in Hk.
  destruct (is_success status) eqn:Es; [|done]. cbn [negb] in Hk.
  apply bind_Ok in Hk as (w2 & ms & Hm & Hk). unfold of_result in Hm. injection Hm as -> Hm.
  apply map_err_Ok in Hm. apply send_text_Ok in Hs.
  destruct (fly_list _ _ _ _ _ Hs Es Hm) as [Hin Hall]. injection Hk as <- <-.
  destruct (find_map _ ms) as [m|] eqn:E.
  - apply find_map_Some in E as (m' & Hm' & E). case_decide as En; [|done]. injection E as ->.
    rewrite <-En. by apply Hin.
  - rewrite elem_of_names. intros [id Hid]. destruct (Hall _ _ Hid) as (m & Hm' & En).
    destruct (find_map_is_Some (λ m, if decide (m_name m = Some n) then Some m else None) ms m Hm')
      as [? E']; [|congruence]. by rewrite decide_True.
Qed.

Lemma names_insert ms id n : ms !! id = None → names_of (<[id := Some n]> ms) = {[n]} ∪ names_of ms.
Proof.
  intros Hid. apply set_eq. intros x. rewrite elem_of_union, elem_of_singleton, !elem_of_names. split.
  - intros [i [[_ [= ->]]|[_ Hi]]%lookup_insert_Some]; [by left|right; by exists i].
  - intros [->|[i Hi]]; [exists id; apply lookup_insert_eq|]. exists i.
    rewrite lookup_insert_ne; [done|]. congruence.
Qed.

Lemma names_delete w id n :
  machines w !! id = Some (Some n) → names_of (delete id (machines w)) = names_of (machines w) ∖ {[n]}.
Proof.
  intros Hid. apply set_eq. intros x. rewrite elem_of_difference, elem_of_singleton, !elem_of_names. split.
  - intros [i [Hne Hi]%lookup_delete_Some]. split; [by exists i|]. intros ->.
    by destruct (Hne (fly_unique w id i n Hid Hi)).
  - intros [[i Hi] Hne]. exists i. apply lookup_delete_Some. split; [|done]. intros ->. congruence.
Qed.

Abbreviation view := (λ w, names_of (machines w)).

Lemma keeps_view {A} (m : act W A) : keeps machines m → keeps view m.
Proof. apply keeps_compose. Qed.

Lemma create_view s w w' r :
  api self POST "/machines" (Some (create_body self s)) w = (w', r) →
  view w' ∖ {[cs_name s]} = view w ∖ {[cs_name s]} ∧
  (∀ st, r = Ok st → is_success st.1 = true → cs_name s ∈ view w').
Proof.
  intros (r' & E' & Hr)%send_text_sent.
  apply (fly_create (machines := machines)) in E' as [(id & Hid & ->)|[-> Hfail]].
  - rewrite names_insert by done. split; [set_solver|]. intros; set_solver.
  - split; [done|]. intros st Est Hst. destruct (Hr st Est) as (resp & -> & Eresp).
    specialize (Hfail resp eq_refl). rewrite Eresp in Hfail. congruence.
Qed.

Lemma keeps_start_if m :
  keeps view (if decide (m_state m = "started") then ret tt
    else r ⇐ api self POST ("/machines/" +:+ m_id m +:+ "/start") None;
         if negb (is_success r.1) && negb (bool_decide (r.1 = OK_STATUS))
         then throw (Cli ("start machine " +:+ m_id m +:+ ": " +:+ status_text r.1 r.2)) else ret tt).
Proof.
  destruct (decide _); [apply keeps_ret|]. apply keeps_bind; [apply keeps_view, keeps_api_op; set_solver|].
  intros r. destruct (_ && _); auto with backend.
Qed.

Lemma keeps_to_handle s id :
  keeps view (ip ⇐ wait_started self id; ret (fly_handle (cs_name s) ip (cs_extra_ports s))).
Proof. apply keeps_bind; [apply keeps_view, keeps_wait|auto with backend]. Qed.

Lemma fly_ensure_only s : only view (cs_name s) (fly_ensure self s).
Proof.
  apply only_bind; [apply keeps_only, keeps_view, keeps_find|]. intros [m|].
  - apply keeps_only, keeps_bind; [apply keeps_start_if|intros _; apply keeps_to_handle].
  - apply only_bind.
    + intros w. destruct (api self _ _ _ w) as [w1 r] eqn:E. by apply create_view in E as [? _].
    + intros r. destruct (negb _); [apply keeps_only; auto with backend|].
      apply keeps_only, keeps_bind; [auto with backend|]. intros c. apply keeps_to_handle.
Qed.

Lemma to_handle_name s id w w' h :
  (ip ⇐ wait_started self id; ret (fly_handle (cs_name s) ip (cs_extra_ports s))) w = (w', Ok h) →
  ch_name h = cs_name s.
Proof. rewrite bind_Ok. intros (w1 & ip & _ & Hk). by injection Hk as <- <-. Qed.

Lemma fly_ensure_there s w w' h :
  fly_ensure self s w = (w', Ok h) → ch_name h = cs_name s ∧ cs_name s ∈ view w'.
Proof.
  unfold fly_ensure. rewrite bind_Ok. intros (w1 & found & Ef & Hr).
  pose proof (keeps_find (cs_name s) w) as Hw1. rewrite Ef in Hw1. cbn [fst] in Hw1.
  apply find_by_name_spec in Ef. destruct found as [m|].
  - apply bind_Ok in Hr as (w2 & [] & Hst & Hr).
    pose proof (keeps_start_if m w1) as H2. rewrite Hst in H2. cbn [fst] in H2.
    pose proof (keeps_to_handle s (m_id m) w2) as H3. rewrite Hr in H3. cbn [fst] in H3.
    split; [by eapply to_handle_name|]. rewrite H3, H2, Hw1. apply elem_of_names. by eexists.
  - apply bind_Ok in Hr as (w2 & st & Hc & Hr). apply create_view in Hc as [_ Hin].
    destruct (is_success st.1) eqn:Est; [|done]. cbn [negb] in Hr.
    apply bind_Ok in Hr as (w3 & c & Hc & Hr). injection Hc as -> _.
    pose proof (keeps_to_handle s (m_id c) w3) as H3. rewrite Hr in H3. cbn [fst] in H3.
    split; [by eapply to_handle_name|]. rewrite H3. by apply (Hin st).
Qed.

Lemma delete_view id n w w' r :
  machines w !! id = Some (Some n) →
  api self DELETE ("/machines/" +:+ id +:+ "?force=true") None w = (w', r) →
  view w' ∖ {[n]} = view w ∖ {[n]} ∧
  (∀ st, r = Ok st → is_success st.1 = true ∨ st.1 = NOT_FOUND → n ∉ view w').
Proof.
  intros Hid (r' & E' & Hr)%send_text_sent.
  apply (fly_delete (machines := machines)) in E' as [->|[-> Hfail]].
  - rewrite (names_delete w id n Hid). split; [set_solver|]. intros; set_solver.
  - split; [done|]. intros st Est Hst. destruct (Hr st Est) as (resp & -> & Eresp).
    destruct (Hfail resp eq_refl) as [H1 H2]. rewrite Eresp in *. destruct Hst; congruence.
Qed.
Lemma fly_destroy_only n : only view n (fly_destroy self n).
Proof.
  intros w. unfold fly_destroy, bind at 1.
  pose proof (keeps_view _ (keeps_find n) w) as Hk.
  destruct (find_by_name self n w) as [w1 [found|e]] eqn:Ef; cbn [fst] in Hk; [|cbn [fst]; by rewrite Hk].
  rewrite <-Hk. pose proof (find_by_name_spec n w w1 found Ef) as Hf.
  destruct found as [m|]; [|done]. unfold bind at 1, attempt at 1.
  pose proof (keeps_api_op (m_id m) "/stop" ltac:(set_solver) w1) as Hs.
  set (w2 := (api self POST ("/machines/" +:+ m_id m +:+ "/stop") None w1).1) in *.
  pose proof (keeps_find n w) as Hm. rewrite Ef in Hm. cbn [fst] in Hm. rewrite <-Hm, <-Hs in Hf.
  unfold bind. destruct (api self DELETE _ _ w2) as [w3 r] eqn:Ed.
  destruct (delete_view _ _ _ _ _ Hf Ed) as [Hd _]. rewrite Hs in Hd.
  destruct r as [st|e]; [|exact Hd]. by destruct (_ || _).
Qed.

Lemma fly_destroy_removes n w w' : fly_destroy self n w = (w', Ok tt) → n ∉ view w'.
Proof.
  unfold fly_destroy. rewrite bind_Ok. intros (w1 & found & Ef & Hr).
  pose proof (keeps_find n w) as Hm. rewrite Ef in Hm. cbn [fst] in Hm.
  apply find_by_name_spec in Ef. destruct found as [m|].
  - apply bind_Ok in Hr as (w2 & r2 & Hst & Hr). rewrite attempt_Ok in Hst.
    pose proof (keeps_api_op (m_id m) "/stop" ltac:(set_solver) w1) as Hs. rewrite Hst in Hs. cbn [fst] in Hs.
    apply bind_Ok in Hr as (w3 & st & Hd & Hr). rewrite <-Hm, <-Hs in Ef.
    destruct (delete_view _ _ _ _ _ Ef Hd) as [_ Hin].
    destruct (is_success st.1 || bool_decide (st.1 = NOT_FOUND)) eqn:Es; [|done].
    injection Hr as <-. apply (Hin st); [done|]. apply orb_true_iff in Es as [?|?%bool_decide_eq_true]; auto.
  - injection Hr as <-. by rewrite Hm.
Qed.

Lemma keeps_fly_url n : keeps machines (fly_url self n).
Proof.
  apply keeps_bind; [apply keeps_find|]. intros found. apply keeps_bind; [auto with backend|]. intros m.
  apply keeps_bind; [|intros _; apply keeps_bind; [apply keeps_wait|auto with backend]].
  destruct (decide _); [auto with backend|].
  apply keeps_bind; [apply keeps_attempt, keeps_api_op; set_solver|auto with backend].
Qed.
End contract.

(** C12: The Fly backend keeps the backend contract under the container's own name:
    no call touches a machine of another name, [ensure] answers only when a
    machine of the name is there and makes none when it finds one, and [exists]
    never invents one; and after a [destroy] that answers, the name is free. *)
Theorem fly_contract {W} {H : HttpHost W} {S : StatusNames} {J : FlyJson} self machines :
  FlyLaws H J self machines →
  BackendContract (fly_backend self) (λ w : W, names_of (machines w)) (λ n, n) ∧
  ∀ n w w', fly_destroy self n w = (w', Ok tt) → n ∉ names_of (machines w').
Proof.
  intros L. split; [split|].
  - apply (fly_ensure_only self machines).
  - intros s w w' h Hr. apply (fly_ensure_there self machines) in Hr as [E ?]. by rewrite E.
  - apply (fly_destroy_only self machines).
  - intros n. apply keeps_compose. apply keeps_bind; [apply (keeps_find self machines)|auto with backend].
  - intros n w w'. cbn. unfold fly_exists. rewrite bind_Ok. intros (w1 & found & Ef & Hk).
    injection Hk as _ Hb. apply bool_decide_eq_true in Hb as [m ->].
    apply (find_by_name_spec self machines) in Ef. apply elem_of_names. by eexists.
  - intros n. apply keeps_compose. apply (keeps_fly_url self machines).
  - intros n w w'. apply (fly_destroy_removes self machines).
Qed.

(** ** Witness: an app that may have one machine *)

Module SampleFly.
Definition self : FlyBackend := mkFlyBackend "token" "app" None "https://api" "/agent".
#[local] Instance names : StatusNames := λ z, pretty z.
Definition machine : Machine := mkMachine "a" (Some "a") "started" (Some "fd00::1").
#[local] Instance json : FlyJson := {|
  machines_from text := Ok (if decide (text = "") then [] else [machine]);
  machine_from _ := Ok machine;
|}.

(** Whether the machine is there; a refusal of everything else. *)
Definition answer (status : Z) (there : bool) : result HttpResponse string :=
  Ok (mkHttpResponse status (Ok (if there then "a" else ""))).
Definition step (req : HttpRequest) (there : bool) : bool * result HttpResponse string :=
  match hq_method req, hq_body req with
  | GET, _ => (there, answer 200 there)
  | POST, JsonBody (JObj (("name", JStr n) :: _)) =>
      if decide (n = "a" ∧ there = false) then (true, answer 200 true) else (there, answer 422 there)
  | POST, _ => (there, answer 200 there)
  | DELETE, _ =>
      if decide (hq_url req = hq_url (fly_request self DELETE ("/machines/" +:+ "a" +:+ "?force=true") NoBody))
      then (false, answer 200 false) else (there, answer 500 there)
  | _, _ => (there, answer 500 there)
  end.
#[local] Instance host : HttpHost bool := {| http_send := step; http_sleep_ms _ w := w |}.

Definition machines (there : bool) : gmap string (option string) :=
  if there then {["a" := Some "a"]} else ∅.

Lemma fly_laws : FlyLaws host json self machines.
Proof.
  split.
  - intros w w' status text ms [= <- <- <-] _ [= <-]. destruct w; cbn; split.
    + intros m ->%list_elem_of_singleton. done.
    + intros id n [<- [= <-]]%lookup_singleton_Some. exists machine. split; [by left|done].
    + by intros m ?%elem_of_nil.
    + by intros id n ?%lookup_empty_Some.
  - done.
  - intros id op w Hop. assert (op = "/start" ∨ op = "/stop") as [->| ->] by set_solver; done.
  - intros n rest w w' r. cbn. case_decide as Hn; intros [= <- <-].
    + destruct Hn as [-> ->]. left. exists "a". done.
    + right. split; [done|]. by intros resp [= <-].
  - intros id w w' r. cbn [http_send host step hq_method hq_body fly_request].
    case_decide as Hu; intros [= <- <-].
    + left. cbn [hq_url fly_request] in Hu. repeat apply (inj (String.append _)) in Hu.
      apply string_app_inj_r in Hu as ->. by destruct w.
    + right. split; [done|]. by intros resp [= <-].
  - intros w i j n Hi Hj. destruct w; [|done]. unfold machines in Hi, Hj. apply lookup_singleton_Some in Hi as [<- _].
    by apply lookup_singleton_Some in Hj as [<- _].
  - done.
Qed.

Lemma fly_contract_witness :
  BackendContract (fly_backend self) (λ w : bool, names_of (machines w)) (λ n, n) ∧
  ∀ n w w', fly_destroy self n w = (w', Ok tt) → n ∉ names_of (machines w').
Proof. apply (fly_contract self machines fly_laws). Defined.

Example ensure_then_destroy :
  let s := mkContainerSpec "a" "img" ∅ ∅ "" None None None true None [3389] true in
  fly_ensure self s false
    = (true, Ok (mkContainerHandle "a" "ws://[fd00::1]:9100" {[3389 := "[fd00::1]:3389"]})) ∧
  fly_destroy self "a" true = (false, Ok tt).
Proof. by vm_compute. Qed.
End SampleFly.
