(* ===== verification/Kube.v ===== *)
(** The Kubernetes backend ([nexal-gateway/src/backend/kubernetes.rs]): one pod
    per container name, through the [kube] client. *)
From S2P Require Import Prelude Backend.
Local Open Scope nexal_scope.
Local Open Scope Z_scope.

(* @src crates/nexal-gateway/src/backend/kubernetes.rs AGENT_WS_PORT *)
Definition KUBE_WS_PORT : Z := 9100.
(* @src crates/nexal-gateway/src/backend/kubernetes.rs AGENT_VOLUME_NAME *)
Definition AGENT_VOLUME_NAME : string := "nexal-agent-bin".
(* @src crates/nexal-gateway/src/backend/kubernetes.rs AGENT_MOUNT_PATH *)
Definition AGENT_MOUNT_PATH : string := "/opt/nexal/bin".
(* @src crates/nexal-gateway/src/backend/kubernetes.rs AGENT_BIN_PATH *)
Definition AGENT_BIN_PATH : string := "/opt/nexal/bin/nexal-agent".

(** * Pods, with the fields the backend sets or reads *)

Record VolumeMount := mkVolumeMount { vm_name : string; vm_path : string }.
Record SecurityContext := mkSecurityContext {
  sc_allow_privilege_escalation : option bool;
  sc_run_as_non_root : option bool;
  sc_privileged : option bool;
}.
Record KContainer := mkKContainer {
  kc_name : string;
  kc_image : option string;
  kc_command : option (list string);
  kc_ports : option (list (Z * string));
  kc_env : option (list (string * string));
  kc_volume_mounts : option (list VolumeMount);
  kc_limits : option (gmap string string);
  kc_working_dir : option string;
  kc_security_context : option SecurityContext;
}.
(** The volumes are empty directories, known by name. *)
Record PodSpec := mkPodSpec {
  ps_init_containers : list KContainer;
  ps_containers : list KContainer;
  ps_volumes : list string;
  ps_restart_policy : string;
  ps_automount_token : bool;
}.
Record PodStatus := mkPodStatus { pst_phase : option string; pst_pod_ip : option string }.
Record Pod := mkPod {
  pod_name : string;
  pod_namespace : string;
  pod_labels : gmap string string;
  pod_spec : PodSpec;
  pod_status : option PodStatus;
}.

(** [kube::Error]: the API's answer with its code, or another failure. *)
Inductive KubeError := KApi (code : Z) (text : string) | KOther (text : string).
Definition kube_error_text (e : KubeError) : string :=
  match e with KApi _ t => t | KOther t => t end.

(** [Api<Pod>] of one namespace and the timer. *)
Class KubeHost (W : Type) := {
  pod_get : string → W → W * result Pod KubeError;
  pod_create : Pod → W → W * result unit KubeError;
  pod_delete : string → W → W * result unit KubeError;
  kube_sleep_ms : Z → W → W;
}.

(* @src crates/nexal-gateway/src/backend/kubernetes.rs KubernetesBackend *)
Record KubernetesBackend := mkKubernetesBackend {
  kb_namespace : string;
  kb_agent_init_image : string;
}.

(* @src crates/nexal-gateway/src/backend/kubernetes.rs KubernetesConfig *)
Record KubernetesConfig := mkKubernetesConfig {
  kcfg_namespace : option string;
  kcfg_kubeconfig : option string;
  kcfg_agent_init_image : string;
}.

(** [read_from] reads a kubeconfig, [from_custom] makes a configuration of it
    and [try_from] a client; [try_default] is the client inside a cluster. *)
(* @src crates/nexal-gateway/src/backend/kubernetes.rs KubernetesBackend::new *)
Definition KubernetesBackend_new {K C} (read_from : string → result K string)
    (from_custom : K → result C string) (try_from : C → result unit string)
    (try_default : result unit string) (cfg : KubernetesConfig) : result KubernetesBackend BackendError :=
  _ ←? match kcfg_kubeconfig cfg with
       | Some path =>
           kubeconfig ←? map_err (λ e, Io ("read kubeconfig " +:+ path +:+ ": " +:+ e)) (read_from path);
           config ←? map_err (λ e, Io ("build kube config: " +:+ e)) (from_custom kubeconfig);
           map_err (λ e, Io ("create kube client: " +:+ e)) (try_from config)
       | None => map_err (λ e, Io ("in-cluster kube config: " +:+ e)) try_default
       end;
  Ok (mkKubernetesBackend (default "default" (kcfg_namespace cfg)) (kcfg_agent_init_image cfg)).

Section kube.
Context {W : Type} {H : KubeHost W} (self : KubernetesBackend).

(** The labels of a pod: the frontend's replace the gateway's. *)
(* @src crates/nexal-gateway/src/backend/kubernetes.rs build_pod "let mut labels" .. "}" *)
Definition pod_labels_of (spec : ContainerSpec) : gmap string string :=
  cs_labels spec ∪
  <["nexal.session" := cs_name spec]> (<["nexal.kind" := "worker"]> {["app" := "nexal"]}).

(* @src crates/nexal-gateway/src/backend/kubernetes.rs build_pod "let mut limits" .. "// Shared emptyDir" *)
Definition limits_of (spec : ContainerSpec) : gmap string string :=
  let limits := match cs_memory spec with Some mem => {["memory" := mem]} | None => ∅ end in
  match cs_cpus spec with Some cpus => <["cpu" := cpus]> limits | None => limits end.

Definition agent_volume_mount : VolumeMount := mkVolumeMount AGENT_VOLUME_NAME AGENT_MOUNT_PATH.

(* @src crates/nexal-gateway/src/backend/kubernetes.rs build_pod "let init_container = Container {" .. "};" *)
Definition init_container : KContainer :=
  mkKContainer "copy-agent" (Some (kb_agent_init_image self))
    (Some ["cp"; "/usr/local/bin/nexal-agent"; AGENT_BIN_PATH]) None None (Some [agent_volume_mount])
    None None None.

(* @src crates/nexal-gateway/src/backend/kubernetes.rs build_pod "let mut volumes = vec!" .. "let main_container" *)
Definition volume_mounts_of (spec : ContainerSpec) : list VolumeMount :=
  [agent_volume_mount] ++
  match cs_workspace_volume spec with
  | Some _ => [mkVolumeMount "workspace" "/workspace"]
  | None => []
  end ++
  [mkVolumeMount "proxy-sockets" "/run/nexal/proxy"].

(* @src crates/nexal-gateway/src/backend/kubernetes.rs build_pod "let main_container = Container {" .. "Pod {" *)
Definition main_container (spec : ContainerSpec) : KContainer :=
  mkKContainer "agent" (Some (cs_image spec))
    (Some [AGENT_BIN_PATH; "--listen"; "ws://[::]:" +:+ pretty KUBE_WS_PORT])
    (Some ((KUBE_WS_PORT, "TCP") :: map (λ p, (p, "TCP")) (cs_extra_ports spec)))
    (Some (map_to_list (cs_env spec)))
    (Some (volume_mounts_of spec))
    (if decide (limits_of spec = ∅) then None else Some (limits_of spec))
    (Some "/workspace")
    (Some (mkSecurityContext (Some false) (Some true) (if cs_fuse spec then Some true else None))).

(* @src crates/nexal-gateway/src/backend/kubernetes.rs build_pod *)
Definition build_pod (spec : ContainerSpec) : Pod :=
  mkPod (cs_name spec) (kb_namespace self) (pod_labels_of spec)
    (mkPodSpec [init_container] [main_container spec] (map vm_name (volume_mounts_of spec)) "Never" false)
    None.

(** * Calls *)

(** A call of the API, its error as a value. *)
Definition kget (name : string) : act W (result Pod KubeError) := λ w,
  let '(w', r) := pod_get name w in (w', Ok r).
Definition kdelete (name : string) : act W (result unit KubeError) := λ w,
  let '(w', r) := pod_delete name w in (w', Ok r).
Definition kcreate (p : Pod) : act W (result unit KubeError) := λ w,
  let '(w', r) := pod_create p w in (w', Ok r).

Definition is_404 (e : KubeError) : bool :=
  match e with KApi code _ => bool_decide (code = 404) | KOther _ => false end.

Definition phase_of (pod : Pod) : string := default "" (pod_status pod ≫= pst_phase).

(** One turn of [wait_for_pod_ip]. *)
(* @src crates/nexal-gateway/src/backend/kubernetes.rs wait_for_pod_ip "match pods.get(name).await {" .. "warn!" *)
Definition pod_ip_turn (name : string) : act W (option string) :=
  r ⇐ kget name;
  match r with
  | Ok pod =>
      match pod_status pod with
      | Some status =>
          let phase := default "" (pst_phase status) in
          if decide (phase = "Running") then
            ret (match pst_pod_ip status with
                 | Some ip => if decide (ip = "") then None else Some ip
                 | None => None
                 end)
          else if decide (phase = "Failed" ∨ phase = "Succeeded") then
            throw (Cli ("pod " +:+ name +:+ " in terminal phase: " +:+ phase))
          else ret None
      | None => ret None
      end
  | Err e => if is_404 e then throw (Cli ("pod " +:+ name +:+ " not found")) else ret None
  end.

(* @src crates/nexal-gateway/src/backend/kubernetes.rs wait_for_pod_ip *)
Definition wait_for_pod_ip (name : string) : act W string :=
  poll 60 (pod_ip_turn name) (effect (kube_sleep_ms 500))
    (PortDiscovery ("pod " +:+ name +:+ ": timed out waiting for Running phase + pod IP")).

(** Wait until the pod is gone; so many turns at most, then go on anyway. *)
(* @src crates/nexal-gateway/src/backend/kubernetes.rs ensure "for _ in 0..30u32 {" .. "_ => sleep" *)
Fixpoint wait_gone (turns : nat) (name : string) : act W unit :=
  match turns with
  | O => ret tt
  | S turns' =>
      r ⇐ kget name;
      match r with
      | Err e => if is_404 e then ret tt else effect (kube_sleep_ms 500);; wait_gone turns' name
      | Ok _ => effect (kube_sleep_ms 500);; wait_gone turns' name
      end
  end.

Definition kube_handle (name ip : string) (extra_ports : list Z) : ContainerHandle :=
  mkContainerHandle name ("ws://" +:+ ip +:+ ":" +:+ pretty KUBE_WS_PORT)
    (list_to_map (reverse (map (λ p, (p, ip +:+ ":" +:+ pretty p)) extra_ports))).

(** From the creation on. *)
(* @src crates/nexal-gateway/src/backend/kubernetes.rs ensure "let pod = self.build_pod(&spec);" .. "})" *)
Definition create_and_wait (spec : ContainerSpec) : act W ContainerHandle :=
  r ⇐ kcreate (build_pod spec);
  of_result (map_err (λ e, Cli ("create pod " +:+ cs_name spec +:+ ": " +:+ kube_error_text e)) r);;
  ip ⇐ wait_for_pod_ip (cs_name spec);
  ret (kube_handle (cs_name spec) ip (cs_extra_ports spec)).

(* @src crates/nexal-gateway/src/backend/kubernetes.rs ensure *)
Definition kube_ensure (spec : ContainerSpec) : act W ContainerHandle :=
  r ⇐ kget (cs_name spec);
  match r with
  | Ok pod =>
      if decide (phase_of pod = "Running") then
        ip ⇐ of_result (ok_or (pod_status pod ≫= pst_pod_ip)
                          (PortDiscovery ("pod " +:+ cs_name spec +:+ " running but no IP")));
        ret (kube_handle (cs_name spec) ip (cs_extra_ports spec))
      else
        kdelete (cs_name spec);; wait_gone 30 (cs_name spec);; create_and_wait spec
  | Err e =>
      if is_404 e then create_and_wait spec
      else throw (Io ("get pod " +:+ cs_name spec +:+ ": " +:+ kube_error_text e))
  end.

(* @src crates/nexal-gateway/src/backend/kubernetes.rs destroy *)
Definition kube_destroy (name : string) : act W unit :=
  r ⇐ kdelete name;
  match r with
  | Ok _ => ret tt
  | Err e => if is_404 e then ret tt
             else throw (Cli ("delete pod " +:+ name +:+ ": " +:+ kube_error_text e))
  end.

(* @src crates/nexal-gateway/src/backend/kubernetes.rs exists *)
Definition kube_exists (name : string) : act W bool :=
  r ⇐ kget name;
  match r with
  | Ok _ => ret true
  | Err e => if is_404 e then ret false
             else throw (Io ("get pod " +:+ name +:+ ": " +:+ kube_error_text e))
  end.

(* @src crates/nexal-gateway/src/backend/kubernetes.rs url *)
Definition kube_url (name : string) : act W string :=
  ip ⇐ wait_for_pod_ip name;
  ret ("ws://" +:+ ip +:+ ":" +:+ pretty KUBE_WS_PORT).

#[local] Instance kube_backend : ContainerBackend W := {|
  ensure := kube_ensure;
  destroy := kube_destroy;
  container_exists := kube_exists;
  container_url := kube_url;
|}.

(** Every address handed out is a pod's at the agent's port. *)
Lemma kube_url_Ok name w w' url :
  kube_url name w = (w', Ok url) → ∃ ip, url = "ws://" +:+ ip +:+ ":" +:+ pretty KUBE_WS_PORT.
Proof. unfold kube_url. intros (w1 & ip & _ & Hr)%bind_Ok. injection Hr as _ <-. by exists ip. Qed.

Lemma kube_ensure_url spec w w' h :
  kube_ensure spec w = (w', Ok h) → ∃ ip, ch_url h = "ws://" +:+ ip +:+ ":" +:+ pretty KUBE_WS_PORT.
Proof.
  assert (∀ w1, create_and_wait spec w1 = (w', Ok h) →
    ∃ ip, ch_url h = "ws://" +:+ ip +:+ ":" +:+ pretty KUBE_WS_PORT) as Hc.
  { unfold create_and_wait. intros w1 Hr. do 2 apply bind_Ok in Hr as (? & ? & _ & Hr).
    apply bind_Ok in Hr as (? & ip & _ & Hr). injection Hr as _ <-. by exists ip. }
  unfold kube_ensure. intros Hr. apply bind_Ok in Hr as (w1 & [pod|e] & _ & Hr).
  - case_decide.
    + apply bind_Ok in Hr as (? & ip & _ & Hr). injection Hr as _ <-. by exists ip.
    + do 2 apply bind_Ok in Hr as (? & ? & _ & Hr). by eapply Hc.
  - destruct (is_404 e); [by eapply Hc|done].
Qed.
End kube.

(** * The contract *)

(** What the API promises for the pods of the namespace: reading changes none
    and says whether there is one, a pod is created when the answer says so,
    and a deletion without grace that succeeds or finds nothing leaves none. *)
Class KubeLaws {W} (H : KubeHost W) (view : W → gset string) := {
  kube_get_law n w w' r : pod_get n w = (w', r) →
    view w' = view w ∧ ∀ p, r = Ok p → n ∈ view w;
  kube_create_law p w w' r : pod_create p w = (w', r) →
    view w' = {[pod_name p]} ∪ view w ∨ (view w' = view w ∧ r ≠ Ok tt);
  kube_delete_law n w w' r : pod_delete n w = (w', r) →
    view w' = view w ∖ {[n]} ∨ (view w' = view w ∧ r ≠ Ok tt ∧ ∀ e, r = Err e → is_404 e = false);
  kube_sleep_law ms w : view (kube_sleep_ms ms w) = view w;
}.

Section contract.
Context {W : Type} {H : KubeHost W} (self : KubernetesBackend) (view : W → gset string).
Context {L : KubeLaws H view}.

Lemma kget_spec n w w' r : kget n w = (w', Ok r) → view w' = view w ∧ ∀ p, r = Ok p → n ∈ view w.
Proof.
  unfold kget. destruct (pod_get n w) as [w1 r1] eqn:E. intros [= <- <-].
  by apply (kube_get_law (view := view)) in E.
Qed.

Lemma keeps_kget n : keeps view (kget n).
Proof.
  intros w. unfold kget. destruct (pod_get n w) as [w1 r1] eqn:E.
  by apply (kube_get_law (view := view)) in E as [? _].
Qed.

Lemma only_kdelete n : only view n (kdelete n).
Proof.
  intros w. unfold kdelete. destruct (pod_delete n w) as [w1 r] eqn:E.
  apply (kube_delete_law (view := view)) in E. cbn [fst].
  destruct E as [->|[-> _]]; [set_solver|done].
Qed.

Lemma keeps_sleep : keeps view (effect (kube_sleep_ms 500)).
Proof. intros w. apply kube_sleep_law. Qed.

Lemma keeps_wait_ip n : keeps view (wait_for_pod_ip n).
Proof.
  apply keeps_poll; [|apply keeps_sleep]. apply keeps_bind; [apply keeps_kget|].
  intros [p|e]; [|destruct (is_404 e); auto with backend].
  destruct (pod_status p); [|auto with backend]. cbv zeta.
  destruct (decide _); [auto with backend|]. destruct (decide _); auto with backend.
Qed.

Lemma keeps_wait_gone k n : keeps view (wait_gone k n).
Proof.
  induction k as [|k IH]; cbn [wait_gone]; [auto with backend|].
  apply keeps_bind; [apply keeps_kget|].
  intros [p|e]; [|destruct (is_404 e); [auto with backend|]]; (apply keeps_bind; [apply keeps_sleep|done]).
Qed.

Lemma create_and_wait_spec s w w' r :
  create_and_wait self s w = (w', r) →
  view w' ∖ {[cs_name s]} = view w ∖ {[cs_name s]} ∧
  ∀ h, r = Ok h → ch_name h = cs_name s ∧ cs_name s ∈ view w'.
Proof.
  unfold create_and_wait, kcreate, bind at 1. destruct (pod_create (build_pod self s) w) as [w1 rc] eqn:E.
  apply (kube_create_law (view := view)) in E. cbn [pod_name build_pod] in E.
  assert (view w1 ∖ {[cs_name s]} = view w ∖ {[cs_name s]}) as Hd by (destruct E as [->|[-> _]]; set_solver).
  unfold of_result, bind at 1. destruct rc as [[]|e]; cbn [map_err]; [|intros [= <- <-]; by split].
  destruct E as [Hin|[_ Hne]]; [|done]. intros Hr.
  pose proof (keeps_bind view (wait_for_pod_ip (cs_name s))
    (λ ip, ret (kube_handle (cs_name s) ip (cs_extra_ports s))) (keeps_wait_ip _)
    (λ ip, keeps_ret view _) w1) as Hk. rewrite Hr in Hk. cbn [fst] in Hk.
  rewrite Hk. split; [done|]. intros h ->. rewrite bind_Ok in Hr.
  destruct Hr as (w2 & ip & _ & [= <- <-]). split; [done|]. rewrite Hin. set_solver.
Qed.

Lemma kube_ensure_spec s w w' r :
  kube_ensure self s w = (w', r) →
  view w' ∖ {[cs_name s]} = view w ∖ {[cs_name s]} ∧
  ∀ h, r = Ok h → ch_name h = cs_name s ∧ cs_name s ∈ view w'.
Proof.
  unfold kube_ensure, bind at 1. destruct (kget (cs_name s) w) as [w1 [rg|e]] eqn:E; [|by unfold kget in E; destruct (pod_get _ w)].
  apply kget_spec in E as [Hv Hin]. destruct rg as [p|e].
  - destruct (decide _).
    + unfold bind, of_result. destruct (ok_or _ _) as [ip|e2]; intros [= <- <-]; rewrite Hv; (split; [done|]); [|done].
      intros h [= <-]. split; [done|]. by eapply Hin.
    + unfold bind at 1. pose proof (only_kdelete (cs_name s) w1) as Hd.
      destruct (kdelete (cs_name s) w1) as [w2 [rd|e]] eqn:Ed; [|by unfold kdelete in Ed; destruct (pod_delete _ w1)].
      cbn [fst] in Hd. unfold bind at 1. pose proof (keeps_wait_gone 30 (cs_name s) w2) as Hg.
      destruct (wait_gone 30 (cs_name s) w2) as [w3 [[]|e]]; cbn [fst] in Hg.
      * intros [Hc Hh]%create_and_wait_spec. split; [by rewrite Hc, Hg, Hd, Hv|done].
      * intros [= <- <-]. split; [by rewrite Hg, Hd, Hv|done].
  - destruct (is_404 e); [|intros [= <- <-]; by rewrite Hv].
    intros [Hc Hh]%create_and_wait_spec. split; [by rewrite Hc, Hv|done].
Qed.
End contract.

(** The Kubernetes backend keeps the backend contract under the container's own
    name, also where it deletes a pod that is not running and makes it anew;
    and after a [destroy] that answers, there is no pod of the name. *)
Theorem kube_contract {W} {H : KubeHost W} self (view : W → gset string) :
  KubeLaws H view →
  BackendContract (kube_backend self) view (λ n, n) ∧
  ∀ n w w', kube_destroy n w = (w', Ok tt) → n ∉ view w'.
Proof.
  intros L. split; [split|]; cbn [ensure destroy container_exists container_url kube_backend].
  - intros s w. destruct (kube_ensure self s w) as [w' r] eqn:E. by apply (kube_ensure_spec self view) in E as [? _].
  - intros s w w' h E. apply (kube_ensure_spec self view) in E as [_ Hh].
    destruct (Hh h eq_refl) as [-> ?]. done.
  - intros n. apply only_bind; [apply (only_kdelete view)|]. intros [[]|e]; [|destruct (is_404 e)]; auto with backend.
  - intros n. apply keeps_bind; [apply (keeps_kget view)|].
    intros [p|e]; [|destruct (is_404 e)]; auto with backend.
  - intros n w w'. unfold kube_exists. rewrite bind_Ok. intros (w1 & r & E & Hk).
    apply (kget_spec view) in E as [_ Hin]. destruct r as [p|e]; [by eapply Hin|].
    by destruct (is_404 e).
  - intros n. apply keeps_bind; [apply (keeps_wait_ip view)|auto with backend].
  - intros n w w'. unfold kube_destroy. rewrite bind_Ok. intros (w1 & r & E & Hk). unfold kdelete in E.
    destruct (pod_delete n w) as [w2 r2] eqn:Ed. injection E as -> ->.
    apply (kube_delete_law (view := view)) in Ed. destruct r as [[]|e].
    + injection Hk as <-. destruct Ed as [->|(_ & Hne & _)]; [set_solver|done].
    + destruct (is_404 e) eqn:E4; [|done]. injection Hk as <-.
      destruct Ed as [->|(_ & _ & Hne)]; [set_solver|]. rewrite (Hne e eq_refl) in E4. done.
Qed.

(** A label of the frontend replaces one of the gateway's. *)
Lemma pod_labels_override self spec k v :
  cs_labels spec !! k = Some v → pod_labels (build_pod self spec) !! k = Some v.
Proof. intros Hk. cbn. unfold pod_labels_of. by apply lookup_union_Some_l. Qed.

(** ** Witness: a namespace of running pods *)

Module SampleKube.
Definition self : KubernetesBackend := mkKubernetesBackend "default" "init".
Definition pod (n : string) : Pod :=
  let p := build_pod self (mkContainerSpec n "img" ∅ ∅ "" None None None true None [] true) in
  mkPod n (pod_namespace p) (pod_labels p) (pod_spec p) (Some (mkPodStatus (Some "Running") (Some "10.0.0.7"))).
Definition missing {A} : result A KubeError := Err (KApi 404 "not found").
#[local] Instance host : KubeHost (gset string) := {|
  pod_get n w := (w, if decide (n ∈ w) then Ok (pod n) else missing);
  pod_create p w := if decide (pod_name p ∈ w) then (w, Err (KApi 409 "exists")) else ({[pod_name p]} ∪ w, Ok tt);
  pod_delete n w := if decide (n ∈ w) then (w ∖ {[n]}, Ok tt) else (w, missing);
  kube_sleep_ms _ w := w;
|}.

Lemma kube_laws : KubeLaws host (λ w, w).
Proof.
  split; cbn.
  - intros n w w' r [= <- <-]. split; [done|]. intros p. by destruct (decide (n ∈ w)).
  - intros p w w' r. destruct (decide _); intros [= <- <-]; [by right|by left].
  - intros n w w' r. destruct (decide _); intros [= <- <-]; left; [done|set_solver].
  - done.
Qed.

Lemma kube_contract_witness :
  BackendContract (kube_backend self) (λ w : gset string, w) (λ n, n) ∧
  ∀ n (w w' : gset string), kube_destroy n w = (w', Ok tt) → n ∉ w'.
Proof. apply (kube_contract self (λ w, w) kube_laws). Defined.

Example ensure_new :
  kube_ensure self (mkContainerSpec "a" "img" ∅ ∅ "" None None None true None [80] true) (∅ : gset string)
  = ({["a"]}, Ok (mkContainerHandle "a" "ws://10.0.0.7:9100" {[80 := "10.0.0.7:80"]})).
Proof. by vm_compute. Qed.
End SampleKube.
