(* ===== verification/Sprites.v ===== *)
(** The Sprites backend ([nexal-gateway/src/backend/sprites.rs]): a sprite per
    container name over the Sprites API, the agent started inside it, and a
    local listener per sprite that tunnels to the agent's port. *)
From S2P Require Import Prelude Backend RestApi.
Local Open Scope nexal_scope.
Local Open Scope Z_scope.

(* @src crates/nexal-gateway/src/backend/sprites.rs DEFAULT_API_BASE *)
Definition SPRITES_API_BASE : string := "https://api.sprites.dev".
(* @src crates/nexal-gateway/src/backend/sprites.rs DEFAULT_AGENT_PORT *)
Definition SPRITES_AGENT_PORT : Z := 9100.
(* @src crates/nexal-gateway/src/backend/sprites.rs DEFAULT_AGENT_BIN *)
Definition SPRITES_AGENT_BIN : string := "/usr/local/bin/nexal-agent".

(* @src crates/nexal-gateway/src/backend/sprites.rs SpritesConfig *)
Record SpritesConfig := mkSpritesConfig {
  sc_token : string;
  sc_api_base : option string;
  sc_name_prefix : option string;
  sc_agent_port : option Z;
  sc_agent_bin_path : option string;
}.

(** The settings; the tunnels are the state below. *)
(* @src crates/nexal-gateway/src/backend/sprites.rs SpritesBackend *)
Record SpritesBackend := mkSpritesBackend {
  sp_token : string;
  sp_api_base : string;
  sp_name_prefix : option string;
  sp_agent_port : Z;
  sp_agent_bin : string;
}.

(* @src crates/nexal-gateway/src/backend/sprites.rs SpriteSummary *)
Record SpriteSummary := mkSpriteSummary { ss_name : option string; ss_status : option string }.

(* @src crates/nexal-gateway/src/backend/sprites.rs TunnelHandle *)
Record TunnelHandle := mkTunnelHandle { th_local_addr : string; th_task : Z }.

(** [built] is the outcome of building the HTTP client. *)
(* @src crates/nexal-gateway/src/backend/sprites.rs SpritesBackend::new *)
Definition SpritesBackend_new (cfg : SpritesConfig) (built : result unit string)
    : result SpritesBackend BackendError :=
  if decide (sc_token cfg = "") then Err (Io "sprites backend requires backend.sprites_token")
  else
    _ ←? map_err (λ e, Io ("build sprites http client: " +:+ e)) built;
    Ok (mkSpritesBackend (sc_token cfg)
          (trim_end_matches "/" (default SPRITES_API_BASE (sc_api_base cfg)))
          (sc_name_prefix cfg)
          (default SPRITES_AGENT_PORT (sc_agent_port cfg))
          (default SPRITES_AGENT_BIN (sc_agent_bin_path cfg))).

(** Besides HTTP: the agent binary on disk, a listener on a free loopback
    port (known by a number) and its address. *)
Class SpritesHost (W : Type) := {
  read_binary : string → W → W * result bytes string;
  tcp_bind : W → W * result Z string;
  local_addr : Z → W → W * result string string;
}.

(** [serde_json::from_str] into [SpriteSummary]. *)
Class SpritesJson := { summary_from : string → result SpriteSummary string }.

(** What the task of an accept loop holds: its listener and what it passes on
    with every connection. *)
Record AcceptLoop := mkAcceptLoop {
  al_listener : Z;
  al_sprite : string;
  al_token : string;
  al_ws_base : string;
  al_port : Z;
}.

(** The world, the table of tunnels and the accept loops that run, each by its
    task. *)
Record SpState (W : Type) := mkSpState {
  sp_world : W;
  tunnels : gmap string TunnelHandle;
  tasks : gmap Z AcceptLoop;
  next_task : Z;
}.
Arguments mkSpState {W}.
Arguments sp_world {W}.
Arguments tunnels {W}.
Arguments tasks {W}.
Arguments next_task {W}.

Section sprites.
Context {W : Type} {H : HttpHost W} {SH : SpritesHost W} {S : StatusNames} {J : SpritesJson}
  (self : SpritesBackend).

(** A call that does not touch the tunnels. *)
Definition on_world {A} (m : act W A) : act (SpState W) A := λ st,
  let '(w, r) := m (sp_world st) in (mkSpState w (tunnels st) (tasks st) (next_task st), r).

(* @src crates/nexal-gateway/src/backend/sprites.rs sprite_name *)
Definition sprite_name (spec_name : string) : string :=
  match sp_name_prefix self with Some prefix => prefix +:+ spec_name | None => spec_name end.

(* @src crates/nexal-gateway/src/backend/sprites.rs api_url *)
Definition api_url (path : string) : string := sp_api_base self +:+ path.

(* @src crates/nexal-gateway/src/backend/sprites.rs ws_api_base *)
Definition ws_api_base : string :=
  match strip_prefix "https://" (sp_api_base self) with
  | Some rest => "wss://" +:+ rest
  | None =>
      match strip_prefix "http://" (sp_api_base self) with
      | Some rest => "ws://" +:+ rest
      | None => sp_api_base self
      end
  end.

Definition sprites_request (method : Method) (path : string) (query : list (string * string)) (body : Body)
    : HttpRequest := mkHttpRequest method (api_url path) query (sp_token self) body.

(* @src crates/nexal-gateway/src/backend/sprites.rs api *)
Definition sprites_api (method : Method) (path : string) (body : option Json) : act W (Z * string) :=
  send_text ("sprites api " +:+ path)
    (sprites_request method path [] (match body with Some b => JsonBody b | None => NoBody end)).

Definition sprite_path (name : string) : string := "/v1/sprites/" +:+ name.

(* @src crates/nexal-gateway/src/backend/sprites.rs sprite_exists *)
Definition sprite_exists (name : string) : act W bool :=
  r ⇐ sprites_api GET (sprite_path name) None;
  if decide (r.1 = OK_STATUS) then ret true
  else if decide (r.1 = NOT_FOUND) then ret false
  else throw (Cli ("get sprite " +:+ name +:+ ": " +:+ status_text r.1 r.2)).

(** Variables of the spec are not passed on. *)
(* @src crates/nexal-gateway/src/backend/sprites.rs create_sprite *)
Definition create_sprite (name : string) (spec : ContainerSpec) : act W unit :=
  r ⇐ sprites_api POST "/v1/sprites"
        (Some (JObj [("name", JStr name); ("wait_for_capacity", JBool true)]));
  if is_success r.1 || bool_decide (r.1 = CONFLICT) then ret tt
  else throw (Cli ("create sprite " +:+ name +:+ ": " +:+ status_text r.1 r.2)).

(** One turn of [wait_ready]; a body that does not parse counts as ready. *)
(* @src crates/nexal-gateway/src/backend/sprites.rs wait_ready "let (status, body) = self" .. "return Ok(());" *)
Definition ready_turn (name : string) : act W (option unit) :=
  r ⇐ sprites_api GET (sprite_path name) None;
  if decide (r.1 = NOT_FOUND) then ret None
  else if negb (is_success r.1) then throw (Cli ("get sprite " +:+ name +:+ ": " +:+ status_text r.1 r.2))
  else
    let sprite := match summary_from r.2 with
                  | Ok s => s
                  | Err _ => mkSpriteSummary (Some name) None
                  end in
    ret (match ss_status sprite with
         | None => Some tt
         | Some st => if decide (st ∈ ["ready"; "running"; "started"; "warm"]) then Some tt else None
         end).

(* @src crates/nexal-gateway/src/backend/sprites.rs wait_ready *)
Definition wait_ready (name : string) : act W unit :=
  poll 120 (ready_turn name) (effect (http_sleep_ms 500))
    (PortDiscovery ("sprite " +:+ name +:+ ": timed out waiting for ready")).

(* @src crates/nexal-gateway/src/backend/sprites.rs upload_agent *)
Definition upload_agent (name agent_bin : string) : act W unit :=
  content ⇐ (λ w, let '(w', r) := read_binary agent_bin w in
    (w', map_err (λ e, Io ("read agent binary " +:+ agent_bin +:+ ": " +:+ e)) r));
  r ⇐ send_text ("sprites fs/write " +:+ name)
        (sprites_request PUT (sprite_path name +:+ "/fs/write")
           [("path", sp_agent_bin self); ("workingDir", "/"); ("mode", "0755"); ("mkdir", "true")]
           (RawBody content));
  if is_success r.1 then ret tt
  else throw (Cli ("upload nexal-agent to sprite " +:+ name +:+ ": " +:+ status_text r.1 r.2)).

(* @src crates/nexal-gateway/src/backend/sprites.rs exec_shell *)
Definition exec_shell (name script : string) : act W unit :=
  r ⇐ send_text ("sprites exec " +:+ name)
        (sprites_request POST (sprite_path name +:+ "/exec")
           [("cmd", "/bin/sh"); ("cmd", "-lc"); ("cmd", script); ("dir", "/");
            ("max_run_after_disconnect", "30s")] NoBody);
  if is_success r.1 then ret tt
  else throw (Cli ("exec in sprite " +:+ name +:+ ": " +:+ status_text r.1 r.2)).

(** The service that runs the agent in a sprite. *)
(* @src crates/nexal-gateway/src/backend/sprites.rs start_agent "let body = json!({" .. "});" *)
Definition agent_service : Json :=
  JObj [("cmd", JStr (sp_agent_bin self));
        ("args", JArr [JStr "--listen"; JStr ("ws://0.0.0.0:" +:+ pretty (sp_agent_port self))]);
        ("dir", JStr "/workspace"); ("needs", JArr [])].

(* @src crates/nexal-gateway/src/backend/sprites.rs start_agent *)
Definition start_agent (name : string) : act W unit :=
  exec_shell name "mkdir -p /workspace /run/nexal/proxy";;
  r ⇐ sprites_api PUT (sprite_path name +:+ "/services/nexal-agent")
        (Some agent_service);
  if negb (is_success r.1)
  then throw (Cli ("create nexal-agent service in sprite " +:+ name +:+ ": " +:+ status_text r.1 r.2))
  else
    r ⇐ sprites_api POST (sprite_path name +:+ "/services/nexal-agent/start") None;
    if is_success r.1 then ret tt
    else throw (Cli ("start nexal-agent service in sprite " +:+ name +:+ ": " +:+ status_text r.1 r.2)).

(* @src crates/nexal-gateway/src/backend/sprites.rs stop_agent *)
Definition stop_agent (name : string) : act W unit :=
  r ⇐ sprites_api POST (sprite_path name +:+ "/services/nexal-agent/stop") None;
  if is_success r.1 || bool_decide (r.1 = NOT_FOUND) then ret tt
  else throw (Cli ("stop nexal-agent service in sprite " +:+ name +:+ ": " +:+ status_text r.1 r.2)).

(** * Tunnels *)

(** What the accept loop of a name is made with. *)
(* @src crates/nexal-gateway/src/backend/sprites.rs local_tunnel_url "let sprite = name.to_string();" .. "let port = self.agent_port;" *)
Definition accept_loop (name : string) (listener : Z) : AcceptLoop :=
  mkAcceptLoop listener name (sp_token self) ws_api_base (sp_agent_port self).

(** Spawn the accept loop of a listener and enter it. *)
(* @src crates/nexal-gateway/src/backend/sprites.rs local_tunnel_url "let task = tokio::spawn" .. "Ok(format!" *)
Definition spawn_tunnel (name addr : string) (listener : Z) (st : SpState W) : SpState W :=
  mkSpState (sp_world st) (<[name := mkTunnelHandle addr (next_task st)]> (tunnels st))
    (<[next_task st := accept_loop name listener]> (tasks st)) (next_task st + 1).

(* @src crates/nexal-gateway/src/backend/sprites.rs local_tunnel_url *)
Definition local_tunnel_url (name : string) : act (SpState W) string := λ st,
  match tunnels st !! name with
  | Some existing => (st, Ok ("ws://" +:+ th_local_addr existing))
  | None =>
      bind (on_world (λ w, let '(w', r) := tcp_bind w in
              (w', map_err (λ e, Io ("bind sprites tunnel listener: " +:+ e)) r))) (λ listener,
      bind (on_world (λ w, let '(w', r) := local_addr listener w in
              (w', map_err (λ e, Io ("sprites tunnel local_addr: " +:+ e)) r))) (λ addr,
      λ st, (spawn_tunnel name addr listener st, Ok ("ws://" +:+ addr)))) st
  end.

(** [Drop] of a handle aborts its task. *)
(* @src crates/nexal-gateway/src/backend/sprites.rs TunnelHandle::drop *)
Definition abort_tunnel (h : TunnelHandle) (st : SpState W) : SpState W :=
  mkSpState (sp_world st) (tunnels st) (delete (th_task h) (tasks st)) (next_task st).

(** [tunnels.remove(name)], and the drop of what it returns. *)
(* @src crates/nexal-gateway/src/backend/sprites.rs destroy "self.tunnels.lock" .. "remove(name);" *)
Definition remove_tunnel (name : string) (st : SpState W) : SpState W :=
  match tunnels st !! name with
  | Some h =>
      abort_tunnel h (mkSpState (sp_world st) (delete name (tunnels st)) (tasks st) (next_task st))
  | None => st
  end.

(** The accept loop of a task ends when [accept] fails. *)
(* @src crates/nexal-gateway/src/backend/sprites.rs local_tunnel_url "let Ok((stream, _))" .. "};" *)
Definition accept_fails (task : Z) (st : SpState W) : SpState W :=
  mkSpState (sp_world st) (tunnels st) (delete task (tasks st)) (next_task st).

(** * The backend *)

(* @src crates/nexal-gateway/src/backend/sprites.rs ensure *)
Definition sprites_ensure (spec : ContainerSpec) : act (SpState W) ContainerHandle :=
  let name := sprite_name (cs_name spec) in
  there ⇐ on_world (sprite_exists name);
  (if there : bool then ret tt else on_world (create_sprite name spec));;
  on_world (wait_ready name);;
  on_world (stop_agent name);;
  on_world (upload_agent name (cs_agent_bin spec));;
  on_world (start_agent name);;
  url ⇐ local_tunnel_url name;
  ret (mkContainerHandle name url ∅).

(* @src crates/nexal-gateway/src/backend/sprites.rs destroy *)
Definition sprites_destroy (name : string) : act (SpState W) unit :=
  effect (remove_tunnel name);;
  r ⇐ on_world (sprites_api DELETE (sprite_path name) None);
  if is_success r.1 || bool_decide (r.1 = NOT_FOUND) then ret tt
  else throw (Cli ("delete sprite " +:+ name +:+ ": " +:+ status_text r.1 r.2)).

#[local] Instance sprites_backend : ContainerBackend (SpState W) := {|
  ensure := sprites_ensure;
  destroy := sprites_destroy;
  container_exists name := on_world (sprite_exists name);
  container_url := local_tunnel_url;
|}.
End sprites.

(** * The relay of one connection *)

(** How a tunnel is opened: the WebSocket request and the first message on it. *)
Record TunnelOpen := mkTunnelOpen { to_url : string; to_authorization : string; to_init : Json }.

(** [into_client_request] and [parse] make a request and its header, [connect]
    opens the connection and [send] writes the first message. *)
(* @src crates/nexal-gateway/src/backend/sprites.rs proxy_one "let url = format!" .. "sprites proxy init: {e}" *)
Definition open_tunnel (into_client_request parse connect : string → result unit string)
    (send : Json → result unit string) (ws_base token sprite : string) (port : Z)
    : result TunnelOpen BackendError :=
  let url := ws_base +:+ "/v1/sprites/" +:+ sprite +:+ "/proxy" in
  _ ←? map_err (λ e, Io ("build sprites proxy request: " +:+ e)) (into_client_request url);
  let auth := "Bearer " +:+ token in
  _ ←? map_err (λ e, Io ("build sprites proxy auth header: " +:+ e)) (parse auth);
  _ ←? map_err (λ e, Io ("connect sprites proxy: " +:+ e)) (connect url);
  let init := JObj [("host", JStr "127.0.0.1"); ("port", JNum port)] in
  _ ←? map_err (λ e, Io ("sprites proxy init: " +:+ e)) (send init);
  Ok (mkTunnelOpen url auth init).

(** A connection the loop accepted: what [proxy_one] is called with. *)
(* @src crates/nexal-gateway/src/backend/sprites.rs local_tunnel_url "let sprite = sprite.clone();" .. "proxy_one(stream" *)
Definition serve_accepted (into_client_request parse connect : string → result unit string)
    (send : Json → result unit string) (l : AcceptLoop) : result TunnelOpen BackendError :=
  open_tunnel into_client_request parse connect send (al_ws_base l) (al_token l) (al_sprite l) (al_port l).

Inductive WsMessage := WsText (s : string) | WsBinary (b : bytes) | WsClose | WsControl.

(** What either side does next: a read from the TCP stream and whether what it
    gave could be sent on, a frame of the WebSocket (or its end) and whether it
    could be written. *)
Inductive RelayEvent :=
  | TcpRead (r : result bytes string) (sent : result unit string)
  | WsRecv (m : option (result WsMessage string)) (written : result unit string).

Record Relay := mkRelay {
  rl_to_tcp : bytes;
  rl_to_ws : list WsMessage;
  rl_done : option (result unit BackendError);
}.

Definition end_relay (r : result unit BackendError) (s : Relay) : Relay :=
  mkRelay (rl_to_tcp s) (rl_to_ws s) (Some r).

Definition write_tcp (b : bytes) (written : result unit string) (what : string) (s : Relay) : Relay :=
  match written with
  | Ok _ => mkRelay (rl_to_tcp s ++ b) (rl_to_ws s) (rl_done s)
  | Err e => end_relay (Err (Io (what +:+ e))) s
  end.

(** The two loops, one event at a time; the first to end ends both. *)
(* @src crates/nexal-gateway/src/backend/sprites.rs proxy_one "let tcp_to_ws = async {" .. "Ok(())" *)
Definition relay_tcp (r : result bytes string) (sent : result unit string) (s : Relay) : Relay :=
  match r with
  | Err e => end_relay (Err (Io ("tcp→sprites proxy: " +:+ e))) s
  | Ok [] =>
      end_relay (Ok tt) (mkRelay (rl_to_tcp s)
        (rl_to_ws s ++ match sent with Ok _ => [WsClose] | Err _ => [] end) (rl_done s))
  | Ok buf =>
      match sent with
      | Ok _ => mkRelay (rl_to_tcp s) (rl_to_ws s ++ [WsBinary buf]) (rl_done s)
      | Err e => end_relay (Err (Io ("tcp→sprites proxy: " +:+ e))) s
      end
  end.

(* @src crates/nexal-gateway/src/backend/sprites.rs proxy_one "let ws_to_tcp = async {" .. "};" *)
Definition relay_ws (m : option (result WsMessage string)) (written : result unit string) (s : Relay) : Relay :=
  match m with
  | None => end_relay (Ok tt) s
  | Some (Err e) => end_relay (Err (Io ("sprites proxy→tcp: " +:+ e))) s
  | Some (Ok (WsBinary b)) => write_tcp b written "sprites proxy→tcp: " s
  | Some (Ok (WsText t)) => write_tcp (String.list_byte_of_string t) written "sprites proxy→tcp: " s
  | Some (Ok WsClose) => end_relay (Ok tt) s
  | Some (Ok WsControl) => s
  end.

(* @src crates/nexal-gateway/src/backend/sprites.rs proxy_one "tokio::select! {" .. "Ok(())" *)
Definition relay_step (s : Relay) (e : RelayEvent) : Relay :=
  match rl_done s with
  | Some _ => s
  | None => match e with TcpRead r sent => relay_tcp r sent s | WsRecv m written => relay_ws m written s end
  end.

(** [first] is what came within half a second of the request to connect; a
    text is the server's notice and is not passed on. *)
(* @src crates/nexal-gateway/src/backend/sprites.rs proxy_one "if let Ok(Some(first))" .. "Message::Ping" *)
Definition relay_first (first : option (result WsMessage string)) (written : result unit string) : Relay :=
  let s := mkRelay [] [] None in
  match first with
  | None => s
  | Some (Err e) => end_relay (Err (Io ("sprites proxy init response: " +:+ e))) s
  | Some (Ok (WsBinary b)) => write_tcp b written "sprites proxy initial bytes: " s
  | Some (Ok WsClose) => end_relay (Ok tt) s
  | Some (Ok (WsText _)) | Some (Ok WsControl) => s
  end.

(** From the accepted connection on: the request, the connection and the first
    message may fail. *)
(* @src crates/nexal-gateway/src/backend/sprites.rs proxy_one *)
Definition proxy_one (request auth connect init : result unit string)
    (first : option (result WsMessage string)) (written : result unit string) (events : list RelayEvent)
    : Relay :=
  let failed what e := end_relay (Err (Io (what +:+ e))) (mkRelay [] [] None) in
  match request, auth, connect, init with
  | Err e, _, _, _ => failed "build sprites proxy request: " e
  | _, Err e, _, _ => failed "build sprites proxy auth header: " e
  | _, _, Err e, _ => failed "connect sprites proxy: " e
  | _, _, _, Err e => failed "sprites proxy init: " e
  | _, _, _, _ => foldl relay_step (relay_first first written) events
  end.

(** What an event carries to the TCP stream, and to the WebSocket. *)
Definition ws_payload (m : option (result WsMessage string)) : bytes :=
  match m with
  | Some (Ok (WsBinary b)) => b
  | Some (Ok (WsText t)) => String.list_byte_of_string t
  | _ => []
  end.
Definition to_tcp_of (e : RelayEvent) : bytes := match e with WsRecv m _ => ws_payload m | _ => [] end.
Definition to_ws_of (e : RelayEvent) : bytes :=
  match e with TcpRead (Ok b) _ => b | _ => [] end.
Definition sent_bytes (l : list WsMessage) : bytes :=
  mjoin (map (λ m, match m with WsBinary b => b | _ => [] end) l).

Lemma relay_done_stays events s : rl_done s ≠ None → foldl relay_step s events = s.
Proof.
  intros Hd. induction events as [|e events IH]; [done|]. cbn. unfold relay_step at 2.
  by destruct (rl_done s).
Qed.

Lemma relay_step_open s e :
  rl_done (relay_step s e) = None →
  rl_done s = None ∧ rl_to_tcp (relay_step s e) = rl_to_tcp s ++ to_tcp_of e ∧
  sent_bytes (rl_to_ws (relay_step s e)) = sent_bytes (rl_to_ws s) ++ to_ws_of e.
Proof.
  unfold relay_step. destruct (rl_done s) as [r|] eqn:E; [by rewrite E|]. intros H. split; [done|].
  destruct e as [[[|b bs]|e] sent|[[[t|b| |]|e]|] written]; cbn in *; try done.
  - destruct sent; [|done]. cbn. rewrite app_nil_r. split; [done|].
    unfold sent_bytes. rewrite map_app, join_app. cbn. by rewrite app_nil_r.
  - destruct written; [|done]. cbn. by rewrite app_nil_r.
  - destruct written; [|done]. cbn. by rewrite app_nil_r.
  - by rewrite !app_nil_r.
Qed.

(** While the relay of a connection runs, each side has been given exactly the
    bytes the other sent, in order, whatever the interleaving; once it ends
    nothing moves. *)
Theorem relay_transparent s events :
  (rl_done (foldl relay_step s events) = None →
     rl_to_tcp (foldl relay_step s events) = rl_to_tcp s ++ mjoin (map to_tcp_of events) ∧
     sent_bytes (rl_to_ws (foldl relay_step s events)) = sent_bytes (rl_to_ws s) ++ mjoin (map to_ws_of events)) ∧
  (rl_done s ≠ None → foldl relay_step s events = s).
Proof.
  split; [|apply relay_done_stays]. revert s. induction events as [|e events IH]; intros s; cbn.
  - by rewrite !app_nil_r.
  - intros H. destruct (rl_done (relay_step s e)) as [r|] eqn:E.
    { rewrite relay_done_stays in H by congruence. congruence. }
    destruct (IH _ H) as [-> ->]. apply relay_step_open in E as (_ & -> & ->).
    by rewrite !app_assoc.
Qed.

Lemma relay_transparent_witness :
  rl_to_tcp (foldl relay_step (mkRelay [] [] None)
    [WsRecv (Some (Ok (WsBinary [x41]))) (Ok tt); TcpRead (Ok [x42]) (Ok tt);
     WsRecv (Some (Ok (WsText "C"))) (Ok tt)]) = [x41; x43].
Proof.
  destruct (relay_transparent (mkRelay [] [] None)
    [WsRecv (Some (Ok (WsBinary [x41]))) (Ok tt); TcpRead (Ok [x42]) (Ok tt);
     WsRecv (Some (Ok (WsText "C"))) (Ok tt)]) as [H _].
  destruct (H eq_refl) as [-> _]. reflexivity.
Defined.

(** * Every accept loop has an owner *)

Section tunnels_ok.
Context {W : Type} {H : HttpHost W} {SH : SpritesHost W} {S : StatusNames} {J : SpritesJson}
  (self : SpritesBackend).

(** What happens to the tunnels: the backend's calls, a failing [accept], and
    changes of the world. *)
Inductive tunnel_step (st : SpState W) : SpState W → Prop :=
  | ts_ensure spec : tunnel_step st (sprites_ensure self spec st).1
  | ts_url name : tunnel_step st (local_tunnel_url self name st).1
  | ts_destroy name : tunnel_step st (sprites_destroy self name st).1
  | ts_accept_fails task : tunnel_step st (accept_fails task st)
  | ts_world w : tunnel_step st (mkSpState w (tunnels st) (tasks st) (next_task st)).

Record tunnels_ok (st : SpState W) : Prop := {
  tok_owner t l : tasks st !! t = Some l → ∃ n h, tunnels st !! n = Some h ∧ th_task h = t;
  tok_inj n m h k : tunnels st !! n = Some h → tunnels st !! m = Some k → th_task h = th_task k → n = m;
  tok_next n h : tunnels st !! n = Some h → th_task h < next_task st;
  tok_loop n h l : tunnels st !! n = Some h → tasks st !! th_task h = Some l →
    l = accept_loop self n (al_listener l);
}.

Definition keeps_ok {A} (m : act (SpState W) A) : Prop := ∀ st, tunnels_ok st → tunnels_ok (m st).1.

Lemma keeps_ok_bind {A B} (m : act (SpState W) A) (k : A → act (SpState W) B) :
  keeps_ok m → (∀ a, keeps_ok (k a)) → keeps_ok (bind m k).
Proof.
  intros Hm Hk st Hst. unfold bind. specialize (Hm st Hst).
  destruct (m st) as [st1 [a|e]]; [by apply Hk|done].
Qed.

Lemma keeps_ok_world {A} (m : act W A) : keeps_ok (on_world m).
Proof. intros st [H1 H2 H3 H4]. unfold on_world. destruct (m (sp_world st)). by split. Qed.

Lemma keeps_ok_ret {A} (a : A) : keeps_ok (ret a).
Proof. by intros st. Qed.

Lemma keeps_ok_throw {A} e : keeps_ok (throw (A := A) e).
Proof. by intros st. Qed.

Lemma spawn_tunnel_ok name addr l st :
  tunnels st !! name = None → tunnels_ok st → tunnels_ok (spawn_tunnel self name addr l st).
Proof.
  intros Hn [H1 H2 H3 H4]. split; unfold spawn_tunnel; cbn [tunnels tasks next_task].
  - intros t l' [[<- _]|[_ Ht]]%lookup_insert_Some.
    + exists name, (mkTunnelHandle addr (next_task st)). by rewrite lookup_insert_eq.
    + destruct (H1 _ _ Ht) as (n & h & Hh & E). exists n, h. split; [|done].
      rewrite lookup_insert_ne; [done|congruence].
  - intros n m h k [[<- <-]|[Hne Hh]]%lookup_insert_Some [[<- <-]|[Hne' Hk]]%lookup_insert_Some E; try done.
    + apply H3 in Hk. cbn in E. lia.
    + apply H3 in Hh. cbn in E. lia.
    + by eapply H2.
  - intros n h [[_ <-]|[_ Hh%H3]]%lookup_insert_Some; cbn; lia.
  - intros n h l' [[<- <-]|[Hne Hh]]%lookup_insert_Some.
    + cbn. rewrite lookup_insert_eq. by intros [= <-].
    + rewrite lookup_insert_ne; [by apply H4|]. apply H3 in Hh. lia.
Qed.

Lemma keeps_ok_url name : keeps_ok (local_tunnel_url self name).
Proof.
  intros st Hst. unfold local_tunnel_url. destruct (tunnels st !! name) as [h|] eqn:E; [done|].
  unfold bind, on_world. destruct (tcp_bind (sp_world st)) as [w1 [l|e]]; cbn; [|destruct Hst; by split].
  destruct (local_addr l w1) as [w2 [a|e]]; cbn; [|destruct Hst; by split].
  apply spawn_tunnel_ok; [done|]. destruct Hst; by split.
Qed.

Lemma delete_task_ok st name h :
  tunnels_ok st → tunnels st !! name = Some h →
  tunnels_ok (abort_tunnel h (mkSpState (sp_world st) (delete name (tunnels st)) (tasks st) (next_task st))).
Proof.
  intros [H1 H2 H3 H4] Hn. split; unfold abort_tunnel; cbn [tunnels tasks next_task].
  - intros t l [Hne Ht]%lookup_delete_Some. destruct (H1 _ _ Ht) as (n & k & Hk & E).
    exists n, k. split; [|done]. apply lookup_delete_Some. split; [|done]. congruence.
  - intros n m k k' [_ Hk]%lookup_delete_Some [_ Hk']%lookup_delete_Some. by eapply H2.
  - intros n k [_ Hk]%lookup_delete_Some. by eapply H3.
  - intros n k l [_ Hk]%lookup_delete_Some [_ Hl]%lookup_delete_Some. by eapply H4.
Qed.

Lemma remove_tunnel_ok name st : tunnels_ok st → tunnels_ok (remove_tunnel name st).
Proof.
  intros Hst. unfold remove_tunnel. destruct (tunnels st !! name) as [h|] eqn:E; [|done].
  by apply delete_task_ok.
Qed.

Lemma keeps_ok_ensure spec : keeps_ok (sprites_ensure self spec).
Proof.
  apply keeps_ok_bind; [apply keeps_ok_world|]. intros there.
  apply keeps_ok_bind; [destruct there; [apply keeps_ok_ret|apply keeps_ok_world]|]. intros _.
  do 4 (apply keeps_ok_bind; [apply keeps_ok_world|intros _]).
  apply keeps_ok_bind; [apply keeps_ok_url|intros url; apply keeps_ok_ret].
Qed.

Lemma keeps_ok_destroy name : keeps_ok (sprites_destroy self name).
Proof.
  apply keeps_ok_bind; [intros st; apply remove_tunnel_ok|]. intros _.
  apply keeps_ok_bind; [apply keeps_ok_world|]. intros r.
  destruct (_ || _); [apply keeps_ok_ret|apply keeps_ok_throw].
Qed.

Lemma tunnel_step_ok st st' : tunnels_ok st → tunnel_step st st' → tunnels_ok st'.
Proof.
  intros Ha Hs. destruct Hs as [spec|name|name|task|w].
  - by apply keeps_ok_ensure.
  - by apply keeps_ok_url.
  - by apply keeps_ok_destroy.
  - destruct Ha as [H1 H2 H3 H4]. split; [|done|done|].
    + cbn. intros t l [_ Ht]%lookup_delete_Some. by eapply H1.
    + cbn. intros n h l Hh [_ Hl]%lookup_delete_Some. by eapply H4.
  - destruct Ha. by split.
Qed.

Lemma tunnels_reachable_ok st0 st :
  tunnels st0 = ∅ → tasks st0 = ∅ → rtc tunnel_step st0 st → tunnels_ok st.
Proof.
  intros E1 E2 Hr. eapply (rtc_invariant tunnel_step tunnels_ok); [exact tunnel_step_ok| |exact Hr].
  split; [by rewrite E2|by rewrite E1|by rewrite E1|by rewrite E1].
Qed.

(** The url of a sprite is the address of its tunnel, whose loop, while it runs,
    passes every connection on to that sprite's agent. *)
Lemma url_of_tunnel st st' name url :
  tunnels_ok st → local_tunnel_url self name st = (st', Ok url) →
  ∃ h, tunnels st' !! name = Some h ∧ url = "ws://" +:+ th_local_addr h
    ∧ ∀ l, tasks st' !! th_task h = Some l → l = accept_loop self name (al_listener l).
Proof.
  intros Hok Hu. assert (tunnels_ok st') as Hok' by (pose proof (keeps_ok_url name st Hok) as Hk; by rewrite Hu in Hk).
  assert (∃ h, tunnels st' !! name = Some h ∧ url = "ws://" +:+ th_local_addr h) as (h & Hh & ->).
  { unfold local_tunnel_url in Hu. destruct (tunnels st !! name) as [h|] eqn:E; [injection Hu as <- <-; eauto|].
    apply bind_Ok in Hu as (st1 & l & _ & Hu). apply bind_Ok in Hu as (st2 & a & _ & Hu).
    injection Hu as <- <-. eexists. split; [apply lookup_insert_eq|done]. }
  exists h. split; [done|]. split; [done|]. intros l. by apply (tok_loop _ Hok').
Qed.

Lemma keeps_ok_bind_Ok {A B} (m : act (SpState W) A) (k : A → act (SpState W) B) st st' b :
  keeps_ok m → tunnels_ok st → bind m k st = (st', Ok b) →
  ∃ st1 a, tunnels_ok st1 ∧ k a st1 = (st', Ok b).
Proof.
  intros Hm Hok (st1 & a & E & Hk)%bind_Ok. exists st1, a. split; [|done].
  specialize (Hm st Hok). by rewrite E in Hm.
Qed.

(** [ensure] ends with the url of the sprite it names. *)
Lemma ensure_tunnel spec st st' h :
  tunnels_ok st → sprites_ensure self spec st = (st', Ok h) →
  ch_name h = sprite_name self (cs_name spec)
  ∧ ∃ st1, tunnels_ok st1 ∧ local_tunnel_url self (ch_name h) st1 = (st', Ok (ch_url h)).
Proof.
  intros Hok Hr. unfold sprites_ensure in Hr. cbv zeta in Hr.
  apply keeps_ok_bind_Ok in Hr as (s1 & there & H1 & Hr); [|apply keeps_ok_world|done].
  apply keeps_ok_bind_Ok in Hr as (s2 & u2 & H2 & Hr);
    [|destruct there; [apply keeps_ok_ret|apply keeps_ok_world]|done].
  apply keeps_ok_bind_Ok in Hr as (s3 & u3 & H3 & Hr); [|apply keeps_ok_world|done].
  apply keeps_ok_bind_Ok in Hr as (s4 & u4 & H4 & Hr); [|apply keeps_ok_world|done].
  apply keeps_ok_bind_Ok in Hr as (s5 & u5 & H5 & Hr); [|apply keeps_ok_world|done].
  apply keeps_ok_bind_Ok in Hr as (s6 & u6 & H6 & Hr); [|apply keeps_ok_world|done].
  apply bind_Ok in Hr as (s7 & url & E7 & Hr). injection Hr as <- <-. split; [done|]. by exists s6.
Qed.

(** In every state the backend can reach, an accept loop that runs belongs to
    exactly one registered tunnel: none is orphaned and none serves two names;
    and after [destroy], whatever its answer, no loop of the name runs. *)
Theorem tunnels_owned st0 st :
  tunnels st0 = ∅ → tasks st0 = ∅ → rtc tunnel_step st0 st →
  (∀ t l, tasks st !! t = Some l →
     ∃ n h, tunnels st !! n = Some h ∧ th_task h = t ∧
       ∀ m k, tunnels st !! m = Some k → th_task k = t → m = n) ∧
  ∀ name h, tunnels st !! name = Some h →
    tunnels (sprites_destroy self name st).1 !! name = None ∧
    tasks (sprites_destroy self name st).1 !! th_task h = None.
Proof.
  intros E1 E2 Hr. pose proof (tunnels_reachable_ok st0 st E1 E2 Hr) as Hok.
  split.
  - intros t l Ht. destruct (tok_owner st Hok _ _ Ht) as (n & h & Hh & E). exists n, h.
    split; [done|]. split; [done|]. intros m k Hk Ek. eapply (tok_inj st Hok); [done|done|congruence].
  - intros name h Hh. unfold sprites_destroy, bind, effect, on_world, remove_tunnel. rewrite Hh.
    cbn [sp_world abort_tunnel]. destruct (sprites_api _ _ _ _ _) as [w [r|e]].
    + destruct (_ || _); cbn; by rewrite !lookup_delete_eq.
    + cbn. by rewrite !lookup_delete_eq.
Qed.

(** A tunnel whose accept loop ended stays registered, and its address is
    still handed out. *)
Lemma dead_tunnel_kept name h st :
  tunnels st !! name = Some h →
  tasks (accept_fails (th_task h) st) !! th_task h = None ∧
  local_tunnel_url self name (accept_fails (th_task h) st)
    = (accept_fails (th_task h) st, Ok ("ws://" +:+ th_local_addr h)).
Proof.
  intros Hh. split; [apply lookup_delete_eq|]. unfold local_tunnel_url. cbn [accept_fails tunnels]. by rewrite Hh.
Qed.
End tunnels_ok.

(** * The contract *)

(** What the Sprites API does, for the names of the sprites: reading tells
    whether there is one, creating succeeds or finds it there, deleting
    succeeds or finds none, and no other request makes or removes one. *)
Class SpritesLaws {W} (H : HttpHost W) (SH : SpritesHost W) (self : SpritesBackend) (view : W → gset string) := {
  sl_get n w w' status text :
    http_send (sprites_request self GET (sprite_path n) [] NoBody) w = (w', Ok (mkHttpResponse status (Ok text))) →
    status = OK_STATUS → n ∈ view w;
  sl_create n rest w w' r :
    http_send (sprites_request self POST "/v1/sprites" [] (JsonBody (JObj (("name", JStr n) :: rest)))) w = (w', r) →
    view w' = {[n]} ∪ view w ∨
    (view w' = view w ∧ ∀ resp, r = Ok resp → is_success (hr_status resp) = false ∧ hr_status resp ≠ CONFLICT);
  sl_delete n w w' r :
    http_send (sprites_request self DELETE (sprite_path n) [] NoBody) w = (w', r) →
    view w' = view w ∖ {[n]} ∨
    (view w' = view w ∧ ∀ resp, r = Ok resp → is_success (hr_status resp) = false ∧ hr_status resp ≠ NOT_FOUND);
  sl_quiet req w : hq_method req ≠ DELETE → hq_url req ≠ api_url self "/v1/sprites" →
    view (http_send req w).1 = view w;
  sl_read p w : view (read_binary p w).1 = view w;
  sl_bind w : view (tcp_bind w).1 = view w;
  sl_addr l w : view (local_addr l w).1 = view w;
  sl_sleep ms w : view (http_sleep_ms ms w) = view w;
}.

Section contract.
Context {W : Type} {H : HttpHost W} {SH : SpritesHost W} {S : StatusNames} {J : SpritesJson}
  (self : SpritesBackend) (view : W → gset string) {L : SpritesLaws H SH self view}.

Abbreviation sprites := (λ st : SpState W, view (sp_world st)).

Lemma keeps_world {A} (m : act W A) : keeps view m → keeps sprites (on_world m).
Proof. intros Hm st. unfold on_world. specialize (Hm (sp_world st)). by destruct (m (sp_world st)). Qed.

Lemma only_world {A} n (m : act W A) : only view n m → only sprites n (on_world m).
Proof. intros Hm st. unfold on_world. specialize (Hm (sp_world st)). by destruct (m (sp_world st)). Qed.

Lemma on_world_eq {A} (m : act W A) st st' r :
  on_world m st = (st', r) → m (sp_world st) = (sp_world st', r).
Proof. unfold on_world. destruct (m (sp_world st)) as [w r0]. by intros [= <- <-]. Qed.

Lemma keeps_send what req :
  hq_method req ≠ DELETE → hq_url req ≠ api_url self "/v1/sprites" → keeps view (send_text what req).
Proof. intros H1 H2 w. rewrite send_text_world. by apply sl_quiet. Qed.

(** The paths below a sprite are not the collection's. *)
Lemma below_sprite name rest : api_url self (sprite_path name +:+ rest) ≠ api_url self "/v1/sprites".
Proof. intros E. by apply (inj (String.append _)) in E. Qed.

Lemma at_sprite name : api_url self (sprite_path name) ≠ api_url self "/v1/sprites".
Proof. intros E. by apply (inj (String.append _)) in E. Qed.

Lemma keeps_sprite_get name : keeps view (sprites_api self GET (sprite_path name) None).
Proof. apply keeps_send; [done|apply at_sprite]. Qed.

Lemma keeps_below {A} method name rest query body what (k : Z * string → act W A) :
  method ≠ DELETE → (∀ r, keeps view (k r)) →
  keeps view (bind (send_text what (sprites_request self method (sprite_path name +:+ rest) query body)) k).
Proof. intros Hm Hk. apply keeps_bind; [apply keeps_send; [done|apply below_sprite]|done]. Qed.

Lemma keeps_sprite_exists name : keeps view (sprite_exists self name).
Proof.
  apply keeps_bind; [apply keeps_sprite_get|]. intros r.
  destruct (decide _); [auto with backend|]. destruct (decide _); auto with backend.
Qed.

Lemma keeps_wait_ready name : keeps view (wait_ready self name).
Proof.
  apply keeps_poll; [|intros w; apply sl_sleep].
  apply keeps_bind; [apply keeps_sprite_get|]. intros r.
  destruct (decide _); [auto with backend|]. destruct (negb _); auto with backend.
Qed.

Lemma keeps_if {A} (b : bool) (m1 m2 : act W A) :
  keeps view m1 → keeps view m2 → keeps view (if b then m1 else m2).
Proof. by destruct b. Qed.

Lemma keeps_agent name agent_bin :
  keeps view (stop_agent self name) ∧ keeps view (upload_agent self name agent_bin) ∧
  keeps view (start_agent self name).
Proof.
  split; [|split].
  - apply keeps_below; [done|]. intros r. apply keeps_if; auto with backend.
  - apply keeps_bind.
    { intros w. pose proof (sl_read agent_bin w) as Hr. by destruct (read_binary agent_bin w). }
    intros content. apply keeps_below; [done|]. intros r. apply keeps_if; auto with backend.
  - apply keeps_bind; [apply keeps_below; [done|]; intros r; apply keeps_if; auto with backend|]. intros _.
    apply keeps_below; [done|]. intros r. apply keeps_if; [auto with backend|].
    apply keeps_below; [done|]. intros r'. apply keeps_if; auto with backend.
Qed.

Lemma keeps_tunnel name : keeps sprites (local_tunnel_url self name).
Proof.
  intros st. unfold local_tunnel_url. destruct (tunnels st !! name); [done|].
  unfold bind, on_world. pose proof (sl_bind (sp_world st)) as Hb.
  destruct (tcp_bind (sp_world st)) as [w1 [l|e]]; cbn in *; [|done].
  pose proof (sl_addr l w1) as Ha. destruct (local_addr l w1) as [w2 [a|e]]; cbn in *; congruence.
Qed.

(** What follows once the sprite is there. *)
Lemma keeps_provision name agent_bin :
  keeps sprites (on_world (wait_ready self name);; on_world (stop_agent self name);;
    on_world (upload_agent self name agent_bin);; on_world (start_agent self name);;
    url ⇐ local_tunnel_url self name; ret (mkContainerHandle name url ∅)).
Proof.
  destruct (keeps_agent name agent_bin) as (H1 & H2 & H3).
  apply keeps_bind; [by apply keeps_world, keeps_wait_ready|]. intros _.
  apply keeps_bind; [by apply keeps_world|]. intros _. apply keeps_bind; [by apply keeps_world|]. intros _.
  apply keeps_bind; [by apply keeps_world|]. intros _.
  apply keeps_bind; [apply keeps_tunnel|auto with backend].
Qed.

Lemma create_sprite_spec name spec w w' r :
  create_sprite self name spec w = (w', r) →
  view w' ∖ {[name]} = view w ∖ {[name]} ∧ (r = Ok tt → name ∈ view w').
Proof.
  unfold create_sprite, bind. destruct (sprites_api self POST _ _ w) as [w1 r1] eqn:E.
  apply send_text_sent in E as (r' & E & Hr). apply (sl_create (view := view)) in E.
  assert (view w1 ∖ {[name]} = view w ∖ {[name]}) as Hd by (destruct E as [->|[-> _]]; [set_solver|done]).
  destruct r1 as [st|e]; [|intros [= <- <-]; by split].
  destruct (is_success st.1 || bool_decide (st.1 = CONFLICT)) eqn:Es; intros [= <- <-]; (split; [done|]); [|done].
  intros _. destruct E as [->|[_ Hf]]; [set_solver|].
  destruct (Hr st eq_refl) as (resp & -> & Est). destruct (Hf resp eq_refl) as [F1 F2]. rewrite Est in *.
  apply orb_true_iff in Es as [Es|Es%bool_decide_eq_true]; congruence.
Qed.

Lemma sprites_ensure_spec s st st' r :
  sprites_ensure self s st = (st', r) →
  sprites st' ∖ {[sprite_name self (cs_name s)]} = sprites st ∖ {[sprite_name self (cs_name s)]} ∧
  ∀ h, r = Ok h → ch_name h = sprite_name self (cs_name s) ∧ ch_name h ∈ sprites st'.
Proof.
  unfold sprites_ensure. set (name := sprite_name self (cs_name s)). unfold bind at 1.
  destruct (on_world (sprite_exists self name) st) as [st1 rx] eqn:Ex. apply on_world_eq in Ex.
  pose proof (keeps_sprite_exists name (sp_world st)) as Hv. rewrite Ex in Hv. cbn [fst] in Hv.
  destruct rx as [there|e]; [|intros [= <- <-]; by rewrite Hv]. unfold bind at 1.
  assert (∀ st2 st3 r3, name ∈ sprites st2 →
    (on_world (wait_ready self name);; on_world (stop_agent self name);;
     on_world (upload_agent self name (cs_agent_bin s));; on_world (start_agent self name);;
     url ⇐ local_tunnel_url self name; ret (mkContainerHandle name url ∅)) st2 = (st3, r3) →
    sprites st3 = sprites st2 ∧ ∀ h, r3 = Ok h → ch_name h = name ∧ ch_name h ∈ sprites st3) as Hrest.
  { intros st2 st3 r3 Hin E. pose proof (keeps_provision name (cs_agent_bin s) st2) as Hk. rewrite E in Hk.
    cbn [fst] in Hk. split; [done|]. intros h ->.
    do 5 (apply bind_Ok in E as (? & ? & _ & E)). injection E as <- <-. cbn. by rewrite Hk. }
  destruct there.
  - unfold ret at 1. cbv beta iota. intros E. apply Hrest in E as [E ?]; [split; [by rewrite E, Hv|done]|]. rewrite Hv.
    unfold sprite_exists in Ex. rewrite bind_Ok in Ex. destruct Ex as (w2 & [status text] & Hs & Hk).
    cbn [fst snd] in Hk. apply send_text_Ok in Hs.
    destruct (decide (status = OK_STATUS)) as [Eok|]; [by eapply sl_get|]. by destruct (decide _).
  - destruct (on_world (create_sprite self name s) st1) as [st2 rc] eqn:Ec. apply on_world_eq in Ec.
    apply create_sprite_spec in Ec as [Hd Hin]. rewrite Hv in Hd.
    destruct rc as [[]|e]; [|intros [= <- <-]; by split].
    intros E. apply Hrest in E as [E ?]; [|by apply Hin]. split; [by rewrite E|done].
Qed.
End contract.

(** The Sprites backend keeps the backend contract under the prefixed name: no
    call touches another sprite, [ensure] answers only when the sprite of its
    handle is there, and [exists] never invents one; and after a [destroy] that
    answers, there is no sprite of the name. *)
Theorem sprites_contract {W} {H : HttpHost W} {SH : SpritesHost W} {S : StatusNames} {J : SpritesJson} self
    (view : W → gset string) :
  SpritesLaws H SH self view →
  BackendContract (sprites_backend self) (λ st : SpState W, view (sp_world st)) (sprite_name self) ∧
  ∀ n (st st' : SpState W), sprites_destroy self n st = (st', Ok tt) → n ∉ view (sp_world st').
Proof.
  intros L.
  assert (∀ n (st st' : SpState W) r, sprites_destroy self n st = (st', r) →
    view (sp_world st') ∖ {[n]} = view (sp_world st) ∖ {[n]} ∧ (r = Ok tt → n ∉ view (sp_world st'))) as Hdestroy.
  { intros n st st' r. unfold sprites_destroy, effect, bind.
    assert (sp_world (remove_tunnel n st) = sp_world st) as Hw.
    { unfold remove_tunnel. by destruct (tunnels st !! n). }
    destruct (on_world _ (remove_tunnel n st)) as [st1 r1] eqn:E. apply on_world_eq in E. rewrite Hw in E.
    apply send_text_sent in E as (r' & E & Hr). apply (sl_delete (view := view)) in E.
    assert (view (sp_world st1) ∖ {[n]} = view (sp_world st) ∖ {[n]}) as Hd
      by (destruct E as [->|[-> _]]; [set_solver|done]).
    destruct r1 as [a|e]; [|intros [= <- <-]; by split].
    destruct (is_success a.1 || bool_decide (a.1 = NOT_FOUND)) eqn:Es; intros [= <- <-]; (split; [done|]); [|done].
    intros _. destruct E as [->|[_ Hf]]; [set_solver|].
    destruct (Hr a eq_refl) as (resp & -> & Ea). destruct (Hf resp eq_refl) as [F1 F2]. rewrite Ea in *.
    apply orb_true_iff in Es as [Es|Es%bool_decide_eq_true]; congruence. }
  split; [split|]; cbn [ensure destroy container_exists container_url sprites_backend].
  - intros s st. destruct (sprites_ensure self s st) as [st' r] eqn:E.
    by apply (sprites_ensure_spec self view) in E as [? _].
  - intros s st st' h E. apply (sprites_ensure_spec self view) in E as [_ Hh]. by apply Hh.
  - intros n st. destruct (sprites_destroy self n st) as [st' r] eqn:E. by apply Hdestroy in E as [? _].
  - intros n. apply keeps_world. apply (keeps_sprite_exists self view).
  - intros n st st' E. apply on_world_eq in E. unfold sprite_exists in E. rewrite bind_Ok in E.
    destruct E as (w2 & [status text] & Hs & E).
    cbn [fst snd] in E. apply send_text_Ok in Hs.
    destruct (decide (status = OK_STATUS)); [by eapply sl_get|]. by destruct (decide _).
  - intros n. apply (keeps_tunnel self view).
  - intros n st st' E. apply Hdestroy in E as [_ Hn]. by apply Hn.
Qed.

(** ** Witness: an account that may have one sprite *)

Module SampleSprites.
Definition self : SpritesBackend := mkSpritesBackend "token" "https://api" (Some "nx-") 9100 "/agent".
#[local] Instance names : StatusNames := λ z, pretty z.
#[local] Instance json : SpritesJson := {| summary_from _ := Ok (mkSpriteSummary None (Some "warm")) |}.

(** The one name that is served, and whether the sprite is there. *)
Definition the_name : string := "nx-a".
Definition answer (status : Z) : result HttpResponse string := Ok (mkHttpResponse status (Ok "")).
Definition served (req : HttpRequest) : bool := bool_decide (hq_url req = api_url self (sprite_path the_name)).
Definition step (req : HttpRequest) (there : bool) : bool * result HttpResponse string :=
  match hq_method req with
  | GET => (there, answer (if there && served req then 200 else 404))
  | DELETE =>
      if served req then (false, answer 204) else (there, answer 500)
  | _ =>
      if decide (hq_url req = api_url self "/v1/sprites") then
        match hq_body req with
        | JsonBody (JObj (("name", JStr n) :: _)) =>
            if decide (n = the_name) then (true, answer 201) else (there, answer 402)
        | _ => (there, answer 400)
        end
      else (there, answer 200)
  end.
#[local] Instance http : HttpHost bool := {| http_send := step; http_sleep_ms _ w := w |}.
#[local] Instance host : SpritesHost bool := {|
  read_binary _ w := (w, Ok [x7f]);
  tcp_bind w := (w, Ok 4);
  local_addr _ w := (w, Ok "127.0.0.1:41000");
|}.
Definition view (there : bool) : gset string := if there then {[the_name]} else ∅.

Lemma served_name m n q b : served (sprites_request self m (sprite_path n) q b) = true → n = the_name.
Proof. intros E%bool_decide_eq_true. by repeat apply (inj (String.append _)) in E. Qed.

Lemma sprites_laws : SpritesLaws http host self view.
Proof.
  split; try done.
  - intros n w w' status text E Hs. cbn [http_send http step hq_method sprites_request] in E.
    injection E as <- <- _. destruct w; [|done].
    destruct (served _) eqn:E; [|done]. apply served_name in E as ->. change (the_name ∈ ({[the_name]} : gset string)). by apply elem_of_singleton_2.
  - intros n rest w w' r. cbn [http_send http step hq_method hq_url hq_body sprites_request].
    destruct (decide (api_url self "/v1/sprites" = _)) as [_|]; [|done].
    destruct (decide (n = the_name)) as [En|]; intros [= <- <-].
    + left. rewrite En. destruct w; cbn; set_solver.
    + right. split; [done|]. by intros resp [= <-].
  - intros n w w' r. cbn [http_send http step hq_method hq_url sprites_request].
    destruct (served _) eqn:E; intros [= <- <-].
    + left. apply served_name in E as ->. destruct w; cbn; set_solver.
    + right. split; [done|]. by intros resp [= <-].
  - intros [m url q tk body] w Hm Hu. cbn [hq_method hq_url] in *. unfold http_send, http, step.
    cbn [hq_method hq_url]. destruct m; [done| | |done]; by rewrite decide_False.
Qed.

Lemma sprites_contract_witness :
  BackendContract (sprites_backend self) (λ st : SpState bool, view (sp_world st)) (sprite_name self) ∧
  ∀ n (st st' : SpState bool), sprites_destroy self n st = (st', Ok tt) → n ∉ view (sp_world st').
Proof. apply (sprites_contract self view sprites_laws). Defined.

Definition st0 : SpState bool := mkSpState false ∅ ∅ 0.
Definition spec : ContainerSpec := mkContainerSpec "a" "img" ∅ ∅ "/opt/agent" None None None true None [] true.

Example ensure_prefixed :
  (sprites_ensure self spec st0).2 = Ok (mkContainerHandle "nx-a" "ws://127.0.0.1:41000" ∅).
Proof. by vm_compute. Qed.

Lemma tunnels_owned_witness :
  tasks (sprites_ensure self spec st0).1 !! 0 = Some (accept_loop self "nx-a" 4) ∧
  ∃ n h, tunnels (sprites_ensure self spec st0).1 !! n = Some h ∧ th_task h = 0 ∧
    ∀ m k, tunnels (sprites_ensure self spec st0).1 !! m = Some k → th_task k = 0 → m = n.
Proof.
  destruct (tunnels_owned self st0 (sprites_ensure self spec st0).1) as [H _]; [done|done| |].
  - apply rtc_once. apply ts_ensure.
  - split; [by vm_compute|]. apply (H 0 (accept_loop self "nx-a" 4)). by vm_compute.
Defined.
End SampleSprites.
