(* ===== verification/Registry.v ===== *)
(** Containers and agents of the gateway: the warm pool ([pool.rs]) and the agent registry
    ([registry.rs]).

    The container runtime and the agents are outside the process.  They are
    the interfaces [ContainerBackend] and [AgentLink] over an abstract world
    [W] that every call may change; a registry operation is the sequence of
    calls the source makes, on the state it owns and that world. *)
From S2P Require Import Prelude Wire Methods AgentConn Proxy Backend.
From stdpp Require Import sorting.

(** What the registry and its sessions use of an [AgentConn]. *)
Class AgentLink (W : Type) := {
  link_connect : string → string → W → W * result nat AgentConnError;
  link_invoke : nat → string → option Value → W → W * result Value AgentConnError;
  link_close : nat → W → W;
}.

(** * Warm pool *)

(* @src crates/nexal-gateway/src/pool.rs WarmPoolConfig *)
Record WarmPoolConfig := mkWarmPoolConfig { wpc_size : nat; wpc_image : string }.

(* @src crates/nexal-gateway/src/pool.rs WarmPool *)
Record WarmPool := mkWarmPool {
  wp_image : string;
  wp_agent_bin : string;
  wp_memory : option string;
  wp_cpus : option string;
  wp_pids_limit : option Z;
  wp_network : bool;
  wp_name_prefix : string;
  wp_target_size : nat;
  wp_counter : Z;
  wp_available : list ContainerHandle;
}.

(* @src crates/nexal-gateway/src/pool.rs WarmPool::new *)
Definition WarmPool_new (cfg : WarmPoolConfig) (name_prefix agent_bin : string)
    (memory cpus : option string) (pids_limit : option Z) (network : bool) : WarmPool :=
  mkWarmPool (wpc_image cfg) agent_bin memory cpus pids_limit network name_prefix
    (wpc_size cfg) 0 [].

Definition set_available (l : list ContainerHandle) (p : WarmPool) : WarmPool :=
  mkWarmPool (wp_image p) (wp_agent_bin p) (wp_memory p) (wp_cpus p) (wp_pids_limit p)
    (wp_network p) (wp_name_prefix p) (wp_target_size p) (wp_counter p) l.

Definition set_counter (n : Z) (p : WarmPool) : WarmPool :=
  mkWarmPool (wp_image p) (wp_agent_bin p) (wp_memory p) (wp_cpus p) (wp_pids_limit p)
    (wp_network p) (wp_name_prefix p) (wp_target_size p) n (wp_available p).

(** [Vec::pop] *)
(* @src crates/nexal-gateway/src/pool.rs take *)
Definition pool_take (p : WarmPool) : WarmPool * option ContainerHandle :=
  match last (wp_available p) with
  | Some h => (set_available (removelast (wp_available p)) p, Some h)
  | None => (p, None)
  end.

(* @src crates/nexal-gateway/src/pool.rs available_count *)
Definition available_count (p : WarmPool) : nat := length (wp_available p).

Definition pool_container_name (p : WarmPool) (seq : Z) : string :=
  wp_name_prefix p +:+ "pool-" +:+ pretty seq.

(** The spec of a pooled container. *)
(* @src crates/nexal-gateway/src/pool.rs create_one "let spec = ContainerSpec" .. "};" *)
Definition pool_spec (p : WarmPool) (seq : Z) : ContainerSpec :=
  mkContainerSpec (pool_container_name p seq) (wp_image p) ∅ {["nexal.pool" := "warm"]}
    (wp_agent_bin p) (wp_memory p) (wp_cpus p) (wp_pids_limit p) (wp_network p)
    None [] true.

Section pool.
Context {W : Type} {HB : ContainerBackend W}.

(* @src crates/nexal-gateway/src/pool.rs create_one *)
Definition create_one (p : WarmPool) (w : W) : WarmPool * W * bool :=
  let seq := wp_counter p in
  let p := set_counter (wrap_u64 (seq + 1)) p in
  match ensure (pool_spec p seq) w with
  | (w, Ok handle) => (set_available (wp_available p ++ [handle]) p, w, true)
  | (w, Err _) => (p, w, false)
  end.

(** [fuel] bounds the attempts; a failed attempt sleeps and tries again. *)
(* @src crates/nexal-gateway/src/pool.rs replenish *)
Fixpoint replenish (fuel : nat) (p : WarmPool) (w : W) : option (WarmPool * W) :=
  if decide (wp_target_size p ≤ length (wp_available p)) then Some (p, w)
  else match fuel with
       | O => None
       | S fuel' => let r := create_one p w in replenish fuel' r.1.1 r.1.2
       end.

(* @src crates/nexal-gateway/src/pool.rs drain *)
Definition pool_drain (p : WarmPool) (w : W) : WarmPool * W :=
  (set_available [] p, foldl (λ w h, (destroy (ch_name h) w).1) w (wp_available p)).
End pool.

(** * Registry *)

Abbreviation AgentId := string (only parsing).

(* @src crates/nexal-gateway/src/registry.rs RegistryError *)
Inductive RegistryError :=
  | RBackend (e : BackendError)
  | RAgentConn (e : AgentConnError)
  | UnknownAgent (id : string)
  | UnknownContainer (name : string).

(** [conn] is the number of the agent's connection. *)
(* @src crates/nexal-gateway/src/registry.rs AgentEntry *)
Record AgentEntry := mkAgentEntry {
  ae_agent_id : AgentId;
  ae_container_name : string;
  ae_created_at_unix_ms : Z;
  ae_conn : nat;
  ae_port_map : gmap Z string;
}.

(* @src crates/nexal-gateway/src/registry.rs SpawnDefaults *)
Record SpawnDefaults := mkSpawnDefaults {
  sd_image : string;
  sd_agent_bin : string;
  sd_memory : option string;
  sd_cpus : option string;
  sd_pids_limit : option Z;
  sd_network : bool;
  sd_container_name_prefix : string;
  sd_workspace_volume : option string;
}.

(* @src crates/nexal-gateway/src/registry.rs AgentRegistry *)
Record AgentRegistry (W : Type) := mkAgentRegistry {
  agents : gmap AgentId AgentEntry;
  proxies : ProxyRegistry.Inner;
  tcp_proxies : TcpProxy.TcpProxyRegistry;
  warm_pool : option WarmPool;
  world : W;
}.
Arguments mkAgentRegistry {W}.
Arguments agents {W}.
Arguments proxies {W}.
Arguments tcp_proxies {W}.
Arguments warm_pool {W}.
Arguments world {W}.

(** Characters a container name keeps; any other character is one underscore. *)
Definition container_char (c : ascii) : bool :=
  is_ascii_alphanumeric c || Ascii.eqb c "_" || Ascii.eqb c "." || Ascii.eqb c "-".

Fixpoint sanitize_name (s : string) : string :=
  match s with
  | EmptyString => EmptyString
  | String c s' =>
      if container_char c then String c (sanitize_name s')
      else if is_continuation c then sanitize_name s'
      else String "_" (sanitize_name s')
  end.

(* @src crates/nexal-gateway/src/registry.rs derive_container_name *)
Definition derive_container_name (d : SpawnDefaults) (name : string) : string :=
  sd_container_name_prefix d +:+ sanitize_name name.

Section registry.
Context {W : Type} {HB : ContainerBackend W} {HL : AgentLink W}.
Context (d : SpawnDefaults).

Abbreviation Reg := (AgentRegistry W).

(** The same registry with another world, pool or agent map. *)
Definition with_world (w : W) (r : Reg) : Reg :=
  mkAgentRegistry (agents r) (proxies r) (tcp_proxies r) (warm_pool r) w.
Definition with_agents (m : gmap AgentId AgentEntry) (r : Reg) : Reg :=
  mkAgentRegistry m (proxies r) (tcp_proxies r) (warm_pool r) (world r).
Definition with_pool (p : option WarmPool) (r : Reg) : Reg :=
  mkAgentRegistry (agents r) (proxies r) (tcp_proxies r) p (world r).
Definition with_proxies (x : ProxyRegistry.Inner) (r : Reg) : Reg :=
  mkAgentRegistry (agents r) x (tcp_proxies r) (warm_pool r) (world r).
Definition with_tcp (x : TcpProxy.TcpProxyRegistry) (r : Reg) : Reg :=
  mkAgentRegistry (agents r) (proxies r) x (warm_pool r) (world r).

(* @src crates/nexal-gateway/src/registry.rs AgentRegistry::new *)
Definition AgentRegistry_new (pool : option WarmPool) (w : W) : Reg :=
  mkAgentRegistry ∅ ProxyRegistry.ProxyRegistry_new TcpProxy.TcpProxyRegistry_new pool w.

(** [agent_id] is the fresh UUID, [now] the clock in milliseconds. *)
(* @src crates/nexal-gateway/src/registry.rs dial_and_register *)
Definition dial_and_register (agent_id : AgentId) (now : Z) (handle : ContainerHandle) (r : Reg)
    : Reg * result AgentEntry RegistryError :=
  match link_connect (ch_url handle) ("nexal-gateway/" +:+ agent_id) (world r) with
  | (w, Err e) => (with_world w r, Err (RAgentConn e))
  | (w, Ok conn) =>
      let entry := mkAgentEntry agent_id (ch_name handle) now conn (ch_port_map handle) in
      (with_agents (<[agent_id := entry]> (agents r)) (with_world w r), Ok entry)
  end.

(** The warm container a spawn would be given. *)
(* @src crates/nexal-gateway/src/registry.rs spawn "if image.is_none()" .. "if let Some(handle) = pool.take().await" *)
Definition take_warm (image : option string) (extra_ports : list Z) (r : Reg)
    : option (Reg * ContainerHandle) :=
  if bool_decide (image = None) && bool_decide (extra_ports = []) then
    p ← warm_pool r;
    match pool_take p with
    | (p', Some h) => Some (with_pool (Some p') r, h)
    | (_, None) => None
    end
  else None.

(* @src crates/nexal-gateway/src/registry.rs spawn "let spec = ContainerSpec {" .. "};" *)
Definition spawn_spec (name : string) (image : option string) (env labels : gmap string string)
    (extra_ports : list Z) : ContainerSpec :=
  mkContainerSpec (derive_container_name d name) (default (sd_image d) image) env labels
    (sd_agent_bin d) (sd_memory d) (sd_cpus d) (sd_pids_limit d) (sd_network d)
    (sd_workspace_volume d) extra_ports true.

(* @src crates/nexal-gateway/src/registry.rs spawn *)
Definition spawn (agent_id : AgentId) (now : Z) (name : string) (image : option string)
    (env labels : gmap string string) (extra_ports : list Z) (r : Reg)
    : Reg * result AgentEntry RegistryError :=
  match take_warm image extra_ports r with
  | Some (r, handle) => dial_and_register agent_id now handle r
  | None =>
      match ensure (spawn_spec name image env labels extra_ports) (world r) with
      | (w, Err e) => (with_world w r, Err (RBackend e))
      | (w, Ok handle) => dial_and_register agent_id now handle (with_world w r)
      end
  end.

(* @src crates/nexal-gateway/src/registry.rs attach "ContainerSpec {" .. "})" *)
Definition attach_spec (container_name : string) : ContainerSpec :=
  mkContainerSpec container_name (sd_image d) ∅ ∅ (sd_agent_bin d) (sd_memory d) (sd_cpus d)
    (sd_pids_limit d) (sd_network d) (sd_workspace_volume d) [] true.

(* @src crates/nexal-gateway/src/registry.rs attach *)
Definition attach (agent_id : AgentId) (now : Z) (container_name : string) (r : Reg)
    : Reg * result AgentEntry RegistryError :=
  match container_exists container_name (world r) with
  | (w, Err e) => (with_world w r, Err (RBackend e))
  | (w, Ok false) => (with_world w r, Err (UnknownContainer container_name))
  | (w, Ok true) =>
      match ensure (attach_spec container_name) w with
      | (w, Err e) => (with_world w r, Err (RBackend e))
      | (w, Ok _) =>
          match container_url container_name w with
          | (w, Err e) => (with_world w r, Err (RBackend e))
          | (w, Ok url) =>
              dial_and_register agent_id now (mkContainerHandle container_name url ∅)
                (with_world w r)
          end
      end
  end.

(* @src crates/nexal-gateway/src/registry.rs detach *)
Definition detach (agent_id : AgentId) (r : Reg) : Reg * result unit RegistryError :=
  match agents r !! agent_id with
  | Some entry =>
      (with_world (link_close (ae_conn entry) (world r))
         (with_agents (delete agent_id (agents r)) r), Ok tt)
  | None => (r, Err (UnknownAgent agent_id))
  end.

(* @src crates/nexal-gateway/src/registry.rs kill *)
Definition kill (agent_id : AgentId) (r : Reg) : Reg * result unit RegistryError :=
  let entry := agents r !! agent_id in
  let r := with_agents (delete agent_id (agents r)) r in
  let r := with_proxies (ProxyRegistry.cleanup_for_agent agent_id (proxies r)).1 r in
  let r := with_tcp (TcpProxy.tcp_cleanup_for_agent agent_id (tcp_proxies r)).1 r in
  match entry with
  | Some entry =>
      let w := link_close (ae_conn entry) (world r) in
      match destroy (ae_container_name entry) w with
      | (w, Ok _) => (with_world w r, Ok tt)
      | (w, Err e) => (with_world w r, Err (RBackend e))
      end
  | None => (r, Err (UnknownAgent agent_id))
  end.

(* @src crates/nexal-gateway/src/registry.rs AgentRegistry::get *)
Definition registry_get (agent_id : AgentId) (r : Reg) : option AgentEntry := agents r !! agent_id.

(* @src crates/nexal-gateway/src/registry.rs AgentRegistry::list *)
Definition registry_list (r : Reg) : list AgentEntry := (map_to_list (agents r)).*2.

(* @src crates/nexal-gateway/src/registry.rs detach_all *)
Definition detach_all (r : Reg) : Reg :=
  let w := foldl (λ w e, link_close (ae_conn e) w) (world r) (registry_list r) in
  let r := with_world w (with_agents ∅ r) in
  match warm_pool r with
  | Some p => let pw := pool_drain p (world r) in with_world pw.2 (with_pool (Some pw.1) r)
  | None => r
  end.
End registry.

(** * Names *)

Lemma sanitize_name_safe s : string_forallb container_char (sanitize_name s) = true.
Proof.
  induction s as [|c s IH]; [done|]. cbn [sanitize_name].
  destruct (container_char c) eqn:Ec; [cbn; by rewrite Ec|].
  destruct (is_continuation c); [done|]. cbn. done.
Qed.

Lemma sanitize_name_id s : string_forallb container_char s = true → sanitize_name s = s.
Proof.
  induction s as [|c s IH]; [done|]. cbn. intros [-> H]%andb_prop. by rewrite IH.
Qed.

Lemma string_forallb_app p a b :
  string_forallb p (a +:+ b) = string_forallb p a && string_forallb p b.
Proof.
  induction a as [|c a IH]; [done|]. rewrite string_app_cons. cbn [string_forallb].
  by rewrite IH, andb_assoc.
Qed.

(** A container name derived from any requested name uses only letters,
    digits, [_], [.] and [-] after the configured prefix, requested names that
    are already of that form are kept as they are, and names that differ only
    in other characters collide (so that their spawns share one container,
    which the backend keys by name). *)
Theorem container_names_sanitized d :
  (∀ name, ∃ rest, derive_container_name d name = sd_container_name_prefix d +:+ rest ∧
     string_forallb container_char rest = true) ∧
  (∀ name, string_forallb container_char name = true →
     derive_container_name d name = sd_container_name_prefix d +:+ name) ∧
  derive_container_name d "a b" = derive_container_name d "a/b".
Proof.
  split; [|split].
  - intros name. eexists. split; [done|]. apply sanitize_name_safe.
  - intros name H. unfold derive_container_name. by rewrite sanitize_name_id.
  - done.
Qed.

(** * Pool *)

Section pool_facts.
Context {W : Type} {HB : ContainerBackend W}.

(** How many of the next [n] creations succeed. *)
Fixpoint successes (n : nat) (p : WarmPool) (w : W) : nat :=
  match n with
  | O => 0
  | S n' => let r := create_one p w in (if r.2 then 1 else 0) + successes n' r.1.1 r.1.2
  end.

(** One attempt: the counter moves on; a success adds a container. *)
Lemma create_one_spec p w p1 w1 ok :
  create_one p w = (p1, w1, ok) →
  wp_target_size p1 = wp_target_size p ∧ wp_counter p1 = wrap_u64 (wp_counter p + 1)
  ∧ ∃ hs, wp_available p1 = wp_available p ++ hs ∧ length hs = if ok then 1 else 0.
Proof.
  unfold create_one. destruct (ensure _ w) as [w' [h|e]]; intros [= <- <- <-]; cbn;
    (split_and!; [done|done|]); [by exists [h]|]. exists []. by rewrite app_nil_r.
Qed.

(** C40: When topping up the warm pool ends, and with what, nothing being taken
    from it meanwhile: within a number of attempts the loop ends exactly when
    at least as many of them succeed as containers were missing (so with a
    backend that keeps failing it goes on for ever, and with one that fails now
    and then it ends).  It ends as soon as that many have succeeded: the pool
    then has the target number (or those it had, when it had more), the ones
    it had first, and the counter has moved on by one for each attempt, failed
    ones included, so that no two attempts ask for containers of one name until
    the counter wraps around. *)
Theorem replenish_fills_pool p w fuel :
  (0 ≤ wp_counter p < 2 ^ 64)%Z →
  let missing := wp_target_size p - available_count p in
  (is_Some (replenish fuel p w) ↔ missing ≤ successes fuel p w) ∧
  (∀ p' w', replenish fuel p w = Some (p', w') →
     ∃ new k, k ≤ fuel ∧ successes k p w = missing
       ∧ wp_available p' = wp_available p ++ new ∧ length new = missing
       ∧ wp_counter p' = wrap_u64 (wp_counter p + Z.of_nat k)) ∧
  (∀ i j, pool_container_name p i = pool_container_name p j → i = j).
Proof.
  intros Hc missing. unfold missing, available_count. clear missing. split; [|split].
  - clear Hc. revert p w. induction fuel as [|n IH]; intros p w; cbn [replenish successes].
    + case_decide as Hd; (split; [|try lia]); [intros _; lia|by intros _; eexists|by intros []].
    + case_decide as Hd; [split; [intros _; lia|by intros _; eexists]|].
      destruct (create_one p w) as [[p1 w1] ok] eqn:E. cbn [fst snd].
      apply create_one_spec in E as (Ht & _ & hs & Ha & Hl).
      rewrite (IH p1 w1), Ht, Ha, length_app. destruct ok; lia.
  - revert p w Hc. induction fuel as [|n IH]; intros p w Hc p' w'; cbn [replenish].
    + case_decide as Hd; [|done]. intros [= <- <-]. exists [], 0. cbn [successes length].
      rewrite app_nil_r, Z.add_0_r, wrap_u64_small by done. split_and!; try done; lia.
    + case_decide as Hd.
      { intros [= <- <-]. exists [], 0. cbn [successes length].
        rewrite app_nil_r, Z.add_0_r, wrap_u64_small by done. split_and!; try done; lia. }
      destruct (create_one p w) as [[p1 w1] ok] eqn:E. cbn [fst snd]. intros Hr.
      pose proof (create_one_spec _ _ _ _ _ E) as (Ht & Hc1 & hs & Ha & Hl).
      destruct (IH p1 w1) with (p' := p') (w' := w') as (new & k & Hk & Hs & Hn & Hln & Hcnt);
        [rewrite Hc1; apply wrap_u64_range|done|].
      exists (hs ++ new), (S k). rewrite Ht, Ha, length_app in Hs, Hln. cbn [successes]. rewrite E.
      cbn [fst snd]. rewrite Hs, Hn, Ha, <- app_assoc, length_app, Hl.
      split_and!; [lia|destruct ok; lia|done|destruct ok; lia|].
      rewrite Hcnt, Hc1. unfold wrap_u64. rewrite Zplus_mod_idemp_l. f_equal. lia.
  - intros i j H. unfold pool_container_name in H. do 2 apply string_app_inj_l in H. by apply (inj pretty).
Qed.
End pool_facts.

(** * Agents and their connections *)

Section agent_facts.
Context {W : Type} {HB : ContainerBackend W} {HL : AgentLink W}.
Context (d : SpawnDefaults).

(** The connections open in a world, and what connecting, closing and the
    backend do to them.  A connect that fails may leave a connection open: when
    the socket was opened and the handshake over it fails, [AgentConn::connect]
    returns the error and drops the [AgentConn] it made, whose tasks hold the
    socket; only [close] ends them. *)
Context (open : W → gset nat).

Record link_laws : Prop := {
  law_connect_ok : ∀ url n w w' l,
    link_connect url n w = (w', Ok l) → l ∉ open w ∧ open w' = {[l]} ∪ open w;
  law_connect_err : ∀ url n w w' e, link_connect url n w = (w', Err e) →
    open w' = open w ∨ ∃ l, l ∉ open w ∧ open w' = {[l]} ∪ open w;
  law_invoke : ∀ l m p w, open (link_invoke l m p w).1 = open w;
  law_close : ∀ l w, open (link_close l w) = open w ∖ {[l]};
  law_ensure : ∀ s w, open (ensure s w).1 = open w;
  law_destroy : ∀ n w, open (destroy n w).1 = open w;
  law_exists : ∀ n w, open (container_exists n w).1 = open w;
  law_url : ∀ n w, open (container_url n w).1 = open w;
}.

(** Spawning or attaching reached an agent and could not connect to it. *)
Definition dial_failed {A} (r : result A RegistryError) : nat :=
  match r with Err (RAgentConn _) => 1 | _ => 0 end.

(** The operations sessions and the shutdown path perform; UUIDs are fresh.  The
    number says how many dials failed. *)
Inductive reg_step : nat → AgentRegistry W → AgentRegistry W → Prop :=
  | rs_spawn id now name image env labels ports r :
      agents r !! id = None →
      reg_step (dial_failed (spawn d id now name image env labels ports r).2) r
        (spawn d id now name image env labels ports r).1
  | rs_attach id now name r :
      agents r !! id = None →
      reg_step (dial_failed (attach d id now name r).2) r (attach d id now name r).1
  | rs_detach id r : reg_step 0 r (detach id r).1
  | rs_kill id r : reg_step 0 r (kill id r).1
  | rs_detach_all r : reg_step 0 r (detach_all r)
  | rs_pool p r : warm_pool r = Some p →
      reg_step 0 r (with_world (create_one p (world r)).1.2
                    (with_pool (Some (create_one p (world r)).1.1) r))
  | rs_invoke l m p r : reg_step 0 r (with_world (link_invoke l m p (world r)).1 r).

Inductive reg_steps : nat → AgentRegistry W → AgentRegistry W → Prop :=
  | rss_refl r : reg_steps 0 r r
  | rss_step n k r1 r2 r3 : reg_steps n r1 r2 → reg_step k r2 r3 → reg_steps (n + k) r1 r3.

(** [left] are the open connections that no entry has. *)
Record links_ok (m : gmap AgentId AgentEntry) (opened left : gset nat) : Prop := {
  lk_open : ∀ l, l ∈ opened ↔ l ∈ left ∨ ∃ id e, m !! id = Some e ∧ ae_conn e = l;
  lk_left : ∀ id e, m !! id = Some e → ae_conn e ∉ left;
  lk_inj : ∀ id1 id2 e1 e2, m !! id1 = Some e1 → m !! id2 = Some e2 →
    ae_conn e1 = ae_conn e2 → id1 = id2;
  lk_id : ∀ id e, m !! id = Some e → ae_agent_id e = id;
}.

Lemma links_ok_none left : links_ok ∅ left left.
Proof.
  split.
  - intros l. split; [by left|]. intros [H|(id & e & H & _)]; [done|]. by rewrite lookup_empty in H.
  - intros id e H. by rewrite lookup_empty in H.
  - intros id1 id2 e1 e2 H. by rewrite lookup_empty in H.
  - intros id e H. by rewrite lookup_empty in H.
Qed.

Lemma links_ok_insert m opened left e :
  links_ok m opened left → ae_conn e ∉ opened →
  m !! ae_agent_id e = None →
  links_ok (<[ae_agent_id e := e]> m) ({[ae_conn e]} ∪ opened) left.
Proof.
  intros [Ho Hl Hi Hid] Hnew Hfresh. split.
  - intros l. rewrite elem_of_union, elem_of_singleton, Ho. split.
    + intros [->|[H|(id & e' & H & <-)]]; [right|by left|right].
      * exists (ae_agent_id e), e. by rewrite lookup_insert_eq.
      * exists id, e'. rewrite lookup_insert_ne; [done|]. intros <-. by rewrite Hfresh in H.
    + intros [H|(id & e' & [[<- <-]|[_ H]]%lookup_insert_Some & <-)]; [by right; left|by left|].
      right. right. by exists id, e'.
  - intros id e' [[<- <-]|[_ H]]%lookup_insert_Some; [|by eapply Hl]. intros H. apply Hnew, Ho. by left.
  - intros id1 id2 e1 e2 [[<- <-]|[Hn1 H1]]%lookup_insert_Some
      [[<- <-]|[Hn2 H2]]%lookup_insert_Some Hc; [done| | |by eapply Hi].
    + destruct Hnew. apply Ho. right. exists id2, e2. by rewrite Hc.
    + destruct Hnew. apply Ho. right. exists id1, e1. by rewrite <-Hc.
  - intros id e' [[<- <-]|[_ H]]%lookup_insert_Some; [done|by apply Hid].
Qed.

Lemma links_ok_delete m opened left id e :
  links_ok m opened left → m !! id = Some e → links_ok (delete id m) (opened ∖ {[ae_conn e]}) left.
Proof.
  intros [Ho Hl Hi Hid] He. split.
  - intros l. rewrite elem_of_difference, elem_of_singleton, Ho. split.
    + intros [[H|(id' & e' & H & <-)] Hne]; [by left|right]. exists id', e'. rewrite lookup_delete_ne; [done|].
      intros <-. rewrite He in H. by injection H as ->.
    + intros [H|(id' & e' & [Hne H]%lookup_delete_Some & <-)].
      * split; [by left|]. intros ->. by eapply Hl.
      * split; [right; by exists id', e'|]. intros Hc. apply Hne. by eapply Hi.
  - intros id' e' [_ H]%lookup_delete_Some. by eapply Hl.
  - intros id1 id2 e1 e2 [_ H1]%lookup_delete_Some [_ H2]%lookup_delete_Some. by apply Hi.
  - intros id' e' [_ H]%lookup_delete_Some. by apply Hid.
Qed.

(** A connection that stays without an entry. *)
Lemma links_ok_leak m opened left l :
  links_ok m opened left → l ∉ opened → links_ok m ({[l]} ∪ opened) ({[l]} ∪ left).
Proof.
  intros [Ho Hl Hi Hid] Hnew. split; [| |done|done].
  - intros l'. rewrite !elem_of_union, Ho. tauto.
  - intros id e He. rewrite elem_of_union, elem_of_singleton. intros [Hc|Hc]; [|by eapply Hl].
    apply Hnew, Ho. right. by exists id, e.
Qed.

(** No more are left than dials failed. *)
Definition reg_ok (n : nat) (r : AgentRegistry W) : Prop :=
  ∃ left, size left ≤ n ∧ links_ok (agents r) (open (world r)) left.

Lemma reg_ok_world n (r r' : AgentRegistry W) :
  reg_ok n r → agents r' = agents r → open (world r') = open (world r) → reg_ok n r'.
Proof. unfold reg_ok. by intros H -> ->. Qed.

Context (laws : link_laws).

Lemma dial_ok n id now h r :
  reg_ok n r → agents r !! id = None →
  reg_ok (n + dial_failed (dial_and_register id now h r).2) (dial_and_register id now h r).1.
Proof.
  intros (left & Hsize & Hr) Hid. unfold dial_and_register.
  destruct (link_connect _ _ (world r)) as [w [l|e]] eqn:E; unfold reg_ok; cbn.
  - exists left. split; [lia|]. destruct (law_connect_ok laws _ _ _ _ _ E) as [Hl ->].
    by apply (links_ok_insert _ _ _ (mkAgentEntry id (ch_name h) now l (ch_port_map h))).
  - destruct (law_connect_err laws _ _ _ _ _ E) as [->|(l & Hl & ->)]; [exists left; split; [lia|done]|].
    exists ({[l]} ∪ left). split; [|by apply links_ok_leak].
    rewrite size_union; [rewrite size_singleton; lia|].
    apply disjoint_singleton_l. intros Hin. apply Hl, (lk_open _ _ _ Hr). by left.
Qed.

Lemma close_all_open l w :
  open (foldl (λ w e, link_close (ae_conn e) w) w l) = open w ∖ list_to_set (map ae_conn l).
Proof.
  revert w. induction l as [|e l IH]; intros w; cbn [foldl map list_to_set].
  - by rewrite difference_empty_L.
  - rewrite IH, (law_close laws). by rewrite difference_difference_l_L.
Qed.

Lemma drain_open hs w : open (foldl (λ w h, (destroy (ch_name h) w).1) w hs) = open w.
Proof. revert w. induction hs as [|h hs IH]; intros w; cbn; [done|]. by rewrite IH, (law_destroy laws). Qed.

Lemma detach_all_ok n r : reg_ok n r → reg_ok n (detach_all r).
Proof.
  intros (left & Hsize & [Ho Hl Hi Hid]).
  assert (open (foldl (λ w e, link_close (ae_conn e) w) (world r) (registry_list r)) = left) as He.
  { rewrite close_all_open. apply set_eq. intros l.
    rewrite elem_of_difference, elem_of_list_to_set, Ho. unfold registry_list. split.
    - intros [[H|(id & e & H & <-)] Hn]; [done|]. destruct Hn. apply list_elem_of_fmap. exists e. split; [done|].
      apply list_elem_of_fmap. exists (id, e). split; [done|]. by apply elem_of_map_to_list.
    - intros H. split; [by left|]. intros (e & -> & ([id e'] & -> & Hin)%list_elem_of_fmap)%list_elem_of_fmap.
      apply elem_of_map_to_list in Hin. by eapply Hl. }
  unfold detach_all. destruct (warm_pool _); unfold reg_ok; cbn; exists left; (split; [done|]).
  - rewrite drain_open, He. apply links_ok_none.
  - rewrite He. apply links_ok_none.
Qed.

Lemma take_warm_same image ports (r r' : AgentRegistry W) h :
  take_warm image ports r = Some (r', h) → agents r' = agents r ∧ world r' = world r.
Proof.
  unfold take_warm. destruct (_ && _); [|done].
  destruct (warm_pool r) as [p|]; [|done]. cbn.
  destruct (pool_take p) as [p' [h'|]]; [|done]. by intros [= <- <-].
Qed.

Lemma spawn_ok n id now name image env labels ports r :
  reg_ok n r → agents r !! id = None →
  reg_ok (n + dial_failed (spawn d id now name image env labels ports r).2)
    (spawn d id now name image env labels ports r).1.
Proof.
  intros Hr Hid. unfold spawn. destruct (take_warm image ports r) as [[r1 h]|] eqn:Et.
  - apply take_warm_same in Et as [E1 E2]. apply dial_ok; [|by rewrite E1].
    eapply reg_ok_world; [exact Hr|done|by rewrite E2].
  - pose proof (law_ensure laws (spawn_spec d name image env labels ports) (world r)) as Ho.
    destruct (ensure _ _) as [w [h|e]]; cbn [fst] in Ho |- *.
    + apply dial_ok; [|done]. by eapply reg_ok_world.
    + rewrite Nat.add_0_r. by eapply reg_ok_world.
Qed.

Lemma attach_ok n id now name r :
  reg_ok n r → agents r !! id = None →
  reg_ok (n + dial_failed (attach d id now name r).2) (attach d id now name r).1.
Proof.
  intros Hr Hid. unfold attach. pose proof (law_exists laws name (world r)) as H1.
  destruct (container_exists _ _) as [w1 [[|]|e]]; cbn [fst snd dial_failed] in *;
    rewrite ?Nat.add_0_r; [|by eapply reg_ok_world..].
  pose proof (law_ensure laws (attach_spec d name) w1) as H2.
  destruct (ensure _ _) as [w2 [h|e]]; cbn [fst snd dial_failed] in *;
    rewrite ?Nat.add_0_r; [|by eapply reg_ok_world; [done|done|cbn; congruence]].
  pose proof (law_url laws name w2) as H3.
  destruct (container_url _ _) as [w3 [url|e]]; cbn [fst snd dial_failed] in *;
    rewrite ?Nat.add_0_r; [|by eapply reg_ok_world; [done|done|cbn; congruence]].
  apply dial_ok; [|done]. eapply reg_ok_world; [done|done|cbn; congruence].
Qed.

Lemma reg_step_ok n k r r' : reg_ok n r → reg_step k r r' → reg_ok (n + k) r'.
Proof.
  intros Hr. destruct 1 as [id now name image env labels ports r Hid|id now name r Hid|id r|id r|r|p r Hp|l m p r];
    [by apply spawn_ok|by apply attach_ok|rewrite Nat.add_0_r..].
  - unfold detach. destruct (agents r !! id) as [e|] eqn:E; [|done].
    destruct Hr as (left & Hs & Hr). exists left. split; [done|].
    cbn. rewrite (law_close laws). by apply links_ok_delete.
  - destruct Hr as (left & Hs & Hr). exists left. split; [done|].
    unfold kill. destruct (agents r !! id) as [e|] eqn:E.
    + pose proof (law_destroy laws (ae_container_name e) (link_close (ae_conn e) (world r))) as Ho.
      rewrite (law_close laws) in Ho. cbn [world with_tcp with_proxies with_agents].
      destruct (destroy _ _) as [w [|er]]; cbn in *; rewrite Ho; by apply links_ok_delete.
    + cbn. by rewrite delete_id.
  - by apply detach_all_ok.
  - eapply reg_ok_world; [exact Hr|done|]. unfold create_one. cbn.
    pose proof (law_ensure laws (pool_spec (set_counter (wrap_u64 (wp_counter p + 1)) p)
      (wp_counter p)) (world r)) as Ho.
    destruct (ensure _ _) as [w [h|e]]; cbn in *; by rewrite Ho.
  - eapply reg_ok_world; [exact Hr|done|]. apply (law_invoke laws).
Qed.


End agent_facts.

(** * Killing *)

(** What removing keys one by one from a TCP registry leaves. *)
Lemma tcp_cleanup_lookup a s k :
  TcpProxy.inner (TcpProxy.tcp_cleanup_for_agent a s).1 !! k
  = if decide (k.1 = a) then None else TcpProxy.inner s !! k.
Proof.
  unfold TcpProxy.tcp_cleanup_for_agent. cbn [fst].
  set (keys := filter _ _).
  assert (∀ l s, TcpProxy.inner (foldl (λ s k, (TcpProxy.remove_cancel k s).1) s l) !! k
                 = if decide (k ∈ l) then None else TcpProxy.inner s !! k) as Hfold.
  { induction l as [|k' l IH]; intros s'; cbn [foldl].
    - by rewrite decide_False by apply not_elem_of_nil.
    - rewrite IH. destruct (decide (k ∈ l)) as [Hin|Hin].
      + rewrite decide_True; [done|by apply list_elem_of_further].
      + destruct (decide (k = k')) as [->|Hne].
        * rewrite decide_True by apply list_elem_of_here. apply TcpProxy.remove_cancel_gone.
        * rewrite decide_False; [|by intros [->|?]%elem_of_cons].
          unfold TcpProxy.remove_cancel. destruct (TcpProxy.inner s' !! k'); [|done].
          cbn. by rewrite lookup_delete_ne. }
  rewrite Hfold. destruct (decide (k ∈ keys)) as [Hin|Hin].
  - apply list_elem_of_filter in Hin as [Ha _]. by rewrite decide_True.
  - destruct (decide (k.1 = a)) as [Ha|Ha]; [|done].
    destruct (TcpProxy.inner s !! k) as [e|] eqn:E; [|done].
    destruct Hin. apply list_elem_of_filter. split; [done|].
    apply list_elem_of_fmap. exists (k, e). split; [done|]. by apply elem_of_map_to_list.
Qed.

Lemma http_cleanup_lookup a x m t e :
  ProxyRegistry.related x m →
  ProxyRegistry.lookup t (ProxyRegistry.cleanup_for_agent a x).1 = Some e ↔
  ProxyRegistry.lookup t x = Some e ∧ ProxyRegistry.px_agent_id e ≠ a.
Proof.
  intros Hr. destruct (ProxyRegistry.related_cleanup x m a Hr) as [(_ & Hb' & _) _].
  destruct Hr as (_ & Hb & _). unfold ProxyRegistry.lookup. rewrite Hb', Hb.
  rewrite map_lookup_filter_Some. cbn. naive_solver.
Qed.

Section kill_facts.
Context {W : Type} {HB : ContainerBackend W} {HL : AgentLink W}.

(** [kill] on every path: the id leaves the registry and no other does; all
    its HTTP tokens stop resolving and its TCP registrations are gone while
    those of other agents stay; for a known agent the connection is closed,
    then the container destroyed, and the result is the backend's; for an
    unknown id the cleanup still happens and [UnknownAgent] is returned
    without touching the backend. *)
Theorem kill_functional id (r : AgentRegistry W) m :
  ProxyRegistry.related (proxies r) m →
  let r' := (kill id r).1 in
  agents r' = delete id (agents r) ∧
  (∀ t e, ProxyRegistry.lookup t (proxies r') = Some e ↔
          ProxyRegistry.lookup t (proxies r) = Some e ∧ ProxyRegistry.px_agent_id e ≠ id) ∧
  (∀ k, TcpProxy.inner (tcp_proxies r') !! k
        = if decide (k.1 = id) then None else TcpProxy.inner (tcp_proxies r) !! k) ∧
  match agents r !! id with
  | None => (kill id r).2 = Err (UnknownAgent id) ∧ world r' = world r
  | Some e =>
      let wd := destroy (ae_container_name e) (link_close (ae_conn e) (world r)) in
      world r' = wd.1 ∧ (kill id r).2 = map_err RBackend wd.2
  end.
Proof.
  intros Hr. unfold kill.
  destruct (agents r !! id) as [e|] eqn:E; cbn [world with_tcp with_proxies with_agents].
  - destruct (destroy _ _) as [w [[]|er]]; cbn; (split; [done|]); (split; [|split; [|done]]);
      intros; first [by eapply http_cleanup_lookup|apply tcp_cleanup_lookup].
  - cbn. split; [done|]. split; [intros; by eapply http_cleanup_lookup|].
    split; [intros; apply tcp_cleanup_lookup|done].
Qed.

(** * Spawning *)

(** A spawn that is served from the warm pool ignores what was asked for:
    with the default image and no extra ports, its whole effect and result
    (the container, its name, its environment, its labels) are the same
    whatever name, environment and labels the frontend gave. *)
Theorem warm_spawn_ignores_request d id now name name' env env' labels labels'
    (r : AgentRegistry W) p :
  warm_pool r = Some p → wp_available p ≠ [] →
  spawn d id now name None env labels [] r = spawn d id now name' None env' labels' [] r.
Proof.
  intros Hp Ha. unfold spawn, take_warm. rewrite Hp. cbn.
  unfold pool_take. destruct (last (wp_available p)) eqn:E; [done|].
  by apply last_None in E.
Qed.

(** A container is lost when its agent cannot be dialled: a warm spawn
    takes the last pooled container out of the pool, and if connecting fails
    it returns the connect error with that container neither in the pool nor
    registered, and the backend is not asked to destroy it. *)
Theorem failed_dial_loses_container d id now name env labels (r : AgentRegistry W) p hs h w e :
  warm_pool r = Some p → wp_available p = hs ++ [h] →
  link_connect (ch_url h) ("nexal-gateway/" +:+ id) (world r) = (w, Err e) →
  spawn d id now name None env labels [] r =
    (mkAgentRegistry (agents r) (proxies r) (tcp_proxies r) (Some (set_available hs p)) w,
     Err (RAgentConn e)).
Proof.
  intros Hp Ha Hc. unfold spawn, take_warm. rewrite Hp. cbn.
  unfold pool_take. rewrite Ha, last_snoc, removelast_last.
  unfold dial_and_register. cbn. by rewrite Hc.
Qed.
End kill_facts.

(** * Witnesses: a world that numbers connections *)

Module SampleWorld.
(** A dial fails before the socket is opened or in the handshake. *)
Inductive dialing := Answers | Refuses | Breaks.

Record world_t := mkWorld { opened : gset nat; next : nat; dial : string → dialing }.

#[local] Instance backend : ContainerBackend world_t := {|
  ensure s w := (w, Ok (mkContainerHandle (cs_name s) "ws://h" ∅));
  destroy n w := (w, Ok tt);
  container_exists n w := (w, Ok true);
  container_url n w := (w, Ok "ws://h");
|}.

(** Connection numbers are never reused. *)
#[local] Instance link : AgentLink world_t := {|
  link_connect url n w :=
    if decide (next w ∈ opened w) then (w, Err Closed)
    else let w' := mkWorld ({[next w]} ∪ opened w) (S (next w)) (dial w) in
         match dial w n with
         | Refuses => (w, Err (Connect "refused"))
         | Breaks => (w', Err Closed)
         | Answers => (w', Ok (next w))
         end;
  link_invoke l m p w := (w, Ok VNil);
  link_close l w := mkWorld (opened w ∖ {[l]}) (next w) (dial w);
|}.

Lemma laws : link_laws opened.
Proof.
  split; cbn; try done.
  - intros url n w w' l H. destruct (decide (next w ∈ opened w)); [done|].
    destruct (dial w n); try done. by injection H as <- <-.
  - intros url n w w' e H. destruct (decide (next w ∈ opened w)); [left; by injection H as <- _|].
    destruct (dial w n); try done; [left; by injection H as <- _|right].
    exists (next w). by injection H as <- _.
Qed.

Definition defaults : SpawnDefaults :=
  mkSpawnDefaults "img" "/bin/nexal-agent" None None None true "nexal-worker-" None.

Definition pool0 : WarmPool := WarmPool_new (mkWarmPoolConfig 2 "img") "nexal-worker-" "/b" None None None true.

(** The agent of the second container hangs up during the handshake. *)
Definition w0 : world_t :=
  mkWorld ∅ 0 (λ name, if decide (name = "nexal-gateway/id2") then Breaks else Answers).

Definition reg0 : AgentRegistry world_t := AgentRegistry_new None w0.

Definition reg1 : AgentRegistry world_t := (spawn defaults "id1" 0 "one" None ∅ ∅ [] reg0).1.

Definition reg2 : AgentRegistry world_t := (spawn defaults "id2" 0 "two" None ∅ ∅ [] reg1).1.

Definition warm (fails : dialing) : AgentRegistry world_t :=
  AgentRegistry_new (Some (set_available [mkContainerHandle "nexal-worker-pool-0" "ws://p" ∅] pool0))
    (mkWorld ∅ 0 (λ _, fails)).

(** A backend whose first container fails. *)
#[local] Instance flaky : ContainerBackend nat := {|
  ensure s w := (S w, if decide (w = 0) then Err (Cli "no space") else Ok (mkContainerHandle (cs_name s) "ws://h" ∅));
  destroy n w := (w, Ok tt);
  container_exists n w := (w, Ok true);
  container_url n w := (w, Ok "ws://h");
|}.
End SampleWorld.

(** Two are missing; the first of three attempts fails. *)
Lemma replenish_fills_pool_witness :
  is_Some (replenish (HB := SampleWorld.flaky) 3 SampleWorld.pool0 0) ∧
  ¬ is_Some (replenish (HB := SampleWorld.flaky) 2 SampleWorld.pool0 0).
Proof.
  assert (0 ≤ wp_counter SampleWorld.pool0 < 2 ^ 64)%Z as Hc by (by vm_compute).
  split; [apply (replenish_fills_pool (HB := SampleWorld.flaky) SampleWorld.pool0 0 3 Hc); vm_compute; lia|].
  intros H. apply (replenish_fills_pool (HB := SampleWorld.flaky) SampleWorld.pool0 0 2 Hc) in H.
  vm_compute in H. lia.
Defined.


Lemma kill_functional_witness :
  let r' := (kill (HB := SampleWorld.backend) (HL := SampleWorld.link) "id1" SampleWorld.reg1).1 in
  agents r' = delete "id1" (agents SampleWorld.reg1) ∧
  (∀ t e, ProxyRegistry.lookup t (proxies r') = Some e ↔
          ProxyRegistry.lookup t (proxies SampleWorld.reg1) = Some e ∧
          ProxyRegistry.px_agent_id e ≠ "id1") ∧
  (∀ k, TcpProxy.inner (tcp_proxies r') !! k
        = if decide (k.1 = "id1") then None
          else TcpProxy.inner (tcp_proxies SampleWorld.reg1) !! k) ∧
  match agents SampleWorld.reg1 !! "id1" with
  | None => (kill (HB := SampleWorld.backend) (HL := SampleWorld.link) "id1" SampleWorld.reg1).2
            = Err (UnknownAgent "id1") ∧ world r' = world SampleWorld.reg1
  | Some e =>
      let wd := destroy (ContainerBackend := SampleWorld.backend) (ae_container_name e)
        (link_close (AgentLink := SampleWorld.link) (ae_conn e) (world SampleWorld.reg1)) in
      world r' = wd.1 ∧
      (kill (HB := SampleWorld.backend) (HL := SampleWorld.link) "id1" SampleWorld.reg1).2
      = map_err RBackend wd.2
  end.
Proof.
  apply (kill_functional (HB := SampleWorld.backend) (HL := SampleWorld.link) "id1"
           SampleWorld.reg1 ∅).
  apply ProxyRegistry.related_new.
Defined.

Lemma warm_spawn_ignores_request_witness :
  spawn (HB := SampleWorld.backend) (HL := SampleWorld.link) SampleWorld.defaults "id" 0 "a" None
    {["K" := "V"]} ∅ [] (SampleWorld.warm SampleWorld.Answers)
  = spawn (HB := SampleWorld.backend) (HL := SampleWorld.link) SampleWorld.defaults "id" 0 "b" None
    ∅ {["l" := "x"]} [] (SampleWorld.warm SampleWorld.Answers).
Proof.
  eapply (warm_spawn_ignores_request (HB := SampleWorld.backend) (HL := SampleWorld.link)).
  - reflexivity.
  - vm_compute. discriminate.
Defined.

Lemma failed_dial_loses_container_witness :
  (spawn (HB := SampleWorld.backend) (HL := SampleWorld.link) SampleWorld.defaults "id" 0 "a" None
    ∅ ∅ [] (SampleWorld.warm SampleWorld.Refuses)).2 = Err (RAgentConn (Connect "refused")).
Proof.
  erewrite (failed_dial_loses_container (HB := SampleWorld.backend) (HL := SampleWorld.link)
    SampleWorld.defaults "id" 0 "a" ∅ ∅ (SampleWorld.warm SampleWorld.Refuses)
    _ [] (mkContainerHandle "nexal-worker-pool-0" "ws://p" ∅)).
  - reflexivity.
  - reflexivity.
  - vm_compute. reflexivity.
  - vm_compute. reflexivity.
Defined.
