(* ===== verification/Containers.v ===== *)
(** The registry as a client of the backend contract: which containers its
    operations touch, and that an agent's container stays until it is killed.

    The theorems hold for every backend that keeps [BackendContract]; the
    podman backend is the instance of the witness. *)
From S2P Require Import Prelude Wire Methods AgentConn Proxy Backend Podman RestApi Sprites Registry.

Section containers.
Context {W : Type} {B : ContainerBackend W} {HL : AgentLink W}.
Context (view : W → gset string) (key : string → string) {C : BackendContract B view key}.
Context (d : SpawnDefaults).

(** Connections to agents make and remove no container. *)
Record links_keep : Prop := {
  lk_connect url n w : view (link_connect url n w).1 = view w;
  lk_invoke l m p w : view (link_invoke l m p w).1 = view w;
  lk_close l w : view (link_close l w) = view w;
}.
Hypothesis HK : links_keep.

(** The containers agents and the warm pool hold. *)
Definition agent_holds (r : AgentRegistry W) (id n : string) : Prop :=
  ∃ e, agents r !! id = Some e ∧ ae_container_name e = n.
Definition pool_names (r : AgentRegistry W) : list string :=
  match warm_pool r with Some p => ch_name <$> wp_available p | None => [] end.
Definition unused (r : AgentRegistry W) (n : string) : Prop :=
  (∀ id, ¬ agent_holds r id n) ∧ n ∉ pool_names r.

(** The operations, under fresh identifiers and for containers nobody holds. *)
Inductive live_step (r : AgentRegistry W) : AgentRegistry W → Prop :=
  | ls_spawn id now name image env labels ports :
      agents r !! id = None → unused r (key (derive_container_name d name)) →
      live_step r (spawn d id now name image env labels ports r).1
  | ls_attach id now c :
      agents r !! id = None → unused r c → unused r (key c) → live_step r (attach d id now c r).1
  | ls_detach id : live_step r (detach id r).1
  | ls_kill id : live_step r (kill id r).1
  | ls_detach_all : live_step r (detach_all r)
  | ls_pool p : warm_pool r = Some p → unused r (key (pool_container_name p (wp_counter p))) →
      live_step r (with_world (create_one p (world r)).1.2
                     (with_pool (Some (create_one p (world r)).1.1) r))
  | ls_invoke l m p : live_step r (with_world (link_invoke l m p (world r)).1 r).

Record alive (r : AgentRegistry W) : Prop := {
  al_agent id n : agent_holds r id n → n ∈ view (world r);
  al_pool n : n ∈ pool_names r → n ∈ view (world r);
  al_inj id1 id2 n : agent_holds r id1 n → agent_holds r id2 n → id1 = id2;
  al_apart id n : agent_holds r id n → n ∉ pool_names r;
  al_nodup : NoDup (pool_names r);
}.

(** A world that differs in one container nobody holds. *)
Lemma alive_world r w n :
  alive r → unused r n → view w ∖ {[n]} = view (world r) ∖ {[n]} → alive (with_world w r).
Proof.
  intros [H1 H2 H3 H4 H5] [Hu Hp] Hw.
  assert (∀ m, m ≠ n → m ∈ view (world r) → m ∈ view w) as Hin.
  { intros m Hne Hm. assert (m ∈ view w ∖ {[n]}) by (rewrite Hw; set_solver). set_solver. }
  split; try assumption.
  - intros id m Hm. apply Hin; [|by eapply H1]. intros ->. by apply (Hu id).
  - intros m Hm. apply Hin; [|by eapply H2]. by intros ->.
Qed.

Lemma alive_same r w : alive r → view w = view (world r) → alive (with_world w r).
Proof.
  intros [H1 H2 H3 H4 H5] Hw. split; try assumption; cbn [world with_world]; rewrite Hw; assumption.
Qed.

(** Dialling a container that nobody holds yet. *)
Lemma dial_alive id now h r :
  alive r → agents r !! id = None → unused r (ch_name h) → ch_name h ∈ view (world r) →
  alive (dial_and_register id now h r).1.
Proof.
  intros Hr Hid [Hu Hp] Hin. unfold dial_and_register.
  pose proof (lk_connect HK (ch_url h) ("nexal-gateway/" +:+ id) (world r)) as Hv.
  destruct (link_connect _ _ (world r)) as [w [l|e]]; cbn in Hv; cbn [fst]; [|by apply alive_same].
  destruct Hr as [H1 H2 H3 H4 H5].
  assert (∀ i m, agent_holds (with_agents (<[id := mkAgentEntry id (ch_name h) now l (ch_port_map h)]> (agents r))
    (with_world w r)) i m → (i = id ∧ m = ch_name h) ∨ (i ≠ id ∧ agent_holds r i m)) as Hcase.
  { intros i m (e & He & <-). cbn in He. apply lookup_insert_Some in He as [[<- <-]|[Hne He]]; [by left|right].
    split; [done|by exists e]. }
  split; cbn [world with_agents with_world]; try rewrite Hv.
  - intros i m [[-> ->]|[_ Hm]]%Hcase; [done|by eapply H1].
  - exact H2.
  - intros i j m [[-> ->]|[Hi Hm]]%Hcase [[-> E]|[Hj Hm']]%Hcase; try done.
    + by destruct (Hu j).
    + subst m. by destruct (Hu i).
    + by eapply H3.
  - intros i m [[-> ->]|[_ Hm]]%Hcase; [done|by eapply H4].
  - exact H5.
Qed.

Lemma ensure_view s w w' r : ensure s w = (w', r) →
  view w' ∖ {[key (cs_name s)]} = view w ∖ {[key (cs_name s)]}.
Proof. intros E. pose proof (contract_ensure_only s w) as H. by rewrite E in H. Qed.

Lemma spawn_alive id now name image env labels ports r :
  alive r → agents r !! id = None → unused r (key (derive_container_name d name)) →
  alive (spawn d id now name image env labels ports r).1.
Proof.
  intros Hr Hid Hu. unfold spawn. destruct (take_warm image ports r) as [[r1 h]|] eqn:Ew.
  - unfold take_warm in Ew. destruct (_ && _); [|done].
    destruct (warm_pool r) as [p|] eqn:Ep; [|done]. cbn in Ew. unfold pool_take in Ew.
    destruct (last (wp_available p)) as [h0|] eqn:El; [|done]. injection Ew as <- ->.
    destruct (last_Some (wp_available p) h) as [Hl _]. destruct (Hl El) as [l' El'].
    assert (removelast (wp_available p) = l') as Erm by (rewrite El'; apply removelast_last).
    destruct Hr as [H1 H2 H3 H4 H5].
    unfold pool_names in H2, H4, H5. rewrite Ep, El', fmap_app in H2, H4, H5. cbn in H2, H4, H5.
    apply NoDup_app in H5 as (Hnd & Hdis & _). apply dial_alive; [|done| |].
    + split; unfold pool_names, with_pool, set_available; cbn; rewrite ?Erm.
      * exact H1.
      * intros n Hn. apply H2, elem_of_app. by left.
      * exact H3.
      * intros i n Hn Hin. eapply H4; [exact Hn|]. apply elem_of_app. by left.
      * exact Hnd.
    + split; unfold pool_names, with_pool, set_available; cbn; rewrite ?Erm.
      * intros i Hi. apply (H4 i _ Hi), elem_of_app. right. by left.
      * intros Hin. apply (Hdis _ Hin). by left.
    + cbn. apply H2, elem_of_app. right. by left.
  - destruct (ensure _ (world r)) as [w [h|e]] eqn:Ee.
    + pose proof (ensure_view _ _ _ _ Ee) as Hw. apply contract_ensure in Ee as [En Hin]. cbn in *.
      apply dial_alive; [by eapply alive_world|done| |done]. by rewrite En.
    + apply ensure_view in Ee. by eapply alive_world.
Qed.

Lemma attach_alive id now c r :
  alive r → agents r !! id = None → unused r c → unused r (key c) → alive (attach d id now c r).1.
Proof.
  intros Hr Hid Hu Huk. unfold attach.
  pose proof (contract_exists c (world r)) as Hx. pose proof (contract_exists_keeps c (world r)) as Hv.
  destruct (container_exists c (world r)) as [w [[]|e]]; cbn [fst] in Hv; [| by apply alive_same..].
  specialize (Hx _ eq_refl).
  destruct (ensure _ w) as [w1 re] eqn:Ee. pose proof (ensure_view _ _ _ _ Ee) as Hw1. cbn in Hw1.
  rewrite Hv in Hw1.
  assert (alive (with_world w1 r)) as Ha1 by by eapply alive_world.
  destruct re as [h|e]; [|done].
  pose proof (contract_url (view := view) c w1) as Hurl.
  destruct (container_url c w1) as [w2 [url|e]]; cbn in Hurl.
  + apply dial_alive; [|done|done|].
    * eapply alive_world; [done|exact Huk|]. by rewrite Hurl.
    * cbn. rewrite Hurl. apply contract_ensure in Ee as [En Hin]. cbn in En.
      destruct (decide (c = key c)) as [E|Hne]; [rewrite E; by rewrite <-En|].
      assert (c ∈ view w1 ∖ {[key c]}); [|set_solver]. rewrite Hw1. set_solver.
  + eapply alive_world; [done|exact Huk|]. by rewrite Hurl.
Qed.

(** Fewer agents, in a world that keeps what they hold. *)
Lemma alive_fewer r r' :
  alive r → warm_pool r' = warm_pool r → (∀ i n, agent_holds r' i n → agent_holds r i n) →
  (∀ n, (∃ i, agent_holds r' i n) ∨ n ∈ pool_names r → n ∈ view (world r) → n ∈ view (world r')) → alive r'.
Proof.
  intros [H1 H2 H3 H4 H5] Hp Ha Hv. assert (pool_names r' = pool_names r) as E by (unfold pool_names; by rewrite Hp).
  split; rewrite ?E.
  - intros i n Hi. apply Hv; [left; by exists i|]. by eapply H1, Ha.
  - intros n Hn. apply Hv; [by right|]. by apply H2.
  - intros i j n Hi Hj. eapply H3; by apply Ha.
  - intros i n Hi. by eapply H4, Ha.
  - done.
Qed.

Lemma holds_delete r id i n (r' : AgentRegistry W) :
  agents r' = delete id (agents r) → agent_holds r' i n → i ≠ id ∧ agent_holds r i n.
Proof.
  intros E (e & He & Hn). rewrite E in He. apply lookup_delete_Some in He as [Hne He].
  split; [congruence|by exists e].
Qed.

Lemma detach_alive id r : alive r → alive (detach id r).1.
Proof.
  intros Hr. unfold detach. destruct (agents r !! id) as [e|] eqn:E; [|done]. cbn [fst].
  eapply alive_fewer; [exact Hr|done| |].
  - intros i n Hi. eapply holds_delete in Hi as [_ Hi]; [exact Hi|done].
  - intros n _. cbn. by rewrite (lk_close HK).
Qed.

Lemma kill_alive id r : alive r → alive (kill id r).1.
Proof.
  intros Hr. unfold kill. destruct (agents r !! id) as [e|] eqn:E.
  - set (w := link_close (ae_conn e) _).
    pose proof (contract_destroy_only (ae_container_name e) w) as Hd.
    assert (view w = view (world r)) as Hw by apply (lk_close HK).
    assert (∀ r', warm_pool r' = warm_pool r → agents r' = delete id (agents r) →
      world r' = (destroy (ae_container_name e) w).1 → alive r') as Hgo.
    { intros r' Hp Ha Hw'. eapply alive_fewer; [exact Hr|done| |].
      - intros i n Hi. by eapply holds_delete in Hi as [_ ?].
      - intros n Hn Hin. rewrite Hw'.
        assert (n ≠ ae_container_name e) as Hne.
        { intros ->. assert (agent_holds r id (ae_container_name e)) as Hh by by exists e.
          destruct Hn as [[i Hi]|Hn]; [|by eapply (al_apart _ Hr)].
          eapply holds_delete in Hi as [Hne Hi]; [|done]. apply Hne. by eapply (al_inj _ Hr). }
        assert (n ∈ view (destroy (ae_container_name e) w).1 ∖ {[ae_container_name e]}); [|set_solver].
        rewrite Hd, Hw. set_solver. }
    destruct (destroy _ w) as [w' [u|err]]; by apply Hgo.
  - cbn [fst]. eapply alive_fewer; [exact Hr|done| |done].
    intros i n Hi. by eapply holds_delete in Hi as [_ ?].
Qed.

Lemma foldl_close l w : view (foldl (λ w e, link_close (ae_conn e) w) w l) = view w.
Proof. revert w. induction l as [|e l IH]; intros w; [done|]. cbn. by rewrite IH, (lk_close HK). Qed.

Lemma detach_all_alive r : alive (detach_all r).
Proof.
  unfold detach_all.
  assert (∀ w p, match p with Some q => wp_available q = [] | None => True end →
    alive (mkAgentRegistry (W := W) ∅ (proxies r) (tcp_proxies r) p w)) as Hgo.
  { intros w p Hp. assert (pool_names (mkAgentRegistry (W := W) ∅ (proxies r) (tcp_proxies r) p w) = []) as E.
    { unfold pool_names. cbn. destruct p as [q|]; [|done]. by rewrite Hp. }
    split; rewrite ?E.
    - by intros i n (e & ? & _).
    - by intros n ?%elem_of_nil.
    - by intros i j n (e & ? & _).
    - by intros i n (e & ? & _).
    - constructor. }
  cbn [warm_pool with_world with_agents]. destruct (warm_pool r) as [p|] eqn:E; apply Hgo; [done|cbn; by rewrite E].
Qed.

Lemma create_alive p r :
  alive r → warm_pool r = Some p → unused r (key (pool_container_name p (wp_counter p))) →
  alive (with_world (create_one p (world r)).1.2 (with_pool (Some (create_one p (world r)).1.1) r)).
Proof.
  intros Hr Hp Hu. unfold create_one. destruct (ensure _ (world r)) as [w [h|e]] eqn:Ee.
  - pose proof (ensure_view _ _ _ _ Ee) as Hw. apply contract_ensure in Ee as [En Hin]. cbn in Hw, En.
    change (pool_container_name (set_counter _ p) ?k) with (pool_container_name p k) in Hw, En.
    rewrite <-En in Hw, Hu. pose proof (alive_world r w _ Hr Hu Hw) as Ha.
    destruct Ha as [H1 H2 H3 H4 H5], Hu as [Hu Hpool].
    cbn [fst snd]. unfold pool_names in *. cbn [warm_pool with_world with_pool] in *.
    rewrite Hp in H2, H4, H5, Hpool.
    split; unfold pool_names; cbn [warm_pool with_world with_pool world set_available set_counter wp_available];
      rewrite ?fmap_app.
    + exact H1.
    + intros n [Hn| ->%list_elem_of_singleton]%elem_of_app; [by apply H2|done].
    + exact H3.
    + intros i n Hn [Hin'| ->%list_elem_of_singleton]%elem_of_app; [by eapply H4|]. by apply (Hu i).
    + apply NoDup_app. split; [done|]. split; [|apply NoDup_singleton].
      intros n Hn ->%list_elem_of_singleton. done.
  - apply ensure_view in Ee. cbn in Ee. pose proof (alive_world r w _ Hr Hu Ee) as Ha.
    destruct Ha as [H1 H2 H3 H4 H5]. unfold pool_names in *. cbn in *. rewrite Hp in *.
    split; unfold pool_names; cbn; assumption.
Qed.

(** C9: As long as containers are not shared, the registry never loses one: in
    every state reached by spawns, attachments, detachments, kills and pool
    refills under names nobody holds, whatever fails in between, the container
    of every registered agent and of every warm entry exists, and no two
    holders have the same one. *)
Theorem containers_alive r0 r :
  alive r0 → rtc live_step r0 r →
  (∀ id e, agents r !! id = Some e → ae_container_name e ∈ view (world r)) ∧
  (∀ n, n ∈ pool_names r → n ∈ view (world r)) ∧
  (∀ id1 id2 e1 e2, agents r !! id1 = Some e1 → agents r !! id2 = Some e2 →
     ae_container_name e1 = ae_container_name e2 → id1 = id2).
Proof.
  intros H0 Hr. assert (alive r) as Ha.
  { eapply (rtc_invariant live_step alive); [|exact H0|exact Hr].
    intros a b Hal Hs. destruct Hs.
    - by apply spawn_alive.
    - by apply attach_alive.
    - by apply detach_alive.
    - by apply kill_alive.
    - by apply detach_all_alive.
    - by apply create_alive.
    - apply alive_same; [done|]. apply (lk_invoke HK). }
  split; [|split].
  - intros id e He. eapply (al_agent _ Ha). by exists e.
  - apply (al_pool _ Ha).
  - intros i j e1 e2 H1 H2 E. eapply (al_inj _ Ha); [by exists e1|by exists e2].
Qed.

Lemma alive_new w : alive (AgentRegistry_new None w).
Proof.
  split.
  - by intros i n (e & ? & _).
  - by intros n ?%elem_of_nil.
  - by intros i j n (e & ? & _).
  - by intros i n (e & ? & _).
  - constructor.
Qed.
End containers.

(** ** Witnesses: the registry on the sample podman host *)

Module SampleContainers.
Definition host := SampleHost.host false.
#[local] Instance backend : ContainerBackend (gset string) := podman_backend (H := host) SampleHost.self.
#[local] Instance link : AgentLink (gset string) := {|
  link_connect _ _ w := (w, Ok 0%nat);
  link_invoke _ _ _ w := (w, Ok VNil);
  link_close _ w := w;
|}.
Definition defaults : SpawnDefaults := mkSpawnDefaults "img" "/agent" None None None true "nx-" None.
Definition new : AgentRegistry (gset string) := AgentRegistry_new None ∅.
Definition spawn_as (id name : string) (r : AgentRegistry (gset string)) :=
  (spawn defaults id 0 name None ∅ ∅ [] r).1.

Lemma links : links_keep (λ w : gset string, w).
Proof. by split. Qed.

Lemma containers_alive_witness :
  agents (spawn_as "1" "a" new) !! "1" ≠ None ∧
  ∀ id e, agents (spawn_as "1" "a" new) !! id = Some e →
    ae_container_name e ∈ world (spawn_as "1" "a" new).
Proof.
  split; [by vm_compute|].
  destruct (containers_alive (B := backend) (λ w : gset string, w) (λ n, n)
    (C := podman_contract SampleHost.self _ (SampleHost.podman_laws false)) defaults links
    new (spawn_as "1" "a" new)) as [H _].
  - apply alive_new.
  - apply rtc_once. apply ls_spawn; [done|]. split; [by intros id (e & ? & _)|by intros ?%elem_of_nil].
  - exact H.
Defined.

(** Two names that differ only in a character a container name cannot have
    share one container: killing one agent removes the other's. *)
Example kill_takes_shared_container :
  let r := spawn_as "2" "a/b" (spawn_as "1" "a b" new) in
  (ae_container_name <$> agents r !! "2") = Some "nx-a_b" ∧ bool_decide ("nx-a_b" ∈ world r) = true ∧
  (ae_container_name <$> agents (kill "1" r).1 !! "2") = Some "nx-a_b" ∧
  bool_decide ("nx-a_b" ∈ world (kill "1" r).1) = false.
Proof. by vm_compute. Qed.

(** On Sprites with a name prefix, attaching to an existing sprite asks for one
    with the prefix twice. *)
#[local] Instance sprites_link : AgentLink (SpState bool) := {|
  link_connect _ _ w := (w, Ok 0%nat);
  link_invoke _ _ _ w := (w, Ok VNil);
  link_close _ w := w;
|}.
Example attach_doubles_prefix :
  let B := sprites_backend (H := SampleSprites.http) (SH := SampleSprites.host) (S := SampleSprites.names)
             (J := SampleSprites.json) SampleSprites.self in
  (container_exists (ContainerBackend := B) "nx-a" (mkSpState true ∅ ∅ 0)).2 = Ok true ∧
  (attach (HB := B) defaults "1" 0 "nx-a" (AgentRegistry_new None (mkSpState true ∅ ∅ 0))).2
    = Err (RBackend (Cli "create sprite nx-nx-a: 402 ")).
Proof. by vm_compute. Qed.
End SampleContainers.
