(* ===== verification/Session.v ===== *)
(** Frontend sessions of the gateway ([server/session.rs], [server.rs]): the
    signed handshake, the gate it opens, and the dispatch of requests onto the
    agent registry. *)
From S2P Require Import Prelude Wire Methods GatewayWire AgentConn Proxy Backend Registry.

(** * Handshake *)

(* @src crates/nexal-gateway/src/server/session.rs HELLO_MAX_SKEW_SECS *)
Definition HELLO_MAX_SKEW_SECS : Z := 300.

(** One hexadecimal digit. *)
Definition hex_digit (c : ascii) : option Z :=
  let n := Z.of_N (code c) in
  if is_ascii_digit c then Some (n - 48)%Z
  else if in_range 97 102 c then Some (n - 87)%Z
  else if in_range 65 70 c then Some (n - 55)%Z
  else None.

(** [u8::from_str_radix(.., 16)] on two bytes of text: a leading plus sign is
    accepted. *)
Definition hex_byte (a b : ascii) : option byte :=
  if Ascii.eqb a "+" then byte_of_Z <$> hex_digit b
  else
    h ← hex_digit a;
    l ← hex_digit b;
    Some (byte_of_Z (16 * h + l)).

(** The pairs in order; slicing panics when a pair ends inside a character. *)
(* @src crates/nexal-gateway/src/server/session.rs hex_decode "(0..s.len())" .. ".collect()" *)
Fixpoint hex_pairs (s : string) : outcome (option bytes) :=
  match s with
  | String a (String b rest) =>
      if match rest with String c _ => is_continuation c | EmptyString => false end then Panics
      else match hex_byte a b with
           | None => Returns None
           | Some x => omap_outcome (fmap (cons x)) (hex_pairs rest)
           end
  | _ => Returns (Some [])
  end.

(* @src crates/nexal-gateway/src/server/session.rs hex_decode *)
Definition hex_decode (s : string) : outcome (option bytes) :=
  if Nat.odd (String.length s) then Returns None else hex_pairs s.

(** [format!("{}", n)] of an [i64]. *)
Definition decimal (n : Z) : string := pretty n.

Abbreviation NonceCache := (gmap string Z) (only parsing).

(* @src crates/nexal-gateway/src/server.rs ServerConfig *)
Record ServerConfig := mkServerConfig {
  credentials : gmap string string;
  proxy_external_base : string;
}.

Definition reject (msg : string) : JsonRpcError :=
  mkJsonRpcError error_code.AUTH_REJECTED msg None.

(** [i64::abs]: wraps on the least integer. *)
Definition abs_i64 (z : Z) : Z := wrap_i64 (Z.abs z).

Definition canonical (p : HelloParams) : string :=
  hp_access_key p +:+ newline +:+ decimal (hp_ts p) +:+ newline
  +:+ hp_nonce p +:+ newline +:+ hp_client_name p.

Section auth.
(** [hmac::verify] with HMAC-SHA256: key, message, tag. *)
Context (hmac_verify : string → string → bytes → bool).

(** The nonce section: drop what is too old, refuse a known nonce, record it. *)
(* @src crates/nexal-gateway/src/server/session.rs verify_hello "let mut cache = cfg.nonce_cache.lock()" .. "cache.insert(p.nonce.clone(), now);" *)
Definition check_nonce (nonce : string) (now : Z) (cache : NonceCache)
    : NonceCache * result unit JsonRpcError :=
  let cache := filter (λ kv : string * Z,
    wrap_i64 (now - kv.2) ≤ HELLO_MAX_SKEW_SECS * 2)%Z cache in
  match cache !! nonce with
  | Some _ => (cache, Err (reject "replayed nonce"))
  | None => (<[nonce := now]> cache, Ok tt)
  end.

(* @src crates/nexal-gateway/src/server/session.rs verify_hello *)
Definition verify_hello (cfg : ServerConfig) (p : HelloParams) (now : Z) (cache : NonceCache)
    : outcome (NonceCache * result unit JsonRpcError) :=
  match credentials cfg !! hp_access_key p with
  | None => Returns (cache, Err (reject "unknown access key"))
  | Some secret =>
      if decide (HELLO_MAX_SKEW_SECS < abs_i64 (wrap_i64 (now - hp_ts p)))%Z then
        Returns (cache, Err (reject "stale request (ts outside allowed window)"))
      else
        match check_nonce (hp_nonce p) now cache with
        | (cache, Err e) => Returns (cache, Err e)
        | (cache, Ok _) =>
            match hex_decode (hp_signature p) with
            | Panics => Panics
            | Returns None => Returns (cache, Err (reject "malformed signature"))
            | Returns (Some sig) =>
                if hmac_verify secret (canonical p) sig then Returns (cache, Ok tt)
                else Returns (cache, Err (reject "signature mismatch"))
            end
        end
  end.
End auth.

(** * Helpers of [server.rs] *)

(* @src crates/nexal-gateway/src/server.rs parse_params *)
Definition parse_params {T} `{!FromValue T} (value : Value) : result T JsonRpcError :=
  map_err (λ err, mkJsonRpcError error_code.INVALID_PARAMS ("invalid params: " +:+ err) None)
    (from_value value).

(** Error text, as [thiserror] formats it. *)
Definition BackendError_to_string (e : BackendError) : string :=
  match e with
  | Cli m => "container backend command failed: " +:+ m
  | PortDiscovery n => "could not discover container ws port for " +:+ n
  | Io m => "container io error: " +:+ m
  end.

Definition AgentConnError_to_string (e : AgentConnError) : string :=
  match e with
  | Connect m => "connect to agent failed: " +:+ m
  | Send m => "agent send failed: " +:+ m
  | Closed => "agent connection closed"
  | AgentError code message => "agent returned error " +:+ decimal code +:+ ": " +:+ message
  | BadFrame m => "invalid agent frame: " +:+ m
  end.

(* @src crates/nexal-gateway/src/server.rs registry_err *)
Definition registry_err (err : RegistryError) : JsonRpcError :=
  match err with
  | RBackend e => mkJsonRpcError error_code.BACKEND_ERROR (BackendError_to_string e) None
  | RAgentConn e => mkJsonRpcError error_code.BACKEND_ERROR (AgentConnError_to_string e) None
  | UnknownAgent id => mkJsonRpcError error_code.UNKNOWN_AGENT ("unknown agent " +:+ id) None
  | UnknownContainer name =>
      mkJsonRpcError error_code.UNKNOWN_AGENT ("unknown container " +:+ name) None
  end.

(* @src crates/nexal-gateway/src/server.rs container_socket_path *)
Definition container_socket_path (name : string) : string :=
  "/run/nexal/proxy/" +:+ sanitize_name name +:+ ".socket".

(** [tcp_proxies.register] run to its end: bind, then insert. *)
Definition tcp_register (agent_id name upstream : string) (bound : result string string)
    (s : TcpProxy.TcpProxyRegistry) : TcpProxy.TcpProxyRegistry * result string string :=
  match TcpProxy.register_bind agent_id name upstream bound s with
  | (s, Some e) => (s, Err e)
  | (s, None) =>
      match TcpProxy.register_insert (pred (length (TcpProxy.registering s))) s with
      | Some (s, addr) => (s, Ok addr)
      | None => (s, Err "unreachable")
      end
  end.

(** * A session *)

(** What the environment contributes to one request: the clocks and the fresh
    values it draws. *)
Record Draws := mkDraws {
  dr_unix_now : Z;
  dr_now_ms : Z;
  dr_agent_id : string;
  dr_token : string;
  dr_bound : result string string;
}.

(** A session's own flag, the nonce cache and registry all sessions share, and
    the frames sent to the frontend. *)
(* @src crates/nexal-gateway/src/server/session.rs Session *)
Record Session (W : Type) := mkSession {
  authenticated : bool;
  nonces : NonceCache;
  registry : AgentRegistry W;
  sent : list Value;
}.
Arguments mkSession {W}.
Arguments authenticated {W}.
Arguments nonces {W}.
Arguments registry {W}.
Arguments sent {W}.

Section session.
Context (hmac_verify : string → string → bytes → bool).
Context {W : Type} {HB : ContainerBackend W} {HL : AgentLink W}.
Context (cfg : ServerConfig) (d : SpawnDefaults) (gateway_version : string).
Context `{!FromValue JsonRpcRequest, !FromValue HelloParams, !FromValue SpawnAgentParams,
          !FromValue AgentIdParams, !FromValue AttachAgentParams, !FromValue AgentInvokeParams,
          !FromValue RegisterProxyParams, !FromValue UnregisterProxyParams,
          !FromValue RegisterStreamProxyParams, !FromValue UnregisterStreamProxyParams}.

Abbreviation Reg := (AgentRegistry W).
Abbreviation Reply := (result Value JsonRpcError).

Definition no_agent (id : string) : JsonRpcError :=
  mkJsonRpcError error_code.UNKNOWN_AGENT ("no agent " +:+ id) None.

(** An [agent/invoke], or one the session makes for itself. *)
Definition invoke (entry : AgentEntry) (method : string) (params : option Value) (r : Reg)
    : Reg * Reply :=
  let wr := link_invoke (ae_conn entry) method params (world r) in
  (with_world wr.1 r, map_err JsonRpcError_from wr.2).

(* @src crates/nexal-gateway/src/server/session.rs dispatch "Some(GatewayMethod::SpawnAgent)" .. "Some(GatewayMethod::KillAgent)" *)
Definition do_spawn (dr : Draws) (params : Value) (r : Reg) : Reg * Reply :=
  match parse_params (T := SpawnAgentParams) params with
  | Err e => (r, Err e)
  | Ok p =>
      let re := spawn d (dr_agent_id dr) (dr_now_ms dr) (sp_name p) (sp_image p) (sp_env p)
                  (sp_labels p) (sp_extra_ports p) r in
      (re.1, entry ←? map_err registry_err re.2;
             Ok (to_value (mkSpawnAgentResponse (ae_agent_id entry) (ae_container_name entry))))
  end.

(* @src crates/nexal-gateway/src/server/session.rs dispatch "Some(GatewayMethod::KillAgent)" .. "Some(GatewayMethod::DetachAgent)" *)
Definition do_kill (params : Value) (r : Reg) : Reg * Reply :=
  match parse_params (T := AgentIdParams) params with
  | Err e => (r, Err e)
  | Ok p =>
      let re := kill (ai_agent_id p) r in
      (re.1, _ ←? map_err registry_err re.2; Ok (to_value (mkOkResponse true)))
  end.

(* @src crates/nexal-gateway/src/server/session.rs dispatch "Some(GatewayMethod::DetachAgent)" .. "Some(GatewayMethod::AttachAgent)" *)
Definition do_detach (params : Value) (r : Reg) : Reg * Reply :=
  match parse_params (T := AgentIdParams) params with
  | Err e => (r, Err e)
  | Ok p =>
      let re := detach (ai_agent_id p) r in
      (re.1, _ ←? map_err registry_err re.2; Ok (to_value (mkOkResponse true)))
  end.

(* @src crates/nexal-gateway/src/server/session.rs dispatch "Some(GatewayMethod::AttachAgent)" .. "Some(GatewayMethod::ListAgents)" *)
Definition do_attach (dr : Draws) (params : Value) (r : Reg) : Reg * Reply :=
  match parse_params (T := AttachAgentParams) params with
  | Err e => (r, Err e)
  | Ok p =>
      let re := attach d (dr_agent_id dr) (dr_now_ms dr) (aa_container_name p) r in
      (re.1, entry ←? map_err registry_err re.2;
             Ok (to_value (mkSpawnAgentResponse (ae_agent_id entry) (ae_container_name entry))))
  end.

(* @src crates/nexal-gateway/src/server/session.rs dispatch "Some(GatewayMethod::ListAgents)" .. "Some(GatewayMethod::AgentInvoke)" *)
Definition do_list (r : Reg) : Reg * Reply :=
  (r, Ok (to_value (mkListAgentsResponse
    (map (λ e, mkAgentSummary (ae_agent_id e) (ae_container_name e) (ae_created_at_unix_ms e))
       (registry_list r))))).

(* @src crates/nexal-gateway/src/server/session.rs dispatch "Some(GatewayMethod::AgentInvoke)" .. "Some(GatewayMethod::RegisterProxy)" *)
Definition do_invoke (params : Value) (r : Reg) : Reg * Reply :=
  match parse_params (T := AgentInvokeParams) params with
  | Err e => (r, Err e)
  | Ok p =>
      match registry_get (ip_agent_id p) r with
      | None => (r, Err (no_agent (ip_agent_id p)))
      | Some entry => invoke entry (ip_method p) (ip_params p) r
      end
  end.

(** What the agent is told to listen for. *)
(* @src crates/nexal-gateway/src/server/session.rs dispatch "let gateway_url = format!(" .. "}));" *)
Definition proxy_register_params (socket_path token : string) : Value :=
  VMap [(VStr "headers", VMap []);
        (VStr "socket_path", VStr socket_path);
        (VStr "upstream_url",
           VStr (trim_end_matches "/" (proxy_external_base cfg) +:+ "/p/" +:+ token))].

(* @src crates/nexal-gateway/src/server/session.rs dispatch "Some(GatewayMethod::RegisterProxy)" .. "Some(GatewayMethod::UnregisterProxy)" *)
Definition do_register_proxy (dr : Draws) (params : Value) (r : Reg) : Reg * Reply :=
  match parse_params (T := RegisterProxyParams) params with
  | Err e => (r, Err e)
  | Ok p =>
      match registry_get (rpp_agent_id p) r with
      | None => (r, Err (no_agent (rpp_agent_id p)))
      | Some agent_entry =>
          let socket_path := container_socket_path (rpp_name p) in
          let '(px, entry) := ProxyRegistry.register (dr_token dr) (rpp_agent_id p) (rpp_name p)
                                (rpp_upstream_url p) (rpp_headers p) (proxies r) in
          let r := with_proxies px r in
          let '(r, resp) := invoke agent_entry (AgentMethods.AgentMethod_as_str ProxyRegister)
                (Some (proxy_register_params socket_path (ProxyRegistry.px_token entry))) r in
          match resp with
          | Err err =>
              (with_proxies (ProxyRegistry.unregister (rpp_agent_id p) (rpp_name p)
                               (proxies r)).1 r, Err err)
          | Ok _ => (r, Ok (to_value (mkRegisterProxyResponse (ProxyRegistry.px_token entry)
                                        socket_path)))
          end
      end
  end.

(* @src crates/nexal-gateway/src/server/session.rs dispatch "Some(GatewayMethod::UnregisterProxy)" .. "Some(GatewayMethod::RegisterStreamProxy)" *)
Definition do_unregister_proxy (params : Value) (r : Reg) : Reg * Reply :=
  match parse_params (T := UnregisterProxyParams) params with
  | Err e => (r, Err e)
  | Ok p =>
      let socket_path := container_socket_path (upp_name p) in
      let r := match registry_get (upp_agent_id p) r with
               | None => r
               | Some agent_entry =>
                   (invoke agent_entry (AgentMethods.AgentMethod_as_str ProxyUnregister)
                      (Some (VMap [(VStr "socket_path", VStr socket_path)])) r).1
               end in
      let xb := ProxyRegistry.unregister (upp_agent_id p) (upp_name p) (proxies r) in
      (with_proxies xb.1 r, Ok (to_value (mkOkResponse xb.2)))
  end.

(* @src crates/nexal-gateway/src/server/session.rs dispatch "Some(GatewayMethod::RegisterStreamProxy)" .. "Some(GatewayMethod::UnregisterStreamProxy)" *)
Definition do_register_stream_proxy (dr : Draws) (params : Value) (r : Reg) : Reg * Reply :=
  match parse_params (T := RegisterStreamProxyParams) params with
  | Err e => (r, Err e)
  | Ok p =>
      match registry_get (rsp_agent_id p) r with
      | None => (r, Err (no_agent (rsp_agent_id p)))
      | Some agent_entry =>
          match ae_port_map agent_entry !! rsp_container_port p with
          | None => (r, Err (mkJsonRpcError error_code.INVALID_PARAMS
              ("port " +:+ decimal (rsp_container_port p) +:+ " not published for agent "
                 +:+ rsp_agent_id p) None))
          | Some upstream_addr =>
              let tr := tcp_register (rsp_agent_id p) (rsp_name p) upstream_addr (dr_bound dr)
                          (tcp_proxies r) in
              (with_tcp tr.1 r,
               listen_addr ←? map_err (λ e, mkJsonRpcError error_code.BACKEND_ERROR e None) tr.2;
               Ok (to_value (mkRegisterStreamProxyResponse listen_addr)))
          end
      end
  end.

(* @src crates/nexal-gateway/src/server/session.rs dispatch "Some(GatewayMethod::UnregisterStreamProxy)" .. "None => Err(JsonRpcError {" *)
Definition do_unregister_stream_proxy (params : Value) (r : Reg) : Reg * Reply :=
  match parse_params (T := UnregisterStreamProxyParams) params with
  | Err e => (r, Err e)
  | Ok p =>
      let xb := TcpProxy.tcp_unregister (usp_agent_id p) (usp_name p) (tcp_proxies r) in
      (with_tcp xb.1 r, Ok (to_value (mkOkResponse xb.2)))
  end.

Definition on_registry (f : Reg → Reg * Reply) (s : Session W) : outcome (Session W * Reply) :=
  let rr := f (registry s) in
  Returns (mkSession (authenticated s) (nonces s) rr.1 (sent s), rr.2).

(* @src crates/nexal-gateway/src/server/session.rs dispatch "Some(GatewayMethod::Hello)" .. "Some(GatewayMethod::SpawnAgent)" *)
Definition do_hello (dr : Draws) (params : Value) (s : Session W) : outcome (Session W * Reply) :=
  match parse_params (T := HelloParams) params with
  | Err e => Returns (s, Err e)
  | Ok p =>
      match verify_hello hmac_verify cfg p (dr_unix_now dr) (nonces s) with
      | Panics => Panics
      | Returns (cache, Err e) =>
          Returns (mkSession (authenticated s) cache (registry s) (sent s), Err e)
      | Returns (cache, Ok _) =>
          Returns (mkSession true cache (registry s) (sent s),
                   Ok (to_value (mkHelloResponse true gateway_version)))
      end
  end.

(* @src crates/nexal-gateway/src/server/session.rs dispatch *)
Definition dispatch (dr : Draws) (req : JsonRpcRequest) (s : Session W)
    : outcome (Session W * Reply) :=
  let params := default VNil (jr_params req) in
  match GatewayMethods.GatewayMethod_parse (jr_method req) with
  | Some Hello => do_hello dr params s
  | Some SpawnAgent => on_registry (do_spawn dr params) s
  | Some KillAgent => on_registry (do_kill params) s
  | Some DetachAgent => on_registry (do_detach params) s
  | Some AttachAgent => on_registry (do_attach dr params) s
  | Some ListAgents => on_registry do_list s
  | Some AgentInvoke => on_registry (do_invoke params) s
  | Some RegisterProxy => on_registry (do_register_proxy dr params) s
  | Some UnregisterProxy => on_registry (do_unregister_proxy params) s
  | Some RegisterStreamProxy => on_registry (do_register_stream_proxy dr params) s
  | Some UnregisterStreamProxy => on_registry (do_unregister_stream_proxy params) s
  | None => Returns (s, Err (mkJsonRpcError error_code.METHOD_NOT_FOUND
                               ("unknown method: " +:+ jr_method req) None))
  end.

(* @src crates/nexal-gateway/src/server/session.rs send_response *)
Definition send_response (resp : JsonRpcResponse) (s : Session W) : Session W :=
  mkSession (authenticated s) (nonces s) (registry s) (sent s ++ [to_value resp]).

(* @src crates/nexal-gateway/src/server/session.rs send_error *)
Definition send_error (id : Value) (code : Z) (message : string) (s : Session W) : Session W :=
  send_response (JsonRpcResponse_err id code message) s.

(* @src crates/nexal-gateway/src/server/session.rs send_result *)
Definition send_result (id result : Value) (s : Session W) : Session W :=
  send_response (JsonRpcResponse_ok id result) s.

(* @src crates/nexal-gateway/src/server/session.rs handle_value *)
Definition handle_value (dr : Draws) (value : Value) (s : Session W) : outcome (Session W) :=
  match from_value (T := JsonRpcRequest) value with
  | Err err => Returns (send_error VNil error_code.PARSE_ERROR ("msgpack: " +:+ err) s)
  | Ok req =>
      match jr_id req with
      | None => Returns s
      | Some req_id =>
          if negb (authenticated s) &&
             negb (bool_decide (GatewayMethods.GatewayMethod_parse (jr_method req) = Some Hello))
          then Returns (send_error req_id error_code.NOT_AUTHENTICATED
                          "send gateway/hello first" s)
          else
            match dispatch dr req s with
            | Panics => Panics
            | Returns (s, Ok val) => Returns (send_result req_id val s)
            | Returns (s, Err err) => Returns (send_response (mkJsonRpcResponse req_id None (Some err)) s)
            end
      end
  end.

Inductive session_event :=
  | SMessage (dr : Draws) (v : Value)
  | SMalformed (reason : string)
  | SDisconnected.

(** The loop; [true] if the session goes on. *)
(* @src crates/nexal-gateway/src/server/session.rs run "while let Some(event)" .. "notify_task.abort();" *)
Definition session_event_step (e : session_event) (s : Session W) : outcome (Session W * bool) :=
  match e with
  | SMessage dr v => omap_outcome (λ s, (s, true)) (handle_value dr v s)
  | SMalformed reason => Returns (send_error VNil error_code.PARSE_ERROR reason s, true)
  | SDisconnected => Returns (s, false)
  end.

(** A notification of some agent, broadcast to this session. *)
(* @src crates/nexal-gateway/src/server/session.rs run "let notify_task = tokio::spawn" .. "while let Some(event)" *)
Definition forward_notification (agent_id : string) (n : AgentNotification) (s : Session W)
    : Session W :=
  if authenticated s then
    mkSession true (nonces s) (registry s)
      (sent s ++ [to_value (jsonrpc_notification NOTIFY_AGENT
         (to_value (mkAgentNotifyParams agent_id (an_method n) (an_params n))))])
  else s.
End session.

(** * The handshake *)

Lemma hex_pair_of_byte b :
  ∃ x y, Byte.to_N b = (16 * x + y)%N ∧ (x < 16)%N ∧ (y < 16)%N.
Proof.
  exists (Byte.to_N b / 16)%N, (Byte.to_N b mod 16)%N.
  pose proof (Byte.to_N_bounded b). split_and!.
  - apply N.div_mod'.
  - apply N.Div0.div_lt_upper_bound. lia.
  - apply N.mod_lt. lia.
Qed.

(** Lower-case hexadecimal, as the client writes a tag. *)
Definition hex_char (n : N) : ascii :=
  if (n <? 10)%N then ascii_of_N (48 + n) else ascii_of_N (87 + n).

Fixpoint hex_encode (bs : bytes) : string :=
  match bs with
  | [] => ""
  | b :: bs' =>
      String (hex_char (Byte.to_N b / 16)) (String (hex_char (Byte.to_N b mod 16)) (hex_encode bs'))
  end.

Lemma hex_byte_encode b :
  hex_byte (hex_char (Byte.to_N b / 16)) (hex_char (Byte.to_N b mod 16)) = Some b.
Proof. by destruct b. Qed.

Lemma hex_char_not_continuation n : (n < 16)%N → is_continuation (hex_char n) = false.
Proof.
  intros H. unfold hex_char. destruct (n <? 10)%N eqn:E.
  - apply N.ltb_lt in E. unfold is_continuation, in_range, code.
    rewrite N_ascii_embedding by lia. apply andb_false_iff. left. apply N.leb_gt. lia.
  - unfold is_continuation, in_range, code.
    rewrite N_ascii_embedding by lia. apply andb_false_iff. left. apply N.leb_gt. lia.
Qed.

Lemma hex_pairs_encode bs : hex_pairs (hex_encode bs) = Returns (Some bs).
Proof.
  induction bs as [|b bs IH]; [done|]. cbn [hex_encode hex_pairs].
  replace (match hex_encode bs with "" => false | String c _ => is_continuation c end)
    with false.
  - by rewrite hex_byte_encode, IH.
  - destruct bs as [|b' bs]; [done|]. cbn [hex_encode]. symmetry.
    apply hex_char_not_continuation. apply N.Div0.div_lt_upper_bound.
    pose proof (Byte.to_N_bounded b'). lia.
Qed.

Lemma hex_decode_encode bs : hex_decode (hex_encode bs) = Returns (Some bs).
Proof.
  assert (Nat.odd (String.length (hex_encode bs)) = false) as H.
  { induction bs as [|b bs IH]; [done|]. cbn [hex_encode String.length].
    by rewrite Nat.odd_succ_succ. }
  unfold hex_decode. rewrite H. apply hex_pairs_encode.
Qed.

(** The skew test on 64-bit clocks: within the window, or exactly [2 ^ 63]
    seconds away, where the absolute value wraps. *)
Lemma skew_test now ts :
  (0 ≤ now < 2 ^ 62)%Z → (- 2 ^ 63 ≤ ts < 2 ^ 63)%Z →
  (abs_i64 (wrap_i64 (now - ts)) ≤ HELLO_MAX_SKEW_SECS ↔
   Z.abs (now - ts) ≤ HELLO_MAX_SKEW_SECS ∨ now - ts = 2 ^ 63)%Z.
Proof.
  intros H1 H2. unfold abs_i64, HELLO_MAX_SKEW_SECS.
  destruct (Z_lt_le_dec (now - ts) (2 ^ 63)) as [Hl|Hl].
  - rewrite (wrap_i64_small (now - ts)) by lia. rewrite wrap_i64_small by lia. lia.
  - assert (wrap_i64 (now - ts) = now - ts - 2 ^ 64)%Z as ->.
    { unfold wrap_i64. rewrite <-(Z.mod_unique (now - ts + 2 ^ 63)%Z (2 ^ 64)%Z 1%Z
        (now - ts + 2 ^ 63 - 2 ^ 64)%Z); lia. }
    destruct (Z.eq_dec (now - ts) (2 ^ 63))%Z as [->|Hne]; [by vm_compute; split; auto|].
    rewrite wrap_i64_small by lia. lia.
Qed.

Section handshake.
Context (hmac_verify : string → string → bytes → bool) (cfg : ServerConfig).

Lemma check_nonce_spec nonce now cache :
  check_nonce nonce now cache =
  let kept := filter (λ kv : string * Z,
    wrap_i64 (now - kv.2) ≤ HELLO_MAX_SKEW_SECS * 2)%Z cache in
  match kept !! nonce with
  | Some _ => (kept, Err (reject "replayed nonce"))
  | None => (<[nonce := now]> kept, Ok tt)
  end.
Proof. done. Qed.

(** What an accepted [hello] must have shown. *)
Lemma verify_hello_Ok p now cache cache' :
  verify_hello hmac_verify cfg p now cache = Returns (cache', Ok tt) →
  ∃ secret sig, credentials cfg !! hp_access_key p = Some secret ∧
    (abs_i64 (wrap_i64 (now - hp_ts p)) ≤ HELLO_MAX_SKEW_SECS)%Z ∧
    check_nonce (hp_nonce p) now cache = (cache', Ok tt) ∧
    hex_decode (hp_signature p) = Returns (Some sig) ∧
    hmac_verify secret (canonical p) sig = true.
Proof.
  unfold verify_hello. intros H.
  destruct (credentials cfg !! hp_access_key p) as [secret|] eqn:Ec; [|done].
  case_decide as Hs; [done|].
  destruct (check_nonce (hp_nonce p) now cache) as [c1 [[]|e]] eqn:En; [|done].
  destruct (hex_decode (hp_signature p)) as [[sig|]|] eqn:Eh; try done.
  destruct (hmac_verify secret (canonical p) sig) eqn:Ev; [|done].
  injection H as ->. exists secret, sig. split_and!; try done. lia.
Qed.

(** A correctly signed [gateway/hello] is accepted: with a known access key,
    a clock within 300 seconds, a nonce not seen in the last 600 seconds and
    the lower-case hexadecimal of a tag that verifies under the key's secret
    for the canonical text, the handshake succeeds and records the nonce. *)
Theorem signed_hello_accepted p now cache secret tag :
  credentials cfg !! hp_access_key p = Some secret →
  (0 ≤ now < 2 ^ 62)%Z → (- 2 ^ 63 ≤ hp_ts p < 2 ^ 63)%Z →
  (Z.abs (now - hp_ts p) ≤ HELLO_MAX_SKEW_SECS)%Z →
  (∀ seen, cache !! hp_nonce p = Some seen → 0 ≤ seen < now - HELLO_MAX_SKEW_SECS * 2)%Z →
  hp_signature p = hex_encode tag → hmac_verify secret (canonical p) tag = true →
  ∃ cache', verify_hello hmac_verify cfg p now cache = Returns (cache', Ok tt) ∧
    cache' !! hp_nonce p = Some now.
Proof.
  intros Hc Hn Ht Hs Hf Hsig Hv. unfold verify_hello. rewrite Hc.
  rewrite decide_False.
  2: { assert (abs_i64 (wrap_i64 (now - hp_ts p)) ≤ HELLO_MAX_SKEW_SECS)%Z; [|lia].
       apply skew_test; auto. }
  rewrite check_nonce_spec. cbn zeta.
  destruct (filter _ cache !! hp_nonce p) as [seen|] eqn:E.
  - apply map_lookup_filter_Some in E as [E Hk]. cbn in Hk.
    specialize (Hf _ E). unfold HELLO_MAX_SKEW_SECS in *.
    rewrite wrap_i64_small in Hk; lia.
  - rewrite Hsig, hex_decode_encode, Hv. eexists. split; [done|]. apply lookup_insert_eq.
Qed.

(** Handshake attempts against the gateway, with the clock of each. *)
Fixpoint run_hellos (reqs : list (Z * HelloParams)) (cache : NonceCache) : outcome (list bool) :=
  match reqs with
  | [] => Returns []
  | (now, p) :: rest =>
      match verify_hello hmac_verify cfg p now cache with
      | Panics => Panics
      | Returns (cache, r) => omap_outcome (cons (is_ok r)) (run_hellos rest cache)
      end
  end.

Fixpoint clocks_ascend (from : Z) (reqs : list (Z * HelloParams)) : Prop :=
  match reqs with
  | [] => True
  | (now, p) :: rest => (from ≤ now < 2 ^ 62)%Z ∧ clocks_ascend now rest
  end.

Lemma clocks_ascend_le from reqs j t p :
  clocks_ascend from reqs → reqs !! j = Some (t, p) → (from ≤ t < 2 ^ 62)%Z.
Proof.
  revert from j. induction reqs as [|[t0 p0] reqs IH]; intros from j H Hj; [done|].
  cbn in H. destruct H as [H1 H2]. destruct j as [|j]; cbn in Hj; [by simplify_eq|].
  specialize (IH _ _ H2 Hj). lia.
Qed.

(** One attempt leaves a nonce in the cache for 600 seconds. *)
Lemma verify_hello_keeps p now cache cache' r n s :
  verify_hello hmac_verify cfg p now cache = Returns (cache', r) →
  cache !! n = Some s → (0 ≤ s ≤ now)%Z → (now < 2 ^ 62)%Z →
  (now - s ≤ HELLO_MAX_SKEW_SECS * 2)%Z →
  cache' !! n = Some s ∧ (hp_nonce p = n → is_ok r = false).
Proof.
  intros H Hn Hs Hb Hk.
  assert (∀ c1 r1, check_nonce (hp_nonce p) now cache = (c1, r1) →
    c1 !! n = Some s ∧ (hp_nonce p = n → is_ok r1 = false)) as Hc.
  { intros c1 r1. rewrite check_nonce_spec. cbn zeta.
    assert (filter (λ kv : string * Z, wrap_i64 (now - kv.2) ≤ HELLO_MAX_SKEW_SECS * 2)%Z cache
              !! n = Some s) as Hf.
    { apply map_lookup_filter_Some. split; [done|]. cbn. rewrite wrap_i64_small; lia. }
    destruct (filter _ cache !! hp_nonce p) eqn:E; intros [= <- <-]; [done|].
    split; [|intros Hpn; by rewrite Hpn, Hf in E].
    rewrite lookup_insert_ne; [done|]. intros Hpn. by rewrite Hpn, Hf in E. }
  unfold verify_hello in H.
  destruct (credentials cfg !! hp_access_key p); [|by injection H as <- <-].
  case_decide; [by injection H as <- <-|].
  destruct (check_nonce (hp_nonce p) now cache) as [c1 [[]|e]] eqn:En;
    destruct (Hc _ _ eq_refl) as [H1 H2]; [|by injection H as <- <-].
  destruct (hex_decode (hp_signature p)) as [[sig|]|]; [| |done].
  - destruct (hmac_verify _ _ sig); injection H as <- <-; [done|]. by split.
  - injection H as <- <-. by split.
Qed.

Lemma accepted_much_later reqs cache n s bs j t p :
  run_hellos reqs cache = Returns bs → cache !! n = Some s → (0 ≤ s)%Z →
  clocks_ascend s reqs → reqs !! j = Some (t, p) → bs !! j = Some true → hp_nonce p = n →
  (t - s > HELLO_MAX_SKEW_SECS * 2)%Z.
Proof.
  intros Hr Hn Hs Hc. assert (∃ from, s ≤ from ∧ clocks_ascend from reqs)%Z as (from & Hfrom & Hc')
    by by exists s. clear Hc.
  revert from cache bs j Hr Hn Hfrom Hc'.
  induction reqs as [|[t0 p0] reqs IH]; intros from cache bs j Hr Hn Hfrom Hc Hj Hb Hp; [done|].
  cbn in Hr, Hc. destruct Hc as [Ht Hc].
  destruct (verify_hello hmac_verify cfg p0 t0 cache) as [[c1 r]|] eqn:E; [|done].
  destruct (run_hellos reqs c1) as [bs'|] eqn:Er; [|done]. injection Hr as <-.
  destruct (Z_lt_le_dec (HELLO_MAX_SKEW_SECS * 2) (t0 - s)) as [Hlate|Hsoon].
  - assert (t0 ≤ t)%Z; [|lia]. destruct j as [|j]; cbn in Hj; [by simplify_eq|].
    by eapply clocks_ascend_le in Hj as [? _].
  - destruct (verify_hello_keeps _ _ _ _ _ n s E Hn) as [Hn' Hok]; [lia..|].
    destruct j as [|j]; cbn in Hj, Hb.
    + simplify_eq. by rewrite Hok in Hb.
    + eapply (IH t0 c1 bs' j); try done. lia.
Qed.

(** C7: A signed [gateway/hello] cannot be replayed: among any handshake attempts
    the gateway sees (its clock never running back), no two that succeed carry
    the same nonce and the same timestamp, so a captured request is accepted
    at most once, however late it is sent again. *)
Theorem hello_not_replayable reqs bs i j t1 t2 p1 p2 :
  run_hellos reqs ∅ = Returns bs → clocks_ascend 0 reqs →
  reqs !! i = Some (t1, p1) → reqs !! j = Some (t2, p2) → i < j →
  (- 2 ^ 63 ≤ hp_ts p1 < 2 ^ 63)%Z →
  bs !! i = Some true → bs !! j = Some true →
  hp_nonce p1 = hp_nonce p2 → hp_ts p1 ≠ hp_ts p2.
Proof.
  generalize (∅ : NonceCache). intros cache Hr Hc Hi Hj Hlt Hts Hbi Hbj Hn Heq.
  remember 0%Z as from eqn:Hfrom.
  assert (0 ≤ from)%Z as H0 by lia. clear Hfrom.
  revert from cache bs i j Hr Hc H0 Hi Hj Hlt Hbi Hbj.
  induction reqs as [|[t p] reqs IH]; intros from cache bs i j Hr Hc H0 Hi Hj Hlt Hbi Hbj; [done|].
  cbn in Hr, Hc. destruct Hc as [Ht Hc].
  destruct (verify_hello hmac_verify cfg p t cache) as [[c1 r]|] eqn:E; [|done].
  destruct (run_hellos reqs c1) as [bs'|] eqn:Er; [|done]. injection Hr as <-.
  destruct j as [|j]; [lia|]. cbn in Hj, Hbj.
  destruct i as [|i]; cbn in Hi, Hbi.
  - simplify_eq. destruct r as [[]|]; [|done].
    apply verify_hello_Ok in E as (secret & sig & _ & Hsk1 & Hck & _).
    assert (c1 !! hp_nonce p1 = Some t1) as Hc1.
    { rewrite check_nonce_spec in Hck. cbn zeta in Hck. case_match; [done|].
      injection Hck as <-. apply lookup_insert_eq. }
    pose proof (accepted_much_later _ _ _ _ _ _ _ _ Er Hc1 ltac:(lia) Hc Hj Hbj
      (eq_sym Hn)) as Hlate.
    pose proof (clocks_ascend_le _ _ _ _ _ Hc Hj) as Ht2.
    assert (abs_i64 (wrap_i64 (t2 - hp_ts p2)) ≤ HELLO_MAX_SKEW_SECS)%Z as Hsk2.
    { clear -Er Hj Hbj. revert c1 bs' j Er Hj Hbj.
      induction reqs as [|[t p] reqs IH]; intros c1 bs' j Er Hj Hbj; [done|]. cbn in Er.
      destruct (verify_hello _ _ p t c1) as [[c2 r]|] eqn:E; [|done].
      destruct (run_hellos reqs c2) as [bs2|] eqn:E2; [|done]. injection Er as <-.
      destruct j as [|j]; cbn in Hj, Hbj; [|by eapply IH].
      simplify_eq. destruct r as [[]|]; [|done].
      by apply verify_hello_Ok in E as (? & ? & _ & ? & _). }
    apply skew_test in Hsk1; [|lia..]. rewrite <-Heq in Hsk2.
    apply skew_test in Hsk2; [|lia..]. unfold HELLO_MAX_SKEW_SECS in *. lia.
  - eapply (IH t c1 bs' i j); try done; lia.
Qed.

(** A [gateway/hello] can take the gateway down before its signature is
    checked: with a known access key, a clock in the window and a fresh nonce,
    a signature text whose two-byte slices cut a character makes the decoding
    panic, whatever the secret (the release profile aborts). *)
Theorem hello_can_panic p now cache secret cache' :
  credentials cfg !! hp_access_key p = Some secret →
  (abs_i64 (wrap_i64 (now - hp_ts p)) ≤ HELLO_MAX_SKEW_SECS)%Z →
  check_nonce (hp_nonce p) now cache = (cache', Ok tt) →
  hp_signature p = String "a" (String (chr 195) (String (chr 169) (String "b" ""))) →
  verify_hello hmac_verify cfg p now cache = Panics.
Proof.
  intros Hc Hs Hn Hsig. unfold verify_hello. rewrite Hc, decide_False by lia.
  by rewrite Hn, Hsig.
Qed.
End handshake.

(** * The gate and the responses *)

Section gate.
Context (hmac_verify : string → string → bytes → bool).
Context {W : Type} {HB : ContainerBackend W} {HL : AgentLink W}.
Context (cfg : ServerConfig) (d : SpawnDefaults) (gateway_version : string).
Context {FReq : FromValue JsonRpcRequest} {FHello : FromValue HelloParams}
  {FSpawn : FromValue SpawnAgentParams} {FId : FromValue AgentIdParams}
  {FAttach : FromValue AttachAgentParams} {FInvoke : FromValue AgentInvokeParams}
  {FReg : FromValue RegisterProxyParams} {FUnreg : FromValue UnregisterProxyParams}
  {FRegS : FromValue RegisterStreamProxyParams} {FUnregS : FromValue UnregisterStreamProxyParams}.

Abbreviation handle := (handle_value hmac_verify cfg d gateway_version).
Abbreviation dispatch' := (dispatch hmac_verify cfg d gateway_version).

(** A frame that is a hello, signed under a configured credential. *)
Definition signed_hello (v : Value) : Prop :=
  ∃ req p secret sig, from_value v = Ok req ∧
    GatewayMethods.GatewayMethod_parse (jr_method req) = Some Hello ∧
    from_value (default VNil (jr_params req)) = Ok p ∧
    credentials cfg !! hp_access_key p = Some secret ∧
    hex_decode (hp_signature p) = Returns (Some sig) ∧
    hmac_verify secret (canonical p) sig = true.

(** The session over a sequence of events. *)
Fixpoint run_session (evs : list session_event) (s : Session W) : outcome (Session W) :=
  match evs with
  | [] => Returns s
  | e :: evs' =>
      match session_event_step hmac_verify cfg d gateway_version e s with
      | Panics => Panics
      | Returns (s, true) => run_session evs' s
      | Returns (s, false) => Returns s
      end
  end.

Lemma do_hello_frame dr params (s s' : Session W) r :
  do_hello hmac_verify cfg gateway_version dr params s = Returns (s', r) →
  registry s' = registry s ∧ sent s' = sent s ∧
  (authenticated s' = authenticated s ∨
   authenticated s' = true ∧ ∃ p secret sig,
    from_value params = Ok p ∧ credentials cfg !! hp_access_key p = Some secret ∧
    hex_decode (hp_signature p) = Returns (Some sig) ∧
    hmac_verify secret (canonical p) sig = true).
Proof.
  unfold do_hello. intros H.
  destruct (parse_params params) as [p|e] eqn:Ep; [|injection H as <- <-; auto].
  destruct (verify_hello _ _ _ _ _) as [[c [[]|e]]|] eqn:Ev; [| |done].
  - injection H as <- <-. cbn. split; [done|]. split; [done|]. right. split; [done|].
    apply verify_hello_Ok in Ev as (secret & sig & ? & _ & _ & ? & ?).
    apply map_err_Ok in Ep. by exists p, secret, sig.
  - injection H as <- <-. auto.
Qed.

(** Only a hello changes the gate, and a hello changes nothing else. *)
Lemma dispatch_frame_facts dr req (s s' : Session W) r :
  dispatch' dr req s = Returns (s', r) →
  sent s' = sent s ∧
  (GatewayMethods.GatewayMethod_parse (jr_method req) ≠ Some Hello →
   authenticated s' = authenticated s).
Proof.
  unfold dispatch. intros H.
  destruct (GatewayMethods.GatewayMethod_parse (jr_method req)) as [[]|];
    try (injection H as <- <-; done).
  by apply do_hello_frame in H as (_ & ? & _).
Qed.

(** A session that starts closed opens, or touches the registry, only by a
    signed hello among its frames. *)
Lemma session_gate evs (s s' : Session W) :
  authenticated s = false → run_session evs s = Returns s' →
  (authenticated s' = false ∧ registry s' = registry s) ∨
  ∃ dr v, SMessage dr v ∈ evs ∧ signed_hello v.
Proof.
  revert s. induction evs as [|e evs IH]; intros s Ha H; [injection H as <-; auto|].
  cbn in H. destruct e as [dr v|reason|]; cbn in H; [| |injection H as <-; auto].
  - destruct (handle_value hmac_verify cfg d gateway_version dr v s) as [s1|] eqn:E; [|done].
    cbn in H.
    enough ((authenticated s1 = false ∧ registry s1 = registry s) ∨ signed_hello v) as [[H1 H2]|Hh].
    { destruct (IH _ H1 H) as [[? H3]|(dr' & v' & Hv & ?)]; [left; split; congruence|].
      right. exists dr', v'. split; [set_solver|done]. }
    { right. exists dr, v. split; [set_solver|done]. }
    unfold handle_value in E. destruct (from_value v) as [req|err] eqn:Ev;
      [|injection E as <-; auto].
    destruct (jr_id req) as [id|]; [|injection E as <-; auto]. rewrite Ha in E. cbn in E.
    destruct (bool_decide _) eqn:Eh; cbn in E; [|injection E as <-; auto].
    apply bool_decide_eq_true in Eh. unfold dispatch in E. rewrite Eh in E.
    destruct (do_hello _ _ _ _ _ s) as [[s2 r]|] eqn:Eo; [|done].
    apply do_hello_frame in Eo as (Hreg & _ & Hau).
    destruct Hau as [Hau|(_ & p & secret & sig & ?)]; [|right; by exists req, p, secret, sig].
    left. destruct r; injection E as <-; by rewrite <- Hreg, <- Ha.
  - destruct (IH (send_error VNil error_code.PARSE_ERROR reason s) Ha H)
      as [?|(dr & v & Hv & ?)]; [by left|].
    right. exists dr, v. split; [set_solver|done].
Qed.

(** C6: Nothing happens before a signed hello: whatever frames an
    unauthenticated session receives, as long as none is a hello signed under
    a configured credential, the session stays unauthenticated, the agent
    registry, its proxies and the containers are untouched, and no agent
    notification is forwarded to it. *)
Theorem unauthenticated_session_inert evs (s s' : Session W) :
  authenticated s = false →
  Forall (λ e, match e with SMessage _ v => ¬ signed_hello v | _ => True end) evs →
  run_session evs s = Returns s' →
  authenticated s' = false ∧ registry s' = registry s ∧
  ∀ agent_id n, forward_notification agent_id n s' = s'.
Proof.
  intros Ha Hf [[H1 H2]|(dr & v & Hv & Hs)]%session_gate; [| |done].
  - split_and!; [done|done|]. intros ? ?. unfold forward_notification. by rewrite H1.
  - rewrite Forall_forall in Hf. by destruct (Hf _ Hv).
Qed.

(** C14: Every request gets exactly one response, under its own id: a frame that
    is no request gets one parse error with a nil id, a notification none, and
    a request, whatever its method, parameters and outcome, one response that
    repeats its id and carries a result or an error but not both. *)
Theorem one_response_per_request dr v (s s' : Session W) :
  handle dr v s = Returns s' →
  match from_value (T := JsonRpcRequest) v with
  | Err err => sent s' = sent s ++
      [to_value (JsonRpcResponse_err VNil error_code.PARSE_ERROR ("msgpack: " +:+ err))]
  | Ok req =>
      match jr_id req with
      | None => s' = s
      | Some id => ∃ resp, sent s' = sent s ++ [to_value resp] ∧ js_id resp = id ∧
          ((is_Some (js_result resp) ∧ js_error resp = None) ∨
           (js_result resp = None ∧ is_Some (js_error resp)))
      end
  end.
Proof.
  unfold handle_value. intros H. destruct (from_value v) as [req|err]; [|by injection H as <-].
  destruct (jr_id req) as [id|]; [|by injection H as <-].
  destruct (_ && _).
  - injection H as <-. eexists. split; [done|]. cbn. split; [done|]. right. by split.
  - destruct (dispatch _ _ _ _ dr req s) as [[s1 r]|] eqn:E; [|done].
    apply dispatch_frame_facts in E as [Hs _].
    destruct r as [val|err]; injection H as <-; cbn; rewrite Hs;
      eexists; (split; [done|]); cbn; (split; [done|]); [left|right]; by split.
Qed.

(** * Registering a proxy *)

(** C39: What [gateway/register_proxy] leaves behind, on every branch, for a token
    no live registration has. Parameters that do not parse and an agent nobody has
    are errors that change nothing. Otherwise the agent is told exactly once to
    listen on the name's socket for this token, and nothing else in the registry
    changes but the proxies: when it agrees, they are the old ones with this
    registration under its agent and name, in place of an earlier one, and the
    frontend gets its token and socket; when it refuses or is gone, the frontend
    gets its error, the new token leads nowhere, and an earlier registration under
    this agent and name is gone as well. *)
Theorem register_proxy_outcomes dr params (r : AgentRegistry W) m :
  ProxyRegistry.related (proxies r) m →
  (∀ k e, m !! k = Some e → ProxyRegistry.px_token e ≠ dr_token dr) →
  let r' := (do_register_proxy cfg dr params r).1 in
  let reply := (do_register_proxy cfg dr params r).2 in
  match parse_params (T := RegisterProxyParams) params with
  | Err e => r' = r ∧ reply = Err e
  | Ok p =>
      match agents r !! rpp_agent_id p with
      | None => r' = r ∧ reply = Err (no_agent (rpp_agent_id p))
      | Some entry =>
          let key := (rpp_agent_id p, rpp_name p) in
          let px := ProxyRegistry.mkProxyEntry (rpp_agent_id p) (rpp_name p) (rpp_upstream_url p)
                      (rpp_headers p) (dr_token dr) in
          let told := proxy_register_params cfg (container_socket_path (rpp_name p)) (dr_token dr) in
          let answer := link_invoke (ae_conn entry) "proxy/register" (Some told) (world r) in
          r' = with_proxies (proxies r') (with_world answer.1 r) ∧
          match answer.2 with
          | Ok _ => ProxyRegistry.related (proxies r') (<[key := px]> m)
                    ∧ reply = Ok (to_value (mkRegisterProxyResponse (dr_token dr)
                                             (container_socket_path (rpp_name p))))
          | Err e => ProxyRegistry.related (proxies r') (delete key m)
                     ∧ ProxyRegistry.lookup (dr_token dr) (proxies r') = None
                     ∧ reply = Err (JsonRpcError_from e)
          end
      end
  end.
Proof.
  intros Hr Hfresh r' reply. unfold r', reply, do_register_proxy.
  destruct (parse_params params) as [p|e]; [|done]. unfold registry_get.
  destruct (agents r !! rpp_agent_id p) as [entry|]; [|done].
  set (key := (rpp_agent_id p, rpp_name p)).
  set (px := ProxyRegistry.mkProxyEntry _ _ _ _ _).
  set (told := proxy_register_params _ _ _).
  set (answer := link_invoke _ _ _ _).
  pose proof (ProxyRegistry.related_register _ _ (dr_token dr) (rpp_agent_id p) (rpp_name p)
    (rpp_upstream_url p) (rpp_headers p) Hr Hfresh) as Hreg.
  destruct (ProxyRegistry.register _ _ _ _ _ _) as [inner e] eqn:Er.
  assert (e = px) as -> by (by injection Er).
  cbn [fst] in Hreg. unfold invoke. cbn [world with_proxies].
  change (AgentMethods.AgentMethod_as_str ProxyRegister) with "proxy/register".
  change (ProxyRegistry.px_token px) with (dr_token dr). fold told. fold answer.
  destruct answer as [w' [v|err]]; cbn; [done|]. split; [done|].
  destruct (ProxyRegistry.related_remove inner _ key Hreg) as [Hrem _].
  rewrite delete_insert_eq in Hrem. split; [done|]. split; [|done].
  apply eq_None_not_Some. intros [e' [Ht Hm]%Hrem].
  apply lookup_delete_Some in Hm as [_ Hm]. by eapply Hfresh.
Qed.
End gate.

(** ** Witnesses *)

Module SampleSession.
Import Wire.Derived.

#[local] Instance req_from_value : FromValue JsonRpcRequest := λ v,
  me ←? field_string v "method";
  Ok (mkJsonRpcRequest (field_opt_value v "id") me (field_opt_value v "params")).

#[local] Instance hello_from_value : FromValue HelloParams := λ v,
  k ←? field_string v "access_key";
  c ←? field_string v "client_name";
  n ←? field_string v "nonce";
  s ←? field_string v "signature";
  match map_get v "ts" with
  | Some (VInt ts) => Ok (mkHelloParams k c ts n s)
  | _ => Err "missing field ts"
  end.

#[local] Instance register_from_value : FromValue RegisterProxyParams := λ v,
  a ←? field_string v "agent_id";
  n ←? field_string v "name";
  u ←? field_string v "upstream_url";
  Ok (mkRegisterProxyParams a n u ∅).

#[local] Instance id_from_value : FromValue AgentIdParams := λ v,
  a ←? field_string v "agent_id"; Ok (mkAgentIdParams a).

(** Decoders of the methods the witnesses do not call. *)
#[local] Instance spawn_from_value : FromValue SpawnAgentParams := λ _, Err "unused".
#[local] Instance attach_from_value : FromValue AttachAgentParams := λ _, Err "unused".
#[local] Instance invoke_from_value : FromValue AgentInvokeParams := λ _, Err "unused".
#[local] Instance unreg_from_value : FromValue UnregisterProxyParams := λ _, Err "unused".
#[local] Instance regs_from_value : FromValue RegisterStreamProxyParams := λ _, Err "unused".
#[local] Instance unregs_from_value : FromValue UnregisterStreamProxyParams := λ _, Err "unused".

(** A tag is valid when it repeats the secret. *)
Definition hmac (key msg : string) (tag : bytes) : bool :=
  bool_decide (tag = String.list_byte_of_string key).

Definition config : ServerConfig := mkServerConfig {["AK" := "s"]} "http://gw:5501/".

Definition hello_at (ts : Z) : HelloParams := mkHelloParams "AK" "cli" ts "n1" "73".

Definition session0 : Session SampleWorld.world_t :=
  mkSession false ∅ SampleWorld.reg1 [].

Definition draws : Draws := mkDraws 1000 0 "id2" "tok" (Ok "127.0.0.1:4001").

Definition list_frame : Value :=
  VMap [(VStr "id", VInt 4); (VStr "method", VStr "gateway/list_agents")].

Definition register_frame : Value :=
  VMap [(VStr "agent_id", VStr "id1"); (VStr "name", VStr "jina");
        (VStr "upstream_url", VStr "https://api.jina.ai")].

Definition run1 (evs : list session_event) : outcome (Session SampleWorld.world_t) :=
  run_session (HB := SampleWorld.backend) (HL := SampleWorld.link) hmac config
    SampleWorld.defaults "0.1" evs session0.

Definition inert_result : Session SampleWorld.world_t :=
  match run1 [SMessage draws list_frame; SMalformed "x"] with Returns s => s | Panics => session0 end.
End SampleSession.

Lemma signed_hello_accepted_witness :
  ∃ cache', verify_hello SampleSession.hmac SampleSession.config (SampleSession.hello_at 900) 1000 ∅
            = Returns (cache', Ok tt) ∧ cache' !! "n1" = Some 1000%Z.
Proof.
  apply (signed_hello_accepted SampleSession.hmac SampleSession.config
           (SampleSession.hello_at 900) 1000 ∅ "s" [x73]);
    try (vm_compute; intuition congruence); try (vm_compute; reflexivity).
Defined.

Lemma hello_not_replayable_witness : (100 ≠ 1000)%Z.
Proof.
  apply (hello_not_replayable SampleSession.hmac SampleSession.config
    [(100%Z, SampleSession.hello_at 100); (1000%Z, SampleSession.hello_at 1000)] [true; true]
    0 1 100 1000 (SampleSession.hello_at 100) (SampleSession.hello_at 1000));
    try (vm_compute; reflexivity); try (vm_compute; intuition congruence).
Defined.

Lemma hello_can_panic_witness :
  verify_hello SampleSession.hmac SampleSession.config
    (mkHelloParams "AK" "cli" 1000 "n2"
       (String "a" (String (chr 195) (String (chr 169) (String "b" ""))))) 1000 ∅ = Panics.
Proof.
  apply (hello_can_panic SampleSession.hmac SampleSession.config _ 1000 ∅ "s" {["n2" := 1000%Z]});
    try (vm_compute; reflexivity). vm_compute. discriminate.
Defined.

Lemma unauthenticated_session_inert_witness :
  authenticated SampleSession.inert_result = false ∧
  registry SampleSession.inert_result = registry SampleSession.session0 ∧
  ∀ agent_id n, forward_notification agent_id n SampleSession.inert_result
                = SampleSession.inert_result.
Proof.
  apply (unauthenticated_session_inert (HB := SampleWorld.backend) (HL := SampleWorld.link)
    SampleSession.hmac SampleSession.config SampleWorld.defaults "0.1"
    (FReq := SampleSession.req_from_value) (FHello := SampleSession.hello_from_value)
    (FSpawn := SampleSession.spawn_from_value) (FId := SampleSession.id_from_value)
    (FAttach := SampleSession.attach_from_value) (FInvoke := SampleSession.invoke_from_value)
    (FReg := SampleSession.register_from_value) (FUnreg := SampleSession.unreg_from_value)
    (FRegS := SampleSession.regs_from_value) (FUnregS := SampleSession.unregs_from_value)
    [SMessage SampleSession.draws SampleSession.list_frame; SMalformed "x"]
    SampleSession.session0 SampleSession.inert_result).
  - reflexivity.
  - constructor; [|constructor; [exact I|constructor]].
    intros (req & p & secret & sig & Hreq & Hm & _). vm_compute in Hreq.
    injection Hreq as <-. vm_compute in Hm. discriminate.
  - vm_compute. reflexivity.
Defined.

Lemma one_response_per_request_witness :
  ∃ resp, sent (send_error (VInt 4) error_code.NOT_AUTHENTICATED "send gateway/hello first"
                  SampleSession.session0)
          = sent SampleSession.session0 ++ [to_value resp] ∧ js_id resp = VInt 4 ∧
    ((is_Some (js_result resp) ∧ js_error resp = None) ∨
     (js_result resp = None ∧ is_Some (js_error resp))).
Proof.
  apply (one_response_per_request (HB := SampleWorld.backend) (HL := SampleWorld.link)
    SampleSession.hmac SampleSession.config SampleWorld.defaults "0.1"
    (FReq := SampleSession.req_from_value) (FHello := SampleSession.hello_from_value)
    (FSpawn := SampleSession.spawn_from_value) (FId := SampleSession.id_from_value)
    (FAttach := SampleSession.attach_from_value) (FInvoke := SampleSession.invoke_from_value)
    (FReg := SampleSession.register_from_value) (FUnreg := SampleSession.unreg_from_value)
    (FRegS := SampleSession.regs_from_value) (FUnregS := SampleSession.unregs_from_value)
    SampleSession.draws SampleSession.list_frame SampleSession.session0).
  vm_compute. reflexivity.
Defined.

Lemma register_proxy_outcomes_witness :
  let r' := (do_register_proxy (HL := SampleWorld.link)
    SampleSession.config (FromValue6 := SampleSession.register_from_value)
    SampleSession.draws SampleSession.register_frame SampleWorld.reg1).1 in
  ProxyRegistry.related (proxies r')
    {[("id1", "jina") := ProxyRegistry.mkProxyEntry "id1" "jina" "https://api.jina.ai" ∅ "tok"]}.
Proof.
  pose proof (register_proxy_outcomes (HL := SampleWorld.link)
    SampleSession.config (FReg := SampleSession.register_from_value)
    SampleSession.draws SampleSession.register_frame SampleWorld.reg1 ∅
    ProxyRegistry.related_new (λ k e H, False_ind _ (eq_ind None (λ o, match o with Some _ => False | None => True end)
      I _ H))) as H.
  exact (proj1 (proj2 H)).
Defined.
