(* ===== verification/AgentProxy.v ===== *)
(** The proxy inside the container ([nexal-agent/src/proxy.rs]): HTTP over Unix
    sockets, forwarded to an upstream with the first request's head rewritten. *)
From S2P Require Import Prelude Paths AgentWire.

(** * Upstream urls *)

(* @src crates/nexal-agent/src/proxy.rs UpstreamInfo *)
Record UpstreamInfo := mkUpstreamInfo {
  up_host : string;
  up_port : Z;
  up_tls : bool;
  up_path_prefix : string;
}.

(** [str::split_once] for a text separator: at its first occurrence. *)
Fixpoint split_once_str (sep s : string) : option (string * string) :=
  match strip_prefix sep s with
  | Some r => Some ("", r)
  | None =>
      match s with
      | EmptyString => None
      | String c s' =>
          match split_once_str sep s' with
          | Some (l, r) => Some (String c l, r)
          | None => None
          end
      end
  end.

(** Decimal digits, with the value so far; [None] past [u16::MAX]. *)
Fixpoint parse_digits (acc : Z) (s : string) : option Z :=
  match s with
  | EmptyString => Some acc
  | String c s' =>
      if is_ascii_digit c then
        let acc' := (acc * 10 + (Z.of_N (code c) - 48))%Z in
        if decide (acc' < 2 ^ 16)%Z then parse_digits acc' s' else None
      else None
  end.

(** [str::parse::<u16>]: a plus sign is allowed in front of the digits. *)
Definition parse_u16 (s : string) : option Z :=
  match s with
  | EmptyString => None
  | String c s' =>
      if Ascii.eqb c "+" then if decide (s' = "") then None else parse_digits 0 s'
      else parse_digits 0 s
  end.

(** The text before the first slash, and from it on. *)
Definition split_path (rest : string) : string * string :=
  match split_once "/" rest with
  | Some (l, r) => (l, String "/" r)
  | None => (rest, "")
  end.

(* @src crates/nexal-agent/src/proxy.rs parse_upstream *)
Definition parse_upstream (url : string) : result UpstreamInfo string :=
  sr ←? ok_or (split_once_str "://" url) "missing scheme";
  let tls := bool_decide (sr.1 = "https") in
  let port := if tls then 443%Z else 80%Z in
  let hp := split_path sr.2 in
  hostport ←? match split_once ":" hp.1 with
              | Some (h, p) => res_map (pair h) (ok_or (parse_u16 p) "invalid port")
              | None => Ok (hp.1, port)
              end;
  Ok (mkUpstreamInfo hostport.1 hostport.2 tls hp.2).

(** * Reading the request head *)

(** [windows(needle.len()).position(|w| w == needle)] *)
(* @src crates/nexal-agent/src/proxy.rs find_subsequence *)
Fixpoint find_subsequence (haystack needle : bytes) : option nat :=
  if decide (take (length needle) haystack = needle) then Some 0
  else match haystack with
       | [] => None
       | _ :: h => S <$> find_subsequence h needle
       end.

Definition CRLFCRLF : bytes := [x0d; x0a; x0d; x0a].

Inductive head_result :=
  | HeadEof                               (* the client closed before the end of the head *)
  | HeadErr (e : string)
  | Head (buf : bytes) (headers_end : nat)
  | HeadWaiting (buf : bytes).            (* the reads given ran out *)

(** [reads] are what the socket returns, each at most 8192 bytes; an empty read
    is the end of the stream. *)
(* @src crates/nexal-agent/src/proxy.rs handle_connection "let headers_end;" .. "// Parse just the request line" *)
Fixpoint read_head (reads : list (result bytes string)) (buf : bytes) : head_result :=
  match reads with
  | [] => HeadWaiting buf
  | Err e :: _ => HeadErr e
  | Ok [] :: _ => HeadEof
  | Ok chunk :: reads' =>
      let buf := buf ++ chunk in
      match find_subsequence buf CRLFCRLF with
      | Some pos => Head buf pos
      | None => if decide (1024 * 1024 < len buf)%Z then HeadErr "request head too large"
                else read_head reads' buf
      end
  end.

(** * Rewriting it *)

Definition CRLF : string := String (chr 13) (String (chr 10) "").

(** [str::split(sep)] for a text separator. *)
Fixpoint split_str_fuel (fuel : nat) (sep s : string) : list string :=
  match fuel with
  | O => [s]
  | S fuel' =>
      match split_once_str sep s with
      | Some (l, r) => l :: split_str_fuel fuel' sep r
      | None => [s]
      end
  end.

(** Each split drops a non-empty separator: the length is fuel enough. *)
Definition split_str (sep s : string) : list string := split_str_fuel (String.length s) sep s.

(** [splitn(3, ' ')] *)
Definition splitn3 (s : string) : string * option string * option string :=
  match split_once " " s with
  | None => (s, None, None)
  | Some (a, r) =>
      match split_once " " r with
      | None => (a, Some r, None)
      | Some (b, c) => (a, Some b, Some c)
      end
  end.

(** The lines of the client's head that are forwarded. *)
Definition keeps_line (line : string) : bool :=
  negb (bool_decide (line = "")) &&
  match split_once ":" line with
  | Some (key, _) => negb (eq_ignore_ascii_case (trim key) "host")
  | None => true
  end.

(** [head] is the head without its final blank line; [headers] the injected
    ones in the order the map yields them. *)
(* @src crates/nexal-agent/src/proxy.rs handle_connection "let first_line_end" .. "// Remaining bytes after the header" *)
Definition rewrite_head (upstream : UpstreamInfo) (headers : list (string * string))
    (head : string) : result string string :=
  let lr := match split_once_str CRLF head with
            | Some (l, r) => (l, CRLF +:+ r)
            | None => (head, "")
            end in
  let request_line := lr.1 in
  let rest_headers := lr.2 in
  let '(method, opath, oversion) := splitn3 request_line in
  path ←? ok_or opath "no path";
  let version := default "HTTP/1.1" oversion in
  let new_path := if decide (up_path_prefix upstream = "") then path
                  else trim_end_matches "/" (up_path_prefix upstream) +:+ path in
  let rewritten := method +:+ " " +:+ new_path +:+ " " +:+ version +:+ CRLF in
  let rewritten := rewritten +:+ "Host: " +:+ up_host upstream +:+ CRLF in
  let rewritten := foldl (λ acc line, acc +:+ line +:+ CRLF) rewritten
                     (filter (λ l, keeps_line l = true) (split_str CRLF rest_headers)) in
  let rewritten := foldl (λ acc kv, acc +:+ kv.1 +:+ ": " +:+ kv.2 +:+ CRLF) rewritten headers in
  Ok (rewritten +:+ CRLF).

(** What goes upstream first: the rewritten head, then what was read of the
    body. *)
(* @src crates/nexal-agent/src/proxy.rs handle_connection "// Remaining bytes after the header" .. "// Connect to upstream." *)
Definition remaining_body (buf : bytes) (headers_end : nat) : bytes := drop (headers_end + 4) buf.

(** [from_utf8] checks the head; [utf8_valid] stands for that check. *)
(* @src crates/nexal-agent/src/proxy.rs handle_connection *)
Definition first_bytes (utf8_valid : bytes → bool) (upstream : UpstreamInfo)
    (headers : list (string * string)) (reads : list (result bytes string))
    : option (result bytes string) :=
  match read_head reads [] with
  | HeadWaiting _ | HeadEof => None
  | HeadErr e => Some (Err e)
  | Head buf headers_end =>
      let head := take headers_end buf in
      Some (if utf8_valid head then
              rewritten ←? rewrite_head upstream headers (String.string_of_list_byte head);
              Ok (String.list_byte_of_string rewritten ++ remaining_body buf headers_end)
            else Err "invalid utf-8")
  end.

(** * The manager

    [sockets] is what the container's file system holds at each socket path:
    the number of the listener bound there.  A listener accepts while it is
    in [accepting]. *)

(** A path as a map key: [PathBuf] compares by components. *)
Abbreviation PathKey := (list Component) (only parsing).

#[export] Instance Component_countable : Countable Component.
Proof.
  refine (inj_countable'
    (λ c, match c with
          | RootDir => inl 0 | CurDir => inl 1 | ParentDir => inl 2 | Normal s => inr s end)
    (λ x, match x with
          | inl 0 => RootDir | inl 1 => CurDir | inl _ => ParentDir | inr s => Normal s end) _).
  by intros [].
Defined.

(* @src crates/nexal-agent/src/proxy.rs ProxyManager *)
Record ProxyManager := mkProxyManager {
  instances : gmap (list Component) nat;
  pm_cancelled : gset nat;
  accepting : gset nat;
  sockets : gmap (list Component) nat;
  next_listener : nat;
}.

(* @src crates/nexal-agent/src/proxy.rs ProxyManager::new *)
Definition ProxyManager_new : ProxyManager := mkProxyManager ∅ ∅ ∅ ∅ 0.

(** [old.cancel.cancel()]: its accept loop ends. *)
Definition cancel_instance (i : nat) (m : ProxyManager) : ProxyManager :=
  mkProxyManager (instances m) ({[i]} ∪ pm_cancelled m) (accepting m ∖ {[i]}) (sockets m)
    (next_listener m).

Definition set_sockets (f : gmap (list Component) nat → gmap (list Component) nat)
    (m : ProxyManager) : ProxyManager :=
  mkProxyManager (instances m) (pm_cancelled m) (accepting m) (f (sockets m)) (next_listener m).

(** [dir] and [bound] are what creating the directory and binding give. *)
(* @src crates/nexal-agent/src/proxy.rs ProxyManager::register *)
Definition pm_register (socket_path upstream_url : string) (dir : result unit string)
    (bound : result unit string) (m : ProxyManager) : ProxyManager * result unit string :=
  let path := components socket_path in
  match dir with
  | Err e => (m, Err ("create proxy dir: " +:+ e))
  | Ok _ =>
      let m := set_sockets (delete path) m in
      match bound with
      | Err e => (m, Err ("bind " +:+ socket_path +:+ ": " +:+ e))
      | Ok _ =>
          let l := next_listener m in
          let m := mkProxyManager (instances m) (pm_cancelled m) (accepting m)
                     (<[path := l]> (sockets m)) (S l) in
          match parse_upstream upstream_url with
          | Err e => (m, Err ("invalid upstream URL: " +:+ e))   (* the listener is dropped *)
          | Ok _ =>
              let m := mkProxyManager (instances m) (pm_cancelled m) ({[l]} ∪ accepting m)
                         (sockets m) (next_listener m) in
              let m := match instances m !! path with
                       | Some old => cancel_instance old m
                       | None => m
                       end in
              (mkProxyManager (<[path := l]> (instances m)) (pm_cancelled m) (accepting m)
                 (sockets m) (next_listener m), Ok tt)
          end
      end
  end.

(* @src crates/nexal-agent/src/proxy.rs ProxyManager::unregister *)
Definition pm_unregister (socket_path : string) (m : ProxyManager) : ProxyManager * bool :=
  let path := components socket_path in
  match instances m !! path with
  | Some i =>
      let m := cancel_instance i m in
      (set_sockets (delete path)
         (mkProxyManager (delete path (instances m)) (pm_cancelled m) (accepting m) (sockets m)
            (next_listener m)), true)
  | None => (m, false)
  end.

(* @src crates/nexal-agent/src/proxy.rs ProxyManager::shutdown *)
Definition pm_shutdown (m : ProxyManager) : ProxyManager :=
  let all := map_to_list (instances m) in
  let m := foldl (λ m ki, set_sockets (delete ki.1) (cancel_instance ki.2 m)) m all in
  mkProxyManager ∅ (pm_cancelled m) (accepting m) (sockets m) (next_listener m).

(** * Reading: chunking does not matter *)

Lemma find_subsequence_Some h n pos :
  find_subsequence h n = Some pos → take (length n) (drop pos h) = n.
Proof.
  revert pos. induction h as [|b h IH]; intros pos H; cbn in H; case_decide as E; try done.
  - by injection H as <-.
  - by injection H as <-.
  - destruct (find_subsequence h n) as [p|]; [|done]. injection H as <-. by apply IH.
Qed.

Lemma find_subsequence_app h k n pos :
  find_subsequence h n = Some pos → find_subsequence (h ++ k) n = Some pos.
Proof.
  revert pos. induction h as [|b h IH]; intros pos H; cbn in H.
  - case_decide as E; [|done]. injection H as <-. destruct n as [|x n]; [|done].
    cbn [app]. destruct k; cbn; by case_decide.
  - case_decide as E.
    + injection H as <-. change ((b :: h) ++ k) with (b :: (h ++ k)). cbn [find_subsequence].
      rewrite decide_True; [done|]. change (b :: h ++ k) with ((b :: h) ++ k).
      assert (length n ≤ length (b :: h)) as Hle.
      { rewrite <-E, length_take. lia. }
      by rewrite take_app_le.
    + destruct (find_subsequence h n) as [p|] eqn:Ef; [|done]. injection H as <-.
      change ((b :: h) ++ k) with (b :: (h ++ k)). cbn [find_subsequence].
      rewrite (IH p eq_refl). case_decide as E'; [|done]. exfalso. apply E.
      assert (length n ≤ length h) as Hle.
      { apply find_subsequence_Some in Ef. rewrite <-Ef, length_take, length_drop. lia. }
      rewrite <-E' at 2. change (b :: h ++ k) with ((b :: h) ++ k).
      rewrite take_app_le; [done|cbn; lia].
Qed.

(** A match found in a longer buffer but not before ends in what was added. *)
Lemma find_subsequence_new h k n pos :
  find_subsequence h n = None → find_subsequence (h ++ k) n = Some pos →
  length h < pos + length n.
Proof.
  intros Hn Hs. apply Nat.nle_gt. intros Hle.
  assert (find_subsequence h n ≠ None); [|done]. clear Hn. revert h Hs Hle.
  induction pos as [|pos IH]; intros h Hs Hle.
  - apply find_subsequence_Some in Hs. change (drop 0 (h ++ k)) with (h ++ k) in Hs.
    rewrite take_app_le in Hs by lia. destruct h; cbn [find_subsequence];
      by rewrite decide_True.
  - destruct h as [|b h]; [cbn in Hle; lia|].
    change ((b :: h) ++ k) with (b :: (h ++ k)) in Hs. cbn [find_subsequence] in Hs |- *.
    case_decide as E; [done|]. destruct (find_subsequence (h ++ k) n) as [p|] eqn:Ef; [|done].
    case_decide; [done|]. injection Hs as <-. cbn in Hle.
    specialize (IH h Ef ltac:(lia)). by destruct (find_subsequence h n).
Qed.

(** How the client's bytes arrive in reads does not matter: if the first
    blank line of the stream is at [pos] within the first mebibyte, reading
    stops with exactly that position in a buffer that is a prefix of the
    stream, so the head handed to the rewriter is the stream's first [pos]
    bytes and the body bytes read with it follow, none lost. *)
Theorem read_head_chunking chunks pos :
  Forall (λ c, c ≠ []) chunks →
  find_subsequence (concat chunks) CRLFCRLF = Some pos →
  (Z.of_nat pos + 4 ≤ 1024 * 1024)%Z →
  ∃ k, let buf := concat (take k chunks) in
    read_head (map Ok chunks) [] = Head buf pos ∧
    take pos buf = take pos (concat chunks) ∧
    remaining_body buf pos ++ concat (drop k chunks) = drop (pos + 4) (concat chunks).
Proof.
  intros Hne Hpos Hb.
  enough (∀ rest done, Forall (λ c, c ≠ []) rest → find_subsequence done CRLFCRLF = None →
    find_subsequence (done ++ concat rest) CRLFCRLF = Some pos →
    ∃ k, read_head (map Ok rest) done = Head (done ++ concat (take k rest)) pos ∧
         find_subsequence (done ++ concat (take k rest)) CRLFCRLF = Some pos) as H.
  { destruct (H chunks [] Hne eq_refl Hpos) as (k & Hr & Hf). exists k. cbn zeta.
    rewrite !app_nil_l in *. split; [done|].
    assert (concat chunks = concat (take k chunks) ++ concat (drop k chunks)) as Hcat.
    { by rewrite <-concat_app, take_drop. }
    apply find_subsequence_Some in Hf. assert (pos + 4 ≤ length (concat (take k chunks))) as Hle.
    { apply (f_equal length) in Hf. rewrite length_take, length_drop in Hf. change (length CRLFCRLF) with 4 in Hf. lia. }
    rewrite Hcat. rewrite take_app_le by lia. split; [done|].
    unfold remaining_body. by rewrite drop_app_le by lia. }
  clear Hne Hpos chunks. induction rest as [|c rest IH]; intros dn Hne Hn Hs.
  - cbn in Hs. rewrite app_nil_r in Hs. by rewrite Hn in Hs.
  - apply Forall_cons in Hne as [Hc Hne]. destruct c as [|b c]; [done|]. cbn [map read_head].
    cbn [concat] in Hs. rewrite app_assoc in Hs.
    destruct (find_subsequence (dn ++ b :: c) CRLFCRLF) as [p|] eqn:Ef.
    + assert (p = pos) as ->.
      { eapply find_subsequence_app in Ef. rewrite Ef in Hs. by injection Hs. }
      exists 1. change (concat (take 1 ((b :: c) :: rest))) with ((b :: c) ++ []). by rewrite app_nil_r.
    + assert (len (dn ++ b :: c) ≤ 1024 * 1024)%Z as Hl.
      { pose proof (find_subsequence_new _ _ _ _ Ef Hs) as Hlt. cbn in Hlt.
        unfold len. cbn. lia. }
      rewrite decide_False by lia.
      destruct (IH (dn ++ b :: c) Hne Ef Hs) as (k & Hr & Hf).
      exists (S k). cbn [take concat]. by rewrite app_assoc.
Qed.

(** * The rewritten head, line by line *)

Fixpoint contains_crlf (s : string) : bool :=
  match s with
  | String a (String b _ as t) => (Ascii.eqb a (chr 13) && Ascii.eqb b (chr 10)) || contains_crlf t
  | _ => false
  end.

Lemma contains_crlf_cons a b s :
  contains_crlf (String a (String b s))
  = (Ascii.eqb a (chr 13) && Ascii.eqb b (chr 10)) || contains_crlf (String b s).
Proof. done. Qed.

Lemma strip_crlf_cons c s :
  strip_prefix CRLF (String c s) =
  if Ascii.eqb c (chr 13) then
    match s with String b r => if Ascii.eqb b (chr 10) then Some r else None | "" => None end
  else None.
Proof.
  unfold CRLF. cbn [strip_prefix]. rewrite (Ascii.eqb_sym (chr 13) c).
  destruct (Ascii.eqb c (chr 13)); [|done]. destruct s as [|b r]; [done|].
  cbn [strip_prefix]. rewrite (Ascii.eqb_sym (chr 10) b). by destruct (Ascii.eqb b (chr 10)).
Qed.

Lemma split_once_crlf_None s : split_once_str CRLF s = None ↔ contains_crlf s = false.
Proof.
  induction s as [|c s IH]; [done|].
  change (split_once_str CRLF (String c s)) with
    (match strip_prefix CRLF (String c s) with
     | Some r => Some ("", r)
     | None => match split_once_str CRLF s with Some (l, r) => Some (String c l, r) | None => None end
     end).
  rewrite strip_crlf_cons. destruct s as [|b s].
  - by destruct (Ascii.eqb c (chr 13)).
  - cbn [contains_crlf] in *. destruct (Ascii.eqb c (chr 13)), (Ascii.eqb b (chr 10)) eqn:Eb;
      cbn [andb orb]; try (split; done);
      destruct (split_once_str CRLF (String b s)) as [[l r]|]; split; intros; try done; try (by apply IH); by apply IH in H || done.
Qed.

(** Splitting at the first separator, when what is before has none. *)
Lemma split_once_crlf_app a b :
  contains_crlf a = false → split_once_str CRLF (a +:+ CRLF +:+ b) = Some (a, b).
Proof.
  induction a as [|c a IH]; intros H.
  - reflexivity.
  - change (String c a +:+ CRLF +:+ b) with (String c (a +:+ CRLF +:+ b)).
    cbn [split_once_str]. rewrite strip_crlf_cons.
    assert (contains_crlf a = false) as Ha.
    { destruct a as [|x a]; [done|]. rewrite contains_crlf_cons in H. by apply orb_false_iff in H as [_ ?]. }
    rewrite (IH Ha). destruct (Ascii.eqb c (chr 13)) eqn:Ec; [|done].
    destruct a as [|x a]; [done|].
    change (String x a +:+ CRLF +:+ b) with (String x (a +:+ CRLF +:+ b)). cbn beta iota.
    rewrite contains_crlf_cons, Ec, andb_true_l in H.
    by apply orb_false_iff in H as [-> _].
Qed.

Lemma split_once_crlf_spec s l r :
  split_once_str CRLF s = Some (l, r) → s = l +:+ CRLF +:+ r ∧ contains_crlf l = false.
Proof.
  revert l r. induction s as [|c s IH]; intros l r H; [done|].
  cbn [split_once_str] in H. rewrite strip_crlf_cons in H.
  assert (∀ l' r', split_once_str CRLF s = Some (l', r') → l = String c l' → r = r' →
    strip_prefix CRLF (String c s) = None →
    String c s = l +:+ CRLF +:+ r ∧ contains_crlf l = false) as Hrest.
  { intros l' r' E -> -> Hn. destruct (IH _ _ E) as [-> Hl]. split; [done|].
    rewrite strip_crlf_cons in Hn. destruct l' as [|x l']; [done|].
    rewrite contains_crlf_cons, Hl, orb_false_r.
    destruct (Ascii.eqb c (chr 13)); [|done]. rewrite andb_true_l.
    change (String x l' +:+ CRLF +:+ r') with (String x (l' +:+ CRLF +:+ r')) in Hn.
    cbn beta iota in Hn. by destruct (Ascii.eqb x (chr 10)). }
  destruct (Ascii.eqb c (chr 13)) eqn:Ec.
  - destruct s as [|b s'].
    + done.
    + destruct (Ascii.eqb b (chr 10)) eqn:Eb.
      * apply Ascii.eqb_eq in Ec as ->, Eb as ->. by injection H as <- <-.
      * destruct (split_once_str CRLF (String b s')) as [[l' r']|] eqn:E; [|done].
        injection H as <- <-. eapply Hrest; try done.
        by rewrite strip_crlf_cons, Ec, Eb.
  - destruct (split_once_str CRLF s) as [[l' r']|] eqn:E; [|done].
    injection H as <- <-. eapply Hrest; try done. by rewrite strip_crlf_cons, Ec.
Qed.

Lemma split_fuel_enough n m s :
  String.length s ≤ n → String.length s ≤ m →
  split_str_fuel n CRLF s = split_str_fuel m CRLF s.
Proof.
  revert m s. induction n as [|n IH]; intros m s Hn Hm.
  - assert (s = "") as -> by (destruct s; cbn in Hn; [done|lia]). by destruct m.
  - destruct m as [|m].
    + assert (s = "") as -> by (destruct s; cbn in Hm; [done|lia]). done.
    + cbn [split_str_fuel]. destruct (split_once_str CRLF s) as [[l r]|] eqn:E; [|done].
      apply split_once_crlf_spec in E as [-> _]. f_equal.
      rewrite !string_length_app in Hn, Hm. cbn in Hn, Hm. apply IH; lia.
Qed.

Lemma split_crlf_cons a b :
  contains_crlf a = false → split_str CRLF (a +:+ CRLF +:+ b) = a :: split_str CRLF b.
Proof.
  intros H. unfold split_str at 1.
  destruct (String.length (a +:+ CRLF +:+ b)) as [|n] eqn:El.
  { rewrite !string_length_app in El. cbn in El. lia. }
  cbn [split_str_fuel]. rewrite split_once_crlf_app by done. f_equal.
  apply split_fuel_enough; [|done]. rewrite !string_length_app in El. cbn in El. lia.
Qed.

Lemma split_crlf_pieces s : Forall (λ l, contains_crlf l = false) (split_str CRLF s).
Proof.
  unfold split_str. remember (String.length s) as n eqn:Hn.
  assert (String.length s ≤ n) as Hle by lia. clear Hn.
  revert s Hle. induction n as [|n IH]; intros s Hle; cbn [split_str_fuel].
  - assert (s = "") as -> by (destruct s; cbn in Hle; [done|lia]). by constructor.
  - destruct (split_once_str CRLF s) as [[l r]|] eqn:E.
    + apply split_once_crlf_spec in E as [-> Hl]. constructor; [done|]. apply IH.
      rewrite !string_length_app in Hle. cbn in Hle. lia.
    + constructor; [by apply split_once_crlf_None|constructor].
Qed.

(** A character that is in no line break keeps its sides apart. *)
Lemma contains_crlf_mid a c b :
  c ≠ chr 13 → c ≠ chr 10 →
  contains_crlf (a +:+ String c b) = contains_crlf a || contains_crlf b.
Proof.
  intros H1 H2. assert (contains_crlf (String c b) = contains_crlf b) as Hc.
  { destruct b as [|x b]; [done|]. rewrite contains_crlf_cons.
    apply Ascii.eqb_neq in H1. by rewrite H1. }
  induction a as [|x a IH]; [done|].
  change (String x a +:+ String c b) with (String x (a +:+ String c b)).
  destruct a as [|y a].
  - change ("" +:+ String c b) with (String c b). rewrite contains_crlf_cons, Hc.
    apply Ascii.eqb_neq in H2. by rewrite H2, andb_false_r.
  - change (String y a +:+ String c b) with (String y (a +:+ String c b)) in *.
    rewrite !contains_crlf_cons, IH. by rewrite orb_assoc.
Qed.

Definition no_cr (s : string) : bool := string_forallb (λ c, negb (Ascii.eqb c (chr 13))) s.

Lemma contains_crlf_no_cr a b : no_cr a = true → contains_crlf (a +:+ b) = contains_crlf b.
Proof.
  induction a as [|x a IH]; [done|]. intros H. cbn [no_cr string_forallb] in H.
  apply andb_prop in H as [Hx Ha]. apply negb_true_iff in Hx.
  change (String x a +:+ b) with (String x (a +:+ b)). rewrite <-(IH Ha).
  destruct (a +:+ b) as [|y t]; [done|]. by rewrite contains_crlf_cons, Hx.
Qed.

Lemma no_cr_trim c s : no_cr s = true → no_cr (trim_end_matches c s) = true.
Proof.
  induction s as [|x s IH]; [done|]. intros H. cbn [no_cr string_forallb] in H.
  apply andb_prop in H as [Hx Hs]. cbn [trim_end_matches]. specialize (IH Hs).
  destruct (trim_end_matches c s) as [|y t].
  - destruct (Ascii.eqb x c); [done|]. cbn [no_cr string_forallb]. by rewrite Hx.
  - cbn [no_cr string_forallb] in IH |- *. by rewrite Hx.
Qed.

(** Lines, each ended by a line break. *)
Definition lines_text (ls : list string) : string :=
  foldr (λ l acc, l +:+ CRLF +:+ acc) "" ls.

Lemma foldl_lines init ls :
  foldl (λ acc l, acc +:+ l +:+ CRLF) init ls = init +:+ lines_text ls.
Proof.
  revert init. induction ls as [|l ls IH]; intros init; cbn [foldl lines_text foldr].
  - by rewrite string_app_nil_r.
  - rewrite IH. unfold lines_text. by rewrite !string_app_assoc.
Qed.

Lemma split_lines_text ls t :
  Forall (λ l, contains_crlf l = false) ls →
  split_str CRLF (lines_text ls +:+ t) = ls ++ split_str CRLF t.
Proof.
  induction 1 as [|l ls Hl Hls IH]; [done|]. cbn [lines_text foldr].
  rewrite !string_app_assoc, split_crlf_cons by done. cbn [app]. f_equal. exact IH.
Qed.

Lemma lines_text_cons l ls : lines_text (l :: ls) = l +:+ CRLF +:+ lines_text ls.
Proof. done. Qed.

Lemma lines_text_app a b : lines_text (a ++ b) = lines_text a +:+ lines_text b.
Proof.
  induction a as [|l a IH]; [done|]. cbn [app]. rewrite !lines_text_cons, IH.
  by rewrite !string_app_assoc.
Qed.

Lemma splitn3_no_crlf s m p v :
  splitn3 s = (m, Some p, v) → contains_crlf s = false →
  contains_crlf m = false ∧ contains_crlf p = false ∧
  contains_crlf (default "HTTP/1.1" v) = false.
Proof.
  unfold splitn3. intros H Hs.
  destruct (split_once " " s) as [[a r]|] eqn:E1; [|done].
  apply split_once_spec in E1 as ->. rewrite contains_crlf_mid in Hs by done.
  apply orb_false_iff in Hs as [Ha Hr].
  destruct (split_once " " r) as [[b c]|] eqn:E2.
  - apply split_once_spec in E2 as ->. rewrite contains_crlf_mid in Hr by done.
    apply orb_false_iff in Hr as [Hb Hc]. by injection H as <- <- <-.
  - by injection H as <- <- <-.
Qed.

Lemma filter_tail_empty (P : string → Prop) `{!∀ x, Decision (P x)} l :
  ¬ P "" → filter P ("" :: l) = filter P l.
Proof. intros Hn. by rewrite filter_cons, decide_False. Qed.

(** The first line of a head, and its other lines as the copying loop sees them. *)
Definition head_parts (head : string) : string * string :=
  match split_once_str CRLF head with
  | Some (l, r) => (l, CRLF +:+ r)
  | None => (head, "")
  end.

Lemma head_parts_lines head :
  hd_error (split_str CRLF head) = Some (head_parts head).1 ∧
  contains_crlf (head_parts head).1 = false ∧
  filter (λ l, keeps_line l = true) (split_str CRLF (head_parts head).2)
  = filter (λ l, keeps_line l = true) (tail (split_str CRLF head)).
Proof.
  unfold head_parts. destruct (split_once_str CRLF head) as [[l r]|] eqn:E; cbn [fst snd].
  - apply split_once_crlf_spec in E as [-> Hl]. rewrite split_crlf_cons by done.
    split; [done|]. split; [done|]. cbn [tail].
    change (CRLF +:+ r) with ("" +:+ CRLF +:+ r). rewrite split_crlf_cons by done.
    by apply filter_tail_empty.
  - assert (split_str CRLF head = [head]) as ->.
    { unfold split_str. destruct (String.length head); [done|]. cbn [split_str_fuel]. by rewrite E. }
    split; [done|]. split; [by apply split_once_crlf_None|]. done.
Qed.

Lemma foldl_headers init headers :
  foldl (λ acc kv, acc +:+ kv.1 +:+ ": " +:+ kv.2 +:+ CRLF) init headers
  = init +:+ lines_text (map (λ kv, kv.1 +:+ ": " +:+ kv.2) headers).
Proof.
  revert init. induction headers as [|kv hs IH]; intros init; cbn [foldl map lines_text foldr].
  - by rewrite string_app_nil_r.
  - rewrite IH. unfold lines_text. by rewrite !string_app_assoc.
Qed.

(** The rewritten head, read line by line as the upstream does, is the
    request line with the upstream's path prefix in front of the path, one
    [Host] line for the upstream, the client's other non-empty header lines in
    order without its own [Host], the injected headers, and the blank line:
    whatever bytes the client sends, it can neither add a line nor end the
    head early, as long as the configured values hold no line break. *)
Theorem rewritten_head_lines upstream headers head out :
  rewrite_head upstream headers head = Ok out →
  no_cr (up_path_prefix upstream) = true → contains_crlf (up_host upstream) = false →
  Forall (λ kv, contains_crlf (kv.1 +:+ ": " +:+ kv.2) = false) headers →
  ∃ first method path version,
    hd_error (split_str CRLF head) = Some first ∧ splitn3 first = (method, Some path, version) ∧
    let prefix := if decide (up_path_prefix upstream = "") then ""
                  else trim_end_matches "/" (up_path_prefix upstream) in
    split_str CRLF out =
      (method +:+ " " +:+ (prefix +:+ path) +:+ " " +:+ default "HTTP/1.1" version)
      :: ("Host: " +:+ up_host upstream)
      :: filter (λ l, keeps_line l = true) (tail (split_str CRLF head))
      ++ map (λ kv, kv.1 +:+ ": " +:+ kv.2) headers ++ [""; ""].
Proof.
  intros H Hpre Hhost Hh. unfold rewrite_head in H.
  fold (head_parts head) in H. destruct (head_parts_lines head) as (Hfirst & Hline & Hkept).
  set (lr := head_parts head) in *.
  destruct (splitn3 lr.1) as [[method opath] oversion] eqn:E3.
  apply res_bind_Ok in H as (path & Hpath & H). apply ok_or_Ok in Hpath. subst opath.
  destruct (splitn3_no_crlf _ _ _ _ E3 Hline) as (Hm & Hp & Hv).
  exists lr.1, method, path, oversion. split; [done|]. split; [done|]. cbn zeta.
  set (prefix := if decide (up_path_prefix upstream = "") then ""
                 else trim_end_matches "/" (up_path_prefix upstream)).
  replace (if decide (up_path_prefix upstream = "") then path
           else trim_end_matches "/" (up_path_prefix upstream) +:+ path)
    with (prefix +:+ path) in H by (unfold prefix; by case_decide).
  assert (no_cr prefix = true) as Hprefix.
  { unfold prefix. case_decide; [done|]. by apply no_cr_trim. }
  clearbody prefix lr.
  set (line := method +:+ " " +:+ (prefix +:+ path) +:+ " " +:+ default "HTTP/1.1" oversion).
  assert (contains_crlf line = false) as Hl.
  { unfold line. change (method +:+ " " +:+ ?x) with (method +:+ String " " x).
    rewrite contains_crlf_mid by done.
    change ((prefix +:+ path) +:+ " " +:+ ?x) with ((prefix +:+ path) +:+ String " " x).
    rewrite contains_crlf_mid by done. rewrite contains_crlf_no_cr by done.
    by rewrite Hm, Hp, Hv. }
  rewrite foldl_lines in H.
  rewrite foldl_headers in H. injection H as <-.
  set (kept := filter (λ l, keeps_line l = true) (split_str CRLF lr.2)) in *.
  transitivity (split_str CRLF (lines_text (line :: ("Host: " +:+ up_host upstream)
    :: kept ++ map (λ kv, kv.1 +:+ ": " +:+ kv.2) headers) +:+ CRLF)).
  { f_equal. rewrite !lines_text_cons, lines_text_app. unfold line.
    by rewrite !string_app_assoc. }
  rewrite split_lines_text.
  - cbn [app]. rewrite Hkept, <-app_assoc. done.
  - constructor; [done|]. constructor.
    { by rewrite contains_crlf_no_cr. }
    apply Forall_app. split; [|by apply Forall_map].
    apply Forall_forall. intros l [_ Hin]%list_elem_of_filter.
    pose proof (split_crlf_pieces lr.2) as Hall. rewrite Forall_forall in Hall. auto.
Qed.

(** * The manager's table and the sockets on disk *)

Definition serves (m : ProxyManager) (path : list Component) (i : nat) : Prop :=
  sockets m !! path = Some i ∧ i ∈ accepting m.

(** Registering a socket again with an upstream url that does not parse
    breaks the proxy that was there: the call returns an error, the manager
    still lists the old instance (so that unregistering reports success), but
    the socket file now belongs to a listener that was dropped, and nothing
    accepts on it. *)
Theorem failed_register_breaks_proxy path url old m e :
  parse_upstream url = Err e →
  instances m !! components path = Some old → serves m (components path) old →
  (∀ i, i ∈ accepting m → i < next_listener m) →
  let m' := (pm_register path url (Ok tt) (Ok tt) m).1 in
  (pm_register path url (Ok tt) (Ok tt) m).2 = Err ("invalid upstream URL: " +:+ e) ∧
  instances m' !! components path = Some old ∧
  (pm_unregister path m').2 = true ∧
  (∀ i, ¬ serves m' (components path) i).
Proof.
  intros He Hi [_ Ho] Hf m'. unfold m', pm_register. rewrite He. cbn.
  split; [done|]. split; [done|]. split.
  - unfold pm_unregister. cbn. by rewrite Hi.
  - intros i [Hs Ha]. cbn in Hs, Ha. rewrite lookup_insert_eq in Hs. injection Hs as <-.
    apply Hf in Ha. lia.
Qed.

(** What the manager promises: each listed instance is the live listener its
    socket file leads to, and only listed instances accept. *)
Record pm_ok (m : ProxyManager) : Prop := {
  pm_serves : ∀ path i, instances m !! path = Some i → serves m path i;
  pm_listed : ∀ i, i ∈ accepting m → ∃ path, instances m !! path = Some i;
  pm_inj : ∀ p1 p2 i, instances m !! p1 = Some i → instances m !! p2 = Some i → p1 = p2;
  pm_next : ∀ i, i ∈ accepting m → i < next_listener m;
}.

Lemma pm_ok_new : pm_ok ProxyManager_new.
Proof.
  split; cbn.
  - intros path i H. by rewrite lookup_empty in H.
  - intros i H. by apply not_elem_of_empty in H.
  - intros p1 p2 i H. by rewrite lookup_empty in H.
  - intros i H. by apply not_elem_of_empty in H.
Qed.

Lemma pm_ok_unlist m k i0 pc :
  pm_ok m → instances m !! k = Some i0 →
  pm_ok (mkProxyManager (delete k (instances m)) pc (accepting m ∖ {[i0]})
           (delete k (sockets m)) (next_listener m)).
Proof.
  intros [Hs Hl Hj Hn] E. split; unfold serves; cbn.
  - intros p i [Hne H]%lookup_delete_Some. rewrite lookup_delete_ne by done.
    destruct (Hs _ _ H) as [? ?]. split; [done|]. apply elem_of_difference.
    rewrite elem_of_singleton. split; [done|]. intros ->. by destruct Hne; eapply Hj.
  - intros i. rewrite elem_of_difference, elem_of_singleton. intros [Hi Hne].
    destruct (Hl _ Hi) as [p Hp]. exists p. apply lookup_delete_Some. split; [|done].
    intros <-. by simplify_eq.
  - intros p1 p2 i [_ H1]%lookup_delete_Some [_ H2]%lookup_delete_Some. by eapply Hj.
  - intros i. rewrite elem_of_difference. intros [Hi _]. by apply Hn.
Qed.

Lemma pm_ok_list m k pc :
  pm_ok m → instances m !! k = None →
  pm_ok (mkProxyManager (<[k := next_listener m]> (instances m)) pc
           ({[next_listener m]} ∪ accepting m) (<[k := next_listener m]> (sockets m))
           (S (next_listener m))).
Proof.
  intros [Hs Hl Hj Hn] E. set (l := next_listener m) in *.
  assert (∀ p i, instances m !! p = Some i → i < l) as Hlt.
  { intros p i H. apply Hn. by destruct (Hs _ _ H). }
  split; unfold serves; cbn.
  - intros p i [[<- <-]|[Hne H]]%lookup_insert_Some; rewrite elem_of_union, elem_of_singleton.
    + rewrite lookup_insert_eq. auto.
    + rewrite lookup_insert_ne by done. destruct (Hs _ _ H). auto.
  - intros i. rewrite elem_of_union, elem_of_singleton.
    intros [->|Hi]; [exists k; by rewrite lookup_insert_eq|].
    destruct (Hl _ Hi) as [p Hpi]. exists p. rewrite lookup_insert_ne; [done|].
    intros <-. by rewrite E in Hpi.
  - intros p1 p2 i [[<- <-]|[H1n H1]]%lookup_insert_Some
      [[<- ?]|[H2n H2]]%lookup_insert_Some; [done| | |by eapply Hj].
    + apply Hlt in H2. lia.
    + subst. apply Hlt in H1. lia.
  - intros i. rewrite elem_of_union, elem_of_singleton. intros [->|Hi%Hn]; lia.
Qed.

(** The proxy manager keeps its promise: a register call whose url parses
    and whose bind succeeds, and any unregister, leaves every listed socket
    path served by its own live listener and no other listener accepting;
    after a successful register the path is listed, and after an unregister
    it is not. *)
Theorem proxy_manager_serves m :
  pm_ok m →
  (∀ path url info, parse_upstream url = Ok info →
     pm_ok (pm_register path url (Ok tt) (Ok tt) m).1 ∧
     is_Some (instances (pm_register path url (Ok tt) (Ok tt) m).1 !! components path)) ∧
  (∀ path, pm_ok (pm_unregister path m).1 ∧
     instances (pm_unregister path m).1 !! components path = None).
Proof.
  intros Hm. split.
  - intros path url info Hp. unfold pm_register. rewrite Hp. cbn.
    destruct (instances m !! components path) as [old|] eqn:Eo; cbn;
      (split; [|by rewrite lookup_insert_eq]).
    + pose proof (pm_ok_list _ (components path) ({[old]} ∪ pm_cancelled m)
        (pm_ok_unlist _ _ _ (pm_cancelled m) Hm Eo) (lookup_delete_eq _ _)) as H.
      cbn in H. rewrite !insert_delete_eq in H. rewrite insert_delete_eq.
      replace (({[next_listener m]} ∪ accepting m) ∖ {[old]})
        with ({[next_listener m]} ∪ accepting m ∖ {[old]}); [done|].
      assert (old < next_listener m).
      { apply (pm_next _ Hm). by destruct (pm_serves _ Hm _ _ Eo). }
      apply set_eq. intros i. rewrite elem_of_difference, !elem_of_union, elem_of_difference,
        !elem_of_singleton. split; [intros [->|[? ?]]; (split; [auto|lia || done])|].
      intros [[->|?] ?]; auto.
    + rewrite insert_delete_eq. by apply pm_ok_list.
  - intros path. unfold pm_unregister.
    destruct (instances m !! components path) as [i0|] eqn:E; [|done].
    unfold set_sockets, cancel_instance. cbn.
    split; [by apply (pm_ok_unlist m)|apply lookup_delete_eq].
Qed.

(** ** Witnesses *)

Definition sample_manager : ProxyManager :=
  (pm_register "/run/p.socket" "http://gw:5501/p/tok" (Ok tt) (Ok tt) ProxyManager_new).1.

Definition sample_head : string :=
  "GET /v1/x HTTP/1.1" +:+ CRLF +:+ "Accept: */*" +:+ CRLF +:+ "Host : evil".

Definition sample_upstream : UpstreamInfo := mkUpstreamInfo "api.jina.ai" 443 true "/bot/".

Lemma read_head_chunking_witness :
  ∃ k, let buf := concat (take k [[x41; x0d]; [x0a; x0d; x0a; x42]; [x43]]) in
    read_head (map Ok [[x41; x0d]; [x0a; x0d; x0a; x42]; [x43]]) [] = Head buf 1 ∧
    take 1 buf = take 1 (concat [[x41; x0d]; [x0a; x0d; x0a; x42]; [x43]]) ∧
    remaining_body buf 1 ++ concat (drop k [[x41; x0d]; [x0a; x0d; x0a; x42]; [x43]])
    = drop (1 + 4) (concat [[x41; x0d]; [x0a; x0d; x0a; x42]; [x43]]).
Proof.
  apply (read_head_chunking [[x41; x0d]; [x0a; x0d; x0a; x42]; [x43]] 1).
  - by repeat constructor.
  - vm_compute. reflexivity.
  - lia.
Defined.

Lemma rewritten_head_lines_witness :
  ∃ first method path version,
    hd_error (split_str CRLF sample_head) = Some first ∧
    splitn3 first = (method, Some path, version) ∧
    let prefix := if decide (up_path_prefix sample_upstream = "") then ""
                  else trim_end_matches "/" (up_path_prefix sample_upstream) in
    split_str CRLF (match rewrite_head sample_upstream [("X-Key", "v")] sample_head with
                    | Ok s => s | Err e => e end) =
      (method +:+ " " +:+ (prefix +:+ path) +:+ " " +:+ default "HTTP/1.1" version)
      :: ("Host: " +:+ up_host sample_upstream)
      :: filter (λ l, keeps_line l = true) (tail (split_str CRLF sample_head))
      ++ map (λ kv, kv.1 +:+ ": " +:+ kv.2) [("X-Key", "v")] ++ [""; ""].
Proof.
  apply (rewritten_head_lines sample_upstream [("X-Key", "v")] sample_head).
  - vm_compute. reflexivity.
  - vm_compute. reflexivity.
  - vm_compute. reflexivity.
  - constructor; [vm_compute; reflexivity|constructor].
Defined.

Lemma sample_manager_ok : pm_ok sample_manager.
Proof.
  unfold sample_manager, pm_register.
  destruct (parse_upstream "http://gw:5501/p/tok") eqn:E; [|by vm_compute in E].
  cbn. rewrite delete_empty. apply (pm_ok_list ProxyManager_new); [apply pm_ok_new|done].
Qed.

Lemma failed_register_breaks_proxy_witness :
  instances (pm_register "/run//p.socket" "jina.ai" (Ok tt) (Ok tt) sample_manager).1
    !! components "/run//p.socket" = Some 0.
Proof.
  apply (failed_register_breaks_proxy "/run//p.socket" "jina.ai" 0 sample_manager
           "missing scheme").
  - reflexivity.
  - vm_compute. reflexivity.
  - split; vm_compute; reflexivity.
  - apply (pm_next _ sample_manager_ok).
Defined.

Lemma proxy_manager_serves_witness :
  pm_ok (pm_unregister "/run/p.socket" sample_manager).1.
Proof. apply (proxy_manager_serves sample_manager). apply sample_manager_ok. Defined.
