(* ===== verification/AgentFs.v ===== *)
(** The agent's file operations ([nexal-agent/src/fs/local.rs],
    [fs/mod.rs], [server/services/file_system.rs]) over an interface to the
    operating system's file calls. *)
From S2P Require Import Prelude Paths Wire AgentWire.

(** * The operating system *)

Inductive IoKind := NotFound | InvalidInput | OtherKind.

#[export] Instance IoKind_eq_dec : EqDecision IoKind.
Proof. solve_decision. Defined.

Record IoError := mkIoError { io_kind : IoKind; io_text : string }.

(** Times are milliseconds since the epoch; [None] where the platform has none. *)
Record Metadata := mkMetadata {
  md_len : Z;
  md_is_dir : bool;
  md_is_file : bool;
  md_is_symlink : bool;
  md_created : option Z;
  md_modified : option Z;
}.

Class Os (FS : Type) := {
  os_metadata : string → FS → result Metadata IoError;
  os_symlink_metadata : string → FS → result Metadata IoError;
  os_read : string → FS → result bytes IoError;
  os_write : string → bytes → FS → FS * result unit IoError;
  os_create_dir : string → FS → FS * result unit IoError;
  os_create_dir_all : string → FS → FS * result unit IoError;
  (* entries by name with their own type, not followed *)
  os_read_dir : string → FS → result (list (result (string * Metadata) IoError)) IoError;
  os_remove_dir : string → FS → FS * result unit IoError;
  os_remove_dir_all : string → FS → FS * result unit IoError;
  os_remove_file : string → FS → FS * result unit IoError;
  os_copy : string → string → FS → FS * result unit IoError;
  os_canonicalize : string → FS → result string IoError;
  os_exists : string → FS → bool;
  os_read_link : string → FS → result string IoError;
  os_symlink : string → string → FS → FS * result unit IoError;
}.

(** * Data *)

(* @src crates/nexal-agent/src/fs/mod.rs CreateDirectoryOptions *)
Record CreateDirectoryOptions := mkCreateDirectoryOptions { cdo_recursive : bool }.

(* @src crates/nexal-agent/src/fs/mod.rs RemoveOptions *)
Record RemoveOptions := mkRemoveOptions { rmo_recursive : bool; rmo_force : bool }.

(* @src crates/nexal-agent/src/fs/mod.rs CopyOptions *)
Record CopyOptions := mkCopyOptions { cpo_recursive : bool }.

(* @src crates/nexal-agent/src/fs/mod.rs FileMetadata *)
Record FileMetadata := mkFileMetadata {
  fm_is_directory : bool;
  fm_is_file : bool;
  fm_created_at_ms : Z;
  fm_modified_at_ms : Z;
}.

(* @src crates/nexal-agent/src/fs/mod.rs ReadDirectoryEntry *)
Record ReadDirectoryEntry := mkReadDirectoryEntry {
  rde_file_name : string;
  rde_is_directory : bool;
  rde_is_file : bool;
}.

(* @src crates/nexal-agent/src/fs/local.rs MAX_READ_FILE_BYTES *)
Definition MAX_READ_FILE_BYTES : Z := 512 * 1024 * 1024.

(* @src crates/nexal-agent/src/fs/local.rs system_time_to_unix_ms *)
Definition system_time_to_unix_ms (time : Z) : Z :=
  if decide (0 ≤ time < 2 ^ 63)%Z then time else 0.

Definition invalid_input (text : string) : IoError := mkIoError InvalidInput text.

(** * Where a copy would land *)

(** [PathBuf::push] and [pop] on the components of a path. *)
Definition push_component (acc : list Component) (c : Component) : list Component :=
  match c with
  | RootDir => [RootDir]
  | CurDir => acc
  | ParentDir => match last acc with Some (Normal _) => removelast acc | _ => acc end
  | Normal s => acc ++ [Normal s]
  end.

(* @src crates/nexal-agent/src/fs/local.rs resolve_copy_destination_path "let mut normalized" .. "let mut unresolved_suffix" *)
Definition normalize (path : string) : list Component :=
  foldl push_component [] (components path).

Section local.
Context {FS : Type} {HO : Os FS}.

(** Walk up from the end of the path ([rev] of its components) to the nearest
    path that exists; the names left behind, in order. *)
(* @src crates/nexal-agent/src/fs/local.rs resolve_copy_destination_path "while !existing_path.exists()" .. "let mut resolved" *)
Fixpoint existing_prefix (rcs : list Component) (suffix : list string) (fs : FS)
    : string * list string :=
  let path := of_components (rev rcs) in
  if os_exists path fs then (path, suffix)
  else match rcs with
       | Normal name :: rcs' => existing_prefix rcs' (name :: suffix) fs
       | _ => (path, suffix)
       end.

(* @src crates/nexal-agent/src/fs/local.rs resolve_copy_destination_path *)
Definition resolve_copy_destination_path (path : string) (fs : FS) : result string IoError :=
  let es := existing_prefix (rev (normalize path)) [] fs in
  resolved ←? os_canonicalize es.1 fs;
  Ok (foldl path_join resolved es.2).

(* @src crates/nexal-agent/src/fs/local.rs destination_is_same_or_descendant_of_source *)
Definition destination_is_same_or_descendant_of_source (source destination : string) (fs : FS)
    : result bool IoError :=
  source ←? os_canonicalize source fs;
  destination ←? resolve_copy_destination_path destination fs;
  Ok (path_starts_with destination source).

(* @src crates/nexal-agent/src/fs/local.rs copy_symlink *)
Definition copy_symlink (source target : string) (fs : FS) : FS * result unit IoError :=
  match os_read_link source fs with
  | Err e => (fs, Err e)
  | Ok link_target => os_symlink link_target target fs
  end.

(** [fuel] bounds the depth of the tree; [None] is a deeper tree. *)
(* @src crates/nexal-agent/src/fs/local.rs copy_dir_recursive *)
Fixpoint copy_dir_recursive (fuel : nat) (source target : string) (fs : FS)
    : option (FS * result unit IoError) :=
  match fuel with
  | O => None
  | S fuel' =>
      match os_create_dir_all target fs with
      | (fs, Err e) => Some (fs, Err e)
      | (fs, Ok _) =>
          match os_read_dir source fs with
          | Err e => Some (fs, Err e)
          | Ok entries =>
              (fix go (entries : list (result (string * Metadata) IoError)) (fs : FS) :=
                 match entries with
                 | [] => Some (fs, Ok tt)
                 | Err e :: _ => Some (fs, Err e)
                 | Ok (name, file_type) :: entries' =>
                     let source_path := path_join source name in
                     let target_path := path_join target name in
                     let r :=
                       if md_is_dir file_type then
                         copy_dir_recursive fuel' source_path target_path fs
                       else if md_is_file file_type then Some (os_copy source_path target_path fs)
                       else if md_is_symlink file_type then
                         Some (copy_symlink source_path target_path fs)
                       else Some (fs, Ok tt) in
                     match r with
                     | None => None
                     | Some (fs, Err e) => Some (fs, Err e)
                     | Some (fs, Ok _) => go entries' fs
                     end
                 end) entries fs
          end
      end
  end.

(** * [LocalFileSystem] *)

(* @src crates/nexal-agent/src/fs/local.rs LocalFileSystem::read_file *)
Definition local_read_file (path : string) (fs : FS) : result bytes IoError :=
  metadata ←? os_metadata path fs;
  if decide (MAX_READ_FILE_BYTES < md_len metadata)%Z then
    Err (invalid_input ("file is too large to read: limit is " +:+ pretty MAX_READ_FILE_BYTES
           +:+ " bytes"))
  else os_read path fs.

(* @src crates/nexal-agent/src/fs/local.rs LocalFileSystem::write_file *)
Definition local_write_file (path : string) (contents : bytes) (fs : FS) : FS * result unit IoError :=
  os_write path contents fs.

(* @src crates/nexal-agent/src/fs/local.rs LocalFileSystem::create_directory *)
Definition local_create_directory (path : string) (o : CreateDirectoryOptions) (fs : FS)
    : FS * result unit IoError :=
  if cdo_recursive o then os_create_dir_all path fs else os_create_dir path fs.

(* @src crates/nexal-agent/src/fs/local.rs LocalFileSystem::get_metadata *)
Definition local_get_metadata (path : string) (fs : FS) : result FileMetadata IoError :=
  md ←? os_metadata path fs;
  Ok (mkFileMetadata (md_is_dir md) (md_is_file md)
        (default 0%Z (system_time_to_unix_ms <$> md_created md))
        (default 0%Z (system_time_to_unix_ms <$> md_modified md))).

(** [metadata(entry.path())] follows links, unlike the entry's own type. *)
(* @src crates/nexal-agent/src/fs/local.rs LocalFileSystem::read_directory *)
Definition local_read_directory (path : string) (fs : FS) : result (list ReadDirectoryEntry) IoError :=
  entries ←? os_read_dir path fs;
  (fix go (entries : list (result (string * Metadata) IoError)) :=
     match entries with
     | [] => Ok []
     | Err e :: _ => Err e
     | Ok (name, _) :: entries' =>
         md ←? os_metadata (path_join path name) fs;
         rest ←? go entries';
         Ok (mkReadDirectoryEntry name (md_is_dir md) (md_is_file md) :: rest)
     end) entries.

(* @src crates/nexal-agent/src/fs/local.rs LocalFileSystem::remove *)
Definition local_remove (path : string) (o : RemoveOptions) (fs : FS) : FS * result unit IoError :=
  match os_symlink_metadata path fs with
  | Ok md =>
      if md_is_dir md then
        if rmo_recursive o then os_remove_dir_all path fs else os_remove_dir path fs
      else os_remove_file path fs
  | Err err =>
      if bool_decide (io_kind err = NotFound) && rmo_force o then (fs, Ok tt) else (fs, Err err)
  end.

(* @src crates/nexal-agent/src/fs/local.rs LocalFileSystem::copy *)
Definition local_copy (fuel : nat) (source destination : string) (o : CopyOptions) (fs : FS)
    : option (FS * result unit IoError) :=
  match os_symlink_metadata source fs with
  | Err e => Some (fs, Err e)
  | Ok md =>
      if md_is_dir md then
        if negb (cpo_recursive o) then
          Some (fs, Err (invalid_input
            "fs/copy requires recursive: true when sourcePath is a directory"))
        else
          match destination_is_same_or_descendant_of_source source destination fs with
          | Err e => Some (fs, Err e)
          | Ok true => Some (fs, Err (invalid_input
              "fs/copy cannot copy a directory to itself or one of its descendants"))
          | Ok false => copy_dir_recursive fuel source destination fs
          end
      else if md_is_symlink md then Some (copy_symlink source destination fs)
      else if md_is_file md then Some (os_copy source destination fs)
      else Some (fs, Err (invalid_input
             "fs/copy only supports regular files, directories, and symlinks"))
  end.

(** * [FileSystemHandler] *)

(* @src crates/nexal-agent/src/server/services/file_system.rs map_fs_error *)
Definition map_fs_error (err : IoError) : ChannelError :=
  if decide (io_kind err = InvalidInput) then invalid_request (io_text err)
  else internal_error (io_text err).

(* @src crates/nexal-agent/src/server/services/file_system.rs FileSystemHandler::read_file *)
Definition fs_read_file (p : FsReadFileParams) (fs : FS) : result FsReadFileResponse ChannelError :=
  data ←? map_err map_fs_error (local_read_file (frf_path p) fs);
  Ok (mkFsReadFileResponse data).

(* @src crates/nexal-agent/src/server/services/file_system.rs FileSystemHandler::write_file *)
Definition fs_write_file (p : FsWriteFileParams) (fs : FS)
    : FS * result FsWriteFileResponse ChannelError :=
  let r := local_write_file (fwf_path p) (fwf_data p) fs in
  (r.1, res_map (λ _, mkFsWriteFileResponse) (map_err map_fs_error r.2)).

(* @src crates/nexal-agent/src/server/services/file_system.rs FileSystemHandler::create_directory *)
Definition fs_create_directory (p : FsCreateDirectoryParams) (fs : FS)
    : FS * result FsCreateDirectoryResponse ChannelError :=
  let r := local_create_directory (fcd_path p)
             (mkCreateDirectoryOptions (default true (fcd_recursive p))) fs in
  (r.1, res_map (λ _, mkFsCreateDirectoryResponse) (map_err map_fs_error r.2)).

(* @src crates/nexal-agent/src/server/services/file_system.rs FileSystemHandler::get_metadata *)
Definition fs_get_metadata (p : FsGetMetadataParams) (fs : FS)
    : result FsGetMetadataResponse ChannelError :=
  md ←? map_err map_fs_error (local_get_metadata (fgm_path p) fs);
  Ok (mkFsGetMetadataResponse (fm_is_directory md) (fm_is_file md) (fm_created_at_ms md)
        (fm_modified_at_ms md)).

(* @src crates/nexal-agent/src/server/services/file_system.rs FileSystemHandler::read_directory *)
Definition fs_read_directory (p : FsReadDirectoryParams) (fs : FS)
    : result FsReadDirectoryResponse ChannelError :=
  entries ←? map_err map_fs_error (local_read_directory (frd_path p) fs);
  Ok (mkFsReadDirectoryResponse
        (map (λ e, mkFsReadDirectoryEntry (rde_file_name e) (rde_is_directory e) (rde_is_file e))
           entries)).

(* @src crates/nexal-agent/src/server/services/file_system.rs FileSystemHandler::remove *)
Definition fs_remove (p : FsRemoveParams) (fs : FS) : FS * result FsRemoveResponse ChannelError :=
  let r := local_remove (frm_path p)
             (mkRemoveOptions (default true (frm_recursive p)) (default true (frm_force p))) fs in
  (r.1, res_map (λ _, mkFsRemoveResponse) (map_err map_fs_error r.2)).

(* @src crates/nexal-agent/src/server/services/file_system.rs FileSystemHandler::copy *)
Definition fs_copy (fuel : nat) (p : FsCopyParams) (fs : FS)
    : option (FS * result FsCopyResponse ChannelError) :=
  r ← local_copy fuel (fcp_source_path p) (fcp_destination_path p)
        (mkCopyOptions (fcp_recursive p)) fs;
  Some (r.1, res_map (λ _, mkFsCopyResponse) (map_err map_fs_error r.2)).
(** * The copy guard *)

(** A name a path component can carry. *)
Definition plain (s : string) : Prop := components s = [Normal s] ∧ leading s = [].

Lemma component_plain s p : Normal s ∈ components p → plain s.
Proof.
  unfold components. intros [H|H]%elem_of_app.
  - exfalso. destruct (is_absolute p); [by apply list_elem_of_singleton in H|].
    destruct (split_on "/" p) as [|w ?]; [by apply elem_of_nil in H|].
    destruct (decide (w = ".")); [by apply list_elem_of_singleton in H|by apply elem_of_nil in H].
  - apply list_elem_of_In, in_flat_map in H as (w & Hw & Hin).
    apply list_elem_of_In in Hw, Hin. unfold segment in Hin.
    destruct (decide (w = "")) as [|Hne]; [by apply elem_of_nil in Hin|].
    destruct (decide (w = ".")) as [|Hd]; [by apply elem_of_nil in Hin|].
    destruct (decide (w = "..")) as [|Hdd]; [by apply list_elem_of_singleton in Hin|].
    apply list_elem_of_singleton in Hin as [= <-].
    apply split_on_no_sep in Hw.
    assert (is_absolute s = false) as Ha.
    { destruct s as [|a s]; [done|]. unfold is_absolute, starts_with. cbn [strip_prefix].
      destruct (Ascii.eqb_spec "/" a) as [<-|]; [|done]. cbn in Hw. by destruct (split_on_cons_ne "/" s) as (? & ? & E); rewrite E in Hw. }
    split; [|unfold leading; by rewrite Ha, Hw, decide_False].
    rewrite components_eq. unfold leading. rewrite Ha, Hw, decide_False by done. cbn.
    unfold segment. by rewrite !decide_False.
Qed.

Lemma normalize_elem c p : c ∈ normalize p → c = RootDir ∨ c ∈ components p.
Proof.
  unfold normalize.
  enough (∀ cs acc, (∀ c, c ∈ acc → c = RootDir ∨ c ∈ components p) → cs ⊆ components p →
            ∀ c, c ∈ foldl push_component acc cs → c = RootDir ∨ c ∈ components p) as H.
  { apply (H (components p) []); [|done]. by intros ? ?%elem_of_nil. }
  clear c. induction cs as [|d cs IH]; intros acc Hacc Hcs c Hc; [by apply Hacc|].
  cbn in Hc. apply (IH (push_component acc d)); [|set_solver|done].
  intros x Hx. assert (d ∈ components p) by set_solver.
  destruct d as [| | |n]; cbn in Hx.
  - left. by apply list_elem_of_singleton.
  - by apply Hacc.
  - destruct (last acc) as [[]|] eqn:El; try by apply Hacc.
    apply Hacc. apply last_Some in El as [l ->]. rewrite removelast_last in Hx. set_solver.
  - apply elem_of_app in Hx as [?| ->%list_elem_of_singleton]; [by apply Hacc|by right].
Qed.

Lemma components_joins names r :
  Forall plain names → components (foldl path_join r names) = components r ++ map Normal names.
Proof.
  intros H. revert r. induction H as [|n names [Hc Hl] _ IH]; intros r; cbn; [by rewrite app_nil_r|].
  rewrite IH, components_join, Hc by done. by rewrite <-app_assoc.
Qed.

(** The walk up stops at the longest prefix that exists. *)
Lemma existing_prefix_spec pre names suffix (fs : FS) :
  os_exists (of_components pre) fs = true →
  (∀ k, 0 < k ≤ length names → os_exists (of_components (pre ++ map Normal (take k names))) fs = false) →
  existing_prefix (rev (pre ++ map Normal names)) suffix fs
  = (of_components pre, names ++ suffix).
Proof.
  revert suffix. induction names as [|n names IH] using rev_ind; intros suffix He Hn.
  - rewrite app_nil_r. destruct (rev pre) as [|c cs] eqn:Er; cbn [existing_prefix];
      rewrite <-?Er, rev_involutive, He; done.
  - rewrite map_app, app_assoc, rev_app_distr. cbn [map rev app existing_prefix].
    rewrite rev_involutive, <-app_assoc. change [Normal n] with (map Normal [n]).
    rewrite <-map_app.
    rewrite length_app in Hn. cbn in Hn.
    pose proof (Hn (length names + 1)) as Hlast. rewrite take_ge in Hlast by (rewrite length_app; cbn; lia).
    rewrite Hlast by lia. rewrite IH; [by rewrite <-app_assoc|done|].
    intros k Hk. specialize (Hn k). rewrite take_app_le in Hn by lia. apply Hn. lia.
Qed.

(** Copying a directory is refused exactly when it would land in itself:
    with [s] where the source really is and [r] where the nearest existing
    ancestor of the destination really is, nothing is created if the source is
    a prefix of [r] followed by the names still to be made (the tree would
    copy itself forever), and otherwise the whole tree is copied. *)
Theorem copy_guard fuel p (fs : FS) md s r pre names :
  os_symlink_metadata (fcp_source_path p) fs = Ok md → md_is_dir md = true →
  fcp_recursive p = true →
  os_canonicalize (fcp_source_path p) fs = Ok s →
  normalize (fcp_destination_path p) = pre ++ map Normal names →
  os_exists (of_components pre) fs = true →
  (∀ k, 0 < k ≤ length names → os_exists (of_components (pre ++ map Normal (take k names))) fs = false) →
  os_canonicalize (of_components pre) fs = Ok r →
  fs_copy fuel p fs =
    if bool_decide (components s `prefix_of` components r ++ map Normal names) then
      Some (fs, Err (invalid_request
        "fs/copy cannot copy a directory to itself or one of its descendants"))
    else
      (λ cr, (cr.1, res_map (λ _, mkFsCopyResponse) (map_err map_fs_error cr.2))) <$>
        copy_dir_recursive fuel (fcp_source_path p) (fcp_destination_path p) fs.
Proof.
  intros Hmd Hd Hrec Hs Hn He Hne Hr.
  assert (Forall plain names) as Hp.
  { apply Forall_forall. intros n Hin. apply (component_plain n (fcp_destination_path p)).
    destruct (normalize_elem (Normal n) (fcp_destination_path p)); [|done|done].
    rewrite Hn. apply elem_of_app. right. by apply list_elem_of_fmap_2. }
  unfold fs_copy, local_copy. cbn [cpo_recursive]. rewrite Hmd, Hd, Hrec. cbn [negb].
  unfold destination_is_same_or_descendant_of_source, resolve_copy_destination_path.
  rewrite Hs, Hn, existing_prefix_spec by done. cbn. rewrite app_nil_r, Hr. cbn.
  unfold path_starts_with. rewrite components_joins by done.
  case_bool_decide; [done|].
  by destruct (copy_dir_recursive fuel _ _ fs).
Qed.
End local.

(** * Witnesses: a file system without links *)

Module SampleFiles.
Definition no_file : IoError := mkIoError NotFound "No such file or directory".

(** Nodes by absolute path: [None] is a directory. *)
Abbreviation Files := (gmap string (option bytes)).

Definition node_metadata (n : option bytes) : Metadata :=
  match n with
  | Some b => mkMetadata (Z.of_nat (length b)) false true false None None
  | None => mkMetadata 4096 true false false None None
  end.

(** The children of a directory: the paths one name longer. *)
Definition children (p : string) (fs : Files) : list (result (string * Metadata) IoError) :=
  omap (λ kn : string * option bytes,
          match components kn.1 with
          | [] => None
          | cs => if decide (removelast cs = components p) then
                    (λ name, Ok (name, node_metadata kn.2)) <$> file_name kn.1
                  else None
          end) (map_to_list fs).

#[export] Instance os : Os Files := {|
  os_metadata p fs := res_map node_metadata (ok_or (fs !! p) no_file);
  os_symlink_metadata p fs := res_map node_metadata (ok_or (fs !! p) no_file);
  os_read p fs :=
    match fs !! p with
    | Some (Some b) => Ok b
    | Some None => Err (mkIoError OtherKind "Is a directory")
    | None => Err no_file
    end;
  os_write p b fs := (<[p := Some b]> fs, Ok tt);
  os_create_dir p fs := (<[p := None]> fs, Ok tt);
  os_create_dir_all p fs := (<[p := None]> fs, Ok tt);
  os_read_dir p fs := Ok (children p fs);
  os_remove_dir p fs := (delete p fs, Ok tt);
  os_remove_dir_all p fs :=
    (filter (λ kn, path_starts_with kn.1 p = false) fs, Ok tt);
  os_remove_file p fs := (delete p fs, Ok tt);
  os_copy p q fs :=
    match fs !! p with Some n => (<[q := n]> fs, Ok tt) | None => (fs, Err no_file) end;
  os_canonicalize p fs := res_map (λ _, p) (ok_or (fs !! p) no_file);
  os_exists p fs := bool_decide (is_Some (fs !! p));
  os_read_link _ _ := Err no_file;
  os_symlink _ _ fs := (fs, Err no_file);
|}.

Definition files : Files :=
  <["/src" := None]> (<["/src/a" := Some [byte_of_Z 1]]> (<["/src/sub" := None]>
  (<["/src/sub/b" := Some [byte_of_Z 2]]> (<["/dst" := None]> ∅)))).

Example copies_the_tree :
  (λ r, (r.1 !! "/dst/new/a", r.1 !! "/dst/new/sub/b", r.2)) <$>
    fs_copy 3 (mkFsCopyParams "/src" "/dst/new" true) files
  = Some (Some (Some [byte_of_Z 1]), Some (Some [byte_of_Z 2]), Ok mkFsCopyResponse).
Proof. vm_compute. reflexivity. Qed.

Lemma copy_guard_witness :
  fs_copy 3 (mkFsCopyParams "/src" "/src/sub/c/d" true) files
  = Some (files, Err (invalid_request
      "fs/copy cannot copy a directory to itself or one of its descendants")).
Proof.
  rewrite (copy_guard 3 (mkFsCopyParams "/src" "/src/sub/c/d" true) files (node_metadata None)
             "/src" "/src/sub" [RootDir; Normal "src"; Normal "sub"] ["c"; "d"]);
    try (vm_compute; reflexivity).
  intros [|[|[|k]]] Hk; try (cbn in Hk; lia); vm_compute; reflexivity.
Defined.
End SampleFiles.
