(* ===== verification/AgentDispatch.v ===== *)
(** The agent's side of its connection to the gateway: the dispatch loop and the
    channel for its own requests ([server/channel/dispatch.rs]), and the
    handlers behind it ([server/services/exec_server.rs], [process.rs]). *)
From S2P Require Import Prelude Paths Wire Methods AgentWire Process AgentProxy AgentFs.
From S2P Require AgentConn Skills.

(** * Frames *)

(* @src crates/nexal-agent/src/server/channel/dispatch.rs map_get *)
Definition agent_map_get (v : Value) (key : string) : option Value :=
  m ← as_map v;
  snd <$> find_map (λ kv : Value * Value,
                      if decide (as_str kv.1 = Some key) then Some kv else None) m.

(* @src crates/nexal-agent/src/server/channel/dispatch.rs map_str *)
Definition map_str (v : Value) (key : string) : option string :=
  agent_map_get v key ≫= as_str.

(* @src crates/nexal-agent/src/server/channel/dispatch.rs mp_map *)
Definition mp_map (pairs : list (string * Value)) : Value :=
  VMap (map (λ kv, (VStr kv.1, kv.2)) pairs).

(* @src crates/nexal-agent/src/server/channel/dispatch.rs mp_error *)
Definition mp_error (err : ChannelError) : Value :=
  mp_map ([("kind", VStr (ChannelErrorKind_to_string (ce_kind err)));
           ("message", VStr (ce_message err))]
          ++ match ce_data err with Some d => [("data", d)] | None => [] end).

(** [[{...}]] is [{...}], [[]] is nil, anything else itself. *)
(* @src crates/nexal-agent/src/server/channel/dispatch.rs unwrap_positional *)
Definition unwrap_positional (params : Value) : Value :=
  match params with
  | VArray [v] => v
  | VArray [] => VNil
  | other => other
  end.

(** The answer to a request, as it goes on the wire. *)
(* @src crates/nexal-agent/src/server/channel/dispatch.rs run_dispatch "let response = match result" .. "};" *)
Definition response_frame (id : Value) (r : result Value ChannelError) : Value :=
  match r with
  | Ok val => mp_map [("id", id); ("result", val)]
  | Err err => mp_map [("id", id); ("error", mp_error err)]
  end.

(* @src crates/nexal-agent/src/server/channel/dispatch.rs run_dispatch "MessageChannelEvent::MalformedMessage" .. "]);" *)
Definition malformed_frame (reason : string) : Value :=
  response_frame VNil (Err (mkChannelError Parse "parse error" (Some (VStr reason)))).

(** A process event as a notification. *)
(* @src crates/nexal-agent/src/server/channel/dispatch.rs run_dispatch "let (method, params) = match &event" .. "]);" *)
Definition event_frame `{!ToValue ExecOutputDeltaNotification, !ToValue ExecExitedNotification,
    !ToValue ExecClosedNotification} (e : ProcessEvent) : Value :=
  let '(method, params) :=
    match e with
    | OutputDelta n => (PROCESS_OUTPUT, to_value n)
    | Exited n => (PROCESS_EXITED, to_value n)
    | AgentWire.Closed n => (PROCESS_CLOSED, to_value n)
    end in
  mp_map [("method", VStr method); ("params", params)].

(** * The agent's own requests *)

(** A waiter is known by a number; [ch_answered] is what its [oneshot] got. *)
(* @src crates/nexal-agent/src/server/channel/dispatch.rs MsgpackChannel *)
Record MsgpackChannel := mkChannel {
  ch_pending : gmap Z nat;
  ch_next_id : Z;
  ch_answered : gmap nat (result Value string);
}.

(* @src crates/nexal-agent/src/server/channel/dispatch.rs MsgpackChannel::new *)
Definition MsgpackChannel_new : MsgpackChannel := mkChannel ∅ 1 ∅.

(** Up to the send: the frame that goes out for waiter [k]. *)
(* @src crates/nexal-agent/src/server/channel/dispatch.rs MsgpackChannel::request *)
Definition request (k : nat) (method : string) (params : Value) (ch : MsgpackChannel)
    : MsgpackChannel * Value :=
  let id := ch_next_id ch in
  (mkChannel (<[id := k]> (ch_pending ch)) (wrap_u64 (id + 1)) (ch_answered ch),
   mp_map [("id", VInt id); ("method", VStr method); ("params", params)]).

(** The blocking variant forgets the request when the connection is gone;
    [sent] is whether the queue took the frame. *)
(* @src crates/nexal-agent/src/server/channel/dispatch.rs request_blocking *)
Definition request_blocking (k : nat) (method : string) (params : Value) (sent : bool)
    (ch : MsgpackChannel) : MsgpackChannel * result Value string :=
  let id := ch_next_id ch in
  let r := request k method params ch in
  if sent then (r.1, Ok r.2)
  else (mkChannel (delete id (ch_pending r.1)) (ch_next_id r.1) (ch_answered r.1),
        Err "connection closed").

(* @src crates/nexal-agent/src/server/channel/dispatch.rs try_resolve_pending *)
Definition try_resolve_pending (value : Value) (ch : MsgpackChannel) : MsgpackChannel * bool :=
  match agent_map_get value "method" with
  | Some _ => (ch, false)
  | None =>
      match agent_map_get value "id" ≫= as_u64 with
      | None => (ch, false)
      | Some id =>
          match ch_pending ch !! id with
          | None => (ch, false)
          | Some k =>
              let answer :=
                match agent_map_get value "error" with
                | Some err => Err (default "gateway error" (agent_map_get err "message" ≫= as_str))
                | None => Ok (default VNil (agent_map_get value "result"))
                end in
              (mkChannel (delete id (ch_pending ch)) (ch_next_id ch)
                 (<[k := answer]> (ch_answered ch)), true)
          end
      end
  end.

(** * Handlers *)

(* @src crates/nexal-agent/src/server/services/exec_server.rs ExecServerHandler *)
Record ExecServerHandler (FS : Type) := mkHandler {
  h_process : Inner;
  h_fs : FS;
  h_proxy : ProxyManager;
}.
Arguments mkHandler {FS}.
Arguments h_process {FS}.
Arguments h_fs {FS}.
Arguments h_proxy {FS}.

(** What the environment contributes to one request: the outcome of launching a
    child, the states a waiting read observes, the sessions' writers, and what
    the socket calls of a proxy registration give. *)
Record Env := mkEnv {
  ev_default_shell : option string;
  ev_cwd : option string;
  ev_spawned : result SessionId string;
  ev_observed : list (Inner * bool);
  ev_send : SessionId → bytes → bool;
  ev_dir : result unit string;
  ev_bound : result unit string;
  ev_fuel : nat;
}.

Section dispatch.
Context {FS : Type} {HO : Os FS}.
Context {F1 : FromValue InitializeParams} {F2 : FromValue ExecParams} {F3 : FromValue ReadParams}
  {F4 : FromValue WriteParams} {F5 : FromValue TerminateParams} {F6 : FromValue FsReadFileParams}
  {F7 : FromValue FsWriteFileParams} {F8 : FromValue FsCreateDirectoryParams}
  {F9 : FromValue FsGetMetadataParams} {F10 : FromValue FsReadDirectoryParams}
  {F11 : FromValue FsRemoveParams} {F12 : FromValue FsCopyParams}
  {F13 : FromValue ProxyRegisterParams} {F14 : FromValue ProxyUnregisterParams}.
Context {T1 : ToValue InitializeResponse} {T2 : ToValue ExecResponse} {T3 : ToValue ReadResponse}
  {T4 : ToValue WriteResponse} {T5 : ToValue TerminateResponse} {T6 : ToValue FsReadFileResponse}
  {T7 : ToValue FsWriteFileResponse} {T8 : ToValue FsCreateDirectoryResponse}
  {T9 : ToValue FsGetMetadataResponse} {T10 : ToValue FsReadDirectoryResponse}
  {T11 : ToValue FsRemoveResponse} {T12 : ToValue FsCopyResponse}
  {T13 : ToValue ProxyRegisterResponse} {T14 : ToValue ProxyUnregisterResponse}.

Abbreviation Handler := (ExecServerHandler FS).
Abbreviation Reply := (result Value ChannelError).

Definition set_process (st : Inner) (h : Handler) : Handler := mkHandler st (h_fs h) (h_proxy h).
Definition set_fs (fs : FS) (h : Handler) : Handler := mkHandler (h_process h) fs (h_proxy h).
Definition set_proxy (m : ProxyManager) (h : Handler) : Handler :=
  mkHandler (h_process h) (h_fs h) m.

(* @src crates/nexal-agent/src/server/channel/dispatch.rs parse_params *)
Definition parse_params {T} {F : FromValue T} (params : Value) : result T ChannelError :=
  map_err (λ err, mkChannelError InvalidParams ("invalid params: " +:+ err) None)
    (from_value params).

(** Run [k] on decoded parameters; a decoding error changes nothing. *)
Definition with_params {T} {F : FromValue T} (params : Value) (h : Handler)
    (k : T → option (Handler * Reply)) : option (Handler * Reply) :=
  match parse_params params with
  | Err e => Some (h, Err e)
  | Ok p => k p
  end.

(* @src crates/nexal-agent/src/server/services/exec_server.rs ExecServerHandler::new *)
Definition ExecServerHandler_new (fs : FS) : Handler := mkHandler LocalProcess_new fs ProxyManager_new.

(* @src crates/nexal-agent/src/server/services/exec_server.rs ExecServerHandler::initialize *)
Definition handler_initialize (env : Env) (h : Handler)
    : Handler * result InitializeResponse ChannelError :=
  let r := initialize (ev_default_shell env) (ev_cwd env) (h_process h) in
  (set_process r.1 h, r.2).

(* @src crates/nexal-agent/src/server/services/exec_server.rs ExecServerHandler::initialized "self.process.initialized()?;" .. "self.process.initialized()?;" *)
Definition handler_initialized (h : Handler) : Handler * result unit string :=
  let r := initialized (h_process h) in (set_process r.1 h, r.2).

(* @src crates/nexal-agent/src/server/services/exec_server.rs ExecServerHandler::exec *)
Definition handler_exec (env : Env) (p : ExecParams) (h : Handler)
    : Handler * result ExecResponse ChannelError :=
  let r := exec p (ev_spawned env) (h_process h) in (set_process r.1 h, r.2).

(* @src crates/nexal-agent/src/server/services/exec_server.rs ExecServerHandler::exec_read *)
Definition handler_exec_read (env : Env) (p : ReadParams) (h : Handler)
    : option (result ReadResponse ChannelError) :=
  exec_read p (h_process h) (ev_observed env).

(* @src crates/nexal-agent/src/server/services/exec_server.rs ExecServerHandler::exec_write *)
Definition handler_exec_write (env : Env) (p : WriteParams) (h : Handler)
    : result WriteResponse ChannelError :=
  exec_write (ev_send env) p (h_process h).

(* @src crates/nexal-agent/src/server/services/exec_server.rs ExecServerHandler::terminate *)
Definition handler_terminate (p : TerminateParams) (h : Handler)
    : result (TerminateResponse * option SessionId) ChannelError :=
  terminate_process p (h_process h).

(** A file call once the client has initialised. *)
Definition with_fs {R} (h : Handler) (m : FS → FS * result R ChannelError)
    : Handler * result R ChannelError :=
  match require_initialized_for (h_process h) "filesystem" with
  | Err e => (h, Err e)
  | Ok _ => let r := m (h_fs h) in (set_fs r.1 h, r.2)
  end.

(* @src crates/nexal-agent/src/server/services/exec_server.rs fs_read_file *)
Definition handler_fs_read_file (p : FsReadFileParams) (h : Handler)
    : Handler * result FsReadFileResponse ChannelError :=
  with_fs h (λ fs, (fs, fs_read_file p fs)).

(* @src crates/nexal-agent/src/server/services/exec_server.rs fs_write_file *)
Definition handler_fs_write_file (p : FsWriteFileParams) (h : Handler)
    : Handler * result FsWriteFileResponse ChannelError :=
  with_fs h (fs_write_file p).

(* @src crates/nexal-agent/src/server/services/exec_server.rs fs_create_directory *)
Definition handler_fs_create_directory (p : FsCreateDirectoryParams) (h : Handler)
    : Handler * result FsCreateDirectoryResponse ChannelError :=
  with_fs h (fs_create_directory p).

(* @src crates/nexal-agent/src/server/services/exec_server.rs fs_get_metadata *)
Definition handler_fs_get_metadata (p : FsGetMetadataParams) (h : Handler)
    : Handler * result FsGetMetadataResponse ChannelError :=
  with_fs h (λ fs, (fs, fs_get_metadata p fs)).

(* @src crates/nexal-agent/src/server/services/exec_server.rs fs_read_directory *)
Definition handler_fs_read_directory (p : FsReadDirectoryParams) (h : Handler)
    : Handler * result FsReadDirectoryResponse ChannelError :=
  with_fs h (λ fs, (fs, fs_read_directory p fs)).

(* @src crates/nexal-agent/src/server/services/exec_server.rs fs_remove *)
Definition handler_fs_remove (p : FsRemoveParams) (h : Handler)
    : Handler * result FsRemoveResponse ChannelError :=
  with_fs h (fs_remove p).

(** [None] is a copy deeper than the fuel. *)
(* @src crates/nexal-agent/src/server/services/exec_server.rs fs_copy *)
Definition handler_fs_copy (env : Env) (p : FsCopyParams) (h : Handler)
    : option (Handler * result FsCopyResponse ChannelError) :=
  match require_initialized_for (h_process h) "filesystem" with
  | Err e => Some (h, Err e)
  | Ok _ => r ← fs_copy (ev_fuel env) p (h_fs h); Some (set_fs r.1 h, r.2)
  end.

(* @src crates/nexal-agent/src/server/services/exec_server.rs proxy_register *)
Definition proxy_register (env : Env) (p : ProxyRegisterParams) (h : Handler)
    : Handler * result ProxyRegisterResponse ChannelError :=
  match require_initialized_for (h_process h) "proxy" with
  | Err e => (h, Err e)
  | Ok _ =>
      let r := pm_register (xr_socket_path p) (xr_upstream_url p) (ev_dir env) (ev_bound env)
                 (h_proxy h) in
      (set_proxy r.1 h, res_map (λ _, mkProxyRegisterResponse true) (map_err internal_error r.2))
  end.

(* @src crates/nexal-agent/src/server/services/exec_server.rs proxy_unregister *)
Definition proxy_unregister (p : ProxyUnregisterParams) (h : Handler)
    : Handler * result ProxyUnregisterResponse ChannelError :=
  match require_initialized_for (h_process h) "proxy" with
  | Err e => (h, Err e)
  | Ok _ =>
      let r := pm_unregister (xu_socket_path p) (h_proxy h) in
      (set_proxy r.1 h, Ok (mkProxyUnregisterResponse r.2))
  end.

(* @src crates/nexal-agent/src/server/services/exec_server.rs ExecServerHandler::shutdown *)
Definition handler_shutdown (h : Handler) : Handler * list SessionId :=
  let h := set_proxy (pm_shutdown (h_proxy h)) h in
  let r := shutdown (h_process h) in
  (set_process r.1 h, r.2).

(** The handler's answer, serialised. *)
Definition answer {T} {V : ToValue T} (r : Handler * result T ChannelError) : option (Handler * Reply) :=
  Some (r.1, res_map to_value r.2).

(** [None] is a read still waiting when the observations end, or a copy deeper
    than the fuel. *)
(* @src crates/nexal-agent/src/server/channel/dispatch.rs dispatch *)
Definition dispatch (env : Env) (method : string) (params : Value) (h : Handler)
    : option (Handler * Reply) :=
  match AgentMethods.AgentMethod_parse method with
  | None => Some (h, Err (mkChannelError MethodNotFound ("method not found: " +:+ method) None))
  | Some m =>
      match m with
      | Initialize =>
          with_params (T := InitializeParams) params h (λ _, answer (handler_initialize env h))
      | Initialized =>
          let r := handler_initialized h in
          Some (r.1, res_map (λ _, VNil) (map_err internal_error r.2))
      | ProcessStart => with_params params h (λ p, answer (handler_exec env p h))
      | ProcessRead =>
          with_params params h (λ p, r ← handler_exec_read env p h; answer (h, r))
      | ProcessWrite => with_params params h (λ p, answer (h, handler_exec_write env p h))
      | ProcessTerminate =>
          with_params params h (λ p, answer (h, res_map fst (handler_terminate p h)))
      | FsReadFile => with_params params h (λ p, answer (handler_fs_read_file p h))
      | FsWriteFile => with_params params h (λ p, answer (handler_fs_write_file p h))
      | FsCreateDirectory => with_params params h (λ p, answer (handler_fs_create_directory p h))
      | FsGetMetadata => with_params params h (λ p, answer (handler_fs_get_metadata p h))
      | FsReadDirectory => with_params params h (λ p, answer (handler_fs_read_directory p h))
      | FsRemove => with_params params h (λ p, answer (handler_fs_remove p h))
      | FsCopy => with_params params h (λ p, r ← handler_fs_copy env p h; answer r)
      | ProxyRegister =>
          with_params params h (λ p, answer (proxy_register env p h))
      | ProxyUnregister =>
          with_params params h (λ p, answer (proxy_unregister p h))
      end
  end.

(** * The loop *)

(** A request the loop is working on: it awaits the handler before it takes
    the next frame. *)
Record Request := mkRequest { rq_id : option Value; rq_method : string; rq_params : Value }.

(* @src crates/nexal-agent/src/server/channel/dispatch.rs run_dispatch "let id = map_get(&value" .. "let params = unwrap_positional(params);" *)
Definition frame_request (value : Value) : Request :=
  mkRequest (agent_map_get value "id") (default "" (map_str value "method"))
    (unwrap_positional (default VNil (agent_map_get value "params"))).

Record Loop := mkLoop {
  lp_handler : Handler;
  lp_channel : MsgpackChannel;
  lp_inbox : list Value;
  lp_busy : option Request;
  lp_out : list Value;
}.

(** Taking the next frame from the queue. *)
(* @src crates/nexal-agent/src/server/channel/dispatch.rs run_dispatch "MessageChannelEvent::Message(value) => {" .. "let result = dispatch(" *)
Definition loop_take (l : Loop) : option Loop :=
  match lp_busy l, lp_inbox l with
  | None, v :: inbox =>
      let cr := try_resolve_pending v (lp_channel l) in
      Some (mkLoop (lp_handler l) cr.1 inbox
              (if cr.2 then None else Some (frame_request v)) (lp_out l))
  | _, _ => None
  end.

(** The handler returning. *)
(* @src crates/nexal-agent/src/server/channel/dispatch.rs run_dispatch "let result = dispatch(" .. "MessageChannelEvent::MalformedMessage" *)
Definition loop_finish (env : Env) (l : Loop) : option Loop :=
  r ← lp_busy l;
  hr ← dispatch env (rq_method r) (rq_params r) (lp_handler l);
  Some (mkLoop hr.1 (lp_channel l) (lp_inbox l) None
          (match rq_id r with
           | Some id => lp_out l ++ [response_frame id hr.2]
           | None => lp_out l
           end)).

(** [waits_on] tells which of the agent's own requests, if any, a handler call
    needs answered before it can return: a file call below the skills mount is
    served by the FUSE thread, which asks the gateway with [request_blocking]. *)
Inductive loop_step (waits_on : Request → option nat) : Loop → Loop → Prop :=
  | step_arrive v l : loop_step waits_on l
      (mkLoop (lp_handler l) (lp_channel l) (lp_inbox l ++ [v]) (lp_busy l) (lp_out l))
  | step_take l l' : loop_take l = Some l' → loop_step waits_on l l'
  | step_finish env l l' r :
      lp_busy l = Some r →
      (∀ k, waits_on r = Some k → is_Some (ch_answered (lp_channel l) !! k)) →
      loop_finish env l = Some l' → loop_step waits_on l l'
  | step_malformed reason l :
      lp_busy l = None → loop_step waits_on l
        (mkLoop (lp_handler l) (lp_channel l) (lp_inbox l) None
           (lp_out l ++ [malformed_frame reason]))
  | step_ask k method params l : loop_step waits_on l
      (mkLoop (lp_handler l) (request k method params (lp_channel l)).1 (lp_inbox l) (lp_busy l)
         (lp_out l ++ [(request k method params (lp_channel l)).2])).

(** Nothing but the handshake works before the handshake: whatever the
    method and the parameters, a request other than [initialize] and
    [initialized] is answered with an error and leaves processes, files and
    proxies as they were. *)
Theorem agent_inert_before_handshake env method params (h : Handler) :
  initialize_requested (h_process h) && initialized_flag (h_process h) = false →
  AgentMethods.AgentMethod_parse method ≠ Some Initialize →
  AgentMethods.AgentMethod_parse method ≠ Some Initialized →
  ∃ e, dispatch env method params h = Some (h, Err e).
Proof.
  intros Hi H1 H2.
  assert (∀ f, ∃ e, require_initialized_for (h_process h) f = Err e) as Hreq.
  { intros f. unfold require_initialized_for.
    destruct (initialize_requested (h_process h)), (initialized_flag (h_process h));
      try done; by eexists. }
  assert (∀ R {V : ToValue R} (m : FS → FS * result R ChannelError),
    ∃ e, answer (with_fs h m) = Some (h, Err e)) as Hfs.
  { intros R V m. unfold with_fs. destruct (Hreq "filesystem") as [e ->]. by exists e. }
  unfold dispatch. destruct (AgentMethods.AgentMethod_parse method) as [m|]; [|by eexists].
  destruct m; try done; unfold with_params;
    destruct (parse_params params) as [p|e]; try (by eexists); try apply Hfs.
  - unfold handler_exec, exec, start_reserve. destruct (Hreq "exec") as [e ->].
    destruct h. by eexists.
  - unfold handler_exec_read, exec_read. destruct (Hreq "exec") as [e ->]. by eexists.
  - unfold handler_exec_write, exec_write. destruct (Hreq "exec") as [e ->]. by eexists.
  - unfold handler_terminate, terminate_process. destruct (Hreq "exec") as [e ->]. by eexists.
  - unfold handler_fs_copy. destruct (Hreq "filesystem") as [e ->]. by eexists.
  - unfold proxy_register. destruct (Hreq "proxy") as [e ->]. by eexists.
  - unfold proxy_unregister. destruct (Hreq "proxy") as [e ->]. by eexists.
Qed.

(** The loop can wait for itself forever: while it runs a handler that
    cannot return before one of the agent's own requests is answered (a file
    read below the skills mount), it takes no frame, so the answer, although
    it arrives, is never delivered: the loop stays on that request for good. *)
Theorem self_request_deadlock waits_on l l' r k :
  lp_busy l = Some r → waits_on r = Some k → ch_answered (lp_channel l) !! k = None →
  rtc (loop_step waits_on) l l' →
  lp_busy l' = Some r ∧ ch_answered (lp_channel l') !! k = None.
Proof.
  intros Hb Hw Hk Hr. induction Hr as [|l l1 l2 Hs Hr IH]; [done|].
  enough (lp_busy l1 = Some r ∧ ch_answered (lp_channel l1) !! k = None) as [? ?] by auto.
  clear IH Hr. inversion Hs as [v ? E|? ? E|env ? ? r' Hb' Hd E|reason ? E|k' m p ? E]; subst; try done.
  - unfold loop_take in E. by rewrite Hb in E.
  - rewrite Hb in Hb'. injection Hb' as <-. destruct (Hd _ Hw) as [a Ha]. by rewrite Hk in Ha.
  - by rewrite Hb in E.
Qed.
End dispatch.

(** * Across the connection *)

Lemma find_map_mp (pairs : list (string * Value)) key :
  snd <$> find_map (λ kv : Value * Value, if decide (as_str kv.1 = Some key) then Some kv else None)
            (map (λ kv : string * Value, (VStr kv.1, kv.2)) pairs)
  = find_map (λ kv : string * Value, if decide (kv.1 = key) then Some kv.2 else None) pairs.
Proof.
  induction pairs as [|[k v] pairs IH]; [done|]. cbn.
  destruct (decide (Some k = Some key)) as [[= ->]|Hne].
  - by rewrite decide_True.
  - rewrite decide_False by congruence. exact IH.
Qed.

(** Both sides look up the maps they build the same way. *)
Lemma agent_map_get_mp pairs key :
  agent_map_get (mp_map pairs) key
  = find_map (λ kv : string * Value, if decide (kv.1 = key) then Some kv.2 else None) pairs.
Proof. unfold agent_map_get, mp_map. cbn. apply find_map_mp. Qed.

Lemma conn_map_get_eq v key : AgentConn.conn_map_get v key = agent_map_get v key.
Proof. done. Qed.

(** The JSON-RPC code a kind of agent error becomes. *)
Definition kind_code (k : ChannelErrorKind) : Z :=
  match k with
  | Parse => error_code.PARSE_ERROR
  | InvalidRequest => error_code.INVALID_REQUEST
  | MethodNotFound => error_code.METHOD_NOT_FOUND
  | InvalidParams => error_code.INVALID_PARAMS
  | Internal => error_code.INTERNAL_ERROR
  end.

Lemma agent_error_code_mp_error e : AgentConn.agent_error_code (mp_error e) = kind_code (ce_kind e).
Proof.
  unfold AgentConn.agent_error_code, mp_error. rewrite !conn_map_get_eq, !agent_map_get_mp.
  by destruct e as [[] m [d|]].
Qed.

Lemma mp_error_message e : agent_map_get (mp_error e) "message" = Some (VStr (ce_message e)).
Proof. unfold mp_error. by rewrite agent_map_get_mp. Qed.

(** The answer of a gateway's caller to what the handler returned. *)
Definition caller_answer (r : result Value ChannelError) : result Value AgentConn.AgentConnError :=
  match r with
  | Ok v => Ok v
  | Err e => Err (AgentConn.AgentError (kind_code (ce_kind e)) (ce_message e))
  end.

Lemma response_frame_answer id r : AgentConn.frame_answer (response_frame id r) = caller_answer r.
Proof.
  unfold response_frame, AgentConn.frame_answer. destruct r as [v|e].
  - by rewrite !conn_map_get_eq, !agent_map_get_mp.
  - replace (AgentConn.conn_map_get _ "error") with (Some (mp_error e)) by reflexivity.
    by rewrite agent_error_code_mp_error, conn_map_get_eq, mp_error_message.
Qed.

Lemma response_frame_is_response id r :
  (0 ≤ id < 2 ^ 64)%Z → AgentConn.is_response (response_frame (VInt id) r) id.
Proof.
  intros Hid. unfold AgentConn.is_response, response_frame.
  rewrite !conn_map_get_eq. destruct r; rewrite !agent_map_get_mp;
    (split; [done|]); apply bind_Some; exists (VInt id); (split; [done|]); unfold as_u64;
    by rewrite decide_True.
Qed.

(** What an agent's handler returns is what the gateway's caller gets: the
    response frame to request [id] carries [id] and no method, a result comes
    out as that result, and an error as an error with the same message and the
    JSON-RPC code of its kind, which the frontend then receives unchanged. *)
Theorem agent_result_reaches_caller id r :
  (0 ≤ id < 2 ^ 64)%Z →
  let frame := response_frame (VInt id) r in
  AgentConn.is_response frame id ∧
  AgentConn.frame_answer frame =
    match r with
    | Ok v => Ok v
    | Err e => Err (AgentConn.AgentError (kind_code (ce_kind e)) (ce_message e))
    end ∧
  (∀ e, r = Err e →
     map_err AgentConn.JsonRpcError_from (AgentConn.frame_answer frame)
     = Err (mkJsonRpcError (kind_code (ce_kind e)) (ce_message e) None)).
Proof.
  intros Hid frame. split; [by apply response_frame_is_response|].
  split; [apply response_frame_answer|]. intros e ->. unfold frame. by rewrite response_frame_answer.
Qed.

(** ** Errors bouncing between the two sides *)

(** A frame neither side can place: no method, and an id that is no [u64]
    (such as the nil id of a parse error). *)
Definition stray (v : Value) : Prop :=
  agent_map_get v "method" = None ∧
  ∃ id, agent_map_get v "id" = Some id ∧ as_u64 id = None.

(** What the gateway's reader writes back for a frame: the responses of the
    handler tasks it spawns, with [handler] the skills service. *)
Definition gateway_answer (handler : string → option Value → result Value string)
    (c : AgentConn.Conn) (v : Value) : option Value :=
  let c' := (AgentConn.dispatch_frame true v c).1 in
  t ← last (AgentConn.handling c');
  if decide (length (AgentConn.handling c) < length (AgentConn.handling c'))
  then Some (AgentConn.handler_response (AgentConn.ht_id t)
               (handler (AgentConn.ht_method t) (AgentConn.ht_params t)))
  else None.

(** What the agent's loop writes back for a frame it takes when idle; the
    method of a stray frame is empty, so no handler state or environment is
    involved. *)
Definition agent_answer (ch : MsgpackChannel) (v : Value) : option Value :=
  if (try_resolve_pending v ch).2 then None
  else
    let r := frame_request v in
    id ← rq_id r;
    match AgentMethods.AgentMethod_parse (rq_method r) with
    | None => Some (response_frame id (Err (mkChannelError MethodNotFound
                ("method not found: " +:+ rq_method r) None)))
    | Some _ => None
    end.

Lemma stray_response id r : as_u64 id = None → stray (response_frame id r).
Proof.
  intros H. split; [by destruct r; rewrite ?agent_map_get_mp|].
  exists id. by destruct r; unfold response_frame; rewrite agent_map_get_mp.
Qed.

Lemma stray_handler_response id r : as_u64 id = None → stray (AgentConn.handler_response id r).
Proof. intros H. destruct r; (split; [done|by exists id]). Qed.

Lemma agent_answers_stray ch v :
  stray v → ∃ v', agent_answer ch v = Some v' ∧ stray v'.
Proof.
  intros (Hm & id & Hi & Hu). unfold agent_answer, try_resolve_pending, frame_request, map_str.
  rewrite Hm, Hi. cbn. rewrite Hu. cbn. eexists. split; [done|]. by apply (stray_response id (Err _)).
Qed.

Lemma gateway_answers_stray handler c v :
  stray v → ∃ v', gateway_answer handler c v = Some v' ∧ stray v'.
Proof.
  intros (Hm & id & Hi & Hu). rewrite <- conn_map_get_eq in Hm, Hi.
  unfold gateway_answer, AgentConn.dispatch_frame, AgentConn.frame_reply_to.
  rewrite Hm, Hi. cbn. rewrite Hu. cbn.
  rewrite last_snoc, length_app. cbn. rewrite decide_True by lia.
  eexists. split; [done|]. by apply stray_handler_response.
Qed.

(** A frame sent to the gateway, then its answer to the agent, [n] times over. *)
Fixpoint bounce (handler : string → option Value → result Value string) (c : AgentConn.Conn)
    (ch : MsgpackChannel) (n : nat) (v : Value) : option Value :=
  match n with
  | O => Some v
  | S n' => v1 ← gateway_answer handler c v; v2 ← agent_answer ch v1; bounce handler c ch n' v2
  end.

(** A parse error starts an exchange that never ends: the nil-id response
    the agent sends for a malformed frame is taken for a request by the
    gateway, whose error response is taken for a request by the agent, and so
    on: each side answers every such frame, whatever its pending requests and
    whatever the skills handler returns. *)
Theorem parse_error_ping_pong handler c ch reason n :
  ∃ v, bounce handler c ch n (malformed_frame reason) = Some v ∧ stray v.
Proof.
  assert (stray (malformed_frame reason)) as Hs by by apply stray_response.
  revert Hs. generalize (malformed_frame reason). induction n as [|n IH]; intros v Hs; [by exists v|].
  cbn [bounce]. destruct (gateway_answers_stray handler c v Hs) as (v1 & -> & Hs1). cbn.
  destruct (agent_answers_stray ch v1 Hs1) as (v2 & -> & Hs2). cbn. by apply IH.
Qed.

(** * Witnesses *)

Module SampleAgent.
Import Wire.Derived AgentFs.SampleFiles.

#[local] Instance write_file_from_value : FromValue FsWriteFileParams := λ v,
  p ←? field_string v "path";
  d ←? field_string v "data";
  Ok (mkFsWriteFileParams p (String.list_byte_of_string d)).

#[local] Instance read_file_from_value : FromValue FsReadFileParams := λ v,
  p ←? field_string v "path"; Ok (mkFsReadFileParams p).

(** Decoders of the methods the witnesses do not call, and encoders whose
    output they do not look at. *)
#[local] Instance other_from_value {T} : FromValue T | 100 := λ _, Err "unused".
#[local] Instance any_to_value {T} : ToValue T | 100 := λ _, VNil.

Definition env : Env := mkEnv None None (Err "no spawn") [] (λ _ _, false) (Ok tt) (Ok tt) 8.

Definition handler : ExecServerHandler Files :=
  mkHandler LocalProcess_new (<["/etc/hosts" := Some [byte_of_Z 0]]> ∅) ProxyManager_new.

Definition write_params : Value := mp_map [("path", VStr "/etc/hosts"); ("data", VStr "evil")].

(** Initialised, the same request does write. *)
Example initialised_write :
  (λ hr, h_fs hr.1 !! "/etc/hosts") <$>
    dispatch env "fs/write_file" write_params
      (mkHandler (mkInner ∅ true true) (h_fs handler) ProxyManager_new)
  = Some (Some (Some (String.list_byte_of_string "evil"))).
Proof. vm_compute. reflexivity. Qed.

Lemma agent_inert_before_handshake_witness :
  ∃ e, dispatch env "fs/write_file" write_params handler = Some (handler, Err e).
Proof.
  apply (agent_inert_before_handshake env "fs/write_file" write_params handler);
    vm_compute; done.
Defined.

(** A file read below the skills mount needs request 7 of the agent answered. *)
Definition fuse_waits (r : Request) : option nat :=
  if decide (rq_method r = "fs/read_file") then Some 7 else None.

Definition read_skill : Request :=
  mkRequest (Some (VInt 1)) "fs/read_file" (mp_map [("path", VStr "/skills/a/SKILL.md")]).

Definition busy : Loop :=
  mkLoop handler MsgpackChannel_new [] (Some read_skill) [].

(** The FUSE thread asks, the gateway's answer arrives. *)
Definition asked : Loop (FS := Files) :=
  mkLoop handler (request 7 "skills/read" VNil MsgpackChannel_new).1 [] (Some read_skill)
    [(request 7 "skills/read" VNil MsgpackChannel_new).2].

Definition answered : Loop (FS := Files) :=
  mkLoop handler (lp_channel asked) [response_frame (VInt 1) (Ok (VStr "text"))] (Some read_skill)
    (lp_out asked).

Lemma self_request_deadlock_witness :
  rtc (loop_step fuse_waits) busy answered ∧
  lp_busy answered = Some read_skill ∧ ch_answered (lp_channel answered) !! 7%nat = None.
Proof.
  assert (rtc (loop_step fuse_waits) busy answered) as Hr.
  { apply (rtc_l _ _ asked); [exact (step_ask _ 7 "skills/read" VNil busy)|].
    apply rtc_once. exact (step_arrive _ (response_frame (VInt 1) (Ok (VStr "text"))) asked). }
  split; [exact Hr|].
  apply (self_request_deadlock fuse_waits busy answered read_skill 7); [done| |done|exact Hr].
  vm_compute. reflexivity.
Defined.

Lemma agent_result_reaches_caller_witness :
  (0 ≤ 7 < 2 ^ 64)%Z ∧
  AgentConn.is_response (response_frame (VInt 7) (Ok (VStr "out"))) 7 ∧
  AgentConn.frame_answer (response_frame (VInt 7) (Ok (VStr "out"))) = Ok (VStr "out").
Proof.
  assert (0 ≤ 7 < 2 ^ 64)%Z as H by lia.
  destruct (agent_result_reaches_caller 7 (Ok (VStr "out")) H) as (H1 & H2 & _).
  split; [exact H|]. split; [exact H1|exact H2].
Defined.
End SampleAgent.
