(* ===== verification/Framing.v ===== *)
(** Message channels ([utils/transport/src/message_channel.rs]): messages over
    a byte stream with a length prefix, and over binary WebSocket frames.

    The MessagePack codec is a parameter.  Of a byte stream a reader sees the
    bytes that arrive, however they are chunked, and how the stream ends. *)
From S2P Require Import Prelude.

(* @src crates/utils/transport/src/message_channel.rs MessageChannelEvent *)
Inductive MessageChannelEvent (T : Type) :=
  | Message (m : T)
  | MalformedMessage (reason : string)
  | Disconnected (reason : option string).
Arguments Message {T} m.
Arguments MalformedMessage {T} reason.
Arguments Disconnected {T} reason.

(** How a byte stream ends. *)
Inductive ending := Eof | Failed (e : string).

(** [u32::to_be_bytes] and [u32::from_be_bytes] *)
Definition to_be_bytes (n : Z) : bytes :=
  [byte_of_Z (Z.shiftr n 24); byte_of_Z (Z.shiftr n 16); byte_of_Z (Z.shiftr n 8); byte_of_Z n].

Definition from_be_bytes (bs : bytes) : Z :=
  foldl (λ acc b, Z.lor (Z.shiftl acc 8) (byte_Z b)) 0%Z bs.

(** [AsyncReadExt::read_exact]: the bytes and the rest of the stream; the error
    [None] is [UnexpectedEof]. *)
Definition read_exact (n : Z) (input : bytes) (e : ending) : result (bytes * bytes) (option string) :=
  if decide (n ≤ len input)%Z then Ok (take (Z.to_nat n) input, drop (Z.to_nat n) input)
  else Err match e with Eof => None | Failed m => Some m end.

(** [AsyncWriteExt::write_all] on a stream that takes [room] more bytes before
    it fails ([None]: it never does): what goes through, and whether all did. *)
Definition write_all (room : option nat) (bs : bytes) : bytes * option nat * bool :=
  match room with
  | None => (bs, None, true)
  | Some r => (take r bs, Some (r - length bs), bool_decide (length bs ≤ r))
  end.

(** What a WebSocket stream yields. *)
Inductive WsItem :=
  | WsBinary (b : bytes)
  | WsText (t : string)
  | WsClose
  | WsPing
  | WsPong
  | WsFrame
  | WsErr (e : string)
  | WsEnd.

Section channel.
Context {T : Type} (decode : bytes → result T string) (encode : T → result bytes string).
(** The text of an [UnexpectedEof] error. *)
Context (eof_text : string) (label : string).

Abbreviation Event := (MessageChannelEvent T).

(** One turn of a reader: the event it sends, and where it goes on. *)
Inductive turn :=
  | Stop (ev : Event)
  | Next (ev : Event) (rest : bytes).

(** * Length-prefixed frames *)

(* @src crates/utils/transport/src/message_channel.rs from_stdio_binary "let mut len_buf = [0u8; 4];" .. "let writer_task = tokio::spawn(async move {" *)
Definition read_frame (input : bytes) (e : ending) : turn :=
  match read_exact 4 input e with
  | Err None => Stop (Disconnected None)
  | Err (Some err) =>
      Stop (Disconnected (Some ("failed to read frame length from " +:+ label +:+ ": " +:+ err)))
  | Ok (len_buf, rest) =>
      match read_exact (from_be_bytes len_buf) rest e with
      | Err err =>
          Stop (Disconnected (Some ("failed to read msgpack payload from " +:+ label +:+ ": "
                                    +:+ default eof_text err)))
      | Ok (payload, rest) =>
          match decode payload with
          | Ok m => Next (Message m) rest
          | Err err =>
              Next (MalformedMessage ("failed to parse msgpack from " +:+ label +:+ ": " +:+ err))
                rest
          end
      end
  end.

(** The reader's loop; [alive k] tells whether the receiving end still exists
    when the [k]-th event is sent. A [None] is a loop longer than the fuel. *)
(* @src crates/utils/transport/src/message_channel.rs from_stdio_binary "let reader_task = tokio::spawn(async move {" .. "let writer_task = tokio::spawn(async move {" *)
Fixpoint reader_loop (fuel : nat) (alive : nat → bool) (k : nat) (input : bytes) (e : ending)
    : option (list Event) :=
  match fuel with
  | O => None
  | S fuel' =>
      let send ev := if alive k then [ev] else [] in
      match read_frame input e with
      | Stop ev => Some (send ev)
      | Next (Message m) rest =>
          if alive k then app [Message m] <$> reader_loop fuel' alive (S k) rest e else Some []
      | Next ev rest => app (send ev) <$> reader_loop fuel' alive (S k) rest e
      end
  end.

(** The length is cut to 32 bits. *)
Definition frame (payload : bytes) : bytes := to_be_bytes (len payload mod 2 ^ 32) ++ payload.

(** What the writer puts on the stream, and the event it ends with if it fails;
    [flushes k] is the outcome of the [k]-th flush. *)
(* @src crates/utils/transport/src/message_channel.rs from_stdio_binary "let mut writer = writer;" .. "Self {" *)
Fixpoint writer_task (flushes : nat → bool) (k : nat) (room : option nat) (outgoing : list T)
    : bytes * option Event :=
  match outgoing with
  | [] => ([], None)
  | message :: outgoing' =>
      match encode message with
      | Err _ =>
          ([], Some (Disconnected (Some ("failed to serialize msgpack for " +:+ label))))
      | Ok payload =>
          let '(out1, room, ok1) := write_all room (to_be_bytes (len payload mod 2 ^ 32)) in
          let '(out2, room, ok2) := if ok1 then write_all room payload else ([], room, false) in
          if ok1 && ok2 && flushes k then
            let '(out, ev) := writer_task flushes (S k) room outgoing' in
            (out1 ++ out2 ++ out, ev)
          else (out1 ++ out2, Some (Disconnected (Some ("msgpack write to " +:+ label +:+ " failed"))))
      end
  end.

(** * WebSocket frames *)

(** [None] is an item the reader passes over. *)
(* @src crates/utils/transport/src/message_channel.rs from_websocket_binary "match websocket_reader.next().await {" .. "let writer_task = tokio::spawn(async move {" *)
Definition ws_read (item : WsItem) : option Event * bool :=
  match item with
  | WsBinary b =>
      match decode b with
      | Ok m => (Some (Message m), true)
      | Err err =>
          (Some (MalformedMessage
             ("failed to parse websocket msgpack from " +:+ label +:+ ": " +:+ err)), true)
      end
  | WsText t => (Some (MalformedMessage ("unexpected text frame from " +:+ label +:+ ": " +:+ t)), true)
  | WsClose => (Some (Disconnected None), false)
  | WsPing | WsPong | WsFrame => (None, true)
  | WsErr err =>
      (Some (Disconnected (Some ("failed to read websocket msgpack from " +:+ label +:+ ": " +:+ err))),
       false)
  | WsEnd => (Some (Disconnected None), false)
  end.

(* @src crates/utils/transport/src/message_channel.rs from_websocket_binary "let reader_task = tokio::spawn(async move {" .. "let writer_task = tokio::spawn(async move {" *)
Fixpoint ws_reader (alive : nat → bool) (k : nat) (items : list WsItem) : list Event :=
  match items with
  | [] => []
  | item :: items' =>
      match ws_read item with
      | (Some ev, continue) =>
          (if alive k then [ev] else []) ++
          (if continue && (alive k || negb (match ev with Message _ => true | _ => false end))
           then ws_reader alive (S k) items' else [])
      | (None, _) => ws_reader alive k items'
      end
  end.

(** [sends k] is the outcome of the [k]-th send on the socket. *)
(* @src crates/utils/transport/src/message_channel.rs from_websocket_binary "while let Some(message) = outgoing_rx.recv().await {" .. "Self {" *)
Fixpoint ws_writer (sends : nat → result unit string) (k : nat) (outgoing : list T)
    : list bytes * option Event :=
  match outgoing with
  | [] => ([], None)
  | message :: outgoing' =>
      match encode message with
      | Err err =>
          ([], Some (Disconnected (Some ("failed to serialize msgpack for " +:+ label +:+ ": " +:+ err))))
      | Ok encoded =>
          match sends k with
          | Err err =>
              ([], Some (Disconnected
                 (Some ("failed to write websocket msgpack to " +:+ label +:+ ": " +:+ err))))
          | Ok _ =>
              let '(out, ev) := ws_writer sends (S k) outgoing' in (encoded :: out, ev)
          end
      end
  end.

(** * What reaches the other end *)

Lemma lor_shiftl_add a b : (0 ≤ b < 256)%Z → Z.lor (Z.shiftl a 8) b = (a * 256 + b)%Z.
Proof.
  intros Hb. rewrite <-Z.lxor_lor, <-Z.add_nocarry_lxor, Z.shiftl_mul_pow2; try lia;
    apply Z.bits_inj'; intros i Hi; rewrite Z.land_spec, Z.bits_0;
    (destruct (Z.lt_ge_cases i 8);
      [by rewrite Z.shiftl_spec_low|
       rewrite <-(Z.mod_small b (2 ^ 8)) by lia; rewrite Z.mod_pow2_bits_high by lia;
       apply andb_false_r]).
Qed.

Lemma from_to_be_bytes n : (0 ≤ n < 2 ^ 32)%Z → from_be_bytes (to_be_bytes n) = n.
Proof.
  intros Hn. unfold from_be_bytes, to_be_bytes. cbn [foldl].
  rewrite !lor_shiftl_add by apply byte_Z_range. rewrite !byte_Z_of_Z, !Z.shiftr_div_pow2 by lia.
  change (2 ^ 24)%Z with 16777216%Z. change (2 ^ 16)%Z with 65536%Z. change (2 ^ 8)%Z with 256%Z.
  change (2 ^ 32)%Z with 4294967296%Z in Hn. Z.to_euclidean_division_equations. lia.
Qed.

Lemma length_frame p : length (frame p) = 4 + length p.
Proof. done. Qed.

Lemma read_exact_app n (a b : bytes) e :
  len a = n → read_exact n (a ++ b) e = Ok (a, b).
Proof.
  intros <-. unfold read_exact. rewrite len_app. pose proof (len_nonneg b).
  rewrite decide_True by lia. unfold len. rewrite Nat2Z.id.
  by rewrite take_app_length, drop_app_length.
Qed.

Lemma read_exact_short n (a : bytes) e :
  (len a < n)%Z → read_exact n a e = Err match e with Eof => None | Failed m => Some m end.
Proof. intros H. unfold read_exact. by rewrite decide_False by lia. Qed.

(** Reading back a frame, of any size: a payload of 4 GiB or more comes back
    cut to its length modulo [2 ^ 32], and the reader goes on in its middle. *)
Lemma frame_read_back p rest e :
  let n := Z.to_nat (len p mod 2 ^ 32) in
  read_frame (frame p ++ rest) e =
    match decode (take n p) with
    | Ok m => Next (Message m) (drop n p ++ rest)
    | Err err => Next (MalformedMessage ("failed to parse msgpack from " +:+ label +:+ ": " +:+ err))
                   (drop n p ++ rest)
    end.
Proof.
  intros n. unfold read_frame, frame. rewrite <-app_assoc, read_exact_app by done.
  pose proof (Z.mod_pos_bound (len p) (2 ^ 32) ltac:(lia)) as Hb.
  pose proof (Z.mod_le (len p) (2 ^ 32) ltac:(apply len_nonneg) ltac:(lia)) as Hle.
  rewrite from_to_be_bytes by done.
  rewrite <-(take_drop n p) at 2. rewrite <-app_assoc, read_exact_app; [done|].
  unfold len in *. rewrite length_take. lia.
Qed.

Definition frames (ps : list bytes) : bytes := mjoin (map frame ps).

Lemma frames_cons p ps : frames (p :: ps) = frame p ++ frames ps.
Proof. done. Qed.

Lemma length_frames_take_le j ps : length (frames (take j ps)) ≤ length (frames ps).
Proof.
  revert j. induction ps as [|p ps IH]; intros [|j]; cbn [take]; rewrite ?frames_cons;
    rewrite ?length_app; cbn [length frames map mjoin list_join]; [lia..|].
  specialize (IH j). lia.
Qed.

(** The codec reads a message back from its encoding, which fits the prefix. *)
Definition encodes (m : T) (p : bytes) : Prop :=
  encode m = Ok p ∧ decode p = Ok m ∧ (len p < 2 ^ 32)%Z.

(** The first [j] of the messages are all that fit in the first [n] bytes. *)
Definition whole_frames (j n : nat) (ps : list bytes) : Prop :=
  j ≤ length ps ∧ length (frames (take j ps)) ≤ n ∧
  (j < length ps → n < length (frames (take (S j) ps))).

(** The reader on a stream of frames that is cut anywhere. *)
Lemma reader_on_cut ms ps n e fuel k :
  Forall2 encodes ms ps → n ≤ length (frames ps) → n < fuel →
  ∃ j r, reader_loop fuel (λ _, true) k (take n (frames ps)) e
         = Some (map Message (take j ms) ++ [Disconnected r]) ∧
    whole_frames j n ps ∧ (r = None ↔ e = Eof ∧ n < length (frames (take j ps)) + 4).
Proof.
  intros H. revert n fuel k. induction H as [|m p ms ps (_ & Hd & Hs) Hf IH]; intros n fuel k Hn Hfuel.
  - destruct fuel as [|fuel]; [lia|]. cbn in Hn. replace n with 0 by lia.
    exists 0. destruct e as [|err]; eexists; (split; [reflexivity|]); (split; [split_and!; cbn; lia|]).
    + split; [|done]. intros _. split; [done|cbn; lia].
    + split; [done|by intros [? _]].
  - destruct fuel as [|fuel]; [lia|]. rewrite frames_cons in *. rewrite length_app in Hn.
    rewrite length_frame in Hn.
    destruct (decide (4 + length p ≤ n)) as [Hge|Hlt].
    + rewrite take_app_ge by (rewrite length_frame; lia). rewrite length_frame.
      cbn [reader_loop]. rewrite frame_read_back. cbn zeta.
      rewrite Z.mod_small by (pose proof (len_nonneg p); lia).
      unfold len at 1. rewrite Nat2Z.id, take_ge, Hd by lia.
      unfold len. rewrite Nat2Z.id, drop_all, app_nil_l.
      destruct (IH (n - (4 + length p)) fuel (S k)) as (j & r & Hr & (H1 & H2 & H3) & Hi); [lia..|].
      exists (S j), r. cbn [take map]. rewrite Hr. split; [done|].
      unfold whole_frames. cbn [take length]. rewrite !frames_cons, !length_app, length_frame.
      split; [|rewrite Hi; split; intros [? ?]; (split; [done|lia])].
      split; [lia|]. split; [lia|]. intros ?. specialize (H3 ltac:(lia)).
      cbn [take] in H3 |- *. rewrite ?length_app in *. lia.
    + rewrite take_app_le by (rewrite length_frame; lia). cbn [reader_loop].
      assert (whole_frames 0 n (p :: ps)) as Hw.
      { split; [cbn; lia|]. split; [cbn; lia|]. intros _. cbn [take]. rewrite frames_cons, length_app,
          length_frame. lia. }
      exists 0. unfold read_frame.
      destruct (decide (n < 4)) as [H4|H4].
      * rewrite read_exact_short by (unfold len; rewrite length_take; lia).
        destruct e as [|err]; eexists; (split; [reflexivity|]); (split; [exact Hw|]); cbn.
        -- split; [|done]. intros _. split; [done|lia].
        -- split; [done|by intros [? _]].
      * unfold frame. rewrite take_app_ge by (cbn; lia).
        rewrite read_exact_app by done. cbn [length to_be_bytes].
        rewrite from_to_be_bytes by (apply Z.mod_pos_bound; lia).
        rewrite Z.mod_small by (pose proof (len_nonneg p); lia).
        rewrite read_exact_short by (unfold len; rewrite length_take; lia).
        destruct e as [|err]; eexists; (split; [reflexivity|]); (split; [exact Hw|]); cbn;
          (split; [done|intros [? ?]; lia]).
Qed.

(** What the writer gets through is a prefix of the frames, all of them when
    nothing fails. *)
Lemma writer_writes_frames ms ps flushes k room :
  Forall2 encodes ms ps →
  (writer_task flushes k room ms).1 `prefix_of` frames ps ∧
  (room = None → (∀ i, flushes i = true) →
   writer_task flushes k room ms = (frames ps, None)).
Proof.
  intros H. revert k room. induction H as [|m p ms ps (He & _) Hf IH]; intros k room; [done|].
  rewrite frames_cons. cbn [writer_task]. rewrite He. unfold frame.
  set (l := to_be_bytes _). destruct room as [r|]; cbn [write_all].
  - split; [|done]. case_bool_decide as Hl; cbn [andb fst].
    + rewrite take_ge by done. case_bool_decide as Hp; cbn [andb].
      * destruct (flushes k); cbn [fst].
        -- specialize (IH (S k) (Some (r - length l - length p))) as [IH _].
           destruct (writer_task _ _ _ ms) as [out ev]. cbn [fst] in *.
           rewrite take_ge by done. rewrite app_assoc. by apply prefix_app.
        -- rewrite take_ge by done. by apply prefix_app_r.
      * rewrite <-app_assoc. apply prefix_app. apply prefix_app_r, prefix_take.
    + rewrite app_nil_r, <-app_assoc. apply prefix_app_r, prefix_take.
  - cbn [andb]. specialize (IH (S k) None) as [IH1 IH2]. destruct (flushes k) eqn:Efl; cbn [andb].
    + destruct (writer_task _ _ _ ms) as [out ev]. cbn [fst] in *. split.
      * rewrite app_assoc. by apply prefix_app.
      * intros _ Hall. specialize (IH2 eq_refl Hall). injection IH2 as -> ->. by rewrite app_assoc.
    + split; [by apply prefix_app_r|]. intros _ Hall. by rewrite Hall in Efl.
Qed.

(** C26: A length-prefixed channel delivers a prefix of what was sent, whatever
    happens to the stream: wherever the writer's stream fails or the bytes are
    cut, the reader yields exactly the messages whose frames are complete, in
    order and unchanged, then one disconnect, and never a wrong or partial
    message; when nothing fails it yields them all.  The disconnect has no
    reason if the stream ended inside a length prefix, just as if it had ended
    between two messages. *)
Theorem channel_delivers_prefix ms ps flushes room n e :
  Forall2 encodes ms ps →
  let written := (writer_task flushes 0 room ms).1 in
  n ≤ length written →
  ∃ j r,
    reader_loop (S n) (λ _, true) 0 (take n written) e
    = Some (map Message (take j ms) ++ [Disconnected r]) ∧
    whole_frames j n ps ∧
    (r = None ↔ e = Eof ∧ n < length (frames (take j ps)) + 4) ∧
    (room = None → (∀ i, flushes i = true) → n = length written → j = length ms).
Proof.
  intros H written Hn. destruct (writer_writes_frames ms ps flushes 0 room H) as [[k Hp] Hall].
  assert (take n written = take n (frames ps)) as ->.
  { rewrite Hp. fold written. by rewrite take_app_le. }
  destruct (reader_on_cut ms ps n e (S n) 0 H) as (j & r & Hr & (H1 & H2 & H3) & Hi);
    [rewrite Hp, length_app; fold written; lia|lia|].
  exists j, r. split; [done|]. split; [done|]. split; [done|]. intros Hroom Hfl Hlen.
  apply Forall2_length in H as Hlp. unfold written in Hlen. rewrite Hall in Hlen by done.
  cbn [fst] in Hlen. destruct (decide (j < length ps)) as [Hj|]; [|lia].
  specialize (H3 Hj). pose proof (length_frames_take_le (S j) ps). lia.
Qed.
End channel.

(** ** Witness: messages are their own bytes *)

Definition plain_decode (b : bytes) : result bytes string := Ok b.
Definition plain_encode (b : bytes) : result bytes string := Ok b.

(** Two messages; the stream breaks in the second one's payload. *)
Lemma channel_delivers_prefix_witness :
  ∃ j r,
    reader_loop plain_decode "early eof" "peer" 12 (λ _, true) 0
      (take 11 (writer_task plain_encode "peer" (λ _, true) 0 None [[x68; x69]; [x79; x6f]]).1) Eof
    = Some (map Message (take j [[x68; x69]; [x79; x6f]]) ++ [Disconnected r]) ∧
    whole_frames j 11 [[x68; x69]; [x79; x6f]].
Proof.
  destruct (channel_delivers_prefix plain_decode plain_encode "early eof" "peer"
    [[x68; x69]; [x79; x6f]] [[x68; x69]; [x79; x6f]] (λ _, true) None 11 Eof)
    as (j & r & H1 & H2 & _).
  - repeat constructor.
  - vm_compute. lia.
  - exists j, r. split; [exact H1|exact H2].
Defined.

Example cut_in_the_second_payload :
  reader_loop plain_decode "early eof" "peer" 12 (λ _, true) 0
    (take 11 (writer_task plain_encode "peer" (λ _, true) 0 None [[x68; x69]; [x79; x6f]]).1) Eof
  = Some [Message [x68; x69];
          Disconnected (Some "failed to read msgpack payload from peer: early eof")].
Proof. vm_compute. reflexivity. Qed.
