(* ===== verification/Codec.v ===== *)
(** The MessagePack codec as its users see it: an encoding of values as bytes
    that can be read back.  [rmp_serde] and [rmpv] are third-party code; the
    instance at the end only shows that such a codec exists. *)
From S2P Require Import Prelude Wire.
From stdpp Require Import countable.

(** [encode_frame] and [decode_frame] on values. *)
Class Codec := {
  encode : Value → bytes;
  decode : bytes → option Value;
  decode_encode v : decode (encode v) = Some v;
}.

(** * A codec *)

Module SampleCodec.
#[export] Instance byte_countable : Countable byte.
Proof. apply (inj_countable' byte_Z byte_of_Z). intros b. apply byte_of_Z_byte_Z. Defined.

Abbreviation Leaf := (nat * Z * string * bytes)%type.

Fixpoint to_tree (v : Value) : gen_tree Leaf :=
  match v with
  | VNil => GenLeaf (0, 0%Z, "", [])
  | VBool b => GenLeaf (1, Z.b2z b, "", [])
  | VInt n => GenLeaf (2, n, "", [])
  | VFloat n => GenLeaf (3, n, "", [])
  | VStr s => GenLeaf (4, 0%Z, s, [])
  | VBadStr raw => GenLeaf (5, 0%Z, "", raw)
  | VBin b => GenLeaf (6, 0%Z, "", b)
  | VExt t b => GenLeaf (7, t, "", b)
  | VArray vs => GenNode 0 (map to_tree vs)
  | VMap kvs => GenNode 1 (map (λ kv, GenNode 2 [to_tree kv.1; to_tree kv.2]) kvs)
  end.

Fixpoint of_tree (t : gen_tree Leaf) : Value :=
  match t with
  | GenLeaf (k, z, s, b) =>
      match k with
      | 0 => VNil
      | 1 => VBool (z =? 1)%Z
      | 2 => VInt z
      | 3 => VFloat z
      | 4 => VStr s
      | 5 => VBadStr b
      | 6 => VBin b
      | _ => VExt z b
      end
  | GenNode 0 ts => VArray (map of_tree ts)
  | GenNode _ ts =>
      VMap (map (λ t, match t with
                      | GenNode _ [k; v] => (of_tree k, of_tree v)
                      | _ => (VNil, VNil)
                      end) ts)
  end.

Fixpoint of_to_tree (v : Value) : of_tree (to_tree v) = v.
Proof.
  destruct v as [|[]|n|n|s|raw|b|vs|kvs|t b]; cbn; try done; f_equal.
  - induction vs as [|v vs IH]; cbn; [done|]. by rewrite of_to_tree, IH.
  - induction kvs as [|[k v] kvs IH]; cbn; [done|]. by rewrite !of_to_tree, IH.
Qed.

#[export] Instance Value_eq_dec : EqDecision Value.
Proof.
  intros v w. destruct (decide (to_tree v = to_tree w)) as [E|E].
  - left. by rewrite <-(of_to_tree v), E, of_to_tree.
  - right. by intros ->.
Defined.

#[export] Instance Value_countable : Countable Value := inj_countable' to_tree of_tree of_to_tree.

(** A number's bits, lowest first, one byte each. *)
Fixpoint pos_bytes (p : positive) : bytes :=
  match p with
  | xH => []
  | xO p => x00 :: pos_bytes p
  | xI p => x01 :: pos_bytes p
  end.

Fixpoint bytes_pos (bs : bytes) : positive :=
  match bs with
  | [] => xH
  | b :: bs => if decide (b = x00) then xO (bytes_pos bs) else xI (bytes_pos bs)
  end.

Lemma bytes_pos_bytes p : bytes_pos (pos_bytes p) = p.
Proof. induction p as [p IH|p IH|]; cbn; [by rewrite IH..|done]. Qed.

Lemma sample_roundtrip (v : Value) :
  countable.decode (bytes_pos (pos_bytes (countable.encode v))) = Some v.
Proof. rewrite bytes_pos_bytes. apply countable.decode_encode. Qed.

#[export] Instance codec : Codec := {|
  encode v := pos_bytes (countable.encode v);
  decode b := countable.decode (bytes_pos b);
  decode_encode := sample_roundtrip;
|}.
End SampleCodec.
