(* ===== verification/Transport.v ===== *)
(** The WebSocket transport ([utils/transport/src/transport.rs]): the handle,
    the driver tasks of the accepting and the dialling side, heartbeats and
    reconnection.

    A driver's [select!] is a step that takes any branch that is ready; times
    are milliseconds.  The socket's outcomes (whether a write succeeds, what is
    read, whether a dial succeeds) are inputs of the steps. *)
From S2P Require Import Prelude Wire Framing Codec Backoff.

(** * Options and events *)

(* @src crates/utils/transport/src/transport.rs DEFAULT_HEARTBEAT_INTERVAL *)
Definition DEFAULT_HEARTBEAT_INTERVAL : Z := 30000.
(* @src crates/utils/transport/src/transport.rs DEFAULT_HEARTBEAT_TIMEOUT *)
Definition DEFAULT_HEARTBEAT_TIMEOUT : Z := 10000.

(* @src crates/utils/transport/src/transport.rs HeartbeatOptions *)
Record HeartbeatOptions := mkHeartbeat { hb_interval : Z; hb_timeout : Z }.

(* @src crates/utils/transport/src/transport.rs HeartbeatOptions::default *)
Definition HeartbeatOptions_default : HeartbeatOptions :=
  mkHeartbeat DEFAULT_HEARTBEAT_INTERVAL DEFAULT_HEARTBEAT_TIMEOUT.

(* @src crates/utils/transport/src/transport.rs DEFAULT_CONNECT_TIMEOUT *)
Definition DEFAULT_CONNECT_TIMEOUT : Z := 10000.

(* @src crates/utils/transport/src/transport.rs TransportOptions *)
Record TransportOptions := mkTransportOptions {
  to_connect_timeout : option Z;
  to_heartbeat : option HeartbeatOptions;
  to_reconnect : option ReconnectOptions;
}.

(** The derived default: no timeout of its own, no heartbeat, no reconnection. *)
Definition TransportOptions_default : TransportOptions := mkTransportOptions None None None.

(* @src crates/utils/transport/src/transport.rs TransportEvent *)
Inductive TransportEvent :=
  | Frame (b : bytes)
  | HeartbeatDead
  | TDisconnected
  | Reconnected.

#[export] Instance TransportEvent_eq_dec : EqDecision TransportEvent.
Proof. solve_decision. Defined.

(* @src crates/utils/transport/src/transport.rs DriverCmd *)
Inductive DriverCmd :=
  | Send (b : bytes)
  | StartHeartbeat
  | StopHeartbeat
  | CloseCmd.

(** * The handle *)

(** The commands queued for the driver, whether it still takes any, and the
    shared flag. *)
(* @src crates/utils/transport/src/transport.rs Transport *)
Record Transport := mkTransport {
  t_cmds : list DriverCmd;
  t_driver : bool;
  t_closed : bool;
}.

Definition t_push (c : DriverCmd) (t : Transport) : Transport :=
  if t_driver t then mkTransport (t_cmds t ++ [c]) (t_driver t) (t_closed t) else t.

(* @src crates/utils/transport/src/transport.rs Transport::send *)
Definition t_send (frame : bytes) (t : Transport) : Transport :=
  if t_closed t then t else t_push (Send frame) t.

(* @src crates/utils/transport/src/transport.rs Transport::close *)
Definition t_close (t : Transport) : Transport :=
  if t_closed t then t else t_push CloseCmd (mkTransport (t_cmds t) (t_driver t) true).

(* @src crates/utils/transport/src/transport.rs Transport::start_heartbeat *)
Definition t_start_heartbeat (t : Transport) : Transport := t_push StartHeartbeat t.

(* @src crates/utils/transport/src/transport.rs Transport::stop_heartbeat *)
Definition t_stop_heartbeat (t : Transport) : Transport := t_push StopHeartbeat t.

(* @src crates/utils/transport/src/transport.rs Transport::is_closed *)
Definition t_is_closed (t : Transport) : bool := t_closed t.

(** * Dialling *)

(* @src crates/utils/transport/src/transport.rs ClientTransportError *)
Inductive ClientTransportError :=
  | Timeout (url : string)
  | ConnectError (url source : string).

Section dial.
(** The WebSocket library: a request from an url, and connecting, which takes its
    time if it ends at all. *)
Context {Request Stream : Type}.
Context (into_client_request : string → result Request string).
Context (connect_async : Request → option (Z * result Stream string)).

(* @src crates/utils/transport/src/transport.rs dial_once *)
Definition dial_once (url : string) (connect_timeout : option Z) : result Stream ClientTransportError :=
  request ←? map_err (ConnectError url) (into_client_request url);
  let timeout := default DEFAULT_CONNECT_TIMEOUT connect_timeout in
  match connect_async request with
  | Some (took, r) =>
      if decide (took ≤ timeout)%Z then map_err (ConnectError url) r else Err (Timeout url)
  | None => Err (Timeout url)
  end.

(** A dial that answers did so within its time; one that hangs does not hang its
    caller. *)
Lemma dial_once_Ok url ct s :
  dial_once url ct = Ok s →
  ∃ request took, into_client_request url = Ok request ∧ connect_async request = Some (took, Ok s)
    ∧ (took ≤ default DEFAULT_CONNECT_TIMEOUT ct)%Z.
Proof.
  unfold dial_once. destruct (into_client_request url) as [r|e]; [|done]. cbn.
  destruct (connect_async r) as [[took [s'|e]]|] eqn:E; try done; case_decide; try done.
  cbn. intros [= ->]. by exists r, took.
Qed.
End dial.

(** * Heartbeat frames *)

Section codec.
Context {C : Codec}.

Definition heartbeat_value (method : string) : Value := VMap [(VStr "method", VStr method)].

(* @src crates/utils/transport/src/transport.rs ping_frame_bytes *)
Definition ping_frame_bytes : bytes := encode (heartbeat_value "ping").
(* @src crates/utils/transport/src/transport.rs pong_frame_bytes *)
Definition pong_frame_bytes : bytes := encode (heartbeat_value "pong").

(* @src crates/utils/transport/src/transport.rs classify_ping_pong *)
Definition classify_ping_pong (b : bytes) : option bool :=
  value ← decode b;
  m ← as_map value;
  match m with
  | [(k, v)] =>
      if decide (as_str k = Some "method") then
        s ← as_str v;
        if decide (s = "ping") then Some true
        else if decide (s = "pong") then Some false
        else None
      else None
  | _ => None
  end.

(** * The accepting side *)

Record Driver := mkDriver {
  d_cmds : list DriverCmd;
  d_hb_enabled : bool;
  d_interval : option Z;   (* the next tick *)
  d_deadline : option Z;
  d_written : list bytes;
  d_events : list TransportEvent;
  d_closed : bool;
  d_running : bool;
}.

(** [interval_at(now + period, period)] *)
(* @src crates/utils/transport/src/transport.rs make_heartbeat_interval *)
Definition make_heartbeat_interval (enabled : bool) (now : Z) (o : HeartbeatOptions) : option Z :=
  if enabled then Some (now + hb_interval o)%Z else None.

(** A tick taken at [now] that was due at [due]: with [Skip], the next one is
    the next multiple of the period. *)
Definition next_tick (due now period : Z) : Z := (due + period * ((now - due) / period + 1))%Z.

Definition hb_options (o : TransportOptions) : HeartbeatOptions :=
  default HeartbeatOptions_default (to_heartbeat o).

(** A branch of the [select!], with what the socket does. *)
Inductive branch :=
  | BCmd (now : Z) (write_ok : bool)
  | BTick (now : Z) (write_ok : bool)
  | BDeadline (now : Z)
  | BRead (item : WsItem) (write_ok : bool) (events_open : bool).

(** What one branch does to the task's state; [Lost] ends the socket, [Shut]
    the task. *)
Inductive after := Go (d : Driver) | Lost (d : Driver) | Shut (d : Driver).

Definition d_write (b : bytes) (d : Driver) : Driver :=
  mkDriver (d_cmds d) (d_hb_enabled d) (d_interval d) (d_deadline d) (d_written d ++ [b])
    (d_events d) (d_closed d) (d_running d).

Definition d_emit (e : TransportEvent) (d : Driver) : Driver :=
  mkDriver (d_cmds d) (d_hb_enabled d) (d_interval d) (d_deadline d) (d_written d)
    (d_events d ++ [e]) (d_closed d) (d_running d).

Definition d_heartbeat (enabled : bool) (interval deadline : option Z) (d : Driver) : Driver :=
  mkDriver (d_cmds d) enabled interval deadline (d_written d) (d_events d) (d_closed d) (d_running d).

Definition d_pop (d : Driver) : option (DriverCmd * Driver) :=
  match d_cmds d with
  | c :: cs => Some (c, mkDriver cs (d_hb_enabled d) (d_interval d) (d_deadline d) (d_written d)
                          (d_events d) (d_closed d) (d_running d))
  | [] => None
  end.

(** The branches both drivers share; [None] where the branch is not ready. *)
(* @src crates/utils/transport/src/transport.rs run_accepted_driver "tokio::select! {" .. "closed.store(true, Ordering::SeqCst);" *)
Definition select_branch (o : HeartbeatOptions) (b : branch) (d : Driver) : option after :=
  match b with
  | BCmd now ok =>
      cd ← d_pop d;
      let '(c, d) := (cd : DriverCmd * Driver) in
      Some match c with
           | Send bytes => if ok then Go (d_write bytes d) else Lost d
           | StartHeartbeat =>
               Go (d_heartbeat true (make_heartbeat_interval true now o) (d_deadline d) d)
           | StopHeartbeat => Go (d_heartbeat false None None d)
           | CloseCmd => Shut d
           end
  | BTick now ok =>
      if d_hb_enabled d then
        due ← d_interval d;
        if decide (due ≤ now)%Z then
          let next := Some (next_tick due now (hb_interval o)) in
          if ok then
            Some (Go (d_heartbeat true next (Some (now + hb_timeout o)%Z)
                        (d_write ping_frame_bytes d)))
          else Some (Lost (d_heartbeat true next (d_deadline d) d))
        else None
      else None
  | BDeadline now =>
      t ← d_deadline d;
      if decide (t ≤ now)%Z then
        Some (Go (d_emit HeartbeatDead (d_heartbeat (d_hb_enabled d) (d_interval d) None d)))
      else None
  | BRead item ok events_open =>
      Some match item with
           | WsBinary bytes =>
               match classify_ping_pong bytes with
               | Some true => if ok then Go (d_write pong_frame_bytes d) else Lost d
               | Some false => Go (d_heartbeat (d_hb_enabled d) (d_interval d) None d)
               | None => if events_open then Go (d_emit (Frame bytes) d) else Shut d
               end
           | WsClose | WsEnd | WsErr _ => Lost d
           | WsText _ | WsPing | WsPong | WsFrame => Go d
           end
  end.

Definition d_stop (d : Driver) : Driver :=
  mkDriver (d_cmds d) (d_hb_enabled d) (d_interval d) (d_deadline d) (d_written d)
    (d_events d) true false.

(* @src crates/utils/transport/src/transport.rs run_accepted_driver *)
Definition accepted_step (o : TransportOptions) (b : branch) (d : Driver) : option Driver :=
  if d_running d then
    r ← select_branch (hb_options o) b d;
    Some match r with
         | Go d => d
         | Lost d => d_stop (d_emit TDisconnected d)
         | Shut d => d_stop d
         end
  else None.

(* @src crates/utils/transport/src/transport.rs run_accepted_driver "let hb_opts" .. "let mut hb_deadline" *)
Definition driver_new (o : TransportOptions) (now : Z) : Driver :=
  let enabled := bool_decide (is_Some (to_heartbeat o)) in
  mkDriver [] enabled (make_heartbeat_interval enabled now (hb_options o)) None [] [] false true.

(** A handle on a socket that is up, and the task that serves it. *)
Definition t_new : Transport := mkTransport [] true false.

(* @src crates/utils/transport/src/transport.rs accepted_websocket_transport *)
Definition accepted_websocket_transport (o : TransportOptions) (now : Z) : Transport * Driver :=
  (t_new, driver_new o now).

(** * The dialling side *)

(** [Waiting] is the delay before a dial. *)
Inductive phase := Connected | Waiting | Dialing | Stopped.

#[export] Instance phase_eq_dec : EqDecision phase.
Proof. solve_decision. Defined.

(** [cl_driver] is the task's state; its interval and deadline are those of
    the socket in use. [cl_dials] counts the dials. *)
Record Client := mkClient {
  cl_phase : phase;
  cl_attempts : Z;
  cl_dials : nat;
  cl_driver : Driver;
}.

Definition cl_stop (closed : bool) (c : Client) : Client :=
  mkClient Stopped (cl_attempts c) (cl_dials c)
    (let d := cl_driver c in
     mkDriver (d_cmds d) (d_hb_enabled d) (d_interval d) (d_deadline d) (d_written d) (d_events d)
       (closed || d_closed d) false).

Definition cl_emit (e : TransportEvent) (c : Client) : Client :=
  mkClient (cl_phase c) (cl_attempts c) (cl_dials c) (d_emit e (cl_driver c)).

(** The start of an attempt: count it and wait, or give up.  Giving up leaves
    the [closed] flag as it is. *)
(* @src crates/utils/transport/src/transport.rs attempt_reconnect "let Some(rc) = options.reconnect.clone()" .. "let delay" *)
Definition begin_attempt (o : TransportOptions) (c : Client) : Client :=
  let gave_up := cl_stop false (cl_emit TDisconnected c) in
  match to_reconnect o with
  | None => gave_up
  | Some rc =>
      if match rc_attempts rc with Some max => bool_decide (max ≤ cl_attempts c)%Z | None => false end
      then gave_up
      else mkClient Waiting ((cl_attempts c + 1) mod 2 ^ 32) (cl_dials c) (cl_driver c)
  end.

(** The socket is gone. *)
(* @src crates/utils/transport/src/transport.rs run_client_driver "if options.reconnect.is_none()" .. "// stream_opt stays None" *)
Definition socket_lost (o : TransportOptions) (c : Client) : Client :=
  match to_reconnect o with
  | None => cl_stop true (cl_emit TDisconnected c)
  | Some _ => begin_attempt o c
  end.

Inductive client_input :=
  | CBranch (b : branch)
  | CDelayOver (nanos waited : Z)
  | CDelayCmd
  | CDial (now : Z) (ok : bool).

(** The wait before a dial: the whole delay, drawn with the clock, or until a
    command is there; any command ends it, and a close ends it all. *)
(* @src crates/utils/transport/src/transport.rs attempt_reconnect "let delay = reconnect_delay(&rc, *attempts);" .. "match dial_once" *)
Definition attempt_wait (o : TransportOptions) (i : client_input) (c : Client) : option Client :=
  match i with
  | CDelayOver nanos waited =>
      rc ← to_reconnect o;
      if decide (reconnect_delay rc (cl_attempts c) nanos ≤ waited)%Z then
        Some (mkClient Dialing (cl_attempts c) (cl_dials c) (cl_driver c))
      else None
  | CDelayCmd =>
      cd ← d_pop (cl_driver c);
      let c := mkClient Dialing (cl_attempts c) (cl_dials c) cd.2 in
      Some match cd.1 with CloseCmd => cl_stop true c | _ => c end
  | _ => None
  end.

(** The dial, whose success starts the count and the heartbeat anew. *)
(* @src crates/utils/transport/src/transport.rs attempt_reconnect "match dial_once(url, options.connect_timeout).await {" .. "continue;" *)
Definition attempt_dial (o : TransportOptions) (now : Z) (ok : bool) (c : Client) : Client :=
  if ok then
    let d := cl_driver c in
    mkClient Connected 0 (S (cl_dials c))
      (d_emit Reconnected
         (d_heartbeat (d_hb_enabled d)
            (make_heartbeat_interval (d_hb_enabled d) now (hb_options o)) None d))
  else begin_attempt o (mkClient Dialing (cl_attempts c) (S (cl_dials c)) (cl_driver c)).

(* @src crates/utils/transport/src/transport.rs run_client_driver *)
Definition client_step (o : TransportOptions) (i : client_input) (c : Client) : option Client :=
  match cl_phase c, i with
  | Connected, CBranch b =>
      r ← select_branch (hb_options o) b (cl_driver c);
      Some match r with
           | Go d => mkClient Connected (cl_attempts c) (cl_dials c) d
           | Lost d => socket_lost o (mkClient Connected (cl_attempts c) (cl_dials c) d)
           | Shut d => cl_stop true (mkClient Connected (cl_attempts c) (cl_dials c) d)
           end
  | Waiting, _ => attempt_wait o i c
  | Dialing, CDial now ok => Some (attempt_dial o now ok c)
  | _, _ => None
  end.

Definition client_new (o : TransportOptions) (now : Z) : Client :=
  mkClient Connected 0 0 (driver_new o now).

(* @src crates/utils/transport/src/transport.rs connect_websocket_transport *)
Definition connect_websocket_transport {Request Stream : Type}
    (into_client_request : string → result Request string)
    (connect_async : Request → option (Z * result Stream string))
    (url : string) (o : TransportOptions) (now : Z) : result (Transport * Client) ClientTransportError :=
  _ ←? dial_once into_client_request connect_async url (to_connect_timeout o);
  Ok (t_new, client_new o now).

(** Commands other tasks send meanwhile. *)
Definition client_cmd (cmd : DriverCmd) (c : Client) : Client :=
  let d := cl_driver c in
  if decide (cl_phase c = Stopped) then c
  else mkClient (cl_phase c) (cl_attempts c) (cl_dials c)
         (mkDriver (d_cmds d ++ [cmd]) (d_hb_enabled d) (d_interval d) (d_deadline d) (d_written d)
            (d_events d) (d_closed d) (d_running d)).

(** * Which frames are heartbeats *)

(** The shape check keeps every frame of the application out of the
    heartbeat but one: an encoded message is taken for a ping or pong exactly
    when it is a connection-level notification of that name without
    parameters, which is therefore swallowed and never delivered. *)
Theorem heartbeat_shadows_notifications m b :
  classify_ping_pong (encode (wire_value m)) = Some b ↔
  m = WNotification (mkWireNotification None (if b then "ping" else "pong") None).
Proof.
  unfold classify_ping_pong. rewrite decode_encode. cbn [mbind option_bind].
  destruct m as [[[st|] id me [pa|]]|[[st|] id [re|] [er|]]|[[st|] me [pa|]]];
    try (split; [|done]; cbn; repeat case_decide; done).
  cbn. repeat case_decide; try done; subst; destruct b; split; intros Heq;
    simplify_eq/=; done.
Qed.

(** * Heartbeats against a silent peer *)

(** Nothing to send, nothing to read, and the driver takes a timer the moment
    it is due, the earlier one first. *)
Inductive silent_step (o : TransportOptions) : Driver → Driver → Prop :=
  | silent_tick now d d' :
      d_interval d = Some now → (∀ t, d_deadline d = Some t → now ≤ t)%Z →
      accepted_step o (BTick now true) d = Some d' → silent_step o d d'
  | silent_deadline now d d' :
      d_deadline d = Some now → (∀ t, d_interval d = Some t → now ≤ t)%Z →
      accepted_step o (BDeadline now) d = Some d' → silent_step o d d'.

Definition pings (d : Driver) : nat := length (filter (.= ping_frame_bytes) (d_written d)).
Definition deads (d : Driver) : nat := length (filter (.= HeartbeatDead) (d_events d)).

Lemma next_tick_on_time due period : (0 < period)%Z → next_tick due due period = (due + period)%Z.
Proof. intros H. unfold next_tick. rewrite Z.sub_diag, Z.div_0_l by lia. lia. Qed.

(** Between two ticks either the last ping is still awaited or it was given
    up; with a timeout longer than the interval it is always awaited. *)
Definition awaiting (h : HeartbeatOptions) (d : Driver) : Prop :=
  d_running d = true ∧ d_hb_enabled d = true ∧
  ∃ next, d_interval d = Some next ∧
    match d_deadline d with
    | None => ((hb_timeout h < hb_interval h)%Z → pings d = deads d) ∧
        ((hb_interval h < hb_timeout h)%Z → deads d = 0)
    | Some t => t = (next - hb_interval h + hb_timeout h)%Z ∧
        ((hb_timeout h < hb_interval h)%Z → pings d = S (deads d)) ∧
        ((hb_interval h < hb_timeout h)%Z → deads d = 0)
    end.

Lemma pings_ping d en iv dl :
  pings (d_heartbeat en iv dl (d_write ping_frame_bytes d)) = S (pings d).
Proof. unfold pings. cbn. rewrite filter_app, length_app, filter_cons, decide_True by done. cbn. lia. Qed.

Lemma deads_dead d en iv dl : deads (d_emit HeartbeatDead (d_heartbeat en iv dl d)) = S (deads d).
Proof. unfold deads. cbn. rewrite filter_app, length_app, filter_cons, decide_True by done. cbn. lia. Qed.

Lemma awaiting_step o h d d' :
  to_heartbeat o = Some h → (0 < hb_interval h)%Z → awaiting h d → silent_step o d d' → awaiting h d'.
Proof.
  intros Ho Hi (Hr & He & next & Hn & Hd) Hs.
  assert (hb_options o = h) as Hopt by (unfold hb_options; by rewrite Ho).
  destruct Hs as [now d d' Ht Hle Hs|now d d' Ht Hle Hs];
    unfold accepted_step, select_branch in Hs; rewrite Hr, ?Hopt in Hs.
  - rewrite Hn in Ht. injection Ht as ->. rewrite He, Hn in Hs. cbn in Hs.
    rewrite decide_True in Hs by lia. cbn in Hs. injection Hs as <-.
    split; [done|]. split; [done|]. eexists. split; [reflexivity|]. cbn [d_deadline d_heartbeat].
    rewrite next_tick_on_time, pings_ping by done.
    change (deads (d_heartbeat _ _ _ _)) with (deads d).
    split; [lia|]. destruct (d_deadline d) as [t|].
    + destruct Hd as (-> & H1 & H2). specialize (Hle _ eq_refl). split; [lia|done].
    + destruct Hd as [H1 H2]. split; [intros Hto; by rewrite H1|done].
  - rewrite Ht in Hs, Hd. cbn in Hs. rewrite decide_True in Hs by lia. cbn in Hs. injection Hs as <-.
    split; [done|]. split; [done|]. exists next. split; [done|]. cbn [d_deadline d_emit d_heartbeat].
    rewrite deads_dead. change (pings (d_emit _ _)) with (pings d).
    destruct Hd as (-> & H1 & H2). specialize (Hle _ Hn). split; [done|lia].
Qed.

Lemma awaiting_new o h t0 : to_heartbeat o = Some h → awaiting h (driver_new o t0).
Proof.
  intros Ho. unfold driver_new, awaiting, hb_options. rewrite Ho. cbn.
  split; [done|]. split; [done|]. eexists. split; [reflexivity|]. done.
Qed.

(** What the heartbeat notices of a silent peer depends on its options:
    with the timeout below the interval every ping but the last is followed by
    a [HeartbeatDead] event, and with the timeout above the interval no such
    event ever comes, because each ping moves the deadline on; the driver goes
    on either way. *)
Theorem silent_peer_detection o h t0 d :
  to_heartbeat o = Some h → (0 < hb_interval h)%Z →
  rtc (silent_step o) (driver_new o t0) d →
  ((hb_timeout h < hb_interval h)%Z → deads d ≤ pings d ≤ S (deads d)) ∧
  ((hb_interval h < hb_timeout h)%Z → deads d = 0) ∧
  ∃ d', silent_step o d d'.
Proof.
  intros Ho Hi Hr.
  assert (awaiting h d) as (Hrun & He & next & Hn & Hd).
  { eapply (rtc_invariant (silent_step o) (awaiting h)); [|by apply awaiting_new|exact Hr].
    intros a b ? ?. by eapply awaiting_step. }
  assert (∀ now, (now = next ∨ d_deadline d = Some now)%Z → 
    (∀ t, d_deadline d = Some t → now ≤ t)%Z → (now ≤ next)%Z → ∃ d', silent_step o d d') as Hgo.
  { intros now [->|Hnow] H1 H2.
    - eexists. eapply (silent_tick o next); [done|done|].
      unfold accepted_step, select_branch. rewrite Hrun, He, Hn. cbn. by rewrite decide_True.
    - eexists. eapply (silent_deadline o now); [done|by intros t; rewrite Hn; intros [= <-]|].
      unfold accepted_step, select_branch. rewrite Hrun, Hnow. cbn. by rewrite decide_True. }
  destruct (d_deadline d) as [t|] eqn:Ed.
  - destruct Hd as (_ & H1 & H2). split; [lia|]. split; [done|].
    destruct (Z.le_gt_cases t next).
    + apply (Hgo t); [by right|by intros ? [= <-]|done].
    + apply (Hgo next); [by left|intros ? [= <-]; lia|lia].
  - destruct Hd as [H1 H2]. split; [lia|]. split; [done|]. apply (Hgo next); [by left|done|lia].
Qed.

(** * Reconnection *)

(** Steps of the dialling driver and commands of its users. *)
Inductive client_move (o : TransportOptions) : Client → Client → Prop :=
  | move_step i c c' : client_step o i c = Some c' → client_move o c c'
  | move_cmd cmd c : client_move o c (client_cmd cmd c).

Definition reconnections (c : Client) : Z := len (filter (.= Reconnected) (d_events (cl_driver c))).

(** [TDisconnected] has not been sent. *)
Definition no_disconnect (c : Client) : Prop := TDisconnected ∉ d_events (cl_driver c).

Definition bounded (max : Z) (c : Client) : Prop :=
  (0 ≤ cl_attempts c ≤ max)%Z ∧
  (Z.of_nat (cl_dials c) ≤ max * reconnections c + cl_attempts c)%Z ∧
  match cl_phase c with
  | Connected => cl_attempts c = 0%Z ∧ no_disconnect c
  | Waiting | Dialing =>
      (1 ≤ cl_attempts c)%Z ∧ (Z.of_nat (cl_dials c) < max * reconnections c + cl_attempts c)%Z ∧
      no_disconnect c
  | Stopped =>
      no_disconnect c ∨
      ∃ evs, d_events (cl_driver c) = evs ++ [TDisconnected] ∧ TDisconnected ∉ evs
  end.

Lemma reconnections_emit e c :
  e ≠ Reconnected → len (filter (.= Reconnected) (d_events (d_emit e c))) =
                    len (filter (.= Reconnected) (d_events c)).
Proof. intros He. cbn. rewrite filter_app, filter_cons, decide_False by done. by rewrite app_nil_r. Qed.

(** A branch of the [select!] reports neither a reconnection nor the end. *)
Lemma select_branch_events o b d r :
  select_branch o b d = Some r →
  let d' := match r with Go d' | Lost d' | Shut d' => d' end in
  ∃ evs, d_events d' = d_events d ++ evs ∧ Forall (λ e, e ≠ Reconnected ∧ e ≠ TDisconnected) evs.
Proof.
  assert (∀ d' : Driver, d_events d' = d_events d → ∃ evs, d_events d' = d_events d ++ evs ∧
    Forall (λ e, e ≠ Reconnected ∧ e ≠ TDisconnected) evs) as Hsame.
  { intros d' ->. exists []. by rewrite app_nil_r. }
  destruct b as [now ok|now ok|now|item ok open]; cbn [select_branch].
  - unfold d_pop. destruct (d_cmds d) as [|c cs]; [done|]. cbn. intros [= <-].
    destruct c, ok; by apply Hsame.
  - destruct (d_hb_enabled d); [|done]. destruct (d_interval d); [|done]. cbn.
    case_decide; [|done]. destruct ok; intros [= <-]; by apply Hsame.
  - destruct (d_deadline d); [|done]. cbn. case_decide; [|done]. intros [= <-].
    exists [HeartbeatDead]. split; [done|]. by repeat constructor.
  - intros [= <-]. destruct item; try by apply Hsame.
    destruct (classify_ping_pong b) as [[]|]; [destruct ok; by apply Hsame|by apply Hsame|].
    destruct open; [|by apply Hsame]. exists [Frame b]. split; [done|]. by repeat constructor.
Qed.

Lemma quiet_events (evs l : list TransportEvent) :
  Forall (λ e, e ≠ Reconnected ∧ e ≠ TDisconnected) evs →
  filter (.= Reconnected) (l ++ evs) = filter (.= Reconnected) l ∧
  (TDisconnected ∉ l → TDisconnected ∉ l ++ evs).
Proof.
  intros H. split.
  - rewrite filter_app, (filter_none _ evs), app_nil_r; [done|].
    eapply Forall_impl; [exact H|]. by intros ? [].
  - rewrite elem_of_app. intros Hl [?|He]; [done|]. rewrite Forall_forall in H. by apply H in He as [].
Qed.

Lemma begin_attempt_bounded o max rc c :
  to_reconnect o = Some rc → rc_attempts rc = Some max → (max < 2 ^ 32)%Z →
  (0 ≤ cl_attempts c ≤ max)%Z → no_disconnect c →
  (Z.of_nat (cl_dials c) ≤ max * reconnections c + cl_attempts c)%Z →
  bounded max (begin_attempt o c).
Proof.
  intros Ho Hrc Hmax Ha Hno Hd. unfold begin_attempt. rewrite Ho, Hrc. case_bool_decide as Hge.
  - unfold bounded, reconnections, cl_stop, cl_emit. cbn [cl_attempts cl_dials cl_driver cl_phase].
    change (d_events (mkDriver _ _ _ _ _ ?e _ _)) with e. rewrite reconnections_emit by done.
    split; [done|]. split; [done|]. right. by exists (d_events (cl_driver c)).
  - unfold bounded, reconnections. cbn [cl_attempts cl_dials cl_driver cl_phase].
    rewrite Z.mod_small by lia. fold (reconnections c). repeat split; try done; lia.
Qed.

Lemma bounded_step o max rc i c c' :
  to_reconnect o = Some rc → rc_attempts rc = Some max → (max < 2 ^ 32)%Z →
  bounded max c → client_step o i c = Some c' → bounded max c'.
Proof.
  intros Ho Hrc Hmax (Ha & Hd & Hp) Hs. unfold client_step in Hs.
  destruct (cl_phase c) eqn:Ep, i as [b|nanos waited| |now ok]; try done.
  - apply bind_Some in Hs as (r & Hr & [= <-]).
    destruct (select_branch_events _ _ _ _ Hr) as (evs & He & Hq).
    apply (quiet_events _ (d_events (cl_driver c))) in Hq as [Hq1 Hq2]. rewrite <-He in Hq1, Hq2.
    destruct Hp as [Hz Hno].
    destruct r as [d|d|d].
    + unfold bounded, reconnections, no_disconnect. cbn. rewrite Hq1.
      fold (reconnections c). split_and!; auto; lia.
    + unfold socket_lost. rewrite Ho. eapply begin_attempt_bounded; try done.
      * by apply Hq2.
      * unfold reconnections. cbn. by rewrite Hq1.
    + unfold bounded, reconnections, no_disconnect. cbn. rewrite Hq1.
      fold (reconnections c). split_and!; auto; lia.
  - cbn in Hs. rewrite Ho in Hs. cbn in Hs. case_decide; [|done]. injection Hs as <-.
    exact (conj Ha (conj Hd Hp)).
  - apply bind_Some in Hs as ([cmd d] & Hpop & [= <-]). unfold d_pop in Hpop.
    destruct (d_cmds (cl_driver c)) as [|c0 cs]; [done|]. injection Hpop as <- <-.
    destruct Hp as (? & ? & ?).
    destruct c0; unfold bounded, reconnections, no_disconnect; cbn; split_and!; auto; lia.
  - destruct ok; injection Hs as <-; cbn [attempt_dial].
    2: { destruct Hp as (H1 & H2 & Hno).
         eapply begin_attempt_bounded; try done. cbn [cl_dials cl_attempts]. unfold reconnections in *. cbn. lia. }
    unfold bounded, reconnections, no_disconnect. cbn.
    destruct Hp as (H1 & H2 & Hno). rewrite filter_app, filter_cons, decide_True by done.
    rewrite len_app. fold (reconnections c). change (len (Reconnected :: _)) with 1%Z.
    split; [lia|]. split; [lia|]. split; [done|]. unfold no_disconnect in Hno.
    apply not_elem_of_app. split; [done|]. by rewrite list_elem_of_singleton.
Qed.

Lemma bounded_cmd max cmd c : bounded max c → bounded max (client_cmd cmd c).
Proof. intros H. unfold client_cmd. case_decide; [done|]. by destruct c as [[] ? ? ?]. Qed.

(** A dialling transport with at most [max] attempts keeps to them: it
    dials at most [max] times for each outage (one more than the
    reconnections), the event that it gave up is sent at most once and is the
    last one, and nothing happens after it has stopped. *)
Theorem reconnects_bounded o rc max t0 c :
  to_reconnect o = Some rc → rc_attempts rc = Some max → (0 ≤ max < 2 ^ 32)%Z →
  rtc (client_move o) (client_new o t0) c →
  (Z.of_nat (cl_dials c) ≤ max * (reconnections c + 1))%Z ∧
  (TDisconnected ∈ d_events (cl_driver c) →
   cl_phase c = Stopped ∧
   ∃ evs, d_events (cl_driver c) = evs ++ [TDisconnected] ∧ TDisconnected ∉ evs) ∧
  (cl_phase c = Stopped → ∀ c', client_move o c c' → c' = c).
Proof.
  intros Ho Hrc Hmax Hr.
  assert (bounded max c) as (Ha & Hd & Hp).
  { eapply (rtc_invariant (client_move o) (bounded max)); [| |exact Hr].
    - intros a b Hb Hm. revert Hb. destruct Hm as [i a' b' Hs|cmd a']; intros Hb;
        [|by apply bounded_cmd].
      apply (bounded_step o max rc i a' b'); [done|done|lia|done|done].
    - unfold bounded, no_disconnect. change (reconnections (client_new o t0)) with 0%Z. cbn.
      split; [lia|]. split; [lia|].
      split; [done|]. apply not_elem_of_nil. }
  split; [lia|]. split.
  - intros Hin. destruct (cl_phase c); destruct_and?; try done. destruct Hp as [?|?]; [done|auto].
  - intros Hst c' Hm. revert Hst. clear -Hm. destruct Hm as [i c c' Hs|cmd c]; intros Hst.
    + unfold client_step in Hs. by rewrite Hst in Hs.
    + unfold client_cmd. by rewrite decide_True.
Qed.

(** The dials of a burst: a queued frame cuts the delay short, the dial fails. *)
Fixpoint burst (o : TransportOptions) (n : nat) (c : Client) : option Client :=
  match n with
  | O => Some c
  | S n' => c ← client_step o CDelayCmd c; c ← client_step o (CDial 0 false) c; burst o n' c
  end.

(** Traffic during an outage defeats the delays and is lost: each frame
    sent while the driver waits is dropped and starts the next dial at once,
    so that as many frames as there are attempts left end the transport
    without any delay having passed, none of them written, and with the closed
    flag still unset. *)
Theorem traffic_exhausts_reconnects o rc max c fs cmds :
  to_reconnect o = Some rc → rc_attempts rc = Some max → (max < 2 ^ 32)%Z →
  cl_phase c = Waiting → (1 ≤ cl_attempts c ≤ max)%Z →
  d_cmds (cl_driver c) = map Send fs ++ cmds → len fs = (max - cl_attempts c + 1)%Z →
  ∃ c', burst o (length fs) c = Some c' ∧ cl_phase c' = Stopped ∧
    d_cmds (cl_driver c') = cmds ∧ d_written (cl_driver c') = d_written (cl_driver c) ∧
    d_events (cl_driver c') = d_events (cl_driver c) ++ [TDisconnected] ∧
    d_closed (cl_driver c') = d_closed (cl_driver c).
Proof.
  intros Ho Hrc Hmax. revert c. induction fs as [|f fs IH]; intros c Hp Ha Hc Hl.
  { unfold len in Hl. cbn in Hl. lia. }
  rewrite len_cons in Hl. cbn [length burst].
  assert (client_step o CDelayCmd c =
    Some (mkClient Dialing (cl_attempts c) (cl_dials c)
      (let d := cl_driver c in
       mkDriver (map Send fs ++ cmds) (d_hb_enabled d) (d_interval d) (d_deadline d) (d_written d)
         (d_events d) (d_closed d) (d_running d)))) as ->.
  { unfold client_step, attempt_wait, d_pop. by rewrite Hp, Hc. }
  cbn [mbind option_bind]. cbn [client_step attempt_dial cl_phase cl_attempts cl_dials cl_driver].
  unfold begin_attempt. rewrite Ho, Hrc. cbn [cl_attempts].
  case_bool_decide as Hge.
  - assert (fs = []) as -> by (destruct fs; [done|rewrite len_cons in Hl; pose proof (len_nonneg fs); lia]).
    cbn. eexists. split; [reflexivity|]. cbn. split_and!; done.
  - rewrite Z.mod_small by lia. cbn [mbind option_bind].
    match goal with |- context [burst o _ ?c1] => destruct (IH c1) as (c' & H1 & H2 & H3 & H4) end;
      [done|cbn; lia|done|cbn; lia|].
    by exists c'.
Qed.
End codec.

(** ** Witnesses *)

Module SampleTransport.
Import Codec.SampleCodec.

Definition two_attempts : ReconnectOptions :=
  let d := ReconnectOptions_default in mkReconnect (Some 2%Z) (rc_min_delay d) (rc_max_delay d) (rc_factor d) (rc_jitter d).

Definition beating : TransportOptions :=
  mkTransportOptions None (Some (mkHeartbeat 30 10)) (Some two_attempts).

(** The first ping, at 30, and the end of waiting for it, at 40. *)
Definition pinged : Driver :=
  default (driver_new beating 0) (accepted_step beating (BTick 30 true) (driver_new beating 0)).
Definition given_up : Driver := default pinged (accepted_step beating (BDeadline 40) pinged).

Lemma heartbeat_shadows_notifications_witness :
  classify_ping_pong (encode (wire_value (WNotification (mkWireNotification None "ping" None))))
  = Some true.
Proof.
  apply (heartbeat_shadows_notifications (WNotification (mkWireNotification None "ping" None)) true).
  reflexivity.
Defined.

Lemma silent_peer_detection_witness :
  rtc (silent_step beating) (driver_new beating 0) given_up ∧
  deads given_up ≤ pings given_up ≤ S (deads given_up) ∧ deads given_up = 1.
Proof.
  assert (rtc (silent_step beating) (driver_new beating 0) given_up) as Hr.
  { apply (rtc_l _ _ pinged); [|apply rtc_once].
    - apply (silent_tick _ 30); [reflexivity|done|reflexivity].
    - apply (silent_deadline _ 40); [reflexivity| |reflexivity]. intros t [= <-]. done. }
  split; [exact Hr|].
  destruct (silent_peer_detection beating (mkHeartbeat 30 10) 0 given_up) as (H & _ & _);
    [reflexivity|reflexivity|exact Hr|].
  split; [apply H; reflexivity|reflexivity].
Defined.

(** The socket breaks and the first dial succeeds. *)
Definition broken : Client :=
  default (client_new beating 0)
    (client_step beating (CBranch (BRead WsEnd true true)) (client_new beating 0)).
Definition dialing : Client := default broken (client_step beating (CDelayOver 0 500) broken).
Definition redialled : Client := default dialing (client_step beating (CDial 500 true) dialing).

Lemma reconnects_bounded_witness :
  rtc (client_move beating) (client_new beating 0) redialled ∧
  (Z.of_nat (cl_dials redialled) ≤ 2 * (reconnections redialled + 1))%Z.
Proof.
  assert (rtc (client_move beating) (client_new beating 0) redialled) as Hr.
  { apply (rtc_l _ _ broken); [apply (move_step _ (CBranch (BRead WsEnd true true))); reflexivity|].
    apply (rtc_l _ _ dialing); [apply (move_step _ (CDelayOver 0 500)); reflexivity|].
    apply rtc_once. apply (move_step _ (CDial 500 true)). reflexivity. }
  split; [exact Hr|].
  apply (reconnects_bounded beating two_attempts 2 0 redialled);
    [reflexivity|reflexivity|lia|exact Hr].
Defined.

(** Two requests sent while the driver waits for its first dial. *)
Definition busy : Client :=
  client_cmd (Send [x02]) (client_cmd (Send [x01]) broken).

Lemma traffic_exhausts_reconnects_witness :
  ∃ c', burst beating 2 busy = Some c' ∧ cl_phase c' = Stopped ∧
    d_cmds (cl_driver c') = [] ∧ d_written (cl_driver c') = [] ∧ d_closed (cl_driver c') = false.
Proof.
  destruct (traffic_exhausts_reconnects beating two_attempts 2 busy [[x01]; [x02]] [])
    as (c' & H1 & H2 & H3 & H4 & _ & H6); try reflexivity; [split; vm_compute; congruence|].
  exists c'. split_and!; [exact H1|exact H2|exact H3|rewrite H4; reflexivity|rewrite H6; reflexivity].
Defined.
End SampleTransport.
