(* ===== verification/Delivery.v ===== *)
(** A dialling and an accepting transport at the two ends of their sockets: what
    the one sends, the other delivers.  Both drivers are those of [Transport]; a
    socket carries messages in order, and the client may lose it and dial again,
    to be served by a fresh driver. *)
From S2P Require Import Prelude Wire Framing Codec Backoff Transport.

Section delivery.
Context {C : Codec} (o so : TransportOptions).

(** What a user sends is delivered unless it looks like a heartbeat. *)
Definition app (b : bytes) : bool := match classify_ping_pong b with None => true | Some _ => false end.
Definition payload (l : list bytes) : list bytes := filter (λ b, app b = true) l.
Definition cmd_frames (cs : list DriverCmd) : list bytes :=
  payload (omap (λ c, match c with Send b => Some b | _ => None end) cs).
Definition frames (evs : list TransportEvent) : list bytes :=
  omap (λ e, match e with Frame b => Some b | _ => None end) evs.

#[local] Arguments payload : simpl never.
#[local] Arguments cmd_frames : simpl never.
#[local] Arguments frames : simpl never.

Lemma payload_app l1 l2 : payload (l1 ++ l2) = payload l1 ++ payload l2.
Proof. apply filter_app. Qed.

Lemma cmd_frames_app l1 l2 : cmd_frames (l1 ++ l2) = cmd_frames l1 ++ cmd_frames l2.
Proof. unfold cmd_frames. by rewrite omap_app, payload_app. Qed.

Lemma frames_app l1 l2 : frames (l1 ++ l2) = frames l1 ++ frames l2.
Proof. apply omap_app. Qed.

Lemma heartbeat_no_payload : payload [ping_frame_bytes] = [] ∧ payload [pong_frame_bytes] = [].
Proof.
  assert (app ping_frame_bytes = false ∧ app pong_frame_bytes = false) as [H1 H2].
  { unfold app, ping_frame_bytes, pong_frame_bytes, classify_ping_pong. by rewrite !decode_encode. }
  unfold payload. rewrite !filter_cons. by rewrite H1, H2.
Qed.

(** * One driver *)

Definition driver_of (r : after) : Driver := match r with Go d | Lost d | Shut d => d end.

(** What a branch reads off the socket for its user. *)
Definition reads (b : branch) : list bytes :=
  match b with BRead (WsBinary x) _ true => payload [x] | _ => [] end.

(** A branch writes what it takes off the queue; only the frame whose write
    fails is lost. *)
Lemma select_branch_written h b d r :
  select_branch h b d = Some r →
  ∃ ws, d_written (driver_of r) = d_written d ++ ws ∧
    payload ws ++ cmd_frames (d_cmds (driver_of r)) `sublist_of` cmd_frames (d_cmds d) ∧
    (∀ d', r = Go d' → payload ws ++ cmd_frames (d_cmds d') = cmd_frames (d_cmds d)).
Proof.
  destruct heartbeat_no_payload as [Hping Hpong].
  assert (∀ r, d_written (driver_of r) = d_written d → d_cmds (driver_of r) = d_cmds d →
    ∃ ws, d_written (driver_of r) = d_written d ++ ws ∧
    payload ws ++ cmd_frames (d_cmds (driver_of r)) `sublist_of` cmd_frames (d_cmds d) ∧
    (∀ d', r = Go d' → payload ws ++ cmd_frames (d_cmds d') = cmd_frames (d_cmds d))) as Hsame.
  { intros r' Hw Hc. exists []. rewrite Hw, Hc, app_nil_r. split; [done|]. split; [done|].
    intros d' ->. cbn in Hc. by rewrite Hc. }
  assert (∀ r w, d_written (driver_of r) = d_written d ++ [w] → payload [w] = [] → d_cmds (driver_of r) = d_cmds d →
    ∃ ws, d_written (driver_of r) = d_written d ++ ws ∧
    payload ws ++ cmd_frames (d_cmds (driver_of r)) `sublist_of` cmd_frames (d_cmds d) ∧
    (∀ d', r = Go d' → payload ws ++ cmd_frames (d_cmds d') = cmd_frames (d_cmds d))) as Hbeat.
  { intros r' w Hw Hp Hc. exists [w]. rewrite Hw, Hp, Hc. split; [done|]. split; [done|].
    intros d' ->. cbn in Hc. by rewrite Hc. }
  destruct b as [now ok|now ok|now|item ok open]; cbn [select_branch].
  - unfold d_pop. destruct (d_cmds d) as [|c cs] eqn:Ec; [done|]. cbn [mbind option_bind]. intros [= <-].
    change (c :: cs) with ([c] ++ cs). rewrite cmd_frames_app.
    destruct c as [x| | |]; [destruct ok| | |].
    + exists [x]. split; [done|]. split; [done|]. by intros d' [= <-].
    + exists []. cbn [driver_of d_written d_cmds]. rewrite app_nil_r. split; [done|].
      split; [by apply sublist_inserts_l|done].
    + exists []. cbn. rewrite app_nil_r. split; [done|]. split; [done|]. by intros d' [= <-].
    + exists []. cbn. rewrite app_nil_r. split; [done|]. split; [done|]. by intros d' [= <-].
    + exists []. cbn. rewrite app_nil_r. done.
  - destruct (d_hb_enabled d); [|done]. destruct (d_interval d); [|done]. cbn.
    case_decide; [|done]. destruct ok; intros [= <-]; [by eapply Hbeat|by apply Hsame].
  - destruct (d_deadline d); [|done]. cbn. case_decide; [|done]. intros [= <-]. by apply Hsame.
  - intros [= <-]. destruct item; try by apply Hsame.
    destruct (classify_ping_pong b) as [[]|]; [destruct ok; [by eapply Hbeat|by apply Hsame]|by apply Hsame|].
    destruct open; by apply Hsame.
Qed.

Lemma select_branch_frames h b d r :
  select_branch h b d = Some r → frames (d_events (driver_of r)) = frames (d_events d) ++ reads b.
Proof.
  assert (∀ d', d_events d' = d_events d → frames (d_events d') = frames (d_events d) ++ []) as Hsame
    by (intros d' ->; by rewrite app_nil_r).
  destruct b as [now ok|now ok|now|item ok open]; cbn [select_branch reads].
  - unfold d_pop. destruct (d_cmds d) as [|c cs]; [done|]. cbn. intros [= <-]. destruct c, ok; by apply Hsame.
  - destruct (d_hb_enabled d); [|done]. destruct (d_interval d); [|done]. cbn.
    case_decide; [|done]. destruct ok; intros [= <-]; by apply Hsame.
  - destruct (d_deadline d); [|done]. cbn. case_decide; [|done]. intros [= <-].
    cbn [driver_of d_events d_emit d_heartbeat]. by rewrite frames_app.
  - intros [= <-]. destruct item; try by apply Hsame. unfold payload. rewrite filter_cons. unfold app.
    destruct (classify_ping_pong b) as [[]|].
    + destruct ok, open; by apply Hsame.
    + destruct open; by apply Hsame.
    + destruct open; [|by apply Hsame]. cbn [driver_of d_events d_emit]. by rewrite frames_app.
Qed.

(** The accepting driver, whose last read may find its user gone. *)
Lemma accepted_step_facts b d d' :
  accepted_step so b d = Some d' →
  d_running d = true ∧ frames (d_events d') = frames (d_events d) ++ reads b ∧
  ∃ ws, d_written d' = d_written d ++ ws ∧
    payload ws ++ cmd_frames (d_cmds d') `sublist_of` cmd_frames (d_cmds d).
Proof.
  unfold accepted_step. destruct (d_running d); [|done]. intros (r & Hr & [= <-])%bind_Some.
  split; [done|]. pose proof (select_branch_frames _ _ _ _ Hr) as Hf.
  apply select_branch_written in Hr as (ws & Hw & Hs & _).
  destruct r as [d'|d'|d']; cbn in *; (split; [|by exists ws]); [done| |done].
  by rewrite frames_app, app_nil_r.
Qed.

Definition client_reads (i : client_input) : list bytes := match i with CBranch b => reads b | _ => [] end.

(** What a step of the client leaves of queue and output. *)
Definition kept (d d' : Driver) : Prop :=
  ∃ ws, d_written d' = d_written d ++ ws ∧
    payload ws ++ cmd_frames (d_cmds d') `sublist_of` cmd_frames (d_cmds d).

Lemma kept_same d d' : d_written d' = d_written d → d_cmds d' = d_cmds d → kept d d'.
Proof. intros Hw Hc. exists []. by rewrite Hw, Hc, app_nil_r. Qed.

Lemma begin_attempt_driver c :
  d_written (cl_driver (begin_attempt o c)) = d_written (cl_driver c) ∧
  d_cmds (cl_driver (begin_attempt o c)) = d_cmds (cl_driver c) ∧
  frames (d_events (cl_driver (begin_attempt o c))) = frames (d_events (cl_driver c)) ∧
  cl_phase (begin_attempt o c) ≠ Connected ∧ cl_dials (begin_attempt o c) = cl_dials c.
Proof.
  unfold begin_attempt. destruct (to_reconnect o) as [rc|]; [destruct (match rc_attempts rc with Some _ => _ | None => _ end)|];
    cbn; by rewrite ?frames_app, ?app_nil_r.
Qed.

Lemma socket_lost_driver c :
  d_written (cl_driver (socket_lost o c)) = d_written (cl_driver c) ∧
  d_cmds (cl_driver (socket_lost o c)) = d_cmds (cl_driver c) ∧
  frames (d_events (cl_driver (socket_lost o c))) = frames (d_events (cl_driver c)) ∧
  cl_phase (socket_lost o c) ≠ Connected ∧ cl_dials (socket_lost o c) = cl_dials c.
Proof.
  unfold socket_lost. destruct (to_reconnect o); [apply begin_attempt_driver|].
  cbn. by rewrite frames_app, app_nil_r.
Qed.

Lemma client_step_facts i c c' :
  client_step o i c = Some c' →
  frames (d_events (cl_driver c')) = frames (d_events (cl_driver c)) ++ client_reads i ∧
  kept (cl_driver c) (cl_driver c') ∧
  (cl_phase c' = Connected → cl_dials c' = 0 → cl_phase c = Connected ∧ cl_dials c = 0 ∧
     ∃ ws, d_written (cl_driver c') = d_written (cl_driver c) ++ ws ∧
       payload ws ++ cmd_frames (d_cmds (cl_driver c')) = cmd_frames (d_cmds (cl_driver c))) ∧
  (cl_dials c' = 0 → cl_dials c = 0).
Proof.
  unfold client_step. destruct (cl_phase c) eqn:Ep; [| | |done].
  - destruct i as [b| | |]; [|done..]. intros (r & Hr & [= <-])%bind_Some. cbn [client_reads].
    pose proof (select_branch_frames _ _ _ _ Hr) as Hf.
    apply select_branch_written in Hr as (ws & Hw & Hs & Hgo).
    destruct r as [d|d|d]; cbn [driver_of] in *.
    + cbn. split; [done|]. split; [by exists ws|]. split; [|done]. intros _ Hd. split; [done|].
      split; [done|]. exists ws. split; [done|]. by apply Hgo.
    + destruct (socket_lost_driver (mkClient Connected (cl_attempts c) (cl_dials c) d)) as (H1 & H2 & H3 & H4 & H5).
      cbn [cl_driver cl_dials] in *. rewrite H3, H5. split; [done|]. split; [exists ws; by rewrite H1, H2|].
      by split.
    + cbn. split; [done|]. split; [by exists ws|]. by split.
  - unfold attempt_wait. destruct i as [b|nanos waited| |now ok]; [done| | |done].
    + destruct (to_reconnect o); [|done]. cbn. case_decide; [|done]. intros [= <-]. cbn.
      rewrite app_nil_r. split; [done|]. split; [by apply kept_same|]. by split.
    + unfold d_pop. destruct (d_cmds (cl_driver c)) as [|cmd cs] eqn:Ec; [done|]. cbn. intros [= <-].
      rewrite app_nil_r.
      assert (kept (cl_driver c) (mkDriver cs (d_hb_enabled (cl_driver c)) (d_interval (cl_driver c))
        (d_deadline (cl_driver c)) (d_written (cl_driver c)) (d_events (cl_driver c)) (d_closed (cl_driver c))
        (d_running (cl_driver c)))) as Hk.
      { exists []. rewrite app_nil_r. split; [done|]. cbn [d_cmds]. rewrite Ec.
        change (cmd :: cs) with ([cmd] ++ cs). rewrite cmd_frames_app. by apply sublist_inserts_l. }
      destruct cmd; (split; [done|]); (split; [exact Hk|]); by split.
  - destruct i as [| | |now ok]; [done..|]. intros [= <-]. cbn [client_reads]. rewrite app_nil_r.
    destruct ok; cbn [attempt_dial].
    + cbn. rewrite frames_app, app_nil_r. split; [done|]. split; [by apply kept_same|]. by split.
    + destruct (begin_attempt_driver (mkClient Dialing (cl_attempts c) (S (cl_dials c)) (cl_driver c)))
        as (H1 & H2 & H3 & H4 & H5). cbn [cl_driver cl_dials] in *. rewrite H3, H5.
      split; [done|]. split; [by apply kept_same|]. by split.
Qed.

(** * Both ends *)

(** The client, the server of its present socket, how far each has read what the
    other wrote there, and where the client's output for it begins; what earlier
    servers delivered, and what the client had read and their users had sent when
    the socket came up; what users sent since. *)
Record Ends := mkEnds {
  en_client : Client;
  en_server : Driver;
  en_base : nat;
  en_server_read : nat;
  en_client_read : nat;
  en_delivered : list bytes;
  en_received : list bytes;
  en_old_sent : list bytes;
  en_client_sent : list bytes;
  en_server_sent : list bytes;
}.

Definition server_cmd (cmd : DriverCmd) (d : Driver) : Driver :=
  if d_running d then
    mkDriver (d_cmds d ++ [cmd]) (d_hb_enabled d) (d_interval d) (d_deadline d) (d_written d)
      (d_events d) (d_closed d) (d_running d)
  else d.

Definition not_binary (b : branch) : bool := match b with BRead (WsBinary _) _ _ => false | _ => true end.

(** Inputs of the client that neither read a message nor bring a new socket. *)
Definition own_input (i : client_input) : bool :=
  match i with CBranch b => not_binary b | CDial _ ok => negb ok | _ => true end.

Inductive ends_step : Ends → Ends → Prop :=
  | es_client_sends cmd e :
      ends_step e (mkEnds (client_cmd cmd (en_client e)) (en_server e) (en_base e) (en_server_read e)
        (en_client_read e) (en_delivered e) (en_received e) (en_old_sent e)
        (en_client_sent e ++ if decide (cl_phase (en_client e) = Stopped) then [] else cmd_frames [cmd])
        (en_server_sent e))
  | es_server_sends cmd e :
      ends_step e (mkEnds (en_client e) (server_cmd cmd (en_server e)) (en_base e) (en_server_read e)
        (en_client_read e) (en_delivered e) (en_received e) (en_old_sent e) (en_client_sent e)
        (en_server_sent e ++ if d_running (en_server e) then cmd_frames [cmd] else []))
  | es_client i c e :
      own_input i = true → client_step o i (en_client e) = Some c →
      ends_step e (mkEnds c (en_server e) (en_base e) (en_server_read e) (en_client_read e)
        (en_delivered e) (en_received e) (en_old_sent e) (en_client_sent e) (en_server_sent e))
  | es_server b d e :
      not_binary b = true → accepted_step so b (en_server e) = Some d →
      ends_step e (mkEnds (en_client e) d (en_base e) (en_server_read e) (en_client_read e)
        (en_delivered e) (en_received e) (en_old_sent e) (en_client_sent e) (en_server_sent e))
  | es_client_reads x ok open c e :
      d_written (en_server e) !! en_client_read e = Some x →
      client_step o (CBranch (BRead (WsBinary x) ok open)) (en_client e) = Some c →
      ends_step e (mkEnds c (en_server e) (en_base e) (en_server_read e) (S (en_client_read e))
        (en_delivered e) (en_received e) (en_old_sent e) (en_client_sent e) (en_server_sent e))
  | es_server_reads x ok open d e :
      drop (en_base e) (d_written (cl_driver (en_client e))) !! en_server_read e = Some x →
      accepted_step so (BRead (WsBinary x) ok open) (en_server e) = Some d →
      ends_step e (mkEnds (en_client e) d (en_base e) (S (en_server_read e)) (en_client_read e)
        (en_delivered e) (en_received e) (en_old_sent e) (en_client_sent e) (en_server_sent e))
  | es_reconnects now now' c e :
      client_step o (CDial now true) (en_client e) = Some c →
      ends_step e (mkEnds c (driver_new so now') (length (d_written (cl_driver c))) 0 0
        (en_delivered e ++ frames (d_events (en_server e))) (frames (d_events (cl_driver c)))
        (en_old_sent e ++ en_server_sent e) (en_client_sent e) []).

(** A connection that has just come up. *)
Definition ends_new (now now' : Z) : Ends :=
  mkEnds (client_new o now) (driver_new so now') 0 0 0 [] [] [] [] [].

(** What the server's user has got, and the client's. *)
Definition server_got (e : Ends) : list bytes := en_delivered e ++ frames (d_events (en_server e)).
Definition client_got (e : Ends) : list bytes := frames (d_events (cl_driver (en_client e))).
Definition client_out (e : Ends) : list bytes := d_written (cl_driver (en_client e)).

(** The messages read off the socket are a beginning of those written, and their
    payload was delivered, the last one if its receiver was still there. *)
Record ends_ok (e : Ends) : Prop := {
  ok_base : en_base e ≤ length (client_out e);
  ok_server_read : en_server_read e ≤ length (drop (en_base e) (client_out e));
  ok_client_read : en_client_read e ≤ length (d_written (en_server e));
  ok_client_out : payload (client_out e) ++ cmd_frames (d_cmds (cl_driver (en_client e)))
    `sublist_of` en_client_sent e;
  ok_delivered : en_delivered e `sublist_of` payload (take (en_base e) (client_out e));
  ok_server_got : ∃ lost, payload (take (en_server_read e) (drop (en_base e) (client_out e)))
    = frames (d_events (en_server e)) ++ lost ∧ (d_running (en_server e) = true → lost = []);
  ok_server_out : payload (d_written (en_server e)) ++ cmd_frames (d_cmds (en_server e))
    `sublist_of` en_server_sent e;
  ok_received : en_received e `sublist_of` en_old_sent e;
  ok_client_got : ∃ lost, en_received e ++ payload (take (en_client_read e) (d_written (en_server e)))
    = client_got e ++ lost ∧ (cl_phase (en_client e) ≠ Stopped → lost = []);
  ok_first : cl_dials (en_client e) = 0 → en_base e = 0 ∧ en_delivered e = [];
  ok_first_out : cl_phase (en_client e) = Connected → cl_dials (en_client e) = 0 →
    payload (client_out e) ++ cmd_frames (d_cmds (cl_driver (en_client e))) = en_client_sent e;
}.

Lemma ends_ok_new now now' : ends_ok (ends_new now now').
Proof. split; cbn; try done; by exists []. Qed.

(** A read that does not end its reader delivers its payload. *)
Lemma client_read_payload x ok open c c' :
  client_step o (CBranch (BRead (WsBinary x) ok open)) c = Some c' →
  cl_phase c ≠ Stopped ∧ ∃ lost, payload [x] = reads (BRead (WsBinary x) ok open) ++ lost
    ∧ (cl_phase c' ≠ Stopped → lost = []).
Proof.
  unfold client_step. destruct (cl_phase c); [|done..]. cbn [select_branch reads].
  intros H. split; [done|]. revert H. unfold payload. rewrite filter_cons. unfold app.
  destruct (classify_ping_pong x) as [[]|]; cbn [mbind option_bind]; intros [= <-].
  - exists []. split; [by destruct open|done].
  - exists []. split; [by destruct open|done].
  - destruct open; [by exists []|]. exists [x]. by split.
Qed.

Lemma server_read_payload x ok open d d' :
  accepted_step so (BRead (WsBinary x) ok open) d = Some d' →
  d_running d = true ∧ ∃ lost, payload [x] = reads (BRead (WsBinary x) ok open) ++ lost
    ∧ (d_running d' = true → lost = []).
Proof.
  unfold accepted_step. destruct (d_running d); [|done]. cbn [select_branch reads].
  intros H. split; [done|]. revert H. unfold payload. rewrite filter_cons. unfold app.
  destruct (classify_ping_pong x) as [[]|]; cbn [mbind option_bind]; intros [= <-].
  - exists []. split; [by destruct open|done].
  - exists []. split; [by destruct open|done].
  - destruct open; [by exists []|]. exists [x]. by split.
Qed.

Lemma payload_take_S l r x : l !! r = Some x → payload (take (S r) l) = payload (take r l) ++ payload [x].
Proof. intros H. by rewrite (take_S_r _ _ x), payload_app. Qed.

(** The client's side after a step that reads [got] off the socket. *)
Lemma ends_ok_client i c e n :
  ends_ok e → client_step o i (en_client e) = Some c → en_client_read e ≤ n ≤ length (d_written (en_server e)) →
  (∃ lost, payload (take n (d_written (en_server e)))
     = payload (take (en_client_read e) (d_written (en_server e))) ++ client_reads i ++ lost
     ∧ (cl_phase c ≠ Stopped → lost = [])) →
  ends_ok (mkEnds c (en_server e) (en_base e) (en_server_read e) n
    (en_delivered e) (en_received e) (en_old_sent e) (en_client_sent e) (en_server_sent e)).
Proof.
  intros [Hb Hsr Hcr Hco Hd Hsg Hso Hr Hcg Hf Hfo] Hs Hn (lost & Htake & Hlost).
  destruct (client_step_facts _ _ _ Hs) as (Hfr & (ws & Hw & Hk) & Hfirst & Hdials).
  assert (cl_phase (en_client e) ≠ Stopped) as Hrun.
  { intros Hst. unfold client_step in Hs. by rewrite Hst in Hs. }
  unfold client_out, client_got in *. split; unfold client_out, client_got; cbn.
  - rewrite Hw, length_app. lia.
  - rewrite Hw, drop_app_le, length_app by done. lia.
  - lia.
  - rewrite Hw, payload_app, <-app_assoc. etrans; [|exact Hco]. by apply sublist_app.
  - by rewrite Hw, take_app_le.
  - by rewrite Hw, drop_app_le, take_app_le.
  - done.
  - done.
  - destruct Hcg as (lost0 & Hcg & Hl0). rewrite (Hl0 Hrun), app_nil_r in Hcg. exists lost.
    split; [|done]. rewrite Htake, Hfr, !app_assoc, Hcg. by rewrite <-!app_assoc.
  - intros H0. by apply Hf, Hdials.
  - intros Hp H0. destruct (Hfirst Hp H0) as (Hp0 & H00 & ws' & Hw' & Heq).
    rewrite Hw', payload_app, <-app_assoc, Heq. by apply Hfo.
Qed.

Lemma ends_ok_server b d e n :
  ends_ok e → accepted_step so b (en_server e) = Some d →
  en_server_read e ≤ n ≤ length (drop (en_base e) (client_out e)) →
  (∃ lost, payload (take n (drop (en_base e) (client_out e)))
     = payload (take (en_server_read e) (drop (en_base e) (client_out e))) ++ reads b ++ lost
     ∧ (d_running d = true → lost = [])) →
  ends_ok (mkEnds (en_client e) d (en_base e) n (en_client_read e)
    (en_delivered e) (en_received e) (en_old_sent e) (en_client_sent e) (en_server_sent e)).
Proof.
  intros [Hb Hsr Hcr Hco Hd Hsg Hso Hr Hcg Hf Hfo] Hs Hn (lost & Htake & Hlost).
  destruct (accepted_step_facts _ _ _ Hs) as (Hrun & Hfr & ws & Hw & Hk).
  unfold client_out, client_got in *. split; unfold client_out, client_got; cbn; try done.
  - lia.
  - rewrite Hw, length_app. lia.
  - destruct Hsg as (lost0 & Hsg & Hl0). rewrite (Hl0 Hrun), app_nil_r in Hsg. exists lost.
    split; [|done]. by rewrite Htake, Hsg, Hfr, <-!app_assoc.
  - rewrite Hw, payload_app, <-app_assoc. etrans; [|exact Hso]. by apply sublist_app.
  - by rewrite Hw, take_app_le.
Qed.

(** The next socket: what was delivered on the last one is part of what was
    written for it. *)
Lemma ends_ok_reconnect now now' c e :
  ends_ok e → client_step o (CDial now true) (en_client e) = Some c →
  ends_ok (mkEnds c (driver_new so now') (length (d_written (cl_driver c))) 0 0
    (en_delivered e ++ frames (d_events (en_server e))) (frames (d_events (cl_driver c)))
    (en_old_sent e ++ en_server_sent e) (en_client_sent e) []).
Proof.
  intros [Hb Hsr Hcr Hco Hd (lost & Hsg & _) Hso Hr (lost' & Hcg & _) Hf Hfo] Hs.
  destruct (client_step_facts _ _ _ Hs) as (Hfr & (ws & Hw & Hk) & _).
  assert (cl_dials c ≠ 0) as Hdials.
  { unfold client_step in Hs. destruct (cl_phase (en_client e)); [done|done| |done]. by injection Hs as <-. }
  unfold client_out, client_got in *. cbn in Hfr. rewrite app_nil_r in Hfr.
  split; unfold client_out, client_got; cbn; try done.
  - by rewrite drop_all.
  - rewrite Hw, payload_app, <-app_assoc. etrans; [|exact Hco]. by apply sublist_app.
  - rewrite firstn_all, Hw, payload_app. apply sublist_inserts_r.
    rewrite <-(take_drop (en_base e) (d_written (cl_driver (en_client e)))) at 1. rewrite payload_app.
    apply sublist_app; [done|].
    rewrite <-(take_drop (en_server_read e) (drop (en_base e) _)), payload_app, Hsg, <-app_assoc.
    apply sublist_inserts_r. done.
  - exists []. by rewrite drop_all.
  - rewrite Hfr. transitivity (en_received e ++ payload (d_written (en_server e))).
    + rewrite <-(take_drop (en_client_read e) (d_written (en_server e))), payload_app, app_assoc, Hcg, <-app_assoc.
      by apply sublist_inserts_r.
    + apply sublist_app; [done|]. etrans; [|exact Hso]. by apply sublist_inserts_r.
  - by exists [].
Qed.

Lemma ends_step_ok e e' : ends_ok e → ends_step e e' → ends_ok e'.
Proof.
  intros Hok Hs. destruct Hs as [cmd e|cmd e|i c e Hi Hs|b d e Hi Hs|x ok open c e Hx Hs|x ok open d e Hx Hs|now now' c e Hs].
  - unfold client_cmd.
    destruct (decide (cl_phase (en_client e) = Stopped)) as [Hst|Hst]; [rewrite app_nil_r; by destruct e|].
    destruct Hok as [Hb Hsr Hcr Hco Hd Hsg Hso Hr Hcg Hf Hfo]. split; unfold client_out, client_got in *; cbn; try done.
    + rewrite cmd_frames_app, app_assoc. by apply sublist_app.
    + intros Hp H0. by rewrite cmd_frames_app, app_assoc, Hfo.
  - unfold server_cmd.
    destruct (d_running (en_server e)) eqn:Erun; [|rewrite app_nil_r; by destruct e].
    destruct Hok as [Hb Hsr Hcr Hco Hd Hsg Hso Hr Hcg Hf Hfo]. split; unfold client_out, client_got in *; cbn; try done.
    + destruct Hsg as (lost & Hsg & Hl). exists lost. split; [done|]. intros _. by apply Hl.
    + rewrite cmd_frames_app, app_assoc. by apply sublist_app.
  - apply (ends_ok_client i); [done|done|split; [done|apply Hok]|]. exists []. split; [|done].
    rewrite app_nil_r. destruct i as [[]| | |]; cbn in *; rewrite ?app_nil_r; try done.
    destruct item; cbn in *; by rewrite ?app_nil_r.
  - apply (ends_ok_server b); [done|done|split; [done|apply Hok]|]. exists []. split; [|done].
    rewrite app_nil_r. destruct b; cbn in *; rewrite ?app_nil_r; try done.
    destruct item; cbn in *; by rewrite ?app_nil_r.
  - apply (ends_ok_client (CBranch (BRead (WsBinary x) ok open))); [done|done| |].
    + apply lookup_lt_Some in Hx. lia.
    + rewrite (payload_take_S _ _ x) by done.
      destruct (client_read_payload _ _ _ _ _ Hs) as (_ & lost & -> & Hl). by exists lost.
  - apply (ends_ok_server (BRead (WsBinary x) ok open)); [done|done| |].
    + apply lookup_lt_Some in Hx. unfold client_out. lia.
    + unfold client_out. rewrite (payload_take_S _ _ x) by done.
      destruct (server_read_payload _ _ _ _ _ Hs) as (_ & lost & -> & Hl). by exists lost.
  - by eapply ends_ok_reconnect.
Qed.

(** C17: Frames arrive in order and at most once.  However the two drivers, the
    sockets and the users interleave, whatever breaks and is dialled again: what
    the server's users get is, in order, a part of what the client's user sent, and
    what the client's user gets a part of what the servers' users sent (all of it
    but what looks like a heartbeat).  On the first socket nothing is missing in
    between, and nothing at all once the client has written what it was given and
    the server has read that. *)
Theorem frames_delivered_in_order now now' e :
  rtc ends_step (ends_new now now') e →
  server_got e `sublist_of` en_client_sent e ∧
  client_got e `sublist_of` en_old_sent e ++ en_server_sent e ∧
  (cl_phase (en_client e) = Connected → cl_dials (en_client e) = 0 →
   server_got e `prefix_of` en_client_sent e ∧
   (d_running (en_server e) = true → cmd_frames (d_cmds (cl_driver (en_client e))) = [] →
    en_server_read e = length (client_out e) → server_got e = en_client_sent e)).
Proof.
  intros Hr. assert (ends_ok e) as [Hb Hsr Hcr Hco Hd (lost & Hsg & Hl) Hso Hrc (lost' & Hcg & _) Hf Hfo].
  { eapply (rtc_invariant ends_step ends_ok); [apply ends_step_ok|apply ends_ok_new|exact Hr]. }
  split; [|split].
  - etrans; [|exact Hco]. apply sublist_inserts_r. unfold server_got.
    rewrite <-(take_drop (en_base e) (client_out e)), payload_app. apply sublist_app; [done|].
    rewrite <-(take_drop (en_server_read e) (drop (en_base e) _)), payload_app, Hsg, <-app_assoc.
    by apply sublist_inserts_r.
  - transitivity (en_received e ++ payload (d_written (en_server e))).
    + rewrite <-(take_drop (en_client_read e) (d_written (en_server e))), payload_app, app_assoc, Hcg, <-app_assoc.
      by apply sublist_inserts_r.
    + apply sublist_app; [done|]. etrans; [|exact Hso]. by apply sublist_inserts_r.
  - intros Hp H0. destruct (Hf H0) as [Hb0 Hd0]. specialize (Hfo Hp H0). unfold server_got.
    rewrite Hb0, drop_0 in *. rewrite Hd0. cbn. split.
    + exists (lost ++ payload (drop (en_server_read e) (client_out e)) ++ cmd_frames (d_cmds (cl_driver (en_client e)))).
      rewrite <-Hfo. rewrite <-(take_drop (en_server_read e) (client_out e)) at 1.
      by rewrite payload_app, Hsg, <-!app_assoc.
    + intros Hrun Hcmds Hall. rewrite <-Hfo, Hcmds, app_nil_r. rewrite Hall, firstn_all in Hsg.
      by rewrite Hsg, (Hl Hrun), app_nil_r.
Qed.
End delivery.

(** ** Witness: two frames over two sockets *)

Module SampleDelivery.
Import Codec.SampleCodec SampleTransport.

(** A step of the client that reads nothing. *)
Definition after (i : client_input) (c : Client) : Client := default c (client_step beating i c).
Definition serving (b : branch) (d : Driver) : Driver := default d (accepted_step beating b d).

Definition arrives (x : bytes) : branch := BRead (WsBinary x) true true.

Definition c1 : Client := Eval vm_compute in
  after (CBranch (BCmd 0 true)) (client_cmd (Send [x02]) (client_new beating 0)).
Definition s1 : Driver := Eval vm_compute in serving (arrives [x02]) (driver_new beating 0).
Definition c2 : Client := Eval vm_compute in after (CBranch (BRead WsEnd true true)) c1.
Definition c3 : Client := Eval vm_compute in after (CDelayOver 0 500) c2.
Definition c4 : Client := Eval vm_compute in after (CDial 500 true) c3.
Definition c5 : Client := Eval vm_compute in after (CBranch (BCmd 500 true)) (client_cmd (Send [x03]) c4).
Definition s2 : Driver := Eval vm_compute in serving (arrives [x03]) (driver_new beating 500).

Definition at_start : Ends := ends_new beating beating 0 0.
Definition first_sent : Ends := mkEnds c1 (driver_new beating 0) 0 0 0 [] [] [] [[x02]] [].
Definition first_read : Ends := mkEnds c1 s1 0 1 0 [] [] [] [[x02]] [].
Definition redialled : Ends := mkEnds c4 (driver_new beating 500) 1 0 0 [[x02]] [] [] [[x02]] [].
Definition at_end : Ends := mkEnds c5 s2 1 1 0 [[x02]] [] [] [[x02]; [x03]] [].

Lemma reached_first : rtc (ends_step beating beating) at_start first_read.
Proof.
  eapply rtc_l; [apply (es_client_sends _ _ (Send [x02]) at_start)|].
  apply (rtc_l _ _ first_sent).
  { refine (es_client _ _ (CBranch (BCmd 0 true)) c1 _ _ _); vm_compute; reflexivity. }
  apply rtc_once. refine (es_server_reads _ _ [x02] true true s1 first_sent _ _); vm_compute; reflexivity.
Qed.

Lemma at_end_reached : rtc (ends_step beating beating) at_start at_end.
Proof.
  transitivity first_read; [exact reached_first|].
  apply (rtc_l _ _ (mkEnds c2 s1 0 1 0 [] [] [] [[x02]] [])).
  { refine (es_client _ _ (CBranch (BRead WsEnd true true)) c2 first_read _ _); vm_compute; reflexivity. }
  apply (rtc_l _ _ (mkEnds c3 s1 0 1 0 [] [] [] [[x02]] [])).
  { refine (es_client _ _ (CDelayOver 0 500) c3 (mkEnds c2 s1 0 1 0 [] [] [] [[x02]] []) _ _);
      vm_compute; reflexivity. }
  apply (rtc_l _ _ redialled).
  { refine (es_reconnects _ _ 500 500 c4 (mkEnds c3 s1 0 1 0 [] [] [] [[x02]] []) _). vm_compute. reflexivity. }
  eapply rtc_l; [apply (es_client_sends _ _ (Send [x03]) redialled)|].
  apply (rtc_l _ _ (mkEnds c5 (driver_new beating 500) 1 0 0 [[x02]] [] [] [[x02]; [x03]] [])).
  { refine (es_client _ _ (CBranch (BCmd 500 true)) c5 _ _ _); vm_compute; reflexivity. }
  apply rtc_once. refine (es_server_reads _ _ [x03] true true s2 (mkEnds c5 (driver_new beating 500) 1 0 0 [[x02]] [] [] [[x02]; [x03]] []) _ _);
    vm_compute; reflexivity.
Qed.

Lemma frames_delivered_in_order_witness :
  server_got at_end `sublist_of` en_client_sent at_end ∧ server_got at_end = [[x02]; [x03]].
Proof.
  destruct (frames_delivered_in_order beating beating 0 0 at_end) as (H & _ & _); [exact at_end_reached|].
  split; [exact H|vm_compute; reflexivity].
Defined.
End SampleDelivery.
