(* ===== verification/Connection.v ===== *)
(** Multiplexed RPC over a transport ([utils/transport/src/connection.rs]):
    virtual streams, request/response correlation and handlers.

    A [ChannelState] is shared (an [Arc]) between the connection's stream map
    and the [Stream] handles, which outlive their entry: channels live in a
    store and are known by a number, the connection's own one by [0].  Calls
    and handlers are known by numbers too. *)
From S2P Require Import Prelude Wire Framing Codec Transport.

Abbreviation ChanId := nat (only parsing).
Abbreviation CallId := nat (only parsing).
Abbreviation HandlerId := nat (only parsing).

(** * State *)

(* @src crates/utils/transport/src/connection.rs ChannelState *)
Record ChannelState := mkChannel {
  pending : gmap string CallId;
  notification_handlers : gmap string (list HandlerId);
  request_handlers : gmap string HandlerId;
}.

(* @src crates/utils/transport/src/connection.rs ChannelState::new *)
Definition ChannelState_new : ChannelState := mkChannel ∅ ∅ ∅.

(** A task running a request handler; it answers under [rt_id]. *)
Record RequestTask := mkTask {
  rt_handler : HandlerId;
  rt_params : Value;
  rt_stream : option string;
  rt_id : Value;
}.

(** [answers] is what the waiting [oneshot]s got; [rejecting] are the channels
    a closing operation has taken out and will reject; [pump] is whether the
    task that reads the transport's events runs. *)
(* @src crates/utils/transport/src/connection.rs ConnectionInner *)
Record Connection := mkConnection {
  transport : Transport;
  chans : gmap ChanId ChannelState;
  streams : gmap string ChanId;
  next_chan : nat;
  next_call : nat;
  answers : gmap CallId (result Value WireError);
  notified : list (HandlerId * Value);
  tasks : list RequestTask;
  rejecting : list (ChanId * string);
  pump : bool;
}.

(* @src crates/utils/transport/src/connection.rs Connection::new *)
Definition Connection_new (t : Transport) : Connection :=
  mkConnection t {[0 := ChannelState_new]} ∅ 1 0 ∅ [] [] [] true.

Definition set_transport (f : Transport → Transport) (c : Connection) : Connection :=
  mkConnection (f (transport c)) (chans c) (streams c) (next_chan c) (next_call c) (answers c)
    (notified c) (tasks c) (rejecting c) (pump c).
Definition set_chan (i : ChanId) (s : ChannelState) (c : Connection) : Connection :=
  mkConnection (transport c) (<[i := s]> (chans c)) (streams c) (next_chan c) (next_call c) (answers c)
    (notified c) (tasks c) (rejecting c) (pump c).
Definition set_answers (a : gmap CallId (result Value WireError)) (c : Connection) : Connection :=
  mkConnection (transport c) (chans c) (streams c) (next_chan c) (next_call c) a
    (notified c) (tasks c) (rejecting c) (pump c).
Definition set_streams (m : gmap string ChanId) (rj : list (ChanId * string)) (c : Connection)
    : Connection :=
  mkConnection (transport c) (chans c) m (next_chan c) (next_call c) (answers c)
    (notified c) (tasks c) (rejecting c ++ rj) (pump c).

(** * Answers *)

(* @src crates/utils/transport/src/connection.rs ChannelState::reject_all_pending "let _ = tx.send(Err(WireError {" .. "}));" *)
Definition rejection (reason : string) : result Value WireError :=
  Err (mkWireError (-32000) reason None).

(* @src crates/utils/transport/src/connection.rs reject_all_pending *)
Definition reject_all_pending (i : ChanId) (reason : string) (c : Connection) : Connection :=
  match chans c !! i with
  | None => c
  | Some s =>
      set_answers
        (foldr (λ k a, <[k := rejection reason]> a) (answers c) (map_to_list (pending s)).*2)
        (set_chan i (mkChannel ∅ (notification_handlers s) (request_handlers s)) c)
  end.

Section rpc.
Context {C : Codec}.
Context {F1 : FromValue WireRequest} {F2 : FromValue WireResponse} {F3 : FromValue WireNotification}.
(** rmpv's [Display] of a value that is neither text nor an integer. *)
Context (display : Value → string).

(* @src crates/utils/transport/src/connection.rs id_to_key *)
Definition id_to_key (id : Value) : string :=
  match id with
  | VStr s => s
  | VInt i => pretty i
  | other => display other
  end.

(* @src crates/utils/transport/src/connection.rs dispatch "let result = match resp.error {" .. "};" *)
Definition response_result (r : WireResponse) : result Value WireError :=
  match wresp_error r with
  | Some err => Err err
  | None => Ok (default VNil (wresp_result r))
  end.

(* @src crates/utils/transport/src/connection.rs ChannelState::dispatch *)
Definition dispatch (i : ChanId) (s : ChannelState) (msg : WireMessage) (c : Connection) : Connection :=
  match msg with
  | WResponse resp =>
      let key := id_to_key (wresp_id resp) in
      match pending s !! key with
      | None => c
      | Some k =>
          set_answers (<[k := response_result resp]> (answers c))
            (set_chan i (mkChannel (delete key (pending s)) (notification_handlers s)
                           (request_handlers s)) c)
      end
  | WNotification notif =>
      match notification_handlers s !! wnot_method notif with
      | None => c
      | Some handlers =>
          let params := default VNil (wnot_params notif) in
          mkConnection (transport c) (chans c) (streams c) (next_chan c) (next_call c) (answers c)
            (notified c ++ map (λ h, (h, params)) handlers) (tasks c) (rejecting c) (pump c)
      end
  | WRequest req =>
      match request_handlers s !! wreq_method req with
      | None => c
      | Some h =>
          mkConnection (transport c) (chans c) (streams c) (next_chan c) (next_call c) (answers c)
            (notified c)
            (tasks c ++ [mkTask h (default VNil (wreq_params req)) (wreq_stream req) (wreq_id req)])
            (rejecting c) (pump c)
      end
  end.

(* @src crates/utils/transport/src/connection.rs send_response *)
Definition send_response (resp : WireResponse) (t : Transport) : Transport :=
  t_send (encode (to_value resp)) t.

(** The end of the [i]-th handler task. *)
(* @src crates/utils/transport/src/connection.rs ChannelState::dispatch "tokio::spawn(async move {" .. "sender.send_response(resp);" *)
Definition finish_task (i : nat) (r : result Value WireError) (c : Connection) : option Connection :=
  t ← tasks c !! i;
  let resp :=
    match r with
    | Ok value => mkWireResponse (rt_stream t) (rt_id t) (Some value) None
    | Err error => mkWireResponse (rt_stream t) (rt_id t) None (Some error)
    end in
  Some (mkConnection (send_response resp (transport c)) (chans c) (streams c) (next_chan c)
          (next_call c) (answers c) (notified c) (delete i (tasks c)) (rejecting c) (pump c)).

(** The first [stream] entry that is text. *)
(* @src crates/utils/transport/src/connection.rs handle_frame "let stream_id = value" .. "let msg" *)
Definition stream_tag (value : Value) : option string :=
  m ← as_map value;
  find_map (λ kv : Value * Value, if decide (as_str kv.1 = Some "stream") then as_str kv.2 else None) m.

(** The channel a frame is for. *)
(* @src crates/utils/transport/src/connection.rs handle_frame "if let Some(sid) = stream_id {" .. "self.root.dispatch" *)
Definition route (value : Value) (c : Connection) : option ChanId :=
  match stream_tag value with
  | Some sid => streams c !! sid
  | None => Some 0
  end.

(* @src crates/utils/transport/src/connection.rs handle_frame *)
Definition handle_frame (b : bytes) (c : Connection) : outcome Connection :=
  match decode b with
  | None => Returns c
  | Some value =>
      match value_to_wire_message value with
      | Panics => Panics
      | Returns msg =>
          Returns (match route value c with
                   | Some i => match chans c !! i with Some s => dispatch i s msg c | None => c end
                   | None => c
                   end)
      end
  end.

(** * What callers do *)

(** [send_request] up to the send: the caller waits as call [next_call] under
    the id it drew. *)
(* @src crates/utils/transport/src/connection.rs send_request "let id = Uuid::new_v4().to_string();" .. "pending.insert(id.clone(), tx);" *)
Definition request_insert (i : ChanId) (id : string) (c : Connection) : option (Connection * CallId) :=
  s ← chans c !! i;
  let k := next_call c in
  let c := set_chan i (mkChannel (<[id := k]> (pending s)) (notification_handlers s)
                         (request_handlers s)) c in
  Some (mkConnection (transport c) (chans c) (streams c) (next_chan c) (S k) (answers c)
          (notified c) (tasks c) (rejecting c) (pump c), k).

(* @src crates/utils/transport/src/connection.rs send_request "let bytes = encode_frame(&req)" .. "transport.send(bytes);" *)
Definition request_send (stream : option string) (id method : string) (params : option Value)
    (c : Connection) : Connection :=
  set_transport (t_send (encode (to_value (mkWireRequest stream (VStr id) method params)))) c.

(** What a call returns once its [oneshot] is answered. *)
(* @src crates/utils/transport/src/connection.rs RequestError *)
Inductive RequestError := Closed | Wire (e : WireError).

(* @src crates/utils/transport/src/connection.rs send_request "match rx.await {" .. "Err(_) => Err(RequestError::Closed)," *)
Definition request_result (k : CallId) (c : Connection) : option (result Value RequestError) :=
  map_err Wire <$> answers c !! k.

(* @src crates/utils/transport/src/connection.rs notify *)
Definition notify (stream : option string) (method : string) (params : option Value)
    (c : Connection) : Connection :=
  set_transport (t_send (encode (to_value (mkWireNotification stream method params)))) c.

(* @src crates/utils/transport/src/connection.rs on *)
Definition on (i : ChanId) (method : string) (h : HandlerId) (c : Connection) : option Connection :=
  s ← chans c !! i;
  Some (set_chan i (mkChannel (pending s)
    (<[method := default [] (notification_handlers s !! method) ++ [h]]> (notification_handlers s))
    (request_handlers s)) c).

(* @src crates/utils/transport/src/connection.rs handle_request *)
Definition handle_request (i : ChanId) (method : string) (h : HandlerId) (c : Connection)
    : option Connection :=
  s ← chans c !! i;
  Some (set_chan i (mkChannel (pending s) (notification_handlers s)
                      (<[method := h]> (request_handlers s))) c).

(* @src crates/utils/transport/src/connection.rs Connection::stream *)
Definition stream (id : string) (c : Connection) : Connection * ChanId :=
  match streams c !! id with
  | Some i => (c, i)
  | None =>
      let i := next_chan c in
      (mkConnection (transport c) (<[i := ChannelState_new]> (chans c)) (<[id := i]> (streams c))
         (S i) (next_call c) (answers c) (notified c) (tasks c) (rejecting c) (pump c), i)
  end.

(** A handle keeps its channel, in the map or not. *)
(* @src crates/utils/transport/src/connection.rs Stream *)
Record Stream := mkStream { st_id : string; st_chan : ChanId }.

(* @src crates/utils/transport/src/connection.rs Stream::request *)
Definition stream_request (s : Stream) (id method : string) (params : option Value)
    (c : Connection) : option (Connection * CallId) :=
  ck ← request_insert (st_chan s) id c;
  Some (request_send (Some (st_id s)) id method params ck.1, ck.2).

(* @src crates/utils/transport/src/connection.rs Connection::request *)
Definition request (id method : string) (params : option Value)
    (c : Connection) : option (Connection * CallId) :=
  ck ← request_insert 0 id c;
  Some (request_send None id method params ck.1, ck.2).

(** The channel leaves the map at once; it is rejected by [reject_next]. *)
(* @src crates/utils/transport/src/connection.rs Stream::close *)
Definition stream_close (id : string) (c : Connection) : Connection :=
  match streams c !! id with
  | Some i => set_streams (delete id (streams c)) [(i, "stream closed")] c
  | None => c
  end.

(** [reject_all]: first the root, then the streams, all taken at once. *)
(* @src crates/utils/transport/src/connection.rs ConnectionInner::reject_all *)
Definition reject_all (reason : string) (c : Connection) : Connection :=
  let c := reject_all_pending 0 reason c in
  set_streams ∅ (map (λ si : string * ChanId, (si.2, reason)) (map_to_list (streams c))) c.

(** One of the channels taken out is rejected. *)
(* @src crates/utils/transport/src/connection.rs Stream::close "if let Some(state) = removed {" .. "});" *)
Definition reject_next (n : nat) (c : Connection) : option Connection :=
  ir ← rejecting c !! n;
  let '(i, reason) := (ir : ChanId * string) in
  let c := reject_all_pending i reason c in
  Some (mkConnection (transport c) (chans c) (streams c) (next_chan c) (next_call c) (answers c)
          (notified c) (tasks c) (delete n (rejecting c)) (pump c)).

(** All of them, in order. *)
Fixpoint reject_rest (n : nat) (c : Connection) : Connection :=
  match n with
  | O => c
  | S n' => match reject_next 0 c with Some c => reject_rest n' c | None => c end
  end.

(* @src crates/utils/transport/src/connection.rs Connection::close_stream *)
Definition close_stream (id : string) (c : Connection) : Connection :=
  match streams c !! id with
  | Some i => reject_all_pending i "stream closed" (set_streams (delete id (streams c)) [] c)
  | None => c
  end.

(** When no other task runs in between. *)
(* @src crates/utils/transport/src/connection.rs Connection::close *)
Definition close (c : Connection) : Connection :=
  let c := reject_all "connection closed" c in
  set_transport t_close (reject_rest (length (rejecting c)) c).

(** * The task that reads the transport's events *)

Definition stop_pump (c : Connection) : Connection :=
  mkConnection (transport c) (chans c) (streams c) (next_chan c) (next_call c) (answers c)
    (notified c) (tasks c) (rejecting c) false.

(* @src crates/utils/transport/src/connection.rs Connection::new "match ev {" .. "TransportEvent::HeartbeatDead | TransportEvent::Reconnected => {}" *)
Definition pump_event (ev : TransportEvent) (c : Connection) : outcome Connection :=
  match ev with
  | Frame b => handle_frame b c
  | TDisconnected => Returns (stop_pump (reject_all "disconnected" c))
  | HeartbeatDead | Reconnected => Returns c
  end.

(** * Interleavings *)

Inductive label :=
  | LInsert (i : ChanId) (id : string)
  | LSend (stream : option string) (id method : string) (params : option Value)
  | LNotify (stream : option string) (method : string) (params : option Value)
  | LOn (i : ChanId) (method : string) (h : HandlerId)
  | LHandle (i : ChanId) (method : string) (h : HandlerId)
  | LStream (id : string)
  | LStreamClose (id : string)
  | LRejectAll (reason : string)
  | LRejectNext (n : nat)
  | LTransportClose
  | LEvent (ev : TransportEvent)
  | LPumpEnd
  | LTask (i : nat) (r : result Value WireError).

(** One step; a panic has no successor (the process is gone). *)
Definition step (l : label) (c : Connection) : option Connection :=
  match l with
  | LInsert i id => fst <$> request_insert i id c
  | LSend s id m p => Some (request_send s id m p c)
  | LNotify s m p => Some (notify s m p c)
  | LOn i m h => on i m h c
  | LHandle i m h => handle_request i m h c
  | LStream id => Some (stream id c).1
  | LStreamClose id => Some (stream_close id c)
  | LRejectAll reason => Some (reject_all reason c)
  | LRejectNext n => reject_next n c
  | LTransportClose => Some (set_transport t_close c)
  | LEvent ev =>
      if pump c then match pump_event ev c with Returns c => Some c | Panics => None end else None
  | LPumpEnd => Some (stop_pump c)
  | LTask i r => finish_task i r c
  end.

Fixpoint steps (ls : list label) (c : Connection) : option Connection :=
  match ls with
  | [] => Some c
  | l :: ls => c ← step l c; steps ls c
  end.

(** * Typed calls *)

Inductive TypedRequestError :=
  | Request (e : RequestError)
  | EncodeParams (e : string)
  | DecodeResult (e : string).

(* @src crates/utils/transport/src/connection.rs Connection::request_typed "let result_value" .. "map_err(|e| TypedRequestError::DecodeResult" *)
Definition typed_result {R} `{!FromValue R} (r : result Value RequestError)
    : result R TypedRequestError :=
  v ←? map_err Request r;
  map_err DecodeResult (from_value v).

(** What [handle_request_typed] registers for a handler of [M::Params]. *)
(* @src crates/utils/transport/src/connection.rs Connection::handle_request_typed "let params: M::Params" .. ".await;" *)
Definition typed_handler {P R} `{!FromValue P, !ToValue R} (handler : P → result R WireError)
    (value : Value) : result Value WireError :=
  params ←? map_err (λ e, mkWireError (-32602) ("invalid params: " +:+ e) None) (from_value value);
  r ←? handler params;
  Ok (to_value r).
End rpc.

(** * Waiting calls *)

(** Call [k] waits on channel [i] under [id]. *)
Definition waits (c : Connection) (i : ChanId) (id : string) (k : CallId) : Prop :=
  ∃ s, chans c !! i = Some s ∧ pending s !! id = Some k.

Record inv (c : Connection) : Prop := {
  inv_waiting i id k : waits c i id k → k < next_call c ∧ answers c !! k = None;
  inv_unique i id i' id' k : waits c i id k → waits c i' id' k → i = i' ∧ id = id';
  inv_answers k : is_Some (answers c !! k) → k < next_call c;
}.

Lemma waits_set_chan i s c j id k :
  waits (set_chan i s c) j id k ↔ if decide (j = i) then pending s !! id = Some k else waits c j id k.
Proof.
  unfold waits, set_chan. cbn [chans]. destruct (decide (j = i)) as [->|Hne].
  - rewrite lookup_insert_eq. split; [by intros (s' & [= ->] & ?)|by exists s].
  - by rewrite lookup_insert_ne.
Qed.

(** What every operation but a new call does: it may answer calls that wait
    and then wait no more, and no call starts to wait. *)
Definition settles (c c' : Connection) : Prop :=
  next_call c = next_call c' ∧
  (∀ i id k, waits c' i id k → waits c i id k) ∧
  (∀ k, answers c' !! k = answers c !! k ∨
        (∃ i id, waits c i id k) ∧ (∀ i id, ¬ waits c' i id k)).

Lemma inv_settles c c' : inv c → settles c c' → inv c'.
Proof.
  intros [H1 H2 H3] (Hn & Hw & Ha). split.
  - intros i id k Hk. destruct (H1 i id k (Hw _ _ _ Hk)) as [Hlt Hnone]. rewrite <-Hn. split; [done|].
    destruct (Ha k) as [->|[_ Hno]]; [done|]. by destruct (Hno i id).
  - intros i id i' id' k ? ?. eapply H2; by apply Hw.
  - intros k Hk. rewrite <-Hn. destruct (Ha k) as [He|[(i & id & Hk') _]].
    + apply H3. by rewrite <-He.
    + by apply (H1 i id).
Qed.

Lemma settles_refl c c' :
  next_call c = next_call c' → answers c = answers c' → chans c = chans c' → settles c c'.
Proof. unfold settles, waits. intros -> -> ->. split; [done|]. split; [done|]. by left. Qed.

Lemma settles_trans c1 c2 c3 : settles c1 c2 → settles c2 c3 → settles c1 c3.
Proof.
  intros (N1 & W1 & A1) (N2 & W2 & A2). split; [congruence|]. split; [auto|].
  intros k. destruct (A2 k) as [->|[(i & id & Hk) Hno]].
  - destruct (A1 k) as [->|[Hk Hno]]; [by left|right]. split; [done|]. intros i id Hk'.
    by apply (Hno i id), W2.
  - right. split; [|done]. exists i, id. by apply W1.
Qed.

(** ** Rejecting a channel *)

Lemma lookup_foldr_insert {A} (ks : list nat) (v : A) (m : gmap nat A) k :
  foldr (λ k a, <[k := v]> a) m ks !! k = if decide (k ∈ ks) then Some v else m !! k.
Proof.
  induction ks as [|k' ks IH]; cbn; [by rewrite decide_False by apply not_elem_of_nil|].
  destruct (decide (k = k')) as [->|Hne].
  - rewrite lookup_insert_eq, decide_True; [done|]. apply list_elem_of_here.
  - rewrite lookup_insert_ne, IH by done. destruct (decide (k ∈ ks)).
    + by rewrite decide_True by by apply list_elem_of_further.
    + rewrite decide_False; [done|]. by intros [?|?]%elem_of_cons.
Qed.

Lemma waits_reject i reason c j id k :
  waits (reject_all_pending i reason c) j id k ↔ j ≠ i ∧ waits c j id k.
Proof.
  unfold reject_all_pending. destruct (chans c !! i) as [s|] eqn:Es.
  - change (waits (set_chan i (mkChannel ∅ (notification_handlers s) (request_handlers s)) c) j id k
            ↔ j ≠ i ∧ waits c j id k).
    rewrite waits_set_chan. destruct (decide (j = i)); cbn; [|tauto].
    rewrite lookup_empty. split; [done|by intros []].
  - split; [|by intros []]. intros Hk. split; [|done]. intros ->. destruct Hk as (s & Hs & _). congruence.
Qed.

Lemma answers_reject i reason c k :
  ((∃ id, waits c i id k) → answers (reject_all_pending i reason c) !! k = Some (rejection reason)) ∧
  ((∀ id, ¬ waits c i id k) → answers (reject_all_pending i reason c) !! k = answers c !! k).
Proof.
  unfold reject_all_pending. destruct (chans c !! i) as [s|] eqn:Es.
  - cbn [answers set_answers]. rewrite lookup_foldr_insert.
    assert (k ∈ (map_to_list (pending s)).*2 ↔ ∃ id, waits c i id k) as Hin.
    { rewrite list_elem_of_fmap. split.
      - intros ([id k'] & -> & Hk%elem_of_map_to_list). exists id, s. by split.
      - intros (id & s' & Hs & Hk). rewrite Es in Hs. injection Hs as <-. exists (id, k).
        split; [done|]. by apply elem_of_map_to_list. }
    split.
    + intros H. by rewrite decide_True by by apply Hin.
    + intros H. rewrite decide_False; [done|]. intros [id Hk]%Hin. by destruct (H id).
  - split; [|done]. intros (id & s & Hs & _). congruence.
Qed.

Lemma settles_reject i reason c : inv c → settles c (reject_all_pending i reason c).
Proof.
  intros [_ Hu _]. split; [by unfold reject_all_pending; destruct (chans c !! i)|].
  split; [by intros j id k [_ ?]%waits_reject|]. intros k.
  destruct (answers_reject i reason c k) as [H1 H2].
  destruct (chans c !! i) as [s|] eqn:Es.
  - destruct (decide (k ∈ (map_to_list (pending s)).*2)) as [Hin|Hout].
    + apply list_elem_of_fmap in Hin as ([id k'] & -> & Hk%elem_of_map_to_list). cbn.
      assert (waits c i id k') as Hw by by exists s.
      right. split; [by exists i, id|]. intros j id' [Hne Hw']%waits_reject.
      by destruct (Hu _ _ _ _ _ Hw Hw').
    + left. apply H2. intros id (s' & Hs & Hk). rewrite Es in Hs. injection Hs as <-.
      apply Hout. apply list_elem_of_fmap. exists (id, k). split; [done|]. by apply elem_of_map_to_list.
  - left. apply H2. intros id (s & Hs & _). congruence.
Qed.

(** ** One frame *)

Section facts.
Context {C : Codec}.
Context {F1 : FromValue WireRequest} {F2 : FromValue WireResponse} {F3 : FromValue WireNotification}.
Context (display : Value → string).

Lemma answers_dispatch i s msg c k :
  answers (dispatch display i s msg c) !! k =
    match msg with
    | WResponse r =>
        if decide (pending s !! id_to_key display (wresp_id r) = Some k)
        then Some (response_result r) else answers c !! k
    | _ => answers c !! k
    end.
Proof.
  destruct msg as [r|r|n]; cbn [dispatch].
  - by destruct (request_handlers s !! wreq_method r).
  - destruct (pending s !! id_to_key display (wresp_id r)) as [k'|] eqn:Ek.
    + cbn [answers set_answers]. destruct (decide (Some k' = Some k)) as [[= ->]|Hne].
      * apply lookup_insert_eq.
      * apply lookup_insert_ne. congruence.
    + by rewrite decide_False.
  - by destruct (notification_handlers s !! wnot_method n).
Qed.

Lemma settles_dispatch i s msg c :
  inv c → chans c !! i = Some s → settles c (dispatch display i s msg c).
Proof.
  intros [_ Hu _] Hs. destruct msg as [r|r|n]; cbn [dispatch].
  - destruct (request_handlers s !! wreq_method r); by apply settles_refl.
  - destruct (pending s !! id_to_key display (wresp_id r)) as [k|] eqn:Ek; [|by apply settles_refl].
    set (key := id_to_key display (wresp_id r)) in *.
    assert (∀ j id k', waits (set_answers (<[k:=response_result r]> (answers c))
      (set_chan i (mkChannel (delete key (pending s)) (notification_handlers s) (request_handlers s)) c))
      j id k' → waits c j id k' ∧ (j, id) ≠ (i, key)) as Hw.
    { intros j id k' Hk'. change (waits (set_chan i (mkChannel (delete key (pending s))
        (notification_handlers s) (request_handlers s)) c) j id k') in Hk'.
      rewrite waits_set_chan in Hk'. destruct (decide (j = i)) as [->|Hne]; [|split; [done|congruence]].
      cbn in Hk'. apply lookup_delete_Some in Hk' as [Hne Hk']. split; [by exists s|congruence]. }
    split; [done|]. split; [by intros j id k' [? _]%Hw|]. intros k'. cbn [answers set_answers].
    destruct (decide (k' = k)) as [->|Hne]; [right|left; by rewrite lookup_insert_ne].
    assert (waits c i key k) as Hk by by exists s.
    split; [by exists i, key|]. intros j id [Hk' Hne]%Hw.
    destruct (Hu _ _ _ _ _ Hk Hk') as [-> ->]. done.
  - destruct (notification_handlers s !! wnot_method n); by apply settles_refl.
Qed.

Lemma handle_frame_Returns b c c' :
  handle_frame display b c = Returns c' →
  c' = c ∨ ∃ v m i s, decode b = Some v ∧ value_to_wire_message v = Returns m ∧ route v c = Some i ∧
           chans c !! i = Some s ∧ c' = dispatch display i s m c.
Proof.
  unfold handle_frame. destruct (decode b) as [v|]; [|intros [= <-]; by left].
  destruct (value_to_wire_message v) as [m|] eqn:Em; [|done]. intros [= <-].
  destruct (route v c) as [i|] eqn:Er; [|by left].
  destruct (chans c !! i) as [s|] eqn:Es; [|by left].
  right. by exists v, m, i, s.
Qed.

(** ** Every step *)

Lemma settles_set_same i s s' c :
  chans c !! i = Some s → pending s' = pending s → settles c (set_chan i s' c).
Proof.
  intros Hs Hp. split; [done|]. split; [|by left]. intros j id k Hk.
  rewrite waits_set_chan in Hk. destruct (decide (j = i)) as [->|]; [|done].
  exists s. split; [done|]. by rewrite <-Hp.
Qed.

Lemma settles_reject_all reason c : inv c → settles c (reject_all reason c).
Proof.
  intros H. eapply settles_trans; [apply (settles_reject 0 reason c H)|]. by apply settles_refl.
Qed.

Lemma settles_reject_next n c c' : inv c → reject_next n c = Some c' → settles c c'.
Proof.
  intros H Hr. apply bind_Some in Hr as ([i reason] & _ & [= <-]).
  eapply settles_trans; [apply (settles_reject i reason c H)|]. by apply settles_refl.
Qed.

Lemma inv_insert i id c c' k :
  inv c → request_insert i id c = Some (c', k) → inv c'.
Proof.
  intros [H1 H2 H3] H. apply bind_Some in H as (s & Hs & [= <- <-]).
  set (s' := mkChannel (<[id:=next_call c]> (pending s)) (notification_handlers s) (request_handlers s)).
  assert (∀ j id' k, waits (set_chan i s' c) j id' k →
    (j = i ∧ id' = id ∧ k = next_call c) ∨ waits c j id' k) as Hw.
  { intros j id' k Hk. rewrite waits_set_chan in Hk. destruct (decide (j = i)) as [->|]; [|by right].
    cbn in Hk. apply lookup_insert_Some in Hk as [[<- <-]|[Hne Hk]]; [by left|right; by exists s]. }
  assert (∀ j id', ¬ waits c j id' (next_call c)) as Hnew.
  { intros j id' Hk. apply H1 in Hk. lia. }
  split.
  - intros j id' k Hk. cbn [next_call answers set_chan]. destruct (Hw j id' k Hk) as [(_ & _ & ->)|Hk'].
    + split; [lia|]. destruct (answers c !! next_call c) eqn:E; [|done].
      assert (next_call c < next_call c) by (apply H3; by rewrite E). lia.
    + apply H1 in Hk' as [? ?]. split; [lia|done].
  - intros j id1 j' id2 k Hk Hk'.
    destruct (Hw _ _ _ Hk) as [(-> & -> & ->)|Hk1], (Hw _ _ _ Hk') as [(-> & -> & E)|Hk2]; subst; try done.
    + by destruct (Hnew _ _ Hk2).
    + by destruct (Hnew _ _ Hk1).
    + by eapply H2.
  - intros k Hk. cbn in *. apply H3 in Hk. lia.
Qed.

Lemma waits_stream id c i id' k : waits (stream id c).1 i id' k → waits c i id' k.
Proof.
  unfold stream. destruct (streams c !! id); [done|]. cbn [fst].
  intros (s & Hs & Hk). cbn [chans] in Hs. apply lookup_insert_Some in Hs as [[<- <-]|[_ Hs]].
  - cbn in Hk. by rewrite lookup_empty in Hk.
  - by exists s.
Qed.

Lemma settles_step l c c' :
  inv c → step display l c = Some c' → (∀ i id, l ≠ LInsert i id) → settles c c'.
Proof.
  intros Hi H Hl.
  destruct l as [i id| | |i m h|i m h|id|id|reason|n| |ev| |i r]; cbn [step] in H;
    try (injection H as <-); try by apply settles_refl.
  - by destruct (Hl i id).
  - apply bind_Some in H as (s & Hs & [= <-]). by eapply settles_set_same.
  - apply bind_Some in H as (s & Hs & [= <-]). by eapply settles_set_same.
  - split; [unfold stream; by destruct (streams c !! id)|]. split; [apply waits_stream|].
    left. unfold stream. by destruct (streams c !! id).
  - unfold stream_close. destruct (streams c !! id); by apply settles_refl.
  - by apply settles_reject_all.
  - by eapply settles_reject_next.
  - destruct (pump c); [|done]. destruct ev as [b| | |]; cbn [pump_event] in H.
    + destruct (handle_frame display b c) as [c1|] eqn:E; [|done]. injection H as <-.
      apply handle_frame_Returns in E as [->|(v & m & i & s & _ & _ & _ & Hs & ->)];
        [by apply settles_refl|by apply settles_dispatch].
    + injection H as <-. by apply settles_refl.
    + injection H as <-. eapply settles_trans; [by apply settles_reject_all|]. by apply settles_refl.
    + injection H as <-. by apply settles_refl.
  - apply bind_Some in H as (t & _ & [= <-]). by apply settles_refl.
Qed.

Lemma cn_inv_step l c c' : inv c → step display l c = Some c' → inv c'.
Proof.
  intros Hi H. destruct l as [i id| | | | | | | | | | | |].
  { cbn [step] in H. apply fmap_Some in H as ([c1 k] & Hr & ->). by eapply inv_insert. }
  all: eapply inv_settles; [exact Hi|eapply settles_step; [exact Hi|exact H|done]].
Qed.

Lemma cn_inv_new t : inv (Connection_new t).
Proof.
  assert (∀ i id k, ¬ waits (Connection_new t) i id k) as Hno.
  { intros i id k (s & Hs & Hk). cbn in Hs. apply lookup_singleton_Some in Hs as [_ <-].
    cbn in Hk. by rewrite lookup_empty in Hk. }
  split; [by intros ? ? ? ?%Hno|by intros ? ? ? ? ? ?%Hno|]. intros k. cbn. rewrite lookup_empty.
  by intros [].
Qed.

Lemma cn_inv_steps ls c c' : inv c → steps display ls c = Some c' → inv c'.
Proof.
  revert c. induction ls as [|l ls IH]; cbn [steps]; intros c Hi H; [by injection H as <-|].
  apply bind_Some in H as (c1 & H1 & H). eapply IH; [by eapply cn_inv_step|done].
Qed.

(** C15: Streams do not cross: however calls, frames, handlers, closing and
    disconnects interleave, a frame answers a waiting call exactly when it is a
    response, is tagged for the very channel the call was made on (as the
    stream map now has it; untagged for the connection itself) and carries the
    call's id; the answer is the response's error or result. *)
Theorem frames_answer_their_call t ls c b v m c' i id k :
  steps display ls (Connection_new t) = Some c →
  waits c i id k →
  decode b = Some v → value_to_wire_message v = Returns m →
  handle_frame display b c = Returns c' →
  answers c' !! k =
    match m with
    | WResponse r =>
        if decide (route v c = Some i ∧ id_to_key display (wresp_id r) = id)
        then Some (response_result r) else None
    | _ => None
    end.
Proof.
  intros Hr Hk Hb Hv Hf. destruct (cn_inv_steps _ _ _ (cn_inv_new t) Hr) as [H1 H2 _].
  destruct (H1 _ _ _ Hk) as [_ Hnone]. unfold handle_frame in Hf. rewrite Hb, Hv in Hf.
  injection Hf as <-. destruct (route v c) as [j|] eqn:Er.
  - destruct (chans c !! j) as [s|] eqn:Es.
    + rewrite answers_dispatch. destruct m as [r|r|n]; try done.
      destruct (decide (pending s !! id_to_key display (wresp_id r) = Some k)) as [Hp|Hp].
      * destruct (H2 _ _ _ _ _ Hk (ex_intro _ s (conj Es Hp))) as [-> ->]. by rewrite decide_True.
      * rewrite decide_False; [done|]. intros [[= ->] Hid]. apply Hp.
        destruct Hk as (s' & Hs' & Hp'). congruence.
    + rewrite Hnone. destruct m as [r|r|n]; try done. rewrite decide_False; [done|].
      intros [[= ->] _]. destruct Hk as (s & Hs & _). congruence.
  - rewrite Hnone. by destruct m.
Qed.

(** ** Closing *)

Lemma settles_keeps c c' k a :
  inv c → settles c c' → answers c !! k = Some a → answers c' !! k = Some a.
Proof.
  intros [H1 _ _] (_ & _ & Ha) Hk. destruct (Ha k) as [->|[(i & id & Hw) _]]; [done|].
  apply H1 in Hw as [_ Hw]. congruence.
Qed.

(** The queue of channels to reject, worked off. *)
Lemma reject_rest_answers n c reason k :
  inv c → n = length (rejecting c) → Forall (λ ir, ir.2 = reason) (rejecting c) →
  (∀ a, answers c !! k = Some a → answers (reject_rest n c) !! k = Some a) ∧
  ((∃ i id, waits c i id k ∧ i ∈ (rejecting c).*1) →
   answers (reject_rest n c) !! k = Some (rejection reason)).
Proof.
  revert c. induction n as [|n IH]; intros c Hi Hn Hall; cbn [reject_rest].
  - split; [done|]. intros (i & id & _ & Hin). destruct (rejecting c); [by apply elem_of_nil in Hin|done].
  - destruct (reject_next 0 c) as [c1|] eqn:E.
    + pose proof (settles_reject_next _ _ _ Hi E) as Hs.
      pose proof (inv_settles _ _ Hi Hs) as Hi1.
      unfold reject_next in E. destruct (rejecting c) as [|[i r] rest] eqn:Er; [done|].
      apply Forall_cons in Hall as [Hreason Hall]. cbn in Hreason. subst r.
      cbn [lookup list_lookup mbind option_bind] in E.
      assert (rejecting c1 = rest) as Hrest.
      { injection E as <-. cbn [rejecting]. unfold reject_all_pending.
        destruct (chans c !! i); cbn; by rewrite ?Er. }
      destruct (IH c1 Hi1) as [IH1 IH2]; [rewrite Hrest; by injection Hn|by rewrite Hrest|].
      split; [intros a Ha; apply IH1; by apply (settles_keeps c c1)|].
      intros (j & id & Hk & Hin). destruct (decide (j = i)) as [->|Hne].
      * apply IH1. injection E as <-. apply (answers_reject i reason c k). by exists id.
      * apply IH2. exists j, id. rewrite Hrest. split.
        -- injection E as <-. change (waits (reject_all_pending i reason c) j id k).
           by apply waits_reject.
        -- cbn in Hin. by apply elem_of_cons in Hin as [?|?].
    + exfalso. unfold reject_next in E. destruct (rejecting c) as [|[i r] rest]; done.
Qed.

(** Closing answers the calls that wait and no others: [close] answers every
    call made on the connection or on an open stream with [-32000 connection
    closed], leaves no stream open and makes every later send a no-op;
    [close_stream] answers the calls of that stream with [-32000 stream closed]
    and leaves the calls of all other streams waiting. *)
Theorem closing_answers_waiting_calls t ls c :
  steps display ls (Connection_new t) = Some c → rejecting c = [] →
  (∀ i id k, waits c i id k → i = 0 ∨ (∃ sid, streams c !! sid = Some i) →
     request_result k (close c) = Some (Err (Wire (mkWireError (-32000) "connection closed" None)))) ∧
  streams (close c) = ∅ ∧
  (∀ stream id method params, request_send stream id method params (close c) = close c) ∧
  (∀ sid i j id k, streams c !! sid = Some i → waits c j id k →
     request_result k (close_stream sid c) =
       if decide (j = i) then Some (Err (Wire (mkWireError (-32000) "stream closed" None))) else None).
Proof.
  intros Hr Hrj. pose proof (cn_inv_steps _ _ _ (cn_inv_new t) Hr) as Hi.
  set (rc := reject_all "connection closed" c).
  assert (∀ n c, streams (reject_rest n c) = streams c ∧
    t_closed (transport (reject_rest n c)) = t_closed (transport c)) as Hst.
  { induction n as [|n IH]; intros c0; cbn [reject_rest]; [done|].
    destruct (reject_next 0 c0) as [c1|] eqn:E; [|done].
    destruct (IH c1) as [-> ->]. apply bind_Some in E as ([j r] & _ & [= <-]).
    cbn. unfold reject_all_pending. by destruct (chans c0 !! j). }
  assert (rejecting rc = map (λ si : string * nat, (si.2, "connection closed")) (map_to_list (streams c))) as Hrc.
  { unfold rc, reject_all, reject_all_pending. destruct (chans c !! 0); cbn; by rewrite Hrj. }
  assert (t_closed (transport (close c)) = true) as Hcl.
  { unfold close. cbn. by destruct (transport _) as [? [] []]. }
  split; [|split; [|split]].
  - intros i id k Hk Hor. unfold close, request_result. cbn [answers set_transport].
    fold rc. destruct (reject_rest_answers (length (rejecting rc)) rc "connection closed" k) as [H1 H2].
    + eapply inv_settles; [exact Hi|by apply settles_reject_all].
    + done.
    + rewrite Hrc. apply Forall_forall. by intros ? (? & -> & _)%list_elem_of_fmap.
    + destruct (decide (i = 0)) as [->|Hne].
      * rewrite (H1 (rejection "connection closed")); [done|].
        change (answers rc) with (answers (reject_all_pending 0 "connection closed" c)).
        apply answers_reject. by exists id.
      * destruct Hor as [?|[sid Hsid]]; [done|]. rewrite H2; [done|]. exists i, id. split.
        -- change (waits (reject_all_pending 0 "connection closed" c) i id k). by apply waits_reject.
        -- rewrite Hrc. apply list_elem_of_fmap. exists (i, "connection closed"). split; [done|].
           apply list_elem_of_fmap. exists (sid, i). split; [done|]. by apply elem_of_map_to_list.
  - change (streams (close c)) with (streams (reject_rest (length (rejecting rc)) rc)).
    by rewrite (proj1 (Hst _ rc)).
  - intros st id method params. unfold request_send, set_transport, t_send. rewrite Hcl.
    by destruct (close c).
  - intros sid i j id k Hsid Hk. unfold close_stream, request_result. rewrite Hsid.
    set (c1 := set_streams _ _ c). assert (waits c1 j id k) as Hk1 by exact Hk.
    destruct (answers_reject i "stream closed" c1 k) as [H1 H2].
    destruct (decide (j = i)) as [->|Hne]; [rewrite H1; [done|by exists id]|].
    rewrite H2; [change (answers c1) with (answers c); by destruct (inv_waiting _ Hi _ _ _ Hk) as [_ ->]|].
    intros id' Hk'. by destruct (inv_unique _ Hi _ _ _ _ _ Hk Hk').
Qed.

(** ** Calls nobody will answer *)

(** A channel only handles know: not the connection's own, not in the stream
    map, and not about to be rejected. *)
Definition orphan (c : Connection) (i : ChanId) : Prop :=
  i ≠ 0 ∧ i < next_chan c ∧ (∀ sid, streams c !! sid ≠ Some i) ∧ (∀ r, (i, r) ∉ rejecting c).

(** Unanswered, and waiting on [i] if at all. *)
Definition only_on (c : Connection) (i : ChanId) (k : CallId) : Prop :=
  answers c !! k = None ∧ k < next_call c ∧ ∀ j id, waits c j id k → j = i.

Definition closing (l : label) : bool :=
  match l with LStreamClose _ | LRejectAll _ => true | _ => false end.

Lemma reject_keeps i reason c :
  streams (reject_all_pending i reason c) = streams c ∧
  next_chan (reject_all_pending i reason c) = next_chan c ∧
  rejecting (reject_all_pending i reason c) = rejecting c ∧
  pump (reject_all_pending i reason c) = pump c.
Proof. unfold reject_all_pending. by destruct (chans c !! i). Qed.

Lemma dispatch_keeps i s m c :
  streams (dispatch display i s m c) = streams c ∧
  next_chan (dispatch display i s m c) = next_chan c ∧
  rejecting (dispatch display i s m c) = rejecting c ∧
  pump (dispatch display i s m c) = pump c.
Proof.
  destruct m as [r|r|n]; cbn [dispatch].
  - by destruct (request_handlers s !! wreq_method r).
  - by destruct (pending s !! id_to_key display (wresp_id r)).
  - by destruct (notification_handlers s !! wnot_method n).
Qed.

Lemma only_on_settles c c' i k :
  inv c → settles c c' → (answers c' !! k = answers c !! k) → only_on c i k → only_on c' i k.
Proof.
  intros _ (Hn & Hw & _) Ha (H1 & H2 & H3). split; [congruence|]. split; [by rewrite <-Hn|].
  intros j id Hk. by apply (H3 j id), Hw.
Qed.

(** Rejecting or dispatching on another channel leaves such a call alone. *)
Lemma only_on_reject i j reason c k :
  j ≠ i → only_on c i k → answers (reject_all_pending j reason c) !! k = answers c !! k.
Proof.
  intros Hne (_ & _ & H3). apply answers_reject. intros id Hk. by apply Hne, (H3 j id).
Qed.

Lemma only_on_dispatch i j s m c k :
  j ≠ i → chans c !! j = Some s → only_on c i k →
  answers (dispatch display j s m c) !! k = answers c !! k.
Proof.
  intros Hne Hs (_ & _ & H3). rewrite answers_dispatch. destruct m as [r|r|n]; try done.
  rewrite decide_False; [done|]. intros Hk. apply Hne, (H3 j (id_to_key display (wresp_id r))).
  by exists s.
Qed.

Lemma only_on_insert c c' i j id k k' :
  inv c → only_on c i k → request_insert j id c = Some (c', k') → only_on c' i k.
Proof.
  intros _ (H1 & H2 & H3) H. apply bind_Some in H as (s & Hs & [= <- <-]).
  split; [done|]. split; [cbn; lia|]. intros j' id' Hk.
  change (waits (set_chan j (mkChannel (<[id:=next_call c]> (pending s)) (notification_handlers s)
    (request_handlers s)) c) j' id' k) in Hk.
  rewrite waits_set_chan in Hk. destruct (decide (j' = j)) as [->|]; [|by apply (H3 j' id')].
  cbn in Hk. apply lookup_insert_Some in Hk as [[_ Hk]|[_ Hk]]; [lia|]. apply (H3 j id'). by exists s.
Qed.

Lemma orphan_same c c' i :
  streams c' = streams c → next_chan c' = next_chan c → rejecting c' = rejecting c →
  orphan c i → orphan c' i.
Proof. unfold orphan. by intros -> -> ->. Qed.

Lemma orphan_reject_all c i reason : orphan c i → orphan (reject_all reason c) i.
Proof.
  intros (H1 & H2 & H3 & H4). unfold reject_all.
  destruct (reject_keeps 0 reason c) as (Es & En & Er & _).
  split; [done|]. split; [cbn; by rewrite En|]. split; [intros sid; cbn; by rewrite lookup_empty|].
  intros r. cbn. rewrite Er, Es. intros [?|Hin]%elem_of_app; [by apply (H4 r)|].
  apply list_elem_of_fmap in Hin as ([sid j] & [= <- _] & Hin%elem_of_map_to_list).
  by apply (H3 sid).
Qed.

Lemma orphan_step l c c' i : orphan c i → step display l c = Some c' → orphan c' i.
Proof.
  intros Ho H.
  destruct l as [j id| | |j m h|j m h|id|id|reason|n| |ev| |j r]; cbn [step] in H;
    try (injection H as <-); try by apply (orphan_same c).
  - apply fmap_Some in H as ([c1 k] & H & ->). apply bind_Some in H as (s & _ & [= <- _]).
    by apply (orphan_same c).
  - apply bind_Some in H as (s & _ & [= <-]). by apply (orphan_same c).
  - apply bind_Some in H as (s & _ & [= <-]). by apply (orphan_same c).
  - unfold stream. destruct (streams c !! id) eqn:E; [done|]. destruct Ho as (H1 & H2 & H3 & H4).
    split; [done|]. cbn. split; [lia|]. split; [|done]. intros sid.
    destruct (decide (sid = id)) as [->|]; [rewrite lookup_insert_eq; intros [= ?]; lia|].
    by rewrite lookup_insert_ne.
  - unfold stream_close. destruct (streams c !! id) as [j|] eqn:E; [|done].
    destruct Ho as (H1 & H2 & H3 & H4). split; [done|]. cbn. split; [done|]. split.
    + intros sid. destruct (decide (sid = id)) as [->|]; [by rewrite lookup_delete_eq|].
      by rewrite lookup_delete_ne.
    + intros r [Hin|Hin]%elem_of_app; [by apply (H4 r)|].
      apply list_elem_of_singleton in Hin as [= -> _]. by apply (H3 id).
  - by apply orphan_reject_all.
  - apply bind_Some in H as ([j r] & _ & [= <-]).
    destruct (reject_keeps j r c) as (Es & En & Er & _). destruct Ho as (H1 & H2 & H3 & H4).
    split; [done|]. cbn. rewrite Es, En, Er. split; [done|]. split; [done|]. intros r' Hin.
    apply (H4 r'). by eapply list_elem_of_delete_inv.
  - destruct (pump c); [|done]. destruct ev as [b| | |]; cbn [pump_event] in H.
    + destruct (handle_frame display b c) as [c1|] eqn:E; [|done]. injection H as <-.
      apply handle_frame_Returns in E as [->|(v & m & j & s & _ & _ & _ & _ & ->)]; [done|].
      destruct (dispatch_keeps j s m c) as (? & ? & ? & _). by apply (orphan_same c).
    + by injection H as <-.
    + injection H as <-. by apply (orphan_same (reject_all "disconnected" c)), orphan_reject_all.
    + by injection H as <-.
  - apply bind_Some in H as (t & _ & [= <-]). by apply (orphan_same c).
Qed.

Lemma orphan_unanswered l c c' i k :
  orphan c i → only_on c i k → step display l c = Some c' → answers c' !! k = answers c !! k.
Proof.
  intros (H1 & H2 & H3 & H4) Hk H.
  destruct l as [j id| | |j m h|j m h|id|id|reason|n| |ev| |j r]; cbn [step] in H;
    try (by injection H as <-).
  - apply fmap_Some in H as ([c1 k1] & H & ->). by apply bind_Some in H as (s & _ & [= <- _]).
  - by apply bind_Some in H as (s & _ & [= <-]).
  - by apply bind_Some in H as (s & _ & [= <-]).
  - injection H as <-. unfold stream. by destruct (streams c !! id).
  - injection H as <-. unfold stream_close. by destruct (streams c !! id).
  - injection H as <-. by apply (only_on_reject i).
  - apply bind_Some in H as ([j r] & Hin & [= <-]). cbn. apply (only_on_reject i); [|done].
    intros ->. apply list_elem_of_lookup_2 in Hin. by apply (H4 r).
  - destruct (pump c); [|done]. destruct ev as [b| | |]; cbn [pump_event] in H.
    + destruct (handle_frame display b c) as [c1|] eqn:E; [|done]. injection H as <-.
      apply handle_frame_Returns in E as [->|(v & m & j & s & _ & _ & Hr & Hs & ->)]; [done|].
      apply (only_on_dispatch i); [|done|done]. unfold route in Hr.
      destruct (stream_tag v) as [sid|]; [intros ->; by apply (H3 sid)|congruence].
    + by injection H as <-.
    + injection H as <-. by apply (only_on_reject i).
    + by injection H as <-.
  - by apply bind_Some in H as (t & _ & [= <-]).
Qed.

Lemma orphan_steps ls c c' i k :
  inv c → orphan c i → only_on c i k → steps display ls c = Some c' → answers c' !! k = None.
Proof.
  revert c. induction ls as [|l ls IH]; cbn [steps]; intros c Hi Ho Hk H.
  - injection H as <-. apply Hk.
  - apply bind_Some in H as (c1 & H1 & H). apply (IH c1); [by eapply cn_inv_step|by eapply orphan_step| |done].
    destruct l as [j id| | | | | | | | | | | |].
    { cbn [step] in H1. apply fmap_Some in H1 as ([c2 k'] & H1 & ->). by eapply only_on_insert. }
    all: eapply only_on_settles; [exact Hi|by eapply settles_step|by eapply orphan_unanswered|done].
Qed.

(** Without the event task, and with nothing being closed, nothing answers. *)
Lemma deaf_step l c c' k :
  pump c = false → rejecting c = [] → closing l = false → step display l c = Some c' →
  pump c' = false ∧ rejecting c' = [] ∧ answers c' !! k = answers c !! k.
Proof.
  intros Hp Hr Hl H.
  destruct l as [j id| | |j m h|j m h|id|id|reason|n| |ev| |j r]; try done; cbn [step] in H;
    try (by injection H as <-).
  - apply fmap_Some in H as ([c1 k1] & H & ->). by apply bind_Some in H as (s & _ & [= <- _]).
  - by apply bind_Some in H as (s & _ & [= <-]).
  - by apply bind_Some in H as (s & _ & [= <-]).
  - injection H as <-. unfold stream. by destruct (streams c !! id).
  - unfold reject_next in H. by rewrite Hr in H.
  - by rewrite Hp in H.
  - by apply bind_Some in H as (t & _ & [= <-]).
Qed.

Lemma deaf_steps ls c c' k :
  pump c = false → rejecting c = [] → Forall (λ l, closing l = false) ls →
  steps display ls c = Some c' → answers c' !! k = answers c !! k.
Proof.
  revert c. induction ls as [|l ls IH]; cbn [steps]; intros c Hp Hr Hl H; [by injection H as <-|].
  apply Forall_cons in Hl as [Hl Hls]. apply bind_Some in H as (c1 & H1 & H).
  destruct (deaf_step _ _ _ k Hp Hr Hl H1) as (Hp1 & Hr1 & <-). by apply IH.
Qed.

(** A call can wait forever although nothing is left that could answer it:
    a call made through the handle of a closed stream, whatever happens
    afterwards, and a call made after the disconnect was handled, until
    somebody closes something. [request] neither refuses them nor has a
    timeout. *)
Theorem request_never_answered t ls0 c i id k ls c' :
  steps display ls0 (Connection_new t) = Some c → waits c i id k →
  orphan c i ∨ (pump c = false ∧ rejecting c = [] ∧ Forall (λ l, closing l = false) ls) →
  steps display ls c = Some c' → request_result k c' = None.
Proof.
  intros Hr Hk Hor H. pose proof (cn_inv_steps _ _ _ (cn_inv_new t) Hr) as Hi.
  destruct (inv_waiting _ Hi _ _ _ Hk) as [Hlt Hnone].
  assert (answers c' !! k = None) as Ha; [|unfold request_result; by rewrite Ha].
  destruct Hor as [Ho|(Hp & Hrj & Hl)].
  - apply (orphan_steps ls c c' i); try done. split; [done|]. split; [done|]. intros j id' Hk'.
    by destruct (inv_unique _ Hi _ _ _ _ _ Hk Hk').
  - by rewrite (deaf_steps ls c c').
Qed.

(** ** A call across two connections *)

(** serde reads an optional value back unless it is nil, which it takes for an
    absent one. *)
Definition non_nil (o : option Value) : option Value :=
  match o with Some VNil => None | _ => o end.

Record envelope_laws : Prop := {
  request_back (r : WireRequest) :
    from_value (to_value r)
    = Ok (mkWireRequest (wreq_stream r) (wreq_id r) (wreq_method r) (non_nil (wreq_params r)));
  response_back (r : WireResponse) :
    (∀ e, wresp_error r = Some e → we_data e ≠ Some VNil) →
    from_value (to_value r)
    = Ok (mkWireResponse (wresp_stream r) (wresp_id r) (non_nil (wresp_result r)) (wresp_error r));
}.

Lemma default_non_nil v : default VNil (non_nil (Some v)) = v.
Proof. by destruct v. Qed.

Lemma stream_tag_request r : stream_tag (to_value r) = wreq_stream r.
Proof. by destruct r as [[st|] id me [pa|]]. Qed.

Lemma stream_tag_response (r : WireResponse) : stream_tag (to_value r) = wresp_stream r.
Proof. by destruct r as [[st|] id [re|] [er|]]. Qed.

(** The channel of a handle: the connection's own or a stream's. *)
Definition channel_of (st : option string) (c : Connection) : option ChanId :=
  match st with Some sid => streams c !! sid | None => Some 0 end.

(** The transport still takes frames. *)
Definition open (c : Connection) : Prop :=
  t_closed (transport c) = false ∧ t_driver (transport c) = true.

Lemma t_send_open b t :
  t_closed t = false → t_driver t = true → t_cmds (t_send b t) = t_cmds t ++ [Send b].
Proof. intros Hc Hd. unfold t_send, t_push. by rewrite Hc, Hd. Qed.

Lemma handle_request_frame (L : envelope_laws) r b i s h :
  channel_of (wreq_stream r) b = Some i → chans b !! i = Some s →
  request_handlers s !! wreq_method r = Some h →
  ∃ b', handle_frame display (encode (to_value r)) b = Returns b' ∧
    tasks b' = tasks b ++ [mkTask h (default VNil (non_nil (wreq_params r))) (wreq_stream r) (wreq_id r)] ∧
    transport b' = transport b.
Proof.
  intros Hi Hs Hh. unfold handle_frame. rewrite decode_encode.
  pose proof (classify_wire_value (WRequest r) I) as Hcl. cbn [wire_value] in Hcl.
  rewrite request_back in Hcl by exact L. cbn in Hcl. rewrite Hcl.
  unfold route. rewrite stream_tag_request. unfold channel_of in Hi. rewrite Hi, Hs.
  cbn [dispatch wreq_method]. rewrite Hh. eexists. split; [reflexivity|]. done.
Qed.

Lemma handle_response_frame (L : envelope_laws) (r : WireResponse) a i s id k :
  (∀ e, wresp_error r = Some e → we_data e ≠ Some VNil) →
  is_Some (wresp_result r) ∨ is_Some (wresp_error r) →
  channel_of (wresp_stream r) a = Some i → chans a !! i = Some s →
  wresp_id r = VStr id → pending s !! id = Some k →
  ∃ a', handle_frame display (encode (to_value r)) a = Returns a' ∧
    answers a' !! k =
      Some match wresp_error r with
           | Some e => Err e
           | None => Ok (default VNil (non_nil (wresp_result r)))
           end.
Proof.
  intros He Hw Hi Hs Hid Hk. unfold handle_frame. rewrite decode_encode.
  pose proof (classify_wire_value (WResponse r) Hw) as Hcl. cbn [wire_value] in Hcl.
  rewrite response_back in Hcl by done. cbn in Hcl. rewrite Hcl.
  unfold route. rewrite stream_tag_response. unfold channel_of in Hi. rewrite Hi, Hs.
  eexists. split; [reflexivity|]. rewrite answers_dispatch. cbn [wresp_id]. rewrite Hid. cbn [id_to_key].
  rewrite Hk. by rewrite decide_True.
Qed.

(** A call on values: the caller gets what the handler makes of the value it
    sent. *)
Lemma remote_call (L : envelope_laws) (handler : Value → result Value WireError) (v : Value)
    st id method a ia sa b ib sb h :
  channel_of st a = Some ia → chans a !! ia = Some sa → open a →
  channel_of st b = Some ib → chans b !! ib = Some sb → open b →
  request_handlers sb !! method = Some h →
  (∀ e, handler v = Err e → we_data e ≠ Some VNil) →
  ∃ a0 k req b1 task b2 resp a2,
    request_insert ia id a = Some (a0, k) ∧
    (let a1 := request_send st id method (Some v) a0 in
     t_cmds (transport a1) = t_cmds (transport a) ++ [Send req] ∧
     handle_frame display req b = Returns b1 ∧
     tasks b1 = tasks b ++ [task] ∧ rt_handler task = h ∧ rt_params task = v ∧
     finish_task (length (tasks b)) (handler v) b1 = Some b2 ∧
     t_cmds (transport b2) = t_cmds (transport b) ++ [Send resp] ∧
     handle_frame display resp a1 = Returns a2 ∧
     request_result k a2 = Some (map_err Wire (handler v))).
Proof.
  intros Hia Hsa [Hoa Hda] Hib Hsb [Hob Hdb] Hh He.
  set (req := mkWireRequest st (VStr id) method (Some v)).
  destruct (handle_request_frame L req b ib sb h Hib Hsb Hh) as (b1 & Hb1 & Htb & Htr).
  set (task := mkTask h _ _ _) in Htb.
  set (resp := match handler v with
               | Ok value => mkWireResponse st (VStr id) (Some value) None
               | Err error => mkWireResponse st (VStr id) None (Some error)
               end).
  set (sa1 := mkChannel (<[id := next_call a]> (pending sa)) (notification_handlers sa)
                (request_handlers sa)).
  assert (∃ a0, request_insert ia id a = Some (a0, next_call a) ∧ chans a0 !! ia = Some sa1 ∧
            transport a0 = transport a ∧ streams a0 = streams a) as (a0 & Ha0 & Hsa0 & Hta & Hst).
  { unfold request_insert. rewrite Hsa. eexists. split; [reflexivity|]. cbn.
    by rewrite lookup_insert_eq. }
  destruct (handle_response_frame L resp (request_send st id method (Some v) a0)
              ia sa1 id (next_call a)) as (a2 & Ha2 & Hans).
  - unfold resp. destruct (handler v) as [r|e] eqn:E; cbn; [done|]. intros ? [= <-]. by apply He.
  - unfold resp. destruct (handler v); cbn; [left|right]; by eexists.
  - unfold resp, channel_of in *. destruct (handler v); cbn; by rewrite Hst.
  - done.
  - unfold resp. by destruct (handler v).
  - cbn. apply lookup_insert_eq.
  - exists a0, (next_call a), (encode (to_value req)), b1, task.
    eexists. exists (encode (to_value resp)), a2. split; [exact Ha0|]. cbn zeta.
    split. { unfold request_send, set_transport. cbn [transport]. by rewrite t_send_open; rewrite ?Hta. }
    split; [exact Hb1|]. split; [exact Htb|]. split; [done|]. split; [apply default_non_nil|].
    split. { unfold finish_task. rewrite Htb, list_lookup_middle by done. cbn [mbind option_bind]. reflexivity. }
    split. { cbn [transport]. unfold send_response. rewrite Htr. by rewrite t_send_open. }
    split; [exact Ha2|]. unfold request_result. rewrite Hans. unfold resp.
    destruct (handler v) as [r|e]; cbn; [|done]. fold (non_nil (Some r)). by rewrite default_non_nil.
Qed.

(** C16: A remote call is a local call: when two connections exchange the frames
    a typed call produces, on the connection or on any stream open at both
    ends, the caller gets exactly what the handler returns for its parameters,
    a result or an error. *)
Theorem remote_call_is_local_call {P R} {FP : FromValue P} {TP : ToValue P} {FR : FromValue R}
    {TR : ToValue R} `{!SerdeRoundtrip P, !SerdeRoundtrip R} (L : envelope_laws)
    (handler : P → result R WireError) (p : P) st id method a ia sa b ib sb h :
  channel_of st a = Some ia → chans a !! ia = Some sa → open a →
  channel_of st b = Some ib → chans b !! ib = Some sb → open b →
  request_handlers sb !! method = Some h →
  (∀ e, handler p = Err e → we_data e ≠ Some VNil) →
  ∃ a0 k req b1 task b2 resp a2,
    request_insert ia id a = Some (a0, k) ∧
    (let a1 := request_send st id method (Some (to_value p)) a0 in
     t_cmds (transport a1) = t_cmds (transport a) ++ [Send req] ∧
     handle_frame display req b = Returns b1 ∧
     tasks b1 = tasks b ++ [task] ∧ rt_handler task = h ∧
     finish_task (length (tasks b)) (typed_handler handler (rt_params task)) b1 = Some b2 ∧
     t_cmds (transport b2) = t_cmds (transport b) ++ [Send resp] ∧
     handle_frame display resp a1 = Returns a2 ∧
     typed_result <$> request_result k a2
     = Some match handler p with Ok r => Ok r | Err e => Err (Request (Wire e)) end).
Proof.
  intros Hia Hsa Hoa Hib Hsb Hob Hh He.
  assert (typed_handler handler (to_value p) = res_map to_value (handler p)) as Hth.
  { unfold typed_handler. rewrite from_to_value. cbn. by destruct (handler p). }
  destruct (remote_call L (typed_handler handler) (to_value p) st id method a ia sa b ib sb h)
    as (a0 & k & rq & b1 & task & b2 & rs & a2 & H0 & H1 & H2 & H3 & H4 & H5 & H6 & H7 & H8 & H9); try done.
  { rewrite Hth. intros e. destruct (handler p) as [|e'] eqn:E; [done|]. intros [= <-]. by apply He. }
  exists a0, k, rq, b1, task, b2, rs, a2. cbv zeta. rewrite H5. split_and!; try done.
  rewrite H9, Hth. unfold typed_result. destruct (handler p) as [r|e]; cbn; [|done].
  by rewrite from_to_value.
Qed.
End facts.

(** ** Witnesses: the envelopes' derived decoders *)

Module SampleConnection.
Import Wire.Derived Codec.SampleCodec.

Lemma derived_laws : envelope_laws.
Proof.
  split.
  - intros [st id me pa]. unfold from_value, WireRequest_from_value, field_opt_string, field_string,
      field_opt_value, to_value, WireRequest_to_value.
    cbn [wreq_stream wreq_id wreq_method wreq_params]. map_get_simpl.
    by destruct st, pa as [[]|].
  - intros [st id re er] He. destruct st, re as [[]|], er as [[co me [[]|]]|]; try reflexivity;
      by destruct (He _ eq_refl).
Qed.

Definition no_display (v : Value) : string := "".
Definition fresh : Connection := Connection_new (mkTransport [] true false).

Abbreviation run := (steps (C := codec) no_display).

(** A call on the connection and one on stream [s]. *)
Definition two_calls : list label :=
  [LStream "s"; LInsert 0 "u1"; LInsert 1 "u1"].
Definition two_waiting : Connection := default fresh (run two_calls fresh).

Definition response_s : WireResponse := mkWireResponse (Some "s") (VStr "u1") (Some (VInt 7)) None.

Definition answered : Connection :=
  match handle_frame no_display (encode (to_value response_s)) two_waiting with
  | Returns c => c
  | Panics => fresh
  end.

Lemma root_waits : waits two_waiting 0 "u1" 0.
Proof. eexists. split; vm_compute; reflexivity. Defined.

Lemma stream_waits : waits two_waiting 1 "u1" 1.
Proof. eexists. split; vm_compute; reflexivity. Defined.

(** The stream's response leaves the connection's call of the same id alone. *)
Lemma frames_answer_their_call_witness :
  answers answered !! 0%nat = None ∧ answers answered !! 1%nat = Some (Ok (VInt 7)).
Proof.
  assert (decode (encode (to_value response_s)) = Some (to_value response_s)) as Hd
    by apply decode_encode.
  assert (value_to_wire_message (to_value response_s) = Returns (WResponse response_s)) as Hv
    by (vm_compute; reflexivity).
  assert (handle_frame no_display (encode (to_value response_s)) two_waiting = Returns answered) as Hf
    by (unfold answered, handle_frame; rewrite Hd, Hv; reflexivity).
  assert (run two_calls fresh = Some two_waiting) as Hr by (vm_compute; reflexivity).
  split.
  - rewrite (frames_answer_their_call no_display _ two_calls two_waiting _ _ _ _ 0 "u1" 0
      Hr root_waits Hd Hv Hf). reflexivity.
  - rewrite (frames_answer_their_call no_display _ two_calls two_waiting _ _ _ _ 1 "u1" 1
      Hr stream_waits Hd Hv Hf). reflexivity.
Defined.

Lemma closing_answers_waiting_calls_witness :
  request_result 1 (close two_waiting)
    = Some (Err (Wire (mkWireError (-32000) "connection closed" None))) ∧
  request_result 0 (close_stream "s" two_waiting) = None.
Proof.
  destruct (closing_answers_waiting_calls no_display (mkTransport [] true false) two_calls two_waiting)
    as (H1 & _ & _ & H2); [vm_compute; reflexivity|vm_compute; reflexivity|].
  split.
  - apply (H1 1%nat "u1" 1%nat stream_waits). right. exists "s". vm_compute. reflexivity.
  - rewrite (H2 "s" 1%nat 0%nat "u1" 0%nat); [reflexivity|vm_compute; reflexivity|exact root_waits].
Defined.

(** A call on the handle of a closed stream; then everything is closed. *)
Definition on_closed : list label :=
  [LStream "s"; LStreamClose "s"; LRejectNext 0; LInsert 1 "u2"].
Definition stranded : Connection := default fresh (run on_closed fresh).

Lemma request_never_answered_witness :
  request_result 0 (default fresh (run [LRejectAll "connection closed"; LTransportClose] stranded)) = None.
Proof.
  apply (request_never_answered no_display (mkTransport [] true false) on_closed stranded 1 "u2" 0
    [LRejectAll "connection closed"; LTransportClose]).
  - vm_compute. reflexivity.
  - eexists. split; vm_compute; reflexivity.
  - left. split; [done|]. split; [vm_compute; lia|]. split.
    + intros sid. change (streams stranded) with (∅ : gmap string nat). by rewrite lookup_empty.
    + intros r. change (rejecting stranded) with (@nil (nat * string)). apply not_elem_of_nil.
  - vm_compute. reflexivity.
Defined.

#[local] Instance int_from_value : FromValue Z := λ v,
  match v with VInt n => Ok n | _ => Err "invalid type" end.
#[local] Instance int_to_value : ToValue Z := VInt.
#[local] Instance int_roundtrip : SerdeRoundtrip Z.
Proof. intros x. reflexivity. Defined.

Definition half (n : Z) : result Z WireError :=
  if (n mod 2 =? 0)%Z then Ok (n / 2)%Z else Err (mkWireError 1 "odd" None).

Definition client : Connection := default fresh (run [LStream "s"] fresh).
Definition server : Connection := default fresh (run [LStream "s"; LHandle 1 "half" 9] fresh).

Lemma remote_call_is_local_call_witness :
  ∃ a0 k req b1 task b2 resp a2,
    request_insert 1 "u1" client = Some (a0, k) ∧
    (let a1 := request_send (C := codec) (Some "s") "u1" "half" (Some (VInt 6)) a0 in
     t_cmds (transport a1) = [Send req] ∧
     handle_frame no_display req server = Returns b1 ∧
     tasks b1 = [task] ∧ rt_handler task = 9 ∧
     finish_task 0 (typed_handler half (rt_params task)) b1 = Some b2 ∧
     t_cmds (transport b2) = [Send resp] ∧
     handle_frame no_display resp a1 = Returns a2 ∧
     typed_result <$> request_result k a2 = Some (Ok 3%Z)).
Proof.
  apply (remote_call_is_local_call no_display derived_laws half 6%Z (Some "s") "u1" "half"
    client 1 ChannelState_new server 1 (mkChannel ∅ ∅ {["half" := 9]}) 9);
    try (vm_compute; reflexivity); try (split; vm_compute; reflexivity).
  discriminate.
Defined.
End SampleConnection.
