(* ===== verification/Facade.v ===== *)
(** The typed facades of the transport crate, server side
    ([transport/src/agent/server.rs], [gateway/server.rs]) and the typed call
    they share ([connection.rs], [lib.rs]).  A handler set is a record with a
    handler for each method, over values of the shapes the method table gives;
    serving one binds each method's name to its handler. *)
From S2P Require Import Prelude Wire Serde Methods Protocol Codec Framing Transport Connection.
From S2P Require TransportDtos.
Open Scope nexal_scope.

(** * Typed values *)

Definition Typed (t : Ty) : Type := { x : Datum | has_ty t x = true }.

#[export] Instance Typed_to_value `{Serde} t : ToValue (Typed t) := λ x, ser t (`x).

(** Decoding gives values of the shape. *)
#[export] Instance Typed_from_value `{Serde} t : FromValue (Typed t) := λ v,
  x ←? de t v;
  match decide (has_ty t x = true) with
  | left Hx => Ok (x ↾ Hx)
  | right _ => Err "invalid value"
  end.

Definition unit_value : Typed TUnit := DUnit ↾ eq_refl.

(** * Method sets *)

(* @src crates/utils/transport/src/lib.rs RpcMethod *)
Class RpcMethod (M : Type) := {
  METHOD : M → string;
  Params : M → Ty;
  Result_ : M → Ty;
}.

(* @src crates/utils/transport/src/macros.rs define_method_set "$(" .. ")+" *)
#[export] Instance agent_rpc : RpcMethod AgentMethod := {|
  METHOD := AgentMethods.AgentMethod_as_str;
  Params := agent_params;
  Result_ := agent_result;
|}.

#[export] Instance gateway_rpc : RpcMethod GatewayMethod := {|
  METHOD := GatewayMethods.GatewayMethod_as_str;
  Params := gateway_params;
  Result_ := gateway_result;
|}.

(** A method set fit for calls: distinct names, and shapes that read back. *)
Class RpcLaws (M : Type) `{!RpcMethod M} := {
  METHOD_inj (m n : M) : METHOD m = METHOD n → m = n;
  Params_read (m : M) : reads_plain (Params m, Params m) = true;
  Result_read (m : M) : reads_plain (Result_ m, Result_ m) = true;
}.

#[export] Instance agent_rpc_laws : RpcLaws AgentMethod.
Proof.
  split; [|apply tables_self|apply tables_self].
  intros m n H. apply (f_equal AgentMethods.AgentMethod_parse) in H.
  cbn in H. rewrite !AgentMethods.agent_parse_as_str in H. by injection H.
Qed.

#[export] Instance gateway_rpc_laws : RpcLaws GatewayMethod.
Proof.
  split; [|apply gateway_tables_self|apply gateway_tables_self].
  intros m n H. apply (f_equal GatewayMethods.GatewayMethod_parse) in H.
  cbn in H. rewrite !GatewayMethods.gateway_parse_as_str in H. by injection H.
Qed.

(** * Handler sets *)

(** The trait: a handler for each method. *)
(* @src crates/utils/transport/src/agent/server.rs AgentHandlers *)
Record AgentHandlers := mkAgentHandlers {
  ah_initialize :
    Typed TransportDtos.InitializeParams → result (Typed TransportDtos.InitializeResponse) WireError;
  ah_initialized : result (Typed TUnit) WireError;
  ah_process_start :
    Typed TransportDtos.ProcessStartParams → result (Typed TransportDtos.ProcessStartResponse) WireError;
  ah_process_read :
    Typed TransportDtos.ProcessReadParams → result (Typed TransportDtos.ProcessReadResponse) WireError;
  ah_process_write :
    Typed TransportDtos.ProcessWriteParams → result (Typed TransportDtos.ProcessWriteResponse) WireError;
  ah_process_terminate :
    Typed TransportDtos.ProcessTerminateParams → result (Typed TransportDtos.ProcessTerminateResponse) WireError;
  ah_fs_read_file :
    Typed TransportDtos.FsReadFileParams → result (Typed TransportDtos.FsReadFileResponse) WireError;
  ah_fs_write_file :
    Typed TransportDtos.FsWriteFileParams → result (Typed TransportDtos.FsWriteFileResponse) WireError;
  ah_fs_create_directory :
    Typed TransportDtos.FsCreateDirectoryParams → result (Typed TransportDtos.FsCreateDirectoryResponse) WireError;
  ah_fs_get_metadata :
    Typed TransportDtos.FsGetMetadataParams → result (Typed TransportDtos.FsGetMetadataResponse) WireError;
  ah_fs_read_directory :
    Typed TransportDtos.FsReadDirectoryParams → result (Typed TransportDtos.FsReadDirectoryResponse) WireError;
  ah_fs_remove :
    Typed TransportDtos.FsRemoveParams → result (Typed TransportDtos.FsRemoveResponse) WireError;
  ah_fs_copy :
    Typed TransportDtos.FsCopyParams → result (Typed TransportDtos.FsCopyResponse) WireError;
  ah_proxy_register :
    Typed TransportDtos.ProxyRegisterParams → result (Typed TransportDtos.ProxyRegisterResponse) WireError;
  ah_proxy_unregister :
    Typed TransportDtos.ProxyUnregisterParams → result (Typed TransportDtos.ProxyUnregisterResponse) WireError;
}.

(** The bodies the trait gives: no method is found. *)
(* @src crates/utils/transport/src/agent/server.rs AgentHandlers *)
Definition AgentHandlers_default : AgentHandlers := mkAgentHandlers
  (λ _, Err (method_not_found "initialize"))
  (Err (method_not_found "initialized"))
  (λ _, Err (method_not_found "process/start"))
  (λ _, Err (method_not_found "process/read"))
  (λ _, Err (method_not_found "process/write"))
  (λ _, Err (method_not_found "process/terminate"))
  (λ _, Err (method_not_found "fs/read_file"))
  (λ _, Err (method_not_found "fs/write_file"))
  (λ _, Err (method_not_found "fs/create_directory"))
  (λ _, Err (method_not_found "fs/get_metadata"))
  (λ _, Err (method_not_found "fs/read_directory"))
  (λ _, Err (method_not_found "fs/remove"))
  (λ _, Err (method_not_found "fs/copy"))
  (λ _, Err (method_not_found "proxy/register"))
  (λ _, Err (method_not_found "proxy/unregister")).

(** The trait: a handler for each method. *)
(* @src crates/utils/transport/src/gateway/server.rs GatewayHandlers *)
Record GatewayHandlers := mkGatewayHandlers {
  gh_hello : Typed TransportDtos.HelloParams → result (Typed TransportDtos.HelloResponse) WireError;
  gh_spawn_agent :
    Typed TransportDtos.SpawnAgentParams → result (Typed TransportDtos.SpawnAgentResponse) WireError;
  gh_kill_agent :
    Typed TransportDtos.AgentIdParams → result (Typed TransportDtos.OkResponse) WireError;
  gh_detach_agent :
    Typed TransportDtos.AgentIdParams → result (Typed TransportDtos.OkResponse) WireError;
  gh_attach_agent :
    Typed TransportDtos.AttachAgentParams → result (Typed TransportDtos.SpawnAgentResponse) WireError;
  gh_list_agents : result (Typed TransportDtos.ListAgentsResponse) WireError;
  gh_register_proxy :
    Typed TransportDtos.RegisterProxyParams → result (Typed TransportDtos.RegisterProxyResponse) WireError;
  gh_unregister_proxy :
    Typed TransportDtos.UnregisterProxyParams → result (Typed TransportDtos.OkResponse) WireError;
  gh_register_stream_proxy :
    Typed TransportDtos.RegisterStreamProxyParams → result (Typed TransportDtos.RegisterStreamProxyResponse) WireError;
  gh_unregister_stream_proxy :
    Typed TransportDtos.UnregisterStreamProxyParams → result (Typed TransportDtos.OkResponse) WireError;
  gh_agent_invoke : Typed TransportDtos.AgentInvokeParams → result (Typed TValue) WireError;
}.

(** The bodies the trait gives: no method is found. *)
(* @src crates/utils/transport/src/gateway/server.rs GatewayHandlers *)
Definition GatewayHandlers_default : GatewayHandlers := mkGatewayHandlers
  (λ _, Err (method_not_found "gateway/hello"))
  (λ _, Err (method_not_found "gateway/spawn_agent"))
  (λ _, Err (method_not_found "gateway/kill_agent"))
  (λ _, Err (method_not_found "gateway/detach_agent"))
  (λ _, Err (method_not_found "gateway/attach_agent"))
  (Err (method_not_found "gateway/list_agents"))
  (λ _, Err (method_not_found "gateway/register_proxy"))
  (λ _, Err (method_not_found "gateway/unregister_proxy"))
  (λ _, Err (method_not_found "gateway/register_stream_proxy"))
  (λ _, Err (method_not_found "gateway/unregister_stream_proxy"))
  (λ _, Err (method_not_found "agent/invoke")).

(** * Serving and calling *)

(** The handler [serve_agent] binds to a method, and the order it binds in. *)
(* @src crates/utils/transport/src/agent/server.rs serve_agent *)
Definition agent_handler (h : AgentHandlers) (m : AgentMethod)
    : Typed (agent_params m) → result (Typed (agent_result m)) WireError :=
  match m return Typed (agent_params m) → result (Typed (agent_result m)) WireError with
  | Initialize => ah_initialize h
  | Initialized => λ _, ah_initialized h
  | ProcessStart => ah_process_start h
  | ProcessRead => ah_process_read h
  | ProcessWrite => ah_process_write h
  | ProcessTerminate => ah_process_terminate h
  | FsReadFile => ah_fs_read_file h
  | FsWriteFile => ah_fs_write_file h
  | FsCreateDirectory => ah_fs_create_directory h
  | FsGetMetadata => ah_fs_get_metadata h
  | FsReadDirectory => ah_fs_read_directory h
  | FsRemove => ah_fs_remove h
  | FsCopy => ah_fs_copy h
  | ProxyRegister => ah_proxy_register h
  | ProxyUnregister => ah_proxy_unregister h
  end.

(* @src crates/utils/transport/src/agent/server.rs serve_agent *)
Definition serve_agent_methods : list AgentMethod :=
  [Initialize; Initialized; ProcessStart; ProcessRead; ProcessWrite; ProcessTerminate;
   FsReadFile; FsWriteFile; FsCreateDirectory; FsGetMetadata; FsReadDirectory; FsRemove;
   FsCopy; ProxyRegister; ProxyUnregister].

(* @src crates/utils/transport/src/gateway/server.rs serve_gateway *)
Definition gateway_handler (h : GatewayHandlers) (m : GatewayMethod)
    : Typed (gateway_params m) → result (Typed (gateway_result m)) WireError :=
  match m return Typed (gateway_params m) → result (Typed (gateway_result m)) WireError with
  | Hello => gh_hello h
  | SpawnAgent => gh_spawn_agent h
  | KillAgent => gh_kill_agent h
  | DetachAgent => gh_detach_agent h
  | AttachAgent => gh_attach_agent h
  | ListAgents => λ _, gh_list_agents h
  | RegisterProxy => gh_register_proxy h
  | UnregisterProxy => gh_unregister_proxy h
  | RegisterStreamProxy => gh_register_stream_proxy h
  | UnregisterStreamProxy => gh_unregister_stream_proxy h
  | AgentInvoke => gh_agent_invoke h
  end.

(* @src crates/utils/transport/src/gateway/server.rs serve_gateway *)
Definition serve_gateway_methods : list GatewayMethod :=
  [Hello; SpawnAgent; KillAgent; DetachAgent; AttachAgent; ListAgents; RegisterProxy;
   UnregisterProxy; RegisterStreamProxy; UnregisterStreamProxy; AgentInvoke].

Section facade.
Context {S : Serde} {C : Codec}.
Context {F1 : FromValue WireRequest} {F2 : FromValue WireResponse} {F3 : FromValue WireNotification}.
Context (display : Value → string).
Context {M : Type} {RM : RpcMethod M}.

(** Binding methods in order, to handlers known by the numbers from [base]. *)
Fixpoint serve (ms : list M) (base : nat) (c : Connection) : option Connection :=
  match ms with
  | [] => Some c
  | m :: ms => c ← handle_request 0 (METHOD m) base c; serve ms (1 + base) c
  end.

(** The closures those numbers stand for. *)
Definition run_handler (ms : list M) (base : nat)
    (h : ∀ m : M, Typed (Params m) → result (Typed (Result_ m)) WireError)
    (id : nat) (v : Value) : result Value WireError :=
  match ms !! (id - base) with
  | Some m => typed_handler (h m) v
  | None => Err (method_not_found "")
  end.

Definition last_sent (c : Connection) : option bytes :=
  match last (t_cmds (transport c)) with Some (Send b) => Some b | _ => None end.

Definition returned {A} (o : outcome A) : option A :=
  match o with Returns a => Some a | Panics => None end.

(** One call from its request, just made, to its answer, the handlers on [b], in
    the steps it takes and nothing in between. *)
Definition exchange_from (run : nat → Value → result Value WireError) (made : option (Connection * CallId))
    (b : Connection) : option (result Value RequestError) :=
  ak ← made;
  req ← last_sent ak.1;
  b1 ← returned (handle_frame display req b);
  task ← last (tasks b1);
  b2 ← finish_task (length (tasks b)) (run (rt_handler task) (rt_params task)) b1;
  resp ← last_sent b2;
  a2 ← returned (handle_frame display resp ak.1);
  request_result ak.2 a2.

(** One made on the connection [a]. *)
Definition exchange (run : nat → Value → result Value WireError) (id method : string) (v : Value)
    (a b : Connection) : option (result Value RequestError) :=
  exchange_from run (request id method (Some v) a) b.

(** What a typed call gives, if its answer arrives. *)
Definition Called (t : Ty) : Type := option (result (Typed t) TypedRequestError).

(* @src crates/utils/transport/src/connection.rs Connection::request_typed *)
Definition request_typed (run : nat → Value → result Value WireError) (id : string) (a b : Connection)
    (m : M) (p : Typed (Params m)) : Called (Result_ m) :=
  typed_result <$> exchange run id (METHOD m) (to_value p) a b.
End facade.

(** * Lemmas *)

#[export] Instance Typed_roundtrip {S : Serde} (L : serde_laws S) t :
  reads_plain (t, t) = true → SerdeRoundtrip (Typed t).
Proof.
  intros [Hp Hc]%andb_prop [x Hx]. cbn in Hp, Hc. unfold from_value, Typed_from_value, to_value, Typed_to_value.
  cbn [proj1_sig]. rewrite (derived_roundtrip L) by done. cbn [res_bind].
  destruct (decide (has_ty t x = true)) as [Hx'|Hx']; [|done]. f_equal. by apply (sig_eq_pi _).
Qed.

Section lemmas.
Context {S : Serde} {C : Codec}.
Context {F1 : FromValue WireRequest} {F2 : FromValue WireResponse} {F3 : FromValue WireNotification}.
Context (display : Value → string).

Lemma serve_spec {M} {RM : RpcMethod M} (ms : list M) base c s :
  NoDup (METHOD <$> ms) → chans c !! 0 = Some s →
  ∃ c' s', serve ms base c = Some c' ∧ chans c' !! 0 = Some s' ∧
    transport c' = transport c ∧ tasks c' = tasks c ∧
    (∀ i m, ms !! i = Some m → request_handlers s' !! METHOD m = Some (base + i)) ∧
    (∀ k, k ∉ METHOD <$> ms → request_handlers s' !! k = request_handlers s !! k).
Proof.
  revert base c s. induction ms as [|m ms IH]; intros base c s Hn Hs; [by exists c, s|].
  cbn in Hn. apply NoDup_cons in Hn as [Hm Hn]. cbn [serve]. unfold handle_request. rewrite Hs. cbn.
  set (s1 := mkChannel (pending s) (notification_handlers s) (<[METHOD m := base]> (request_handlers s))).
  destruct (IH (1 + base) (set_chan 0 s1 c) s1) as (c' & s' & Hc & Hs' & Ht & Htk & Hin & Hout); [done| |].
  { cbn. apply lookup_insert_eq. }
  exists c', s'. split_and!; try done.
  - intros [|i] m' Hi; cbn in Hi.
    + injection Hi as <-. rewrite Hout by done. cbn. rewrite lookup_insert_eq. f_equal. lia.
    + rewrite (Hin i m' Hi). f_equal. lia.
  - intros k Hk. cbn in Hk. apply not_elem_of_cons in Hk as [Hkm Hk].
    rewrite Hout by done. cbn. by rewrite lookup_insert_ne.
Qed.

(** The steps of an exchange, each as it came out. *)
Lemma exchange_from_result run a1 k b b1 b2 req resp a2 task sent_a sent_b r :
  t_cmds (transport a1) = sent_a ++ [Send req] → handle_frame display req b = Returns b1 →
  tasks b1 = tasks b ++ [task] →
  finish_task (length (tasks b)) (run (rt_handler task) (rt_params task)) b1 = Some b2 →
  t_cmds (transport b2) = sent_b ++ [Send resp] → handle_frame display resp a1 = Returns a2 →
  request_result k a2 = Some r →
  exchange_from display run (Some (a1, k)) b = Some r.
Proof.
  intros H1 H2 H3 H4 H5 H6 H7. unfold exchange_from, last_sent. cbn [mbind option_bind fst snd].
  rewrite H1, last_snoc. cbn [mbind option_bind]. rewrite H2. cbn [returned mbind option_bind].
  rewrite H3, last_snoc. cbn [mbind option_bind]. rewrite H4. cbn [mbind option_bind].
  rewrite H5, last_snoc. cbn [mbind option_bind]. rewrite H6. cbn [returned mbind option_bind]. exact H7.
Qed.

Lemma exchange_result (L : envelope_laws) run id method v a sa b sb h :
  chans a !! 0 = Some sa → open a → chans b !! 0 = Some sb → open b →
  request_handlers sb !! method = Some h →
  (∀ e, run h v = Err e → we_data e ≠ Some VNil) →
  exchange display run id method v a b = Some (map_err Wire (run h v)).
Proof.
  intros Hsa Hoa Hsb Hob Hh He.
  destruct (remote_call display L (run h) v None id method a 0 sa b 0 sb h eq_refl Hsa Hoa eq_refl
              Hsb Hob Hh He)
    as (a0 & k & rq & b1 & task & b2 & rs & a2 & H0 & H1 & H2 & H3 & H4 & H5 & H6 & H7 & H8 & H9).
  unfold exchange, request. rewrite H0. cbn [mbind option_bind fst snd].
  eapply exchange_from_result; [exact H1|exact H2|exact H3|rewrite H4, H5; exact H6|exact H7|exact H8|exact H9].
Qed.

(** A typed call to a served method set is a call of the method's handler. *)
Lemma facade_call (LS : serde_laws S) (LE : envelope_laws) {M} {RM : RpcMethod M} {RL : RpcLaws M}
    (h : ∀ m : M, Typed (Params m) → result (Typed (Result_ m)) WireError)
    ms base id a sa b0 sb b i m p :
  NoDup ms → chans a !! 0 = Some sa → open a → chans b0 !! 0 = Some sb → open b0 →
  serve ms base b0 = Some b → ms !! i = Some m →
  (∀ e, h m p = Err e → we_data e ≠ Some VNil) →
  request_typed display (run_handler ms base h) id a b m p
  = Some match h m p with Ok r => Ok r | Err e => Err (Request (Wire e)) end.
Proof.
  intros Hn Hsa Hoa Hsb Hob Hb Hi He.
  destruct (serve_spec ms base b0 sb) as (b' & sb' & Hb' & Hsb' & Ht & _ & Hin & _); [|done|].
  { apply NoDup_fmap_2_strong; [|done]. intros x y _ _. apply METHOD_inj. }
  assert (b' = b) as -> by congruence. specialize (Hin i m Hi).
  pose proof (Typed_roundtrip LS _ (Params_read m)) as RP.
  pose proof (Typed_roundtrip LS _ (Result_read m)) as RR.
  assert (Hrun : run_handler ms base h (base + i) (to_value p) = res_map to_value (h m p)).
  { unfold run_handler. replace (base + i - base)%nat with i by lia. rewrite Hi.
    unfold typed_handler. rewrite from_to_value. cbn. by destruct (h m p). }
  unfold request_typed.
  rewrite (exchange_result LE _ _ _ _ a sa b sb' (base + i)); [|done|done|done| |done|].
  - rewrite Hrun. unfold typed_result. destruct (h m p) as [r|e]; cbn; [|done]. by rewrite from_to_value.
  - unfold open. by rewrite Ht.
  - intros e. rewrite Hrun. destruct (h m p) as [|e'] eqn:E; [done|]. intros [= <-]. by apply He.
Qed.
End lemmas.

Lemma serve_agent_methods_all m : ∃ i, serve_agent_methods !! i = Some m.
Proof. apply list_elem_of_lookup_1. destruct m; unfold serve_agent_methods; set_solver. Qed.

Lemma serve_gateway_methods_all m : ∃ i, serve_gateway_methods !! i = Some m.
Proof. apply list_elem_of_lookup_1. destruct m; unfold serve_gateway_methods; set_solver. Qed.

Lemma serve_agent_methods_NoDup : NoDup serve_agent_methods.
Proof. apply (bool_decide_unpack _). by vm_compute. Qed.

Lemma serve_gateway_methods_NoDup : NoDup serve_gateway_methods.
Proof. apply (bool_decide_unpack _). by vm_compute. Qed.
