(* ===== verification/Streams.v ===== *)
(** What callers see of connections and streams: the methods of [Connection] and
    [Stream] handles in utils/transport/src/connection.rs that carry typed values,
    the frame helpers of utils/transport/src/lib.rs under them, and the pairing of
    a transport with its connection. *)
From S2P Require Import Prelude Wire Serde Methods Protocol Codec Framing Backoff Transport Connection Facade.
Local Open Scope nexal_scope.

(** * Frames *)

Section frames.
Context {C : Codec}.

(** A value is its own encoding. *)
#[local] Instance Value_to_value : ToValue Value := λ v, v.
#[local] Instance Value_from_value : FromValue Value := Ok.

(* @src crates/utils/transport/src/lib.rs encode_frame *)
Definition encode_frame {T} `{!ToValue T} (frame : T) : bytes := encode (to_value frame).

(** [bad] stands for the text of the decoder's error. *)
(* @src crates/utils/transport/src/lib.rs decode_frame *)
Definition decode_frame {T} `{!FromValue T} (bad : string) (data : bytes) : result T string :=
  match decode data with Some v => from_value v | None => Err bad end.

(* @src crates/utils/transport/src/lib.rs to_msgpack_value *)
Definition to_msgpack_value {T} `{!ToValue T} (bad : string) (v : T) : result Value string :=
  decode_frame bad (encode_frame v).

(* @src crates/utils/transport/src/lib.rs from_msgpack_value *)
Definition from_msgpack_value {T} `{!FromValue T} (bad : string) (value : Value) : result T string :=
  decode_frame bad (encode value).

Context {F1 : FromValue WireRequest} {F2 : FromValue WireResponse} {F3 : FromValue WireNotification}.

(* @src crates/utils/transport/src/lib.rs decode_wire_message *)
Definition decode_wire_message (bad : string) (data : bytes) : result (outcome WireMessage) string :=
  value ←? decode_frame (T := Value) bad data;
  Ok (value_to_wire_message value).

(** Going through bytes changes nothing: a value of any type becomes the value it
    is encoded as, and is read from it. *)
Lemma to_msgpack_value_eq {T} `{!ToValue T} bad (v : T) : to_msgpack_value bad v = Ok (to_value v).
Proof. unfold to_msgpack_value, decode_frame, encode_frame. by rewrite decode_encode. Qed.

Lemma from_msgpack_value_eq {T} `{!FromValue T} bad v : from_msgpack_value (T := T) bad v = from_value v.
Proof. unfold from_msgpack_value, decode_frame. by rewrite decode_encode. Qed.

(** What a peer encodes is decoded as what it was. *)
Lemma decode_wire_message_back bad m :
  well_formed_message m → decodes m → decode_wire_message bad (encode (wire_value m)) = Ok (Returns m).
Proof.
  intros Hw Hd. unfold decode_wire_message, decode_frame. rewrite decode_encode.
  cbn. by rewrite wire_message_roundtrip.
Qed.
End frames.

(** * Typed envelopes *)

Section envelopes.
Context {S : Serde} {M : Type} {RM : RpcMethod M}.

(* @src crates/utils/transport/src/lib.rs typed_request *)
Definition typed_request (id : Value) (m : M) (params : Typed (Params m)) : WireRequest :=
  mkWireRequest None id (METHOD m) (Some (to_value params)).

(* @src crates/utils/transport/src/lib.rs typed_notification *)
Definition typed_notification {t} (method : string) (params : Typed t) : WireNotification :=
  mkWireNotification None method (Some (to_value params)).
End envelopes.

(** * Handles *)

Section handles.
Context {C : Codec}.

(* @src crates/utils/transport/src/connection.rs Stream::id *)
Definition stream_id (s : Stream) : string := st_id s.

(* @src crates/utils/transport/src/connection.rs Stream::notify *)
Definition stream_notify (s : Stream) (method : string) (params : option Value) (c : Connection) : Connection :=
  set_transport (t_send (encode_frame (mkWireNotification (Some (st_id s)) method params))) c.

(* @src crates/utils/transport/src/connection.rs Stream::on *)
Definition stream_on (s : Stream) (method : string) (h : HandlerId) (c : Connection) : option Connection :=
  on (st_chan s) method h c.

(* @src crates/utils/transport/src/connection.rs Stream::handle_request *)
Definition stream_handle_request (s : Stream) (method : string) (h : HandlerId) (c : Connection)
    : option Connection :=
  handle_request (st_chan s) method h c.

(* @src crates/utils/transport/src/connection.rs Connection::stream_async *)
Definition stream_async (id : string) (c : Connection) : Connection * Stream :=
  let r := stream id c in (r.1, mkStream id r.2).

Context {S : Serde}.

(** A typed notification is sent as it is: its shape always encodes. *)
(* @src crates/utils/transport/src/connection.rs Connection::notify_typed *)
Definition notify_typed {t} (method : string) (params : Typed t) (c : Connection) : Connection :=
  notify None method (Some (to_value params)) c.

(* @src crates/utils/transport/src/connection.rs Stream::notify_typed *)
Definition stream_notify_typed {t} (s : Stream) (method : string) (params : Typed t) (c : Connection)
    : Connection :=
  stream_notify s method (Some (to_value params)) c.

(** The closure a typed listener registers, on a stream or a connection: what does
    not decode is passed over. *)
(* @src crates/utils/transport/src/connection.rs Stream::on_typed *)
Definition stream_listener {W} {t} (handler : Typed t → W → W) (value : Value) (w : W) : W :=
  match from_msgpack_value (T := Typed t) "" value with Ok decoded => handler decoded w | Err _ => w end.

(** The closure a typed handler registers. *)
(* @src crates/utils/transport/src/connection.rs Stream::handle_request_typed *)
Definition stream_typed_handler {P R} (handler : Typed P → result (Typed R) WireError) (value : Value)
    : result Value WireError :=
  params ←? map_err (λ e, mkWireError (-32602) ("invalid params: " +:+ e) None)
              (from_msgpack_value (T := Typed P) "" value);
  r ←? handler params;
  map_err (λ e, mkWireError (-32603) ("encode result: " +:+ e) None) (to_msgpack_value "" r).

(** It is the handler of the connection-level method. *)
Lemma stream_typed_handler_eq {P R} (handler : Typed P → result (Typed R) WireError) v :
  stream_typed_handler handler v = typed_handler handler v.
Proof.
  unfold stream_typed_handler, typed_handler. rewrite from_msgpack_value_eq.
  destruct (from_value v) as [p|e]; [|done]. cbn. destruct (handler p) as [r|e]; [|done]. cbn.
  by rewrite to_msgpack_value_eq.
Qed.
End handles.

(** * Calls on a stream *)

Section calls.
Context {S : Serde} {C : Codec}.
Context {F1 : FromValue WireRequest} {F2 : FromValue WireResponse} {F3 : FromValue WireNotification}.
Context (display : Value → string).

(** [exchange] for a call on stream [s]. *)
Definition stream_exchange (run : nat → Value → result Value WireError) (s : Stream) (id method : string)
    (v : Value) (a b : Connection) : option (result Value RequestError) :=
  exchange_from display run (stream_request s id method (Some v) a) b.

Context {M : Type} {RM : RpcMethod M}.

(* @src crates/utils/transport/src/connection.rs Stream::request_typed *)
Definition stream_request_typed (run : nat → Value → result Value WireError) (s : Stream) (id : string)
    (a b : Connection) (m : M) (p : Typed (Params m)) : Called (Result_ m) :=
  typed_result <$> stream_exchange run s id (METHOD m) (to_value p) a b.

(* @src crates/utils/transport/src/lib.rs call *)
Definition call (run : nat → Value → result Value WireError) (id : string) (a b : Connection)
    (m : M) (p : Typed (Params m)) : Called (Result_ m) :=
  request_typed display run id a b m p.

(* @src crates/utils/transport/src/lib.rs call_on_stream *)
Definition call_on_stream (run : nat → Value → result Value WireError) (s : Stream) (id : string)
    (a b : Connection) (m : M) (p : Typed (Params m)) : Called (Result_ m) :=
  stream_request_typed run s id a b m p.

(** A typed call on a stream that both ends have open returns what the handler
    does that the other end registered on that stream: handlers of the same
    method on the connection or on other streams have no part in it. *)
Theorem stream_call_is_stream_handler (LS : serde_laws S) (LE : envelope_laws) {RL : RpcLaws M} run
    (h : ∀ m : M, Typed (Params m) → result (Typed (Result_ m)) WireError) sid id m p
    a ia sa b0 ib b (hid : HandlerId) :
  streams a !! sid = Some ia → chans a !! ia = Some sa → open a →
  streams b0 !! sid = Some ib → open b0 →
  stream_handle_request (mkStream sid ib) (METHOD m) hid b0 = Some b →
  (∀ v, run hid v = stream_typed_handler (h m) v) →
  (∀ e, h m p = Err e → we_data e ≠ Some VNil) →
  call_on_stream run (mkStream sid ia) id a b m p
  = Some match h m p with Ok r => Ok r | Err e => Err (Request (Wire e)) end.
Proof.
  intros Hia Hsa Hoa Hib Hob Hb Hrun He. unfold stream_handle_request, handle_request in Hb. cbn in Hb.
  destruct (chans b0 !! ib) as [sb0|] eqn:Hsb0; [|done]. injection Hb as <-.
  set (b := set_chan ib _ b0). set (sb := mkChannel _ _ _) in b.
  pose proof (Typed_roundtrip LS _ (Params_read m)) as RP.
  pose proof (Typed_roundtrip LS _ (Result_read m)) as RR.
  assert (Hh : run hid (to_value p) = res_map to_value (h m p)).
  { rewrite Hrun, stream_typed_handler_eq. unfold typed_handler. rewrite from_to_value. cbn. by destruct (h m p). }
  assert (chans b !! ib = Some sb) as Hsb by apply lookup_insert_eq.
  assert (request_handlers sb !! METHOD m = Some hid) as Hreq by apply lookup_insert_eq.
  destruct (remote_call display LE (run hid) (to_value p) (Some sid) id (METHOD m) a ia sa b ib sb hid)
    as (a0 & k & rq & b1 & task & b2 & rs & a2 & H0 & H1 & H2 & H3 & H4 & H5 & H6 & H7 & H8 & H9); try done.
  { intros e. rewrite Hh. destruct (h m p) as [|e'] eqn:E; [done|]. intros [= <-]. by apply He. }
  unfold call_on_stream, stream_request_typed, stream_exchange, stream_request. cbn [st_chan st_id].
  rewrite H0. cbn [mbind option_bind fst snd].
  erewrite exchange_from_result; [|exact H1|exact H2|exact H3|rewrite H4, H5; exact H6|exact H7|exact H8|exact H9].
  rewrite Hh. unfold typed_result. cbn [fmap option_fmap option_map].
  destruct (h m p) as [r|e]; cbn; [|done]. by rewrite from_to_value.
Qed.
End calls.

(** * Notifications *)

Section notifications.
Context {S : Serde} {C : Codec}.
Context {F1 : FromValue WireRequest} {F2 : FromValue WireResponse} {F3 : FromValue WireNotification}.
Context (display : Value → string).

(** serde reads a notification back, but for parameters that are nil. *)
Definition notification_law : Prop := ∀ n : WireNotification,
  from_value (to_value n) = Ok (mkWireNotification (wnot_stream n) (wnot_method n) (non_nil (wnot_params n))).

Lemma stream_tag_notification n : stream_tag (to_value n) = wnot_stream n.
Proof. by destruct n as [[st|] me [pa|]]. Qed.

(** A typed notification reaches the listeners of its method, on its stream or on
    the connection, in the order they subscribed, each with the value that was
    sent. *)
Theorem notifications_reach_listeners (LS : serde_laws S) (LN : notification_law) {t} st method (p : Typed t)
    a b ib sb hs :
  reads_plain (t, t) = true → open a →
  channel_of st b = Some ib → chans b !! ib = Some sb → notification_handlers sb !! method = Some hs →
  ∃ frame b', t_cmds (transport (notify st method (Some (to_value p)) a)) = t_cmds (transport a) ++ [Send frame]
    ∧ handle_frame display frame b = Returns b'
    ∧ notified b' = notified b ++ map (λ h, (h, to_value p)) hs
    ∧ chans b' = chans b ∧ tasks b' = tasks b ∧ answers b' = answers b
    ∧ ∀ W (handler : Typed t → W → W) w, stream_listener handler (to_value p) w = handler p w.
Proof.
  intros Hp [Hoa Hda] Hib Hsb Hhs. pose proof (Typed_roundtrip LS t Hp) as RP.
  set (n := mkWireNotification st method (Some (to_value p))).
  assert (∃ b', handle_frame display (encode (to_value n)) b = Returns b'
    ∧ notified b' = notified b ++ map (λ h, (h, to_value p)) hs
    ∧ chans b' = chans b ∧ tasks b' = tasks b ∧ answers b' = answers b) as (b' & Hb' & Hn' & Hrest).
  { unfold handle_frame. rewrite decode_encode.
    pose proof (classify_wire_value (WNotification n) I) as Hcl. cbn [wire_value] in Hcl.
    rewrite LN in Hcl. cbn [omap_outcome expect] in Hcl. rewrite Hcl.
    unfold route. rewrite stream_tag_notification. cbn [wnot_stream n]. unfold channel_of in Hib. rewrite Hib, Hsb.
    subst n. cbn [dispatch wnot_method wnot_params]. rewrite Hhs. eexists. split; [reflexivity|]. cbn [notified].
    split; [|done]. by rewrite default_non_nil. }
  exists (encode (to_value n)), b'. split.
  { unfold notify, set_transport. cbn [transport]. by rewrite t_send_open. }
  split; [done|]. split; [done|]. destruct Hrest as (? & ? & ?). split_and!; try done.
  intros W handler w. unfold stream_listener. by rewrite from_msgpack_value_eq, from_to_value.
Qed.
End notifications.

(** * A transport and its connection *)

(* @src crates/utils/transport/src/connection.rs WebSocketConnection *)
Record WebSocketConnection := mkWebSocketConnection {
  ws_transport : Transport;
  ws_connection : Connection;
}.

(* @src crates/utils/transport/src/connection.rs create_websocket_connection *)
Definition create_websocket_connection {Request Stream : Type}
    (into_client_request : string → result Request string)
    (connect_async : Request → option (Z * result Stream string))
    (url : string) (o : TransportOptions) (now : Z) : result (WebSocketConnection * Client) ClientTransportError :=
  tc ←? connect_websocket_transport into_client_request connect_async url o now;
  Ok (mkWebSocketConnection tc.1 (Connection_new tc.1), tc.2).

(* @src crates/utils/transport/src/connection.rs create_accepted_websocket_connection *)
Definition create_accepted_websocket_connection (o : TransportOptions) (now : Z)
    : WebSocketConnection * Driver :=
  let td := accepted_websocket_transport o now in
  (mkWebSocketConnection td.1 (Connection_new td.1), td.2).

(* @src crates/utils/transport/src/connection.rs Connection::transport *)
Definition connection_transport (c : Connection) : Transport := transport c.

(** A connection made either way takes calls at once: its transport is open, its
    root channel there, and nothing waits. *)
Lemma created_connections_open {Request Stream : Type} icr (ca : Request → option (Z * result Stream string)) url o now
    (w : WebSocketConnection) :
  w = (create_accepted_websocket_connection o now).1
  ∨ (∃ c, create_websocket_connection icr ca url o now = Ok (w, c)) →
  open (ws_connection w) ∧ chans (ws_connection w) !! 0 = Some ChannelState_new
  ∧ connection_transport (ws_connection w) = ws_transport w ∧ t_is_closed (ws_transport w) = false.
Proof.
  intros [->|[c H]]; [done|]. unfold create_websocket_connection, connect_websocket_transport in H.
  destruct (dial_once _ _ _ _) as [s|e]; [|done]. by injection H as <- _.
Qed.
