(* ===== verification/AgentClient.v ===== *)
(** The typed client of an agent: [transport/src/agent/client.rs]. *)
From S2P Require Import Prelude Wire Serde Methods AgentWire Protocol Codec Framing Transport Connection Facade.
From S2P Require TransportDtos.
Open Scope nexal_scope.

Section client.
(** The typed request of the connection the client holds. *)
Context {T : Ty → Type} (request_typed : ∀ m : AgentMethod, Typed (agent_params m) → T (agent_result m)).

(* @src crates/utils/transport/src/agent/client.rs AgentClient::initialize *)
Definition initialize (p : Typed TransportDtos.InitializeParams)
    : T TransportDtos.InitializeResponse :=
  request_typed Initialize p.
(* @src crates/utils/transport/src/agent/client.rs AgentClient::initialized *)
Definition initialized : T TUnit := request_typed Initialized unit_value.
(* @src crates/utils/transport/src/agent/client.rs AgentClient::process_start *)
Definition process_start (p : Typed TransportDtos.ProcessStartParams)
    : T TransportDtos.ProcessStartResponse :=
  request_typed ProcessStart p.
(* @src crates/utils/transport/src/agent/client.rs AgentClient::process_read *)
Definition process_read (p : Typed TransportDtos.ProcessReadParams)
    : T TransportDtos.ProcessReadResponse :=
  request_typed ProcessRead p.
(* @src crates/utils/transport/src/agent/client.rs AgentClient::process_write *)
Definition process_write (p : Typed TransportDtos.ProcessWriteParams)
    : T TransportDtos.ProcessWriteResponse :=
  request_typed ProcessWrite p.
(* @src crates/utils/transport/src/agent/client.rs AgentClient::process_terminate *)
Definition process_terminate (p : Typed TransportDtos.ProcessTerminateParams)
    : T TransportDtos.ProcessTerminateResponse :=
  request_typed ProcessTerminate p.
(* @src crates/utils/transport/src/agent/client.rs AgentClient::fs_read_file *)
Definition fs_read_file (p : Typed TransportDtos.FsReadFileParams)
    : T TransportDtos.FsReadFileResponse :=
  request_typed FsReadFile p.
(* @src crates/utils/transport/src/agent/client.rs AgentClient::fs_write_file *)
Definition fs_write_file (p : Typed TransportDtos.FsWriteFileParams)
    : T TransportDtos.FsWriteFileResponse :=
  request_typed FsWriteFile p.
(* @src crates/utils/transport/src/agent/client.rs AgentClient::fs_create_directory *)
Definition fs_create_directory (p : Typed TransportDtos.FsCreateDirectoryParams)
    : T TransportDtos.FsCreateDirectoryResponse :=
  request_typed FsCreateDirectory p.
(* @src crates/utils/transport/src/agent/client.rs AgentClient::fs_get_metadata *)
Definition fs_get_metadata (p : Typed TransportDtos.FsGetMetadataParams)
    : T TransportDtos.FsGetMetadataResponse :=
  request_typed FsGetMetadata p.
(* @src crates/utils/transport/src/agent/client.rs AgentClient::fs_read_directory *)
Definition fs_read_directory (p : Typed TransportDtos.FsReadDirectoryParams)
    : T TransportDtos.FsReadDirectoryResponse :=
  request_typed FsReadDirectory p.
(* @src crates/utils/transport/src/agent/client.rs AgentClient::fs_remove *)
Definition fs_remove (p : Typed TransportDtos.FsRemoveParams)
    : T TransportDtos.FsRemoveResponse :=
  request_typed FsRemove p.
(* @src crates/utils/transport/src/agent/client.rs AgentClient::fs_copy *)
Definition fs_copy (p : Typed TransportDtos.FsCopyParams)
    : T TransportDtos.FsCopyResponse :=
  request_typed FsCopy p.
(* @src crates/utils/transport/src/agent/client.rs AgentClient::proxy_register *)
Definition proxy_register (p : Typed TransportDtos.ProxyRegisterParams)
    : T TransportDtos.ProxyRegisterResponse :=
  request_typed ProxyRegister p.
(* @src crates/utils/transport/src/agent/client.rs AgentClient::proxy_unregister *)
Definition proxy_unregister (p : Typed TransportDtos.ProxyUnregisterParams)
    : T TransportDtos.ProxyUnregisterResponse :=
  request_typed ProxyUnregister p.
(** Every method of the client. *)
Definition agent_client (m : AgentMethod) : Typed (agent_params m) → T (agent_result m) :=
  match m return Typed (agent_params m) → T (agent_result m) with
  | Initialize => initialize
  | Initialized => λ _, initialized
  | ProcessStart => process_start
  | ProcessRead => process_read
  | ProcessWrite => process_write
  | ProcessTerminate => process_terminate
  | FsReadFile => fs_read_file
  | FsWriteFile => fs_write_file
  | FsCreateDirectory => fs_create_directory
  | FsGetMetadata => fs_get_metadata
  | FsReadDirectory => fs_read_directory
  | FsRemove => fs_remove
  | FsCopy => fs_copy
  | ProxyRegister => proxy_register
  | ProxyUnregister => proxy_unregister
  end.
End client.
(** * Subscriptions *)

(** What a typed listener does with a notification: one that does not decode
    is passed over. *)
(* @src crates/utils/transport/src/connection.rs Connection::on_typed *)
Definition typed_listener `{Serde} {W} (t : Ty) (handler : Typed t → W → W) (v : Value) (w : W) : W :=
  match from_value (T := Typed t) v with
  | Ok decoded => handler decoded w
  | Err _ => w
  end.

(* @src crates/utils/transport/src/agent/client.rs on_process_output *)
Definition on_process_output (h : HandlerId) (c : Connection) : option Connection := on 0 PROCESS_OUTPUT h c.
(* @src crates/utils/transport/src/agent/client.rs on_process_exited *)
Definition on_process_exited (h : HandlerId) (c : Connection) : option Connection := on 0 PROCESS_EXITED h c.
(* @src crates/utils/transport/src/agent/client.rs on_process_closed *)
Definition on_process_closed (h : HandlerId) (c : Connection) : option Connection := on 0 PROCESS_CLOSED h c.

(** * Properties *)

Section calls.
Context {S : Serde} {C : Codec}.
Context {F1 : FromValue WireRequest} {F2 : FromValue WireResponse} {F3 : FromValue WireNotification}.
Context (display : Value → string).

(** C24: Every method of the agent client calls the handler of its own name: on a
    connection to a peer that serves a set of handlers, each call returns what
    that handler returns for the parameters, result or error; and a handler the
    set leaves out answers that the method, by its name, is not found. *)
Theorem agent_client_reaches_handlers (LS : serde_laws S) (LE : envelope_laws) (h : AgentHandlers)
    base id a sa b0 sb b m p :
  chans a !! 0 = Some sa → open a → chans b0 !! 0 = Some sb → open b0 →
  serve serve_agent_methods base b0 = Some b →
  (∀ e, agent_handler h m p = Err e → we_data e ≠ Some VNil) →
  agent_client (T := Called)
    (request_typed (RM := agent_rpc) display (run_handler serve_agent_methods base (agent_handler h)) id a b) m p
  = Some match agent_handler h m p with Ok r => Ok r | Err e => Err (Request (Wire e)) end ∧
  agent_handler AgentHandlers_default m p = Err (method_not_found (METHOD m)).
Proof.
  intros Hsa Hoa Hsb Hob Hb He. split; [|by destruct m].
  destruct (serve_agent_methods_all m) as [i Hi].
  pose proof (λ p He, facade_call (RM := agent_rpc) display LS LE (agent_handler h) serve_agent_methods base id a sa b0 sb b i m p
    serve_agent_methods_NoDup Hsa Hoa Hsb Hob Hb Hi He) as F.
  destruct m; try exact (F p He). exact (F unit_value He).
Qed.
End calls.

(** ** Witness *)

Module SampleFacade.
Import Wire.Derived Codec.SampleCodec.
#[local] Existing Instance SampleSerde.serde.

Definition terminate_params : Typed TransportDtos.ProcessTerminateParams :=
  DStruct [("process_id", DStr "p1")] ↾ eq_refl.
Definition running : Typed TransportDtos.ProcessTerminateResponse :=
  DStruct [("running", DBool true)] ↾ eq_refl.

(** An agent that knows how to terminate. *)
Definition handlers : AgentHandlers :=
  let d := AgentHandlers_default in
  mkAgentHandlers (ah_initialize d) (ah_initialized d) (ah_process_start d) (ah_process_read d)
    (ah_process_write d) (λ _, Ok running) (ah_fs_read_file d) (ah_fs_write_file d)
    (ah_fs_create_directory d) (ah_fs_get_metadata d) (ah_fs_read_directory d) (ah_fs_remove d)
    (ah_fs_copy d) (ah_proxy_register d) (ah_proxy_unregister d).

Abbreviation fresh := SampleConnection.fresh.
Definition served : Connection := default fresh (serve serve_agent_methods 7 fresh).
Definition client (m : AgentMethod) (p : Typed (agent_params m)) : Called (agent_result m) :=
  agent_client (T := Called)
    (request_typed (C := codec) (RM := agent_rpc) SampleConnection.no_display
       (run_handler serve_agent_methods 7 (agent_handler handlers)) "u1" fresh served) m p.
End SampleFacade.

Lemma agent_client_reaches_handlers_witness :
  SampleFacade.client ProcessTerminate SampleFacade.terminate_params = Some (Ok SampleFacade.running) ∧
  SampleFacade.client Initialized unit_value
  = Some (Err (Request (Wire (method_not_found "initialized")))).
Proof.
  split.
  - apply (agent_client_reaches_handlers SampleConnection.no_display SampleSerde.serde_ok
      SampleConnection.derived_laws SampleFacade.handlers 7 "u1" SampleConnection.fresh ChannelState_new
      SampleConnection.fresh ChannelState_new SampleFacade.served ProcessTerminate
      SampleFacade.terminate_params); try (vm_compute; reflexivity);
      try (split; vm_compute; reflexivity). discriminate.
  - apply (agent_client_reaches_handlers SampleConnection.no_display SampleSerde.serde_ok
      SampleConnection.derived_laws SampleFacade.handlers 7 "u1" SampleConnection.fresh ChannelState_new
      SampleConnection.fresh ChannelState_new SampleFacade.served Initialized
      unit_value); try (vm_compute; reflexivity);
      try (split; vm_compute; reflexivity). intros e [= <-]. discriminate.
Defined.
