(* ===== verification/GatewayClient.v ===== *)
(** The typed clients of a gateway: [transport/src/gateway/client.rs], for its
    own methods and for those of an agent behind it. *)
From S2P Require Import Prelude Wire Serde Methods Protocol Codec Framing Transport Connection Facade.
From S2P Require TransportDtos AgentClient.
Open Scope nexal_scope.

(** * The gateway's methods *)

Section client.
(** The typed request of the connection the client holds. *)
Context {T : Ty → Type} (request_typed : ∀ m : GatewayMethod, Typed (gateway_params m) → T (gateway_result m)).

(* @src crates/utils/transport/src/gateway/client.rs GatewayClient::hello *)
Definition hello (p : Typed TransportDtos.HelloParams)
    : T TransportDtos.HelloResponse :=
  request_typed Hello p.
(* @src crates/utils/transport/src/gateway/client.rs GatewayClient::spawn_agent *)
Definition spawn_agent (p : Typed TransportDtos.SpawnAgentParams)
    : T TransportDtos.SpawnAgentResponse :=
  request_typed SpawnAgent p.
(* @src crates/utils/transport/src/gateway/client.rs GatewayClient::kill_agent *)
Definition kill_agent (p : Typed TransportDtos.AgentIdParams)
    : T TransportDtos.OkResponse :=
  request_typed KillAgent p.
(* @src crates/utils/transport/src/gateway/client.rs GatewayClient::detach_agent *)
Definition detach_agent (p : Typed TransportDtos.AgentIdParams)
    : T TransportDtos.OkResponse :=
  request_typed DetachAgent p.
(* @src crates/utils/transport/src/gateway/client.rs GatewayClient::attach_agent *)
Definition attach_agent (p : Typed TransportDtos.AttachAgentParams)
    : T TransportDtos.SpawnAgentResponse :=
  request_typed AttachAgent p.
(* @src crates/utils/transport/src/gateway/client.rs GatewayClient::list_agents *)
Definition list_agents
    : T TransportDtos.ListAgentsResponse :=
  request_typed ListAgents unit_value.
(* @src crates/utils/transport/src/gateway/client.rs GatewayClient::register_proxy *)
Definition register_proxy (p : Typed TransportDtos.RegisterProxyParams)
    : T TransportDtos.RegisterProxyResponse :=
  request_typed RegisterProxy p.
(* @src crates/utils/transport/src/gateway/client.rs GatewayClient::unregister_proxy *)
Definition unregister_proxy (p : Typed TransportDtos.UnregisterProxyParams)
    : T TransportDtos.OkResponse :=
  request_typed UnregisterProxy p.
(* @src crates/utils/transport/src/gateway/client.rs GatewayClient::register_stream_proxy *)
Definition register_stream_proxy (p : Typed TransportDtos.RegisterStreamProxyParams)
    : T TransportDtos.RegisterStreamProxyResponse :=
  request_typed RegisterStreamProxy p.
(* @src crates/utils/transport/src/gateway/client.rs GatewayClient::unregister_stream_proxy *)
Definition unregister_stream_proxy (p : Typed TransportDtos.UnregisterStreamProxyParams)
    : T TransportDtos.OkResponse :=
  request_typed UnregisterStreamProxy p.
(** The client's methods; it has none for [agent/invoke]. *)
Definition gateway_client (m : GatewayMethod) : option (Typed (gateway_params m) → T (gateway_result m)) :=
  match m return option (Typed (gateway_params m) → T (gateway_result m)) with
  | Hello => Some hello
  | SpawnAgent => Some spawn_agent
  | KillAgent => Some kill_agent
  | DetachAgent => Some detach_agent
  | AttachAgent => Some attach_agent
  | ListAgents => Some (λ _, list_agents)
  | RegisterProxy => Some register_proxy
  | UnregisterProxy => Some unregister_proxy
  | RegisterStreamProxy => Some register_stream_proxy
  | UnregisterStreamProxy => Some unregister_stream_proxy
  | AgentInvoke => None
  end.
End client.
(** * An agent's methods, through the gateway *)

(** The params of [agent/invoke], and the value a result holds. *)
(* @src crates/utils/transport/src/gateway/client.rs invoke "let invoke_params = AgentInvokeParams {" .. "};" *)
Definition invoke_params (agent_id method : string) (inner : Value) : Datum :=
  DStruct [("agent_id", DStr agent_id); ("method", DStr method); ("params", DOpt (Some (DVal inner)))].

Definition value_of (x : Typed TValue) : Value := match `x with DVal v => v | _ => VNil end.

(* @src crates/utils/transport/src/gateway/client.rs invoke *)
Definition invoke {S : Serde} {C : Codec} `{!FromValue WireRequest, !FromValue WireResponse, !FromValue WireNotification}
    (display : Value → string) (run : nat → Value → result Value WireError)
    (id agent_id : string) (a b : Connection) (m : AgentMethod) (p : Typed (agent_params m))
    : Called (agent_result m) :=
  let inner := to_value p in
  r ← exchange display run id (METHOD AgentInvoke)
        (ser TransportDtos.AgentInvokeParams (invoke_params agent_id (METHOD m) inner)) a b;
  Some (value ←? typed_result (R := Typed TValue) r;
        map_err DecodeResult (from_value (value_of value))).

Section agent_client.
(** The typed request of the connection the client holds. *)
Context {T : Ty → Type} (invoke : ∀ m : AgentMethod, Typed (agent_params m) → T (agent_result m)).

(* @src crates/utils/transport/src/gateway/client.rs GatewayAgentClient::initialize *)
Definition initialize (p : Typed TransportDtos.InitializeParams)
    : T TransportDtos.InitializeResponse :=
  invoke Initialize p.
(* @src crates/utils/transport/src/gateway/client.rs GatewayAgentClient::initialized *)
Definition initialized : T TUnit := invoke Initialized unit_value.
(* @src crates/utils/transport/src/gateway/client.rs GatewayAgentClient::process_start *)
Definition process_start (p : Typed TransportDtos.ProcessStartParams)
    : T TransportDtos.ProcessStartResponse :=
  invoke ProcessStart p.
(* @src crates/utils/transport/src/gateway/client.rs GatewayAgentClient::process_read *)
Definition process_read (p : Typed TransportDtos.ProcessReadParams)
    : T TransportDtos.ProcessReadResponse :=
  invoke ProcessRead p.
(* @src crates/utils/transport/src/gateway/client.rs GatewayAgentClient::process_write *)
Definition process_write (p : Typed TransportDtos.ProcessWriteParams)
    : T TransportDtos.ProcessWriteResponse :=
  invoke ProcessWrite p.
(* @src crates/utils/transport/src/gateway/client.rs GatewayAgentClient::process_terminate *)
Definition process_terminate (p : Typed TransportDtos.ProcessTerminateParams)
    : T TransportDtos.ProcessTerminateResponse :=
  invoke ProcessTerminate p.
(* @src crates/utils/transport/src/gateway/client.rs GatewayAgentClient::fs_read_file *)
Definition fs_read_file (p : Typed TransportDtos.FsReadFileParams)
    : T TransportDtos.FsReadFileResponse :=
  invoke FsReadFile p.
(* @src crates/utils/transport/src/gateway/client.rs GatewayAgentClient::fs_write_file *)
Definition fs_write_file (p : Typed TransportDtos.FsWriteFileParams)
    : T TransportDtos.FsWriteFileResponse :=
  invoke FsWriteFile p.
(* @src crates/utils/transport/src/gateway/client.rs GatewayAgentClient::fs_create_directory *)
Definition fs_create_directory (p : Typed TransportDtos.FsCreateDirectoryParams)
    : T TransportDtos.FsCreateDirectoryResponse :=
  invoke FsCreateDirectory p.
(* @src crates/utils/transport/src/gateway/client.rs GatewayAgentClient::fs_get_metadata *)
Definition fs_get_metadata (p : Typed TransportDtos.FsGetMetadataParams)
    : T TransportDtos.FsGetMetadataResponse :=
  invoke FsGetMetadata p.
(* @src crates/utils/transport/src/gateway/client.rs GatewayAgentClient::fs_read_directory *)
Definition fs_read_directory (p : Typed TransportDtos.FsReadDirectoryParams)
    : T TransportDtos.FsReadDirectoryResponse :=
  invoke FsReadDirectory p.
(* @src crates/utils/transport/src/gateway/client.rs GatewayAgentClient::fs_remove *)
Definition fs_remove (p : Typed TransportDtos.FsRemoveParams)
    : T TransportDtos.FsRemoveResponse :=
  invoke FsRemove p.
(* @src crates/utils/transport/src/gateway/client.rs GatewayAgentClient::fs_copy *)
Definition fs_copy (p : Typed TransportDtos.FsCopyParams)
    : T TransportDtos.FsCopyResponse :=
  invoke FsCopy p.
(* @src crates/utils/transport/src/gateway/client.rs GatewayAgentClient::proxy_register *)
Definition proxy_register (p : Typed TransportDtos.ProxyRegisterParams)
    : T TransportDtos.ProxyRegisterResponse :=
  invoke ProxyRegister p.
(* @src crates/utils/transport/src/gateway/client.rs GatewayAgentClient::proxy_unregister *)
Definition proxy_unregister (p : Typed TransportDtos.ProxyUnregisterParams)
    : T TransportDtos.ProxyUnregisterResponse :=
  invoke ProxyUnregister p.
(** Every method of the client. *)
Definition gateway_agent_client (m : AgentMethod) : Typed (agent_params m) → T (agent_result m) :=
  match m return Typed (agent_params m) → T (agent_result m) with
  | Initialize => initialize
  | Initialized => λ _, initialized
  | ProcessStart => process_start
  | ProcessRead => process_read
  | ProcessWrite => process_write
  | ProcessTerminate => process_terminate
  | FsReadFile => fs_read_file
  | FsWriteFile => fs_write_file
  | FsCreateDirectory => fs_create_directory
  | FsGetMetadata => fs_get_metadata
  | FsReadDirectory => fs_read_directory
  | FsRemove => fs_remove
  | FsCopy => fs_copy
  | ProxyRegister => proxy_register
  | ProxyUnregister => proxy_unregister
  end.
End agent_client.
(** * Forwarding *)

(** The fields of the params, as a gateway's handler has them. *)
Definition invoke_fields (x : Typed TransportDtos.AgentInvokeParams) : option (string * string * Value) :=
  match `x with
  | DStruct [(_, DStr i); (_, DStr m); (_, DOpt None)] => Some (i, m, VNil)
  | DStruct [(_, DStr i); (_, DStr m); (_, DOpt (Some (DVal v)))] => Some (i, m, v)
  | _ => None
  end.

Section forwarding.
Context {S : Serde}.

(** What a peer that serves a handler set answers to a method by its name. *)
Definition agent_answer (h : AgentHandlers) (method : string) (params : Value) : result Value WireError :=
  match AgentMethods.AgentMethod_parse method with
  | Some m => typed_handler (agent_handler h m) params
  | None => Err (method_not_found method)
  end.

Definition of_value (v : Value) : Typed TValue := DVal v ↾ eq_refl.

(** A gateway's [agent_invoke] that hands calls for one agent to it and gives
    back its answers. *)
Definition forwards (gh : GatewayHandlers) (agent_id : string) (h : AgentHandlers) : Prop :=
  ∀ x method params, invoke_fields x = Some (agent_id, method, params) →
    gh_agent_invoke gh x = res_map of_value (agent_answer h method params).
End forwarding.

(** * Lemmas *)

Lemma unit_value_unique (p : Typed TUnit) : p = unit_value.
Proof. destruct p as [[] H]; try discriminate H. by apply (sig_eq_pi _). Qed.

Section invoking.
Context {S : Serde} (LS : serde_laws S).

(** The params arrive as they were given; a nil one as none. *)
Lemma invoke_params_read i method v :
  de TransportDtos.AgentInvokeParams (ser TransportDtos.AgentInvokeParams (invoke_params i method v))
  = Ok (DStruct [("agent_id", DStr i); ("method", DStr method);
                 ("params", DOpt match v with VNil => None | _ => Some (DVal v) end)]).
Proof.
  assert (Hs : ser TransportDtos.AgentInvokeParams (invoke_params i method v)
    = VMap [(VStr "agent_id", VStr i); (VStr "method", VStr method); (VStr "params", v)]).
  { unfold TransportDtos.AgentInvokeParams, invoke_params. rewrite (ser_struct LS). cbn.
    by rewrite !(ser_str LS), (ser_some LS), (ser_value LS). }
  rewrite Hs. unfold TransportDtos.AgentInvokeParams. rewrite (de_struct LS).
  2: { cbn. repeat constructor; set_solver. }
  cbn. unfold field_in. cbn [f_name f_ty fst snd wire_name req opt_skip]. map_get_simpl.
  rewrite !(de_str LS). cbn [res_bind res_map].
  destruct v; by rewrite ?(de_none LS), ?(de_some LS), ?(de_value LS).
Qed.

Lemma invoke_params_typed i method v :
  ∃ x : Typed TransportDtos.AgentInvokeParams,
    from_value (ser TransportDtos.AgentInvokeParams (invoke_params i method v)) = Ok x ∧
    invoke_fields x = Some (i, method, v).
Proof.
  set (d := DStruct [("agent_id", DStr i); ("method", DStr method);
                     ("params", DOpt match v with VNil => None | _ => Some (DVal v) end)]).
  assert (Hd : has_ty TransportDtos.AgentInvokeParams d = true) by (by destruct v).
  exists (d ↾ Hd). split; [|by destruct v].
  unfold from_value, Typed_from_value. rewrite invoke_params_read. fold d. cbn [res_bind].
  destruct (decide (has_ty TransportDtos.AgentInvokeParams d = true)); [|done].
  f_equal. by apply (sig_eq_pi _).
Qed.

Lemma agent_answer_served h (m : AgentMethod) (p : Typed (agent_params m)) :
  agent_answer h (METHOD m) (to_value p) = res_map to_value (agent_handler h m p).
Proof.
  unfold agent_answer. cbn [METHOD agent_rpc]. rewrite AgentMethods.agent_parse_as_str.
  unfold typed_handler.
  pose proof (Typed_roundtrip LS _ (Params_read m)) as RP. cbn [Params agent_rpc] in RP.
  rewrite from_to_value. cbn. by destruct (agent_handler h m p).
Qed.

Context {C : Codec}.
Context {F1 : FromValue WireRequest} {F2 : FromValue WireResponse} {F3 : FromValue WireNotification}.
Context (display : Value → string) (LE : envelope_laws).

(** A call through a gateway is a call of its handler for [agent/invoke]. *)
Lemma invoke_asks gh agent_id base id a sa b0 sb b (m : AgentMethod) (p : Typed (agent_params m)) :
  chans a !! 0 = Some sa → open a → chans b0 !! 0 = Some sb → open b0 →
  serve serve_gateway_methods base b0 = Some b →
  (∀ x e, gh_agent_invoke gh x = Err e → we_data e ≠ Some VNil) →
  ∃ x, invoke_fields x = Some (agent_id, METHOD m, to_value p) ∧
  invoke display (run_handler serve_gateway_methods base (gateway_handler gh)) id agent_id a b m p
  = Some match gh_agent_invoke gh x with
         | Ok v => map_err DecodeResult (from_value (value_of v))
         | Err e => Err (Request (Wire e))
         end.
Proof.
  intros Hsa Hoa Hsb Hob Hb He.
  destruct (serve_spec serve_gateway_methods base b0 sb) as (b' & sb' & Hb' & Hsb' & Ht & _ & Hin & _);
    [|done|].
  { apply NoDup_fmap_2_strong; [|apply serve_gateway_methods_NoDup]. intros x y _ _. apply METHOD_inj. }
  assert (b' = b) as -> by congruence.
  destruct (serve_gateway_methods_all AgentInvoke) as [i Hi]. specialize (Hin i _ Hi).
  destruct (invoke_params_typed agent_id (METHOD m) (to_value p)) as (x & Hx & Hxf).
  exists x. split; [done|].
  set (v := ser TransportDtos.AgentInvokeParams _) in Hx.
  assert (Hrun : run_handler serve_gateway_methods base (gateway_handler gh) (base + i) v
                 = res_map to_value (gh_agent_invoke gh x)).
  { unfold run_handler. replace (base + i - base)%nat with i by lia. rewrite Hi.
    unfold typed_handler. cbn [Params gateway_rpc gateway_params gateway_handler] in *.
    rewrite Hx. cbn [map_err res_bind]. by destruct (gh_agent_invoke gh x). }
  unfold invoke. cbv zeta. fold v.
  rewrite (exchange_result display LE _ _ _ _ a sa b sb' (base + i)); [|done|done|done| |done|].
  - cbn [mbind option_bind]. rewrite Hrun. f_equal.
    destruct (gh_agent_invoke gh x) as [r|e]; [|done]. cbn [res_map map_err typed_result res_bind].
    assert (from_value (T := Typed TValue) (to_value r) = Ok r) as ->; [|done].
    exact (Typed_roundtrip LS TValue eq_refl r).
  - unfold open. by rewrite Ht.
  - intros e. rewrite Hrun. destruct (gh_agent_invoke gh x) as [|e'] eqn:E; [done|]. intros [= <-]. by eapply He.
Qed.

(** A gateway that hands the call on gives what the agent's handler returns. *)
Lemma invoke_forwarded gh agent_id h base id a sa b0 sb b m p :
  forwards gh agent_id h → (∀ x e, gh_agent_invoke gh x = Err e → we_data e ≠ Some VNil) →
  chans a !! 0 = Some sa → open a → chans b0 !! 0 = Some sb → open b0 →
  serve serve_gateway_methods base b0 = Some b →
  invoke display (run_handler serve_gateway_methods base (gateway_handler gh)) id agent_id a b m p
  = Some match agent_handler h m p with Ok r => Ok r | Err e => Err (Request (Wire e)) end.
Proof.
  intros Hf He Hsa Hoa Hsb Hob Hb.
  destruct (invoke_asks gh agent_id base id a sa b0 sb b m p) as (x & Hx & ->); [done..|].
  rewrite (Hf x _ _ Hx), agent_answer_served. f_equal.
  destruct (agent_handler h m p) as [r|e]; [|done]. cbn [res_map of_value value_of proj1_sig].
  pose proof (Typed_roundtrip LS _ (Result_read m)) as RR. cbn [Result_ agent_rpc] in RR.
  by rewrite from_to_value.
Qed.
End invoking.

(** * Properties *)

(** C20: Every method of the client for an agent behind a gateway asks the peer's handler
    for [agent/invoke], whatever it does, exactly one thing: to call the method of
    that name with these parameters (nil ones may be left out) on this client's
    agent.  It returns the value the handler gives, read as the method's result, or
    the handler's error.  The peer is one that serves its handlers with
    [serve_gateway]; the codecs are lawful, the connection is open, and errors carry
    no explicit nil as their data. *)
Theorem gateway_agent_client_asks {S : Serde} {C : Codec}
    {F1 : FromValue WireRequest} {F2 : FromValue WireResponse} {F3 : FromValue WireNotification}
    (display : Value → string) (LS : serde_laws S) (LE : envelope_laws)
    gh base agent_id id a sa b0 sb b (m : AgentMethod) (p : Typed (agent_params m)) :
  chans a !! 0 = Some sa → open a → chans b0 !! 0 = Some sb → open b0 →
  serve serve_gateway_methods base b0 = Some b →
  (∀ x e, gh_agent_invoke gh x = Err e → we_data e ≠ Some VNil) →
  ∃ x, invoke_fields x = Some (agent_id, METHOD m, to_value p) ∧
  gateway_agent_client (T := Called)
    (invoke display (run_handler serve_gateway_methods base (gateway_handler gh)) id agent_id a b) m p
  = Some match gh_agent_invoke gh x with
         | Ok v => map_err DecodeResult (from_value (value_of v))
         | Err e => Err (Request (Wire e))
         end.
Proof.
  intros Hsa Hoa Hsb Hob Hb He.
  pose proof (λ p, invoke_asks LS display LE gh agent_id base id a sa b0 sb b m p
    Hsa Hoa Hsb Hob Hb He) as H.
  destruct m; first [exact (H p)|rewrite (unit_value_unique p); exact (H unit_value)].
Qed.

(** If the gateway hands the calls for an agent on and gives back its answers as
    they are, calling the agent through it is calling it directly.  The gateway of
    this repository does so for results, but not for errors: it drops their data
    ([AgentConnError] has none), so this is about other peers. *)
Theorem gateway_agent_client_is_agent_client {S : Serde} {C : Codec}
    {F1 : FromValue WireRequest} {F2 : FromValue WireResponse} {F3 : FromValue WireNotification}
    (display : Value → string) (LS : serde_laws S) (LE : envelope_laws)
    gh agent_id h base id a sa b0 sb b base' id' a' sa' c0 sc c m p :
  forwards gh agent_id h → (∀ x e, gh_agent_invoke gh x = Err e → we_data e ≠ Some VNil) →
  chans a !! 0 = Some sa → open a → chans b0 !! 0 = Some sb → open b0 →
  serve serve_gateway_methods base b0 = Some b →
  chans a' !! 0 = Some sa' → open a' → chans c0 !! 0 = Some sc → open c0 →
  serve serve_agent_methods base' c0 = Some c →
  (∀ q e, agent_handler h m q = Err e → we_data e ≠ Some VNil) →
  gateway_agent_client (T := Called)
    (invoke display (run_handler serve_gateway_methods base (gateway_handler gh)) id agent_id a b) m p
  = AgentClient.agent_client (T := Called)
      (request_typed (RM := agent_rpc) display (run_handler serve_agent_methods base' (agent_handler h)) id' a' c)
      m p.
Proof.
  intros Hf Hn Hsa Hoa Hsb Hob Hb Hsa' Hoa' Hsc Hoc Hc He.
  destruct (serve_agent_methods_all m) as [i Hi].
  pose proof (λ p, facade_call (RM := agent_rpc) display LS LE (agent_handler h) serve_agent_methods base' id'
    a' sa' c0 sc c i m p serve_agent_methods_NoDup Hsa' Hoa' Hsc Hoc Hc Hi (He p)) as F1'.
  pose proof (λ p, invoke_forwarded LS display LE gh agent_id h base id a sa b0 sb b m p
    Hf Hn Hsa Hoa Hsb Hob Hb) as F2'.
  destruct m; first [exact (eq_trans (F2' p) (eq_sym (F1' p)))
                    |exact (eq_trans (F2' unit_value) (eq_sym (F1' unit_value)))].
Qed.

(** ** Witness *)

Module SampleForwarding.
Import Wire.Derived Codec.SampleCodec.
#[local] Existing Instance SampleSerde.serde.
Import AgentClient.SampleFacade.

(** A gateway in front of one agent. *)
Definition gateway : GatewayHandlers :=
  let d := GatewayHandlers_default in
  mkGatewayHandlers (gh_hello d) (gh_spawn_agent d) (gh_kill_agent d) (gh_detach_agent d)
    (gh_attach_agent d) (gh_list_agents d) (gh_register_proxy d) (gh_unregister_proxy d)
    (gh_register_stream_proxy d) (gh_unregister_stream_proxy d)
    (λ x, match invoke_fields x with
          | Some (i, method, params) =>
              if String.eqb i "a1" then res_map of_value (agent_answer handlers method params)
              else Err (mkWireError (-32010) "no agent" None)
          | None => Err (mkWireError (-32602) "invalid params" None)
          end).

Lemma gateway_forwards : forwards gateway "a1" handlers.
Proof. intros x method params Hx. unfold gateway. cbn. by rewrite Hx. Qed.

Definition served_gateway : Connection := default fresh (serve serve_gateway_methods 3 fresh).

Definition through (m : AgentMethod) (p : Typed (agent_params m)) : Called (agent_result m) :=
  gateway_agent_client (T := Called)
    (invoke (C := codec) SampleConnection.no_display
       (run_handler serve_gateway_methods 3 (gateway_handler gateway)) "u7" "a1" fresh served_gateway) m p.

Lemma gateway_no_nil_data x e : gh_agent_invoke gateway x = Err e → we_data e ≠ Some VNil.
Proof.
  unfold gateway, agent_answer. cbn.
  destruct (invoke_fields x) as [[[i me] v]|]; [|by intros [= <-]].
  case_match; [|by intros [= <-]].
  destruct (AgentMethods.AgentMethod_parse me) as [m|]; [|by intros [= <-]].
  unfold typed_handler. destruct (from_value v) as [y|y]; cbn; [|by intros [= <-]].
  destruct m; cbn; try discriminate; intros [= <-]; discriminate.
Qed.

Lemma gateway_agent_client_asks_witness :
  ∃ x, invoke_fields x = Some ("a1", "process/terminate", to_value AgentClient.SampleFacade.terminate_params) ∧
  through ProcessTerminate AgentClient.SampleFacade.terminate_params
  = Some match gh_agent_invoke gateway x with
         | Ok v => map_err DecodeResult (from_value (value_of v))
         | Err e => Err (Request (Wire e))
         end.
Proof.
  unfold through.
  apply (gateway_agent_client_asks SampleConnection.no_display SampleSerde.serde_ok
    SampleConnection.derived_laws gateway 3 "a1"
    "u7" SampleConnection.fresh ChannelState_new SampleConnection.fresh ChannelState_new
    served_gateway ProcessTerminate AgentClient.SampleFacade.terminate_params);
    [..|apply gateway_no_nil_data];
    (vm_compute; reflexivity) || (split; vm_compute; reflexivity).
Defined.
End SampleForwarding.

Lemma gateway_agent_client_is_agent_client_witness :
  SampleForwarding.through ProcessTerminate AgentClient.SampleFacade.terminate_params
  = AgentClient.SampleFacade.client ProcessTerminate AgentClient.SampleFacade.terminate_params ∧
  SampleForwarding.through ProcessTerminate AgentClient.SampleFacade.terminate_params
  = Some (Ok AgentClient.SampleFacade.running).
Proof.
  split; [|vm_compute; reflexivity].
  unfold SampleForwarding.through, AgentClient.SampleFacade.client.
  apply (gateway_agent_client_is_agent_client SampleConnection.no_display SampleSerde.serde_ok
    SampleConnection.derived_laws SampleForwarding.gateway "a1" AgentClient.SampleFacade.handlers
    3 "u7" SampleConnection.fresh ChannelState_new SampleConnection.fresh ChannelState_new
    SampleForwarding.served_gateway 7 "u1" SampleConnection.fresh ChannelState_new
    SampleConnection.fresh ChannelState_new AgentClient.SampleFacade.served
    ProcessTerminate AgentClient.SampleFacade.terminate_params);
    [apply SampleForwarding.gateway_forwards|apply SampleForwarding.gateway_no_nil_data|..|intros q e; cbn; discriminate];
    (vm_compute; reflexivity) || (split; vm_compute; reflexivity).
Defined.
