(* ===== verification/SkillsFuse.v ===== *)
(** The skills mount of the agent ([nexal-agent/src/fs/skills.rs]): a read-only
    FUSE tree built from the gateway's list, its files fetched on demand.

    Inode numbers are [Z]: there are as many as entries listed, so the 64-bit
    counter cannot wrap.  A [HashMap] is searched in some order: the model
    takes the order of [map_to_list], and the theorems do not depend on it. *)
From S2P Require Import Prelude Paths Wire Skills.

(** * The tree *)

(* @src crates/nexal-agent/src/fs/skills.rs FsNode *)
Inductive FsNode :=
  | Dir (children : list Z)
  | File (rel_path : string) (size : Z).

(* @src crates/nexal-agent/src/fs/skills.rs FsTree *)
Record FsTree := mkTree {
  nodes : gmap Z FsNode;
  path_to_inode : gmap string Z;
  next_inode : Z;
}.

(* @src crates/nexal-agent/src/fs/skills.rs FsTree::new *)
Definition FsTree_new : FsTree := mkTree {[1%Z := Dir []]} ∅ 2.

(** A new node under the next number. *)
Definition new_node (n : FsNode) (t : FsTree) : FsTree * Z :=
  (mkTree (<[next_inode t := n]> (nodes t)) (path_to_inode t) (next_inode t + 1), next_inode t).

Definition set_path (path : string) (ino : Z) (t : FsTree) : FsTree :=
  mkTree (nodes t) (<[path := ino]> (path_to_inode t)) (next_inode t).

(** [if let FsNode::Dir { children } = nodes.get_mut(&parent).unwrap()
    { children.push(child) }] *)
Definition push_child (parent child : Z) (t : FsTree) : outcome FsTree :=
  match nodes t !! parent with
  | None => Panics
  | Some (Dir cs) =>
      Returns (mkTree (<[parent := Dir (cs ++ [child])]> (nodes t)) (path_to_inode t) (next_inode t))
  | Some (File _ _) => Returns t
  end.

Definition bind_outcome {A B} (o : outcome A) (f : A → outcome B) : outcome B :=
  match o with Returns a => f a | Panics => Panics end.

(** * Building it *)

(* @src crates/nexal-agent/src/fs/skills.rs mount "// File." .. "children.push(file_inode);" *)
Definition add_file_node (rel_path : string) (size : Z) (parent : Z) (t : FsTree) : outcome FsTree :=
  let '(t, ino) := new_node (File rel_path size) t in
  push_child parent ino (set_path rel_path ino t).

(** The directory of a path prefix, created if there is none. *)
(* @src crates/nexal-agent/src/fs/skills.rs mount "let dir_inode = if let Some" .. "parent_inode = dir_inode;" *)
Definition get_or_create_dir (dir_path : string) (parent : Z) (t : FsTree) : outcome (FsTree * Z) :=
  match path_to_inode t !! dir_path with
  | Some ino => Returns (t, ino)
  | None =>
      let '(t, ino) := new_node (Dir []) t in
      bind_outcome (push_child parent ino (set_path dir_path ino t)) (λ t, Returns (t, ino))
  end.

(** The loop over the parts of a path; [before] are those already passed. *)
(* @src crates/nexal-agent/src/fs/skills.rs mount "for (i, _part) in parts.iter().enumerate() {" .. "parent_inode = dir_inode;" *)
Fixpoint add_parts (name : string) (file : SkillFileEntry) (before parts : list string) (parent : Z)
    (t : FsTree) : outcome FsTree :=
  match parts with
  | [] => Returns t
  | [_] => add_file_node (name +:+ "/" +:+ sfe_path file) (sfe_size file) parent t
  | part :: rest =>
      let dir_path := name +:+ "/" +:+ join "/" (before ++ [part]) in
      bind_outcome (get_or_create_dir dir_path parent t) (λ ti,
        add_parts name file (before ++ [part]) rest ti.2 ti.1)
  end.

Fixpoint foldM {A B} (f : B → A → outcome B) (b : B) (l : list A) : outcome B :=
  match l with [] => Returns b | x :: l' => bind_outcome (f b x) (λ b, foldM f b l') end.

(* @src crates/nexal-agent/src/fs/skills.rs mount "for file in &skill.files {" .. "parent_inode = dir_inode;" *)
Definition add_files (name : string) (skill_inode : Z) (files : list SkillFileEntry) (t : FsTree)
    : outcome FsTree :=
  foldM (λ t file, add_parts name file [] (split_on "/" (sfe_path file)) skill_inode t) t files.

(* @src crates/nexal-agent/src/fs/skills.rs mount "for skill in &skills.skills {" .. "root_children.push(skill_inode);" *)
Definition add_skill (st : FsTree * list Z) (skill : SkillInfo) : outcome (FsTree * list Z) :=
  let '(t, root_children) := st in
  let '(t, skill_inode) := new_node (Dir []) t in
  bind_outcome (add_files (si_name skill) skill_inode (si_files skill) t) (λ t,
  bind_outcome (add_file_node (si_name skill +:+ "/SKILL.md") 0 skill_inode t) (λ t,
  Returns (set_path (si_name skill) skill_inode t, root_children ++ [skill_inode]))).

(* @src crates/nexal-agent/src/fs/skills.rs mount "let mut tree = FsTree::new();" .. "*children = root_children;" *)
Definition build_tree (skills : list SkillInfo) : outcome FsTree :=
  bind_outcome (foldM add_skill (FsTree_new, []) skills) (λ st,
    let '(t, root_children) := st in
    match nodes t !! 1%Z with
    | None => Panics
    | Some (Dir _) => Returns (mkTree (<[1%Z := Dir root_children]> (nodes t)) (path_to_inode t) (next_inode t))
    | Some (File _ _) => Returns t
    end).

(** * Attributes *)

(** Without the times, which are those of the call, and the constant fields. *)
Inductive FileType := Directory | RegularFile.
Record FileAttr := mkAttr {
  fa_ino : Z; fa_size : Z; fa_blocks : Z; fa_kind : FileType; fa_perm : Z; fa_nlink : Z }.

(* @src crates/nexal-agent/src/fs/skills.rs root_attr *)
Definition root_attr : FileAttr := mkAttr 1 0 0 Directory 493 2.
(* @src crates/nexal-agent/src/fs/skills.rs file_attr *)
Definition file_attr (ino size : Z) : FileAttr :=
  mkAttr ino size (wrap_u64 (size + 511) / 512) RegularFile 292 1.
(* @src crates/nexal-agent/src/fs/skills.rs dir_attr *)
Definition dir_attr (ino : Z) : FileAttr := mkAttr ino 0 0 Directory 493 2.

Inductive Errno := ENOENT | ENOTDIR | EINVAL | EIO.

(** * Operations *)

(** [path.split('/').next_back().unwrap_or(path)] *)
Definition base_name (path : string) : string := default path (last (split_on "/" path)).

(** A path that maps to the inode. *)
Definition path_of (ino : Z) (t : FsTree) : option string :=
  find_map (λ pi : string * Z, if decide (pi.2 = ino) then Some pi.1 else None)
    (map_to_list (path_to_inode t)).

Definition child_name (ino : Z) (node : FsNode) (t : FsTree) : option string :=
  match node with
  | Dir _ => base_name <$> path_of ino t
  | File rel_path _ => Some (base_name rel_path)
  end.

(** The child of a directory with a name: its inode and node. *)
(* @src crates/nexal-agent/src/fs/skills.rs lookup "// Find child by basename" .. "if child_name == Some" *)
Definition find_child (children : list Z) (name : string) (t : FsTree) : option (Z * FsNode) :=
  find_map (λ ino, node ← nodes t !! ino;
                   if decide (child_name ino node t = Some name) then Some (ino, node) else None)
    children.

(* @src crates/nexal-agent/src/fs/skills.rs Filesystem::lookup *)
Definition fuse_lookup (parent : Z) (name : string) (t : FsTree) : result FileAttr Errno :=
  match nodes t !! parent with
  | Some (Dir children) =>
      match find_child children name t with
      | Some (ino, Dir _) => Ok (dir_attr ino)
      | Some (ino, File _ size) => Ok (file_attr ino size)
      | None => Err ENOENT
      end
  | _ => Err ENOENT
  end.

Section fetch.
Context `{!FromValue SkillsReadResponse}.
(** The answer of the gateway to a blocking [skills/read] request. *)
Context (ask : Value → result Value string).

(* @src crates/nexal-agent/src/fs/skills.rs fetch_file *)
Definition fetch_file (rel_path : string) (cache : gmap string bytes)
    : gmap string bytes * result bytes Errno :=
  match cache !! rel_path with
  | Some data => (cache, Ok data)
  | None =>
      match ask (VMap [(VStr "path", VStr rel_path)]) with
      | Err _ => (cache, Err EIO)
      | Ok resp =>
          match from_value (T := SkillsReadResponse) resp with
          | Err _ => (cache, Err EIO)
          | Ok parsed => (<[rel_path := srr_data parsed]> cache, Ok (srr_data parsed))
          end
      end
  end.

(* @src crates/nexal-agent/src/fs/skills.rs Filesystem::getattr *)
Definition fuse_getattr (ino : Z) (t : FsTree) (cache : gmap string bytes)
    : gmap string bytes * result FileAttr Errno :=
  if decide (ino = 1%Z) then (cache, Ok root_attr)
  else
    match nodes t !! ino with
    | Some (Dir _) => (cache, Ok (dir_attr ino))
    | Some (File rel_path size) =>
        if decide (size = 0%Z) then
          let r := fetch_file rel_path cache in
          (r.1, Ok (file_attr ino (match r.2 with Ok data => len data | Err _ => 0 end)))
        else (cache, Ok (file_attr ino size))
    | None => (cache, Err ENOENT)
    end.

(* @src crates/nexal-agent/src/fs/skills.rs Filesystem::read *)
Definition fuse_read (ino offset size : Z) (t : FsTree) (cache : gmap string bytes)
    : gmap string bytes * result bytes Errno :=
  match nodes t !! ino with
  | Some (File rel_path _) =>
      match fetch_file rel_path cache with
      | (cache, Err e) => (cache, Err e)
      | (cache, Ok data) =>
          let start := Z.max offset 0 in
          if decide (len data ≤ start)%Z then (cache, Ok [])
          else
            let stop := Z.min (wrap_u64 (start + size)) (len data) in
            (cache, Ok (take (Z.to_nat (stop - start)) (drop (Z.to_nat start) data)))
      end
  | _ => (cache, Err EINVAL)
  end.
End fetch.

(** All entries of a directory, in order. *)
(* @src crates/nexal-agent/src/fs/skills.rs readdir "let entries: Vec" .. ".collect();" *)
Definition dir_entries (ino : Z) (children : list Z) (t : FsTree) : list (Z * FileType * string) :=
  [(ino, Directory, "."); (ino, Directory, "..")] ++
  omap (λ child,
    node ← nodes t !! child;
    Some match node with
         | Dir _ => (child, Directory, default ("dir-" +:+ pretty child) (base_name <$> path_of child t))
         | File rel_path _ => (child, RegularFile, base_name rel_path)
         end) children.

(** The reply takes [room] entries; each comes with the offset after it. *)
(* @src crates/nexal-agent/src/fs/skills.rs Filesystem::readdir *)
Definition fuse_readdir (ino offset : Z) (room : nat) (t : FsTree)
    : result (list (Z * (Z * FileType * string))) Errno :=
  match nodes t !! ino with
  | Some (Dir children) =>
      let entries := imap (λ i e, ((Z.of_nat i + 1)%Z, e)) (dir_entries ino children t) in
      Ok (take room (drop (Z.to_nat (wrap_u64 offset)) entries))
  | _ => Err ENOTDIR
  end.

Lemma base_name_join p n :
  Forall slashless (p ++ [n]) → base_name (join "/" (p ++ [n])) = n.
Proof.
  intros H. unfold base_name. rewrite split_on_join; [by rewrite last_snoc|by destruct p|done].
Qed.

(** * What building keeps *)

Section building.
(** The directories and files of the listing; no path is both. *)
Context (dirs files : list string → Prop).
Hypothesis no_clash : ∀ p, dirs p → files p → False.
Hypothesis dirs_names : ∀ p, dirs p → p ≠ [] ∧ Forall slashless p.
Hypothesis files_names : ∀ p, files p → 2 ≤ length p ∧ Forall slashless p.

Lemma key_inj p q : dirs p ∨ files p → dirs q ∨ files q → join "/" p = join "/" q → p = q.
Proof.
  assert (∀ r, dirs r ∨ files r → r ≠ [] ∧ Forall slashless r) as Hn.
  { intros r [?|Hr]; [by apply dirs_names|]. apply files_names in Hr as [Hl Hr]. split; [|done].
    by intros ->; cbn in Hl; lia. }
  intros [? ?]%Hn [? ?]%Hn. by apply join_inj.
Qed.

(** The node [c] is the directory or a file of a path. *)
Definition child_is (t : FsTree) (D : gmap Z (list string)) (c : Z) (q : list string) : Prop :=
  D !! c = Some q ∨ (files q ∧ ∃ sz, nodes t !! c = Some (File (join "/" q) sz)).

(** [D] gives the path of every directory; [X] is the skill whose name is not
    in the path map yet, [R] the children of the root. *)
Record tree_ok (X : Z) (R : list Z) (t : FsTree) (D : gmap Z (list string)) : Prop := {
  ok_next i n : nodes t !! i = Some n → (1 ≤ i < next_inode t)%Z;
  ok_root : nodes t !! 1%Z = Some (Dir R) ∧ D !! 1%Z = Some [];
  ok_path s i : path_to_inode t !! s = Some i →
    ∃ n, nodes t !! i = Some n ∧
      match n with Dir _ => ∃ p, D !! i = Some p ∧ p ≠ [] ∧ s = join "/" p | File r _ => s = r end;
  ok_dir i p : D !! i = Some p →
    (∃ cs, nodes t !! i = Some (Dir cs)) ∧
    (p = [] → i = 1%Z) ∧
    (p ≠ [] → dirs p ∧ ((i = X ∧ length p = 1) ∨ path_to_inode t !! join "/" p = Some i));
  ok_dir_path i cs : nodes t !! i = Some (Dir cs) → is_Some (D !! i);
  ok_inj i j p : D !! i = Some p → D !! j = Some p → i = j;
  ok_file i r sz : nodes t !! i = Some (File r sz) → ∃ q, files q ∧ r = join "/" q;
  ok_child i cs c : nodes t !! i = Some (Dir cs) → c ∈ cs →
    ∃ p n, D !! i = Some p ∧ child_is t D c (p ++ [n]);
  ok_parent c p n : D !! c = Some (p ++ [n]) → p ≠ [] →
    ∃ i cs, D !! i = Some p ∧ nodes t !! i = Some (Dir cs) ∧ c ∈ cs;
}.

(** The tree grows. *)
Definition grows (t : FsTree) (D : gmap Z (list string)) (t' : FsTree) (D' : gmap Z (list string)) :=
  (∀ i cs, nodes t !! i = Some (Dir cs) → ∃ cs', nodes t' !! i = Some (Dir (cs ++ cs'))) ∧
  (∀ i r sz, nodes t !! i = Some (File r sz) → nodes t' !! i = Some (File r sz)) ∧
  D ⊆ D' ∧
  (∀ i p, D' !! i = Some p → D !! i = Some p ∨ 2 ≤ length p).

Lemma grows_refl t D : grows t D t D.
Proof. split; [intros i cs ?; exists []; by rewrite app_nil_r|]. split; [done|]. split; [done|]. by left. Qed.

Lemma grows_trans t1 D1 t2 D2 t3 D3 : grows t1 D1 t2 D2 → grows t2 D2 t3 D3 → grows t1 D1 t3 D3.
Proof.
  intros (A1 & B1 & C1 & E1) (A2 & B2 & C2 & E2). split; [|split; [auto|split; [by etrans|]]].
  - intros i cs [cs1 H]%A1. apply A2 in H as [cs2 H]. exists (cs1 ++ cs2). by rewrite app_assoc.
  - intros i p [H|H]%E2; [by apply E1|by right].
Qed.

(** Below the directory [i] of path [p] there is a file at [ns]. *)
Fixpoint reaches (t : FsTree) (D : gmap Z (list string)) (i : Z) (p ns : list string) : Prop :=
  match ns with
  | [] => False
  | n :: ns' =>
      ∃ cs c, nodes t !! i = Some (Dir cs) ∧ c ∈ cs ∧
        match ns' with
        | [] => files (p ++ [n]) ∧ ∃ sz, nodes t !! c = Some (File (join "/" (p ++ [n])) sz)
        | _ => D !! c = Some (p ++ [n]) ∧ reaches t D c (p ++ [n]) ns'
        end
  end.

(** What there is stays. *)
Definition extends (t : FsTree) (D : gmap Z (list string)) (t' : FsTree) (D' : gmap Z (list string)) :=
  (∀ i cs, nodes t !! i = Some (Dir cs) → ∃ cs', nodes t' !! i = Some (Dir (cs ++ cs'))) ∧
  (∀ i r sz, nodes t !! i = Some (File r sz) → nodes t' !! i = Some (File r sz)) ∧
  D ⊆ D'.

Lemma grows_extends t D t' D' : grows t D t' D' → extends t D t' D'.
Proof. intros (A & B & C & _). done. Qed.

Lemma reaches_extends t D t' D' i p ns : extends t D t' D' → reaches t D i p ns → reaches t' D' i p ns.
Proof.
  intros (A & B & C). revert i p. induction ns as [|n ns IH]; intros i p; [done|].
  cbn [reaches]. intros (cs & c & Hi & Hc & H). apply A in Hi as [cs' Hi].
  exists (cs ++ cs'), c. split; [done|]. split; [apply elem_of_app; by left|].
  destruct ns as [|m ns].
  - destruct H as [Hf [sz H]]. split; [done|]. exists sz. by apply B.
  - destruct H as [HD H]. split; [by eapply lookup_weaken|by apply IH].
Qed.

Lemma reaches_grows t D t' D' i p ns : grows t D t' D' → reaches t D i p ns → reaches t' D' i p ns.
Proof. intros Hg. by apply reaches_extends, grows_extends. Qed.

(** The tree with a node [new] as last child of [parent], known by [path]. *)
Definition with_child (parent : Z) (cs : list Z) (path : string) (new : FsNode) (t : FsTree) : FsTree :=
  let ino := next_inode t in
  mkTree (<[parent := Dir (cs ++ [ino])]> (<[ino := new]> (nodes t)))
    (<[path := ino]> (path_to_inode t)) (ino + 1).

Lemma lookup_with_child parent cs path new t i :
  parent ≠ next_inode t →
  nodes (with_child parent cs path new t) !! i =
    if decide (i = parent) then Some (Dir (cs ++ [next_inode t]))
    else if decide (i = next_inode t) then Some new else nodes t !! i.
Proof.
  intros Hne. unfold with_child. cbn [nodes]. destruct (decide (i = parent)) as [->|Hp].
  - apply lookup_insert_eq.
  - rewrite lookup_insert_ne by done. destruct (decide (i = next_inode t)) as [->|Hi].
    + apply lookup_insert_eq.
    + by apply lookup_insert_ne.
Qed.

Lemma add_file_node_eq path sz parent cs t :
  nodes t !! parent = Some (Dir cs) → parent ≠ next_inode t →
  add_file_node path sz parent t = Returns (with_child parent cs path (File path sz) t).
Proof.
  intros Hp Hne. unfold add_file_node, new_node, set_path, push_child. cbn [nodes].
  by rewrite lookup_insert_ne, Hp.
Qed.

Lemma create_dir_eq path parent cs t :
  path_to_inode t !! path = None → nodes t !! parent = Some (Dir cs) → parent ≠ next_inode t →
  get_or_create_dir path parent t = Returns (with_child parent cs path (Dir []) t, next_inode t).
Proof.
  intros Hnone Hp Hne. unfold get_or_create_dir. rewrite Hnone. unfold new_node, set_path, push_child.
  cbn [nodes]. by rewrite lookup_insert_ne, Hp.
Qed.

(** What a new child may be, and what it does to the directories' paths. *)
Definition new_child (t : FsTree) (D : gmap Z (list string)) (q : list string) (new : FsNode)
    (D' : gmap Z (list string)) : Prop :=
  (∃ sz, new = File (join "/" q) sz ∧ files q ∧ D' = D) ∨
  (new = Dir [] ∧ dirs q ∧ path_to_inode t !! join "/" q = None ∧ D' = <[next_inode t := q]> D).

Section one_child.
Context (X : Z) (R : list Z) (t : FsTree) (D D' : gmap Z (list string)) (parent : Z) (p : list string) (n : string)
  (cs : list Z) (new : FsNode).
Hypothesis Ht : tree_ok X R t D.
Hypothesis HD : D !! parent = Some p.
Hypothesis Hp : p ≠ [].
Hypothesis Hcs : nodes t !! parent = Some (Dir cs).
Hypothesis Hnew : new_child t D (p ++ [n]) new D'.

Abbreviation ino := (next_inode t).
Abbreviation t' := (with_child parent cs (join "/" (p ++ [n])) new t).

Lemma one_child_fresh : nodes t !! ino = None ∧ D !! ino = None ∧ parent ≠ ino ∧ parent ≠ 1%Z ∧ ino ≠ 1%Z.
Proof.
  destruct (ok_root _ _ _ _ Ht) as [Hr HDr].
  assert (nodes t !! ino = None) as Hino.
  { destruct (nodes t !! ino) eqn:E; [|done]. apply (ok_next _ _ _ _ Ht) in E. lia. }
  split; [done|]. split.
  { destruct (D !! ino) eqn:E; [|done]. apply (ok_dir _ _ _ _ Ht) in E as [[? ?] _]. congruence. }
  split; [intros E; rewrite <-E in Hino; congruence|].
  split; [intros ->; congruence|]. intros E. rewrite E in Hino. congruence.
Qed.

Lemma one_child_old_D i q : D !! i = Some q → D' !! i = Some q.
Proof.
  intros Hi. destruct Hnew as [(sz & _ & _ & ->)|(_ & _ & _ & ->)]; [done|].
  rewrite lookup_insert_ne; [done|]. intros <-. destruct one_child_fresh as (_ & E & _).
  congruence.
Qed.

Lemma one_child_D' i q :
  D' !! i = Some q → D !! i = Some q ∨ (i = ino ∧ q = p ++ [n] ∧ new = Dir [] ∧ dirs q).
Proof.
  destruct Hnew as [(sz & _ & _ & ->)|(-> & Hd & _ & ->)]; [by left|].
  intros [[<- <-]|[_ ?]]%lookup_insert_Some; [by right|by left].
Qed.

(** No directory has the path of the new child. *)
Lemma one_child_path_new i q : D !! i = Some q → q ≠ p ++ [n].
Proof.
  intros Hi ->. assert (p ++ [n] ≠ []) as Hne by (by destruct p).
  destruct (ok_dir _ _ _ _ Ht _ _ Hi) as (_ & _ & H). destruct (H Hne) as [Hd Hpath].
  destruct Hnew as [(sz & _ & Hf & _)|(_ & _ & Hnone & _)]; [by eapply no_clash|].
  destruct Hpath as [[_ Hl]|Hpath]; [|congruence].
  rewrite length_app in Hl. destruct p; [done|cbn in Hl; lia].
Qed.

Lemma one_child_kept i q : D !! i = Some q → q ≠ [] →
  path_to_inode t !! join "/" q = Some i → path_to_inode t' !! join "/" q = Some i.
Proof.
  intros Hi Hq Hpath. unfold with_child. cbn. rewrite lookup_insert_ne; [done|]. intros E.
  apply (one_child_path_new _ _ Hi). symmetry. apply key_inj; [| |exact E].
  - destruct Hnew as [(sz & _ & Hf & _)|(_ & Hd & _)]; [by right|by left].
  - left. by apply (ok_dir _ _ _ _ Ht) in Hi as (_ & _ & [? _]).
Qed.

Lemma one_child_lookup i :
  nodes t' !! i = if decide (i = parent) then Some (Dir (cs ++ [ino]))
                  else if decide (i = ino) then Some new else nodes t !! i.
Proof. apply lookup_with_child, one_child_fresh. Qed.

Lemma one_child_grows : grows t D t' D'.
Proof.
  destruct one_child_fresh as (Hino & _ & Hne & _). split; [|split; [|split]].
  - intros i cs0 Hi. rewrite one_child_lookup. destruct (decide (i = parent)) as [->|].
    + exists [ino]. congruence.
    + rewrite decide_False by congruence. exists []. by rewrite app_nil_r.
  - intros i r sz Hi. rewrite one_child_lookup. by rewrite !decide_False by congruence.
  - apply map_subseteq_spec. apply one_child_old_D.
  - intros i q [?|(_ & -> & _)]%one_child_D'; [by left|right].
    rewrite length_app. destruct p; [done|cbn; lia].
Qed.

Lemma one_child_ok : tree_ok X R t' D'.
Proof.
  destruct one_child_fresh as (Hino & HDino & Hne & Hp1 & Hi1).
  destruct Ht as [H1 H2 H3 H4 H5 H6 H7 H8 H9].
  assert (p ++ [n] ≠ []) as Hne' by (by destruct p).
  split.
  - intros i m. rewrite one_child_lookup. cbn. pose proof (H1 _ _ Hcs).
    repeat case_decide; [intros _; subst; lia|intros _; subst; lia|].
    intros Hi%H1. lia.
  - rewrite one_child_lookup, !decide_False by congruence. destruct H2 as [? ?]. split; [done|].
    by apply one_child_old_D.
  - intros s i. unfold with_child at 1. cbn [path_to_inode].
    intros [[<- <-]|[Hs Hi]]%lookup_insert_Some.
    + rewrite one_child_lookup, decide_False, decide_True by congruence. exists new.
      split; [done|]. destruct Hnew as [(sz & -> & _)|(-> & _ & _ & ->)]; [done|].
      exists (p ++ [n]). rewrite lookup_insert_eq. done.
    + apply H3 in Hi as (m & Hm & Hk). rewrite one_child_lookup.
      assert (i ≠ ino) as Hii by congruence.
      destruct (decide (i = parent)) as [->|].
      * rewrite Hcs in Hm. injection Hm as <-. eexists. split; [done|]. cbn.
        destruct Hk as (q & Hq & ?). exists q. split; [by apply one_child_old_D|done].
      * rewrite decide_False by done. exists m. split; [done|]. destruct m; [|done].
        destruct Hk as (q & Hq & ?). exists q. split; [by apply one_child_old_D|done].
  - intros i q Hq. destruct (one_child_D' _ _ Hq) as [Hi|(-> & -> & Hn & Hd)].
    + destruct (H4 _ _ Hi) as ([cs0 Hc0] & Hnil & Hp0). split; [|split; [done|]].
      * destruct one_child_grows as [Hg _]. apply Hg in Hc0 as [? ?]. by eexists.
      * intros Hq0. destruct (Hp0 Hq0) as [? [?|?]]; (split; [done|]); [by left|right].
        by apply (one_child_kept i).
    + split; [|split; [by intros ?|]].
      * exists []. by rewrite one_child_lookup, decide_False, decide_True, Hn by congruence.
      * intros _. split; [done|]. right. unfold with_child. cbn. apply lookup_insert_eq.
  - intros i cs0. rewrite one_child_lookup. destruct (decide (i = parent)) as [->|].
    + intros _. exists p. by apply one_child_old_D.
    + destruct (decide (i = ino)) as [->|].
      * intros [= Hn]. destruct Hnew as [(sz & -> & _)|(_ & _ & _ & ->)]; [done|].
        exists (p ++ [n]). apply lookup_insert_eq.
      * intros [q Hq]%H5. exists q. by apply one_child_old_D.
  - intros i j q Hi Hj. destruct (one_child_D' _ _ Hi) as [Hi'|(-> & -> & _)],
      (one_child_D' _ _ Hj) as [Hj'|(-> & E & _)]; try done.
    + by eapply H6.
    + subst q. by destruct (one_child_path_new _ _ Hi').
    + by destruct (one_child_path_new _ _ Hj').
  - intros i r sz. rewrite one_child_lookup. repeat case_decide; [done| |by apply H7].
    intros [= Hn]. destruct Hnew as [(sz' & -> & Hf & _)|(-> & _)]; [|done].
    injection Hn as <- _. by exists (p ++ [n]).
  - intros i cs0 c Hi Hc.
    assert (∀ q, child_is t D c q → child_is t' D' c q) as Hup.
    { intros q [?|[? [sz ?]]]; [left; by apply one_child_old_D|right]. split; [done|]. exists sz.
      by apply one_child_grows. }
    rewrite one_child_lookup in Hi. destruct (decide (i = parent)) as [->|].
    + injection Hi as <-. apply elem_of_app in Hc as [Hc| ->%list_elem_of_singleton].
      * destruct (H8 _ _ _ Hcs Hc) as (q & m & Hq & Hm). exists q, m.
        split; [by apply one_child_old_D|by apply Hup].
      * exists p, n. split; [by apply one_child_old_D|].
        destruct Hnew as [(sz & Hn & Hf & _)|(_ & _ & _ & ->)]; [right|left; apply lookup_insert_eq].
        split; [done|]. exists sz. by rewrite one_child_lookup, decide_False, decide_True, Hn by congruence.
    + destruct (decide (i = ino)) as [->|].
      * injection Hi as Hi. destruct Hnew as [(sz & -> & _)|(-> & _)]; [done|].
        injection Hi as <-. by apply elem_of_nil in Hc.
      * destruct (H8 _ _ _ Hi Hc) as (q & m & Hq & Hm). exists q, m.
        split; [by apply one_child_old_D|by apply Hup].
  - intros c q m Hc Hq. destruct (one_child_D' _ _ Hc) as [Hc'|(-> & E & _)].
    + destruct (H9 _ _ _ Hc' Hq) as (i & cs0 & Hi & Hn & Hin).
      destruct one_child_grows as [Hg _]. destruct (Hg _ _ Hn) as [cs' Hn'].
      exists i, (cs0 ++ cs'). split; [by apply one_child_old_D|]. split; [done|]. apply elem_of_app. by left.
    + apply app_inj_tail in E as [-> ->]. exists parent, (cs ++ [ino]).
      split; [by apply one_child_old_D|]. rewrite one_child_lookup, decide_True by done.
      split; [done|]. apply elem_of_app. right. by apply list_elem_of_singleton.
Qed.
End one_child.

(** The directory [n] of [p]: found under its path, or made. *)
Lemma get_or_create_dir_ok X R t D parent p n :
  tree_ok X R t D → D !! parent = Some p → p ≠ [] → dirs (p ++ [n]) → 2 ≤ length (p ++ [n]) →
  ∃ t' D' ino cs,
    get_or_create_dir (join "/" (p ++ [n])) parent t = Returns (t', ino) ∧
    tree_ok X R t' D' ∧ grows t D t' D' ∧ D' !! ino = Some (p ++ [n]) ∧
    nodes t' !! parent = Some (Dir cs) ∧ ino ∈ cs.
Proof.
  intros Ht HD Hp Hd Hl. destruct (ok_dir _ _ _ _ Ht _ _ HD) as ([cs Hcs] & _).
  destruct (path_to_inode t !! join "/" (p ++ [n])) as [ino|] eqn:Hino.
  - destruct (ok_path _ _ _ _ Ht _ _ Hino) as (m & Hm & Hk).
    assert (D !! ino = Some (p ++ [n])) as HDi.
    { destruct m as [cs'|r sz].
      - destruct Hk as (q & Hq & Hne & E). rewrite Hq. f_equal. symmetry. apply key_inj; [by left| |done].
        left. by apply (ok_dir _ _ _ _ Ht _ _ Hq).
      - destruct (ok_file _ _ _ _ Ht _ _ _ Hm) as (q & Hq & E). exfalso.
        rewrite <-Hk in E. apply key_inj in E as <-; [by eapply no_clash|by left|by right]. }
    destruct (ok_parent _ _ _ _ Ht _ _ _ HDi Hp) as (i & cs' & Hi & Hn & Hin).
    rewrite <-(ok_inj _ _ _ _ Ht _ _ _ Hi HD) in *.
    exists t, D, ino, cs'. split; [unfold get_or_create_dir; by rewrite Hino|].
    split; [done|]. split; [apply grows_refl|done].
  - assert (new_child t D (p ++ [n]) (Dir []) (<[next_inode t := p ++ [n]]> D)) as Hnew by by right.
    pose proof (one_child_fresh _ _ _ _ _ _ _ Ht HD Hp Hcs) as (_ & _ & Hne & _).
    exists (with_child parent cs (join "/" (p ++ [n])) (Dir []) t), (<[next_inode t := p ++ [n]]> D),
      (next_inode t), (cs ++ [next_inode t]).
    split; [by apply create_dir_eq|]. split; [by eapply one_child_ok|].
    split; [by eapply one_child_grows|]. split; [apply lookup_insert_eq|].
    split; [by rewrite lookup_with_child, decide_True|]. apply elem_of_app. right. by left.
Qed.

Lemma add_file_node_ok X R t D parent p n sz :
  tree_ok X R t D → D !! parent = Some p → p ≠ [] → files (p ++ [n]) →
  ∃ t', add_file_node (join "/" (p ++ [n])) sz parent t = Returns t' ∧
    tree_ok X R t' D ∧ grows t D t' D ∧ reaches t' D parent p [n].
Proof.
  intros Ht HD Hp Hf. destruct (ok_dir _ _ _ _ Ht _ _ HD) as ([cs Hcs] & _).
  pose proof (one_child_fresh _ _ _ _ _ _ _ Ht HD Hp Hcs) as (_ & _ & Hne & _).
  assert (new_child t D (p ++ [n]) (File (join "/" (p ++ [n])) sz) D) as Hnew by (left; eauto).
  eexists. split; [by apply add_file_node_eq|]. split; [by eapply one_child_ok|].
  split; [by eapply one_child_grows|]. cbn [reaches].
  exists (cs ++ [next_inode t]), (next_inode t). rewrite !lookup_with_child by done.
  rewrite decide_True by done. split; [done|]. split; [apply elem_of_app; right; by left|].
  split; [done|]. exists sz. by rewrite decide_False, decide_True.
Qed.

Hypothesis dirs_above : ∀ p q, p ≠ [] → q ≠ [] → files (p ++ q) → dirs p.

Lemma join_name_path name ps : ps ≠ [] → join "/" (name :: ps) = name +:+ "/" +:+ join "/" ps.
Proof. by apply join_cons. Qed.

Lemma add_parts_ok X R name file t D before parts parent :
  tree_ok X R t D → D !! parent = Some (name :: before) → parts ≠ [] →
  split_on "/" (sfe_path file) = before ++ parts → files (name :: before ++ parts) →
  ∃ t' D', add_parts name file before parts parent t = Returns t' ∧
    tree_ok X R t' D' ∧ grows t D t' D' ∧ reaches t' D' parent (name :: before) parts.
Proof.
  revert t D before parent. induction parts as [|part parts IH]; intros t D before parent Ht HD Hne Hs Hf;
    [done|]. destruct parts as [|part' parts].
  - destruct (add_file_node_ok X R t D parent (name :: before) part (sfe_size file)) as (t' & E & ?);
      [done|done|done|done|]. exists t', D. split; [|done].
    rewrite <-E. cbn [add_parts]. f_equal.
    change ((name :: before) ++ [part]) with (name :: (before ++ [part])).
    rewrite join_name_path, <-Hs, join_split_on by (by destruct before). done.
  - change (before ++ part :: part' :: parts) with (before ++ [part] ++ part' :: parts) in *.
    rewrite (app_assoc before) in *.
    destruct (get_or_create_dir_ok X R t D parent (name :: before) part)
      as (t1 & D1 & ino & cs & E1 & Ht1 & Hg1 & HD1 & Hcs & Hin); [done|done|done| | |].
    { apply (dirs_above _ (part' :: parts)); [done|done|exact Hf]. }
    { cbn. rewrite length_app. cbn. lia. }
    destruct (IH t1 D1 (before ++ [part]) ino) as (t2 & D2 & E2 & Ht2 & Hg2 & Hr); [done..|].
    exists t2, D2. split; [|split; [done|split; [by eapply grows_trans|]]].
    + change ((name :: before) ++ [part]) with (name :: (before ++ [part])) in E1.
      rewrite join_name_path in E1 by (by destruct before).
      change (bind_outcome (get_or_create_dir (name +:+ "/" +:+ join "/" (before ++ [part])) parent t)
        (λ ti, add_parts name file (before ++ [part]) (part' :: parts) ti.2 ti.1) = Returns t2).
      by rewrite E1.
    + destruct Hg2 as (Hg2 & _ & Hsub & _). destruct (Hg2 _ _ Hcs) as [cs' Hcs'].
      exists (cs ++ cs'), ino. split; [done|]. split; [apply elem_of_app; by left|].
      split; [|done]. by eapply lookup_weaken.
Qed.

Lemma add_files_ok X R name ino fs t D :
  tree_ok X R t D → D !! ino = Some [name] →
  (∀ f, f ∈ fs → files (name :: split_on "/" (sfe_path f))) →
  ∃ t' D', add_files name ino fs t = Returns t' ∧ tree_ok X R t' D' ∧ grows t D t' D' ∧
    ∀ f, f ∈ fs → reaches t' D' ino [name] (split_on "/" (sfe_path f)).
Proof.
  revert t D. induction fs as [|f fs IH]; intros t D Ht HD Hfs.
  - exists t, D. split; [done|]. split; [done|]. split; [apply grows_refl|]. by intros f ?%elem_of_nil.
  - destruct (add_parts_ok X R name f t D [] (split_on "/" (sfe_path f)) ino)
      as (t1 & D1 & E1 & Ht1 & Hg1 & Hr1); [done|done| |done|apply Hfs; by left|].
    { by destruct (split_on_cons_ne "/" (sfe_path f)) as (w & ws & ->). }
    destruct (IH t1 D1) as (t2 & D2 & E2 & Ht2 & Hg2 & Hr2); [done| | |].
    { destruct Hg1 as (_ & _ & Hsub & _). by eapply lookup_weaken. }
    { intros g Hg. apply Hfs. by right. }
    exists t2, D2. split; [|split; [done|split; [by eapply grows_trans|]]].
    + unfold add_files in *. cbn [foldM]. by rewrite E1.
    + intros g [->|Hg]%elem_of_cons; [|by apply Hr2]. by eapply reaches_grows.
Qed.

(** ** Skills *)

(** The directory of a new skill. *)
Lemma new_root_ok t D name :
  tree_ok 0 [] t D → dirs [name] → (∀ i, D !! i ≠ Some [name]) →
  let '(t', ino) := new_node (Dir []) t in
  tree_ok ino [] t' (<[ino := [name]]> D) ∧ extends t D t' (<[ino := [name]]> D).
Proof.
  intros Ht Hd Hfresh. unfold new_node. set (ino := next_inode t).
  assert (nodes t !! ino = None) as Hino.
  { destruct (nodes t !! ino) eqn:E; [|done]. apply (ok_next _ _ _ _ Ht) in E. unfold ino in E. lia. }
  assert (D !! ino = None) as HDino.
  { destruct (D !! ino) eqn:E; [|done]. apply (ok_dir _ _ _ _ Ht) in E as [[? ?] _]. congruence. }
  assert (∀ i m, nodes t !! i = Some m → <[ino := Dir []]> (nodes t) !! i = Some m) as Hn.
  { intros i m Hi. rewrite lookup_insert_ne; [done|]. congruence. }
  assert (∀ i q, D !! i = Some q → <[ino := [name]]> D !! i = Some q) as HDo.
  { intros i m Hi. rewrite lookup_insert_ne; [done|]. congruence. }
  destruct Ht as [H1 H2 H3 H4 H5 H6 H7 H8 H9]. split.
  2:{ split; [|split]; cbn [nodes].
      - intros i cs Hi. exists []. rewrite app_nil_r. by apply Hn.
      - intros i r sz Hi. by apply Hn.
      - apply map_subseteq_spec, HDo. }
  split; cbn [nodes path_to_inode next_inode].
  - intros i m [[<- _]|[_ Hi%H1]]%lookup_insert_Some; [|unfold ino; lia].
    destruct H2 as [Hr%H1 _]. unfold ino. lia.
  - destruct H2. auto.
  - intros s i (m & Hm & Hk)%H3. exists m. split; [by apply Hn|]. destruct m; [|done].
    destruct Hk as (q & Hq & ?). eauto.
  - intros i q [[<- <-]|[_ Hi]]%lookup_insert_Some.
    + split; [exists []; apply lookup_insert_eq|]. split; [done|]. intros _. split; [done|]. by left.
    + destruct (H4 _ _ Hi) as ([cs Hcs] & Hnil & Hp). split; [exists cs; by apply Hn|]. split; [done|].
      intros Hq. destruct (Hp Hq) as [? [[-> _]|?]]; [|by auto].
      apply H1 in Hcs. lia.
  - intros i cs [[<- _]|[_ [q Hi]%H5]]%lookup_insert_Some; [|exists q; by apply HDo].
    exists [name]. apply lookup_insert_eq.
  - intros i j q [[<- <-]|[_ Hi]]%lookup_insert_Some [[<- ?]|[_ Hj]]%lookup_insert_Some; try done.
    + by apply Hfresh in Hj.
    + subst q. by apply Hfresh in Hi.
    + by eapply H6.
  - intros i r sz [[_ ?]|[_ ?]]%lookup_insert_Some; [done|eauto].
  - intros i cs c [[_ [= <-]]|[_ Hi]]%lookup_insert_Some Hc; [by apply elem_of_nil in Hc|].
    destruct (H8 _ _ _ Hi Hc) as (q & m & Hq & Hm). exists q, m. split; [by apply HDo|].
    destruct Hm as [?|[? [sz ?]]]; [left; by apply HDo|right; eauto].
  - intros c q m [[_ E]|[_ Hc]]%lookup_insert_Some Hq.
    + destruct q as [|? [|? ?]]; done.
    + destruct (H9 _ _ _ Hc Hq) as (i & cs & Hi & Hn' & Hin). exists i, cs. auto.
Qed.

(** Its name is entered last. *)
Lemma set_name_ok t D ino name :
  tree_ok ino [] t D → D !! ino = Some [name] →
  tree_ok 0 [] (set_path name ino t) D ∧ extends t D (set_path name ino t) D.
Proof.
  intros Ht HD. split.
  2:{ split; [|split; [done|done]]. intros i cs ?. exists []. by rewrite app_nil_r. }
  destruct Ht as [H1 H2 H3 H4 H5 H6 H7 H8 H9].
  split; unfold set_path; cbn [nodes path_to_inode next_inode]; try assumption.
  - intros s i [[<- <-]|[_ Hi]]%lookup_insert_Some; [|by apply H3].
    destruct (H4 _ _ HD) as ([cs Hcs] & _). exists (Dir cs). split; [done|]. by exists [name].
  - intros i q Hi. destruct (H4 _ _ Hi) as (Hcs & Hnil & Hp). split; [done|]. split; [done|].
    intros Hq. destruct (Hp Hq) as [Hd Hpath]. split; [done|]. right.
    assert (dirs [name]) as Hdn by by apply (H4 _ _ HD).
    destruct (decide (join "/" q = name)) as [E|Hne].
    + change name with (join "/" [name]) in E at 1.
      apply key_inj in E as ->; [|by left|by left]. rewrite (H6 _ _ _ Hi HD). apply lookup_insert_eq.
    + rewrite lookup_insert_ne by done. destruct Hpath as [[-> Hl]|?]; [|done].
      rewrite Hi in HD. injection HD as ->. done.
Qed.

(** The files of a skill, as names below its directory. *)
Definition skill_file (s : SkillInfo) (ps : list string) : Prop :=
  ps = ["SKILL.md"] ∨ ∃ f, f ∈ si_files s ∧ ps = split_on "/" (sfe_path f).

Record skills_ok (done : list SkillInfo) (t : FsTree) (roots : list Z) (D : gmap Z (list string)) : Prop := {
  sk_tree : tree_ok 0 [] t D;
  sk_listed s : s ∈ done → ∃ i, i ∈ roots ∧ D !! i = Some [si_name s] ∧
    ∀ ps, skill_file s ps → reaches t D i [si_name s] ps;
  sk_roots i : i ∈ roots → ∃ s, s ∈ done ∧ D !! i = Some [si_name s];
  sk_names i n : D !! i = Some [n] → ∃ s, s ∈ done ∧ si_name s = n;
}.

Lemma add_skill_ok done t roots D s :
  skills_ok done t roots D → (∀ s', s' ∈ done → si_name s' ≠ si_name s) →
  (∀ ps, skill_file s ps → files (si_name s :: ps)) →
  ∃ t' roots' D', add_skill (t, roots) s = Returns (t', roots') ∧
    skills_ok (done ++ [s]) t' roots' D'.
Proof.
  intros [Ht Hl Hr Hn] Hnew Hf. set (name := si_name s) in *.
  assert (files [name; "SKILL.md"]) as Hmd by (apply Hf; by left).
  assert (dirs [name]) as Hd by by apply (dirs_above [name] ["SKILL.md"]).
  pose proof (new_root_ok t D name Ht Hd) as H1.
  destruct (new_node (Dir []) t) as [t1 ino] eqn:E1.
  destruct H1 as [Ht1 Hx1]. { intros i Hi. apply Hn in Hi as (s' & Hs' & E). by eapply Hnew. }
  set (D1 := <[ino := [name]]> D) in *.
  assert (D1 !! ino = Some [name]) as HD1 by apply lookup_insert_eq.
  destruct (add_files_ok ino [] name ino (si_files s) t1 D1) as (t2 & D2 & E2 & Ht2 & Hg2 & Hr2);
    [done|done| |]. { intros f Hfin. apply Hf. right. eauto. }
  assert (D2 !! ino = Some [name]) as HD2.
  { destruct Hg2 as (_ & _ & Hsub & _). by eapply lookup_weaken. }
  destruct (add_file_node_ok ino [] t2 D2 ino [name] "SKILL.md" 0) as (t3 & E3 & Ht3 & Hg3 & Hr3);
    [done..|].
  destruct (set_name_ok t3 D2 ino name Ht3 HD2) as [Ht4 Hx4].
  exists (set_path name ino t3), (roots ++ [ino]), D2. split.
  { unfold add_skill. rewrite E1. fold name. rewrite E2. cbn [bind_outcome].
    change (join "/" ([name] ++ ["SKILL.md"])) with (name +:+ "/SKILL.md") in E3. by rewrite E3. }
  assert (extends t D (set_path name ino t3) D2) as Hx.
  { destruct Hx1 as (A1 & B1 & C1), Hg2 as (A2 & B2 & C2 & _), Hg3 as (A3 & B3 & _).
    split; [|split; [auto|by etrans]]. intros i cs [c1 H1]%A1. apply A2 in H1 as [c2 H2].
    apply A3 in H2 as [c3 H3]. exists (c1 ++ c2 ++ c3). by rewrite !app_assoc in *. }
  assert (∀ i n, D2 !! i = Some [n] → D !! i = Some [n] ∨ (i = ino ∧ n = name)) as Hroot.
  { intros i n Hi. destruct Hg2 as (_ & _ & _ & Hlen). apply Hlen in Hi as [Hi|Hi]; [|cbn in Hi; lia].
    apply lookup_insert_Some in Hi as [[-> [= ->]]|[_ ?]]; [by right|by left]. }
  split.
  - done.
  - intros s' [Hs'| ->%list_elem_of_singleton]%elem_of_app.
    + destruct (Hl _ Hs') as (i & Hi & HDi & Hre). exists i. split; [apply elem_of_app; by left|].
      destruct Hx as (A & B & C). split; [by eapply lookup_weaken|].
      intros ps Hps. by eapply reaches_extends, Hre.
    + exists ino. split; [apply elem_of_app; right; by left|]. split; [done|].
      intros ps Hps. eapply reaches_extends; [exact Hx4|]. destruct Hps as [->|(f & Hfin & ->)]; [done|].
      eapply reaches_grows; [exact Hg3|]. by apply Hr2.
  - intros i [Hi| ->%list_elem_of_singleton]%elem_of_app.
    + destruct (Hr _ Hi) as (s' & Hs' & HDi). exists s'. split; [apply elem_of_app; by left|].
      destruct Hx as (_ & _ & C). by eapply lookup_weaken.
    + exists s. split; [apply elem_of_app; right; by left|done].
  - intros i n [Hi|[-> ->]]%Hroot.
    + destruct (Hn _ _ Hi) as (s' & ? & ?). exists s'. split; [apply elem_of_app; by left|done].
    + exists s. split; [apply elem_of_app; right; by left|done].
Qed.

Lemma add_skills_ok ss done t roots D :
  skills_ok done t roots D → NoDup (si_name <$> done ++ ss) →
  (∀ s ps, s ∈ ss → skill_file s ps → files (si_name s :: ps)) →
  ∃ t' roots' D', foldM add_skill (t, roots) ss = Returns (t', roots') ∧
    skills_ok (done ++ ss) t' roots' D'.
Proof.
  revert done t roots D. induction ss as [|s ss IH]; intros don t roots D Hok Hnd Hf.
  - exists t, roots, D. by rewrite app_nil_r.
  - destruct (add_skill_ok don t roots D s) as (t1 & roots1 & D1 & E1 & Hok1); [done| | |].
    { intros s' Hs' E. rewrite fmap_app in Hnd. apply NoDup_app in Hnd as (_ & Hnd & _).
      apply (Hnd (si_name s')); [by apply list_elem_of_fmap_2|]. rewrite E. by left. }
    { intros ps Hps. apply Hf; [by left|done]. }
    destruct (IH (don ++ [s]) t1 roots1 D1) as (t2 & roots2 & D2 & E2 & Hok2); [done| | |].
    { by rewrite <-app_assoc. }
    { intros s' ps Hs'. apply Hf. by right. }
    exists t2, roots2, D2. rewrite <-app_assoc in Hok2. split; [|done]. cbn [foldM]. by rewrite E1.
Qed.

(** ** The finished tree *)

Lemma FsTree_new_ok : skills_ok [] FsTree_new [] {[1%Z := []]}.
Proof.
  split; [| | |].
  2:{ by intros s ?%elem_of_nil. } 2:{ by intros s ?%elem_of_nil. }
  2:{ intros i n [_ ?]%lookup_singleton_Some. done. }
  split; unfold FsTree_new; cbn [nodes path_to_inode next_inode].
  - intros i n [<- _]%lookup_singleton_Some. lia.
  - by rewrite !lookup_singleton_eq.
  - by intros s i ?%lookup_empty_Some.
  - intros i p [<- <-]%lookup_singleton_Some. split; [|done]. exists []. apply lookup_singleton_eq.
  - intros i cs [<- _]%lookup_singleton_Some. exists []. apply lookup_singleton_eq.
  - by intros i j p [<- _]%lookup_singleton_Some [<- _]%lookup_singleton_Some.
  - by intros i r sz [_ ?]%lookup_singleton_Some.
  - intros i cs c [_ [= <-]]%lookup_singleton_Some ?%elem_of_nil. done.
  - intros c p n [_ E]%lookup_singleton_Some. by destruct p.
Qed.

(** What a mounted tree is: [D] gives the directories' paths, [R] the skills' directories. *)
Lemma build_tree_ok ss :
  NoDup (si_name <$> ss) → (∀ s ps, s ∈ ss → skill_file s ps → files (si_name s :: ps)) →
  ∃ t R D, build_tree ss = Returns t ∧ tree_ok 0 R t D ∧
    ∀ s ps, s ∈ ss → skill_file s ps → reaches t D 1 [] (si_name s :: ps).
Proof.
  intros Hnd Hf. destruct (add_skills_ok ss [] _ _ _ FsTree_new_ok) as (t & R & D & E & [Ht Hl Hr Hn]);
    [done|done|]. cbn [app] in *.
  destruct (ok_root _ _ _ _ Ht) as [Hroot HDroot].
  set (t' := mkTree (<[1%Z := Dir R]> (nodes t)) (path_to_inode t) (next_inode t)).
  assert (∀ i, i ≠ 1%Z → nodes t' !! i = nodes t !! i) as Hne.
  { intros i Hi. by apply lookup_insert_ne. }
  assert (nodes t' !! 1%Z = Some (Dir R)) as H1 by apply lookup_insert_eq.
  assert (extends t D t' D) as Hx.
  { split; [|split; [|done]].
    - intros i cs Hi. destruct (decide (i = 1%Z)) as [->|]; [exists R; rewrite Hroot in Hi; by injection Hi as <-|].
      exists []. rewrite app_nil_r. by rewrite Hne.
    - intros i r sz Hi. by rewrite Hne by congruence. }
  exists t', R, D. split; [|split].
  - unfold build_tree. rewrite E. cbn [bind_outcome]. by rewrite Hroot.
  - destruct Ht as [A1 A2 A3 A4 A5 A6 A7 A8 A9].
    assert (∀ i cs, nodes t !! i = Some (Dir cs) → ∃ cs', nodes t' !! i = Some (Dir cs')) as Hdir.
    { intros i cs [cs' ?]%(proj1 Hx). eauto. }
    assert (∀ c q, child_is t D c q → child_is t' D c q) as Hup.
    { intros c q [?|[? [sz ?]]]; [by left|right]. split; [done|]. exists sz. by apply Hx. }
    split; cbn [path_to_inode next_inode].
    + intros i n. destruct (decide (i = 1%Z)) as [->|]; [|rewrite Hne by done; apply A1].
      intros _. by apply A1 in Hroot.
    + done.
    + intros s i (m & Hm & Hk)%A3. destruct m as [cs|r sz].
      * apply Hdir in Hm as [cs' Hm]. by exists (Dir cs').
      * exists (File r sz). split; [by apply Hx|done].
    + intros i p Hi. destruct (A4 _ _ Hi) as ([cs [cs' ?]%Hdir] & ?). split; [|done]. by exists cs'.
    + intros i cs. destruct (decide (i = 1%Z)) as [->|]; [by exists []|]. rewrite Hne by done. apply A5.
    + done.
    + intros i r sz. destruct (decide (i = 1%Z)) as [->|]; [congruence|]. rewrite Hne by done. apply A7.
    + intros i cs c. destruct (decide (i = 1%Z)) as [->|].
      * rewrite H1. intros [= <-] Hc. destruct (Hr _ Hc) as (s & _ & HDc). exists [], (si_name s). split; [done|]. by left.
      * rewrite Hne by done. intros Hi Hc. destruct (A8 _ _ _ Hi Hc) as (p & m & Hp & Hm).
        exists p, m. auto.
    + intros c p n Hc Hp. destruct (A9 _ _ _ Hc Hp) as (i & cs & Hi & Hcs & Hin).
      destruct (proj1 Hx _ _ Hcs) as [cs' Hcs']. exists i, (cs ++ cs'). split; [done|].
      split; [done|]. apply elem_of_app. by left.
  - intros s ps Hs Hps. destruct (Hl _ Hs) as (i & Hi & HDi & Hre).
    cbn [reaches app]. exists R, i. split; [done|]. split; [done|].
    assert (ps ≠ []) as Hps'.
    { destruct Hps as [->|(f & _ & ->)]; [done|]. by destruct (split_on_cons_ne "/" (sfe_path f)) as (w & ws & ->). }
    apply Hre in Hps. destruct ps as [|q ps]; [done|]. split; [done|]. by eapply reaches_extends.
Qed.

(** ** Looking up *)

Lemma path_of_dir R t D c p :
  tree_ok 0 R t D → D !! c = Some p → p ≠ [] → path_of c t = Some (join "/" p).
Proof.
  intros Ht HD Hp. unfold path_of.
  destruct (ok_dir _ _ _ _ Ht _ _ HD) as ([cs Hcs] & _ & H). destruct (H Hp) as [_ Hpath].
  assert (path_to_inode t !! join "/" p = Some c) as Hc.
  { destruct Hpath as [[-> _]|?]; [|done]. apply (ok_next _ _ _ _ Ht) in Hcs. lia. }
  destruct (find_map _ _) as [s|] eqn:E.
  - apply find_map_Some in E as ([s' c'] & Hin & Hk). cbn in Hk.
    case_decide as Hcc; [|done]. injection Hk as ->. subst c'. apply elem_of_map_to_list in Hin.
    destruct (ok_path _ _ _ _ Ht _ _ Hin) as (n & Hn & Hk). rewrite Hcs in Hn. injection Hn as <-.
    destruct Hk as (q & Hq & _ & ->). congruence.
  - apply elem_of_map_to_list in Hc.
    destruct (find_map_is_Some (λ pi : string * Z, if decide (pi.2 = c) then Some pi.1 else None) _ _ Hc)
      as [s Hs]; [|congruence].
    cbn. rewrite decide_True by done. by eexists.
Qed.

(** A child of a directory has the last name of its path. *)
Lemma child_name_ok R t D i p cs c node :
  tree_ok 0 R t D → D !! i = Some p → nodes t !! i = Some (Dir cs) → c ∈ cs → nodes t !! c = Some node →
  ∃ n, child_name c node t = Some n ∧ slashless n ∧
    match node with
    | Dir _ => D !! c = Some (p ++ [n]) ∧ dirs (p ++ [n])
    | File r _ => r = join "/" (p ++ [n]) ∧ files (p ++ [n])
    end.
Proof.
  intros Ht HD Hcs Hc Hnode. destruct (ok_child _ _ _ _ Ht _ _ _ Hcs Hc) as (q & n & Hq & Hm).
  rewrite HD in Hq. injection Hq as <-. exists n.
  assert (p ++ [n] ≠ []) as Hne by (by destruct p).
  assert (∀ n, Forall slashless (p ++ [n]) → slashless n) as Hlast.
  { intros m [_ Hm']%Forall_app. by inversion Hm'. }
  destruct Hm as [Hm|[Hf [sz Hm]]].
  - destruct (ok_dir _ _ _ _ Ht _ _ Hm) as ([cs' Hcs'] & _ & H). destruct (H Hne) as [Hd _].
    rewrite Hnode in Hcs'. injection Hcs' as ->. destruct (dirs_names _ Hd) as [_ Hsl].
    cbn [child_name]. rewrite (path_of_dir R t D c (p ++ [n])) by done. cbn.
    rewrite base_name_join by done. auto.
  - rewrite Hnode in Hm. injection Hm as ->. destruct (files_names _ Hf) as [Hl Hsl].
    cbn [child_name]. rewrite base_name_join by done. auto.
Qed.

(** Walking from a directory by [lookup]. *)
Fixpoint walk (t : FsTree) (ino : Z) (names : list string) : option Z :=
  match names with
  | [] => Some ino
  | n :: names' => a ← res_ok (fuse_lookup ino n t); walk t (fa_ino a) names'
  end.

Lemma find_child_ok R t D i p cs n c node :
  tree_ok 0 R t D → D !! i = Some p → nodes t !! i = Some (Dir cs) → c ∈ cs →
  nodes t !! c = Some node → child_name c node t = Some n →
  ∃ c' node', find_child cs n t = Some (c', node') ∧ nodes t !! c' = Some node' ∧
    match node with
    | Dir _ => c' = c
    | File r _ => ∃ sz, node' = File r sz
    end.
Proof.
  intros Ht HD Hcs Hc Hnode Hname.
  destruct (child_name_ok R t D i p cs c node) as (n0 & E0 & _ & Hk); [done..|].
  rewrite Hname in E0. injection E0 as <-.
  set (f := λ ino, node ← nodes t !! ino;
                   if decide (child_name ino node t = Some n) then Some (ino, node) else None).
  assert (∀ ino, f ino = (node ← nodes t !! ino;
                   if decide (child_name ino node t = Some n) then Some (ino, node) else None)) as Hfe by done.
  destruct (find_map_is_Some f cs c Hc) as [[c' node'] E].
  { rewrite Hfe, Hnode. cbn. rewrite decide_True by done. by eexists. }
  exists c', node'. split; [exact E|].
  apply find_map_Some in E as (x & Hx & E). rewrite Hfe in E.
  destruct (nodes t !! x) as [nx|] eqn:Hnx; [|done]. cbn in E. case_decide as Hn'; [|done].
  injection E as -> ->. split; [done|].
  destruct (child_name_ok R t D i p cs c' node') as (n1 & E1 & _ & Hk'); [done..|].
  rewrite Hn' in E1. injection E1 as <-.
  destruct node as [cs0|r sz], node' as [cs1|r' sz'].
  - destruct Hk as [Hk _], Hk' as [Hk' _]. by eapply ok_inj.
  - destruct (no_clash (p ++ [n])); tauto.
  - destruct (no_clash (p ++ [n])); tauto.
  - destruct Hk as [-> _], Hk' as [-> _]. by eexists.
Qed.

Lemma reaches_walk R t D i p ns :
  tree_ok 0 R t D → D !! i = Some p → reaches t D i p ns →
  ∃ ino sz, walk t i ns = Some ino ∧ nodes t !! ino = Some (File (join "/" (p ++ ns)) sz).
Proof.
  intros Ht. revert i p. induction ns as [|n ns IH]; intros i p HD; [done|].
  cbn [reaches]. intros (cs & c & Hcs & Hc & H).
  assert (∃ node, nodes t !! c = Some node ∧ child_name c node t = Some n ∧
    match ns with [] => ∃ sz, node = File (join "/" (p ++ [n])) sz | _ => ∃ cs', node = Dir cs' end) as
    (node & Hnode & Hname & Hk).
  { destruct ns as [|m ns].
    - destruct H as [Hf [sz H]]. eexists. split; [done|]. split; [|by exists sz].
      cbn [child_name]. by rewrite base_name_join by apply files_names, Hf.
    - destruct H as [HDc _]. destruct (ok_dir _ _ _ _ Ht _ _ HDc) as ([cs' Hcs'] & _).
      eexists. split; [done|]. split; [|by eexists].
      destruct (child_name_ok R t D i p cs c (Dir cs')) as (n' & E & _ & Hj & _); [done..|].
      rewrite E. f_equal. rewrite HDc in Hj. injection Hj as Hj. by apply app_inj_tail in Hj as [_ ->]. }
  destruct (find_child_ok R t D i p cs n c node) as (c' & node' & Hfind & Hnode' & Hsame); [done..|].
  cbn [walk]. unfold fuse_lookup. rewrite Hcs, Hfind. destruct ns as [|m ns].
  - destruct Hk as [sz ->]. destruct Hsame as [sz' ->]. cbn. exists c', sz'. done.
  - destruct Hk as [cs' ->]. subst c'. rewrite Hnode in Hnode'. injection Hnode' as <-.
    destruct H as [HDc Hr]. destruct (IH c (p ++ [n]) HDc Hr) as (ino & sz & Hw & Hino).
    exists ino, sz. rewrite <-app_assoc in Hino. done.
Qed.

(** A walk ends at what its names say. *)
Lemma walk_sound R t D i p ns ino :
  tree_ok 0 R t D → D !! i = Some p → walk t i ns = Some ino → child_is t D ino (p ++ ns).
Proof.
  intros Ht. revert i p. induction ns as [|n ns IH]; intros i p HD.
  { intros [= <-]. left. by rewrite app_nil_r. }
  cbn [walk]. unfold fuse_lookup. destruct (ok_dir _ _ _ _ Ht _ _ HD) as ([cs Hcs] & _). rewrite Hcs.
  destruct (find_child cs n t) as [[c node]|] eqn:E; [|done]. unfold find_child in E.
  apply find_map_Some in E as (x & Hx & E). destruct (nodes t !! x) as [nx|] eqn:Hnx; [|done].
  cbn in E. case_decide as Hn; [|done]. injection E as -> ->.
  destruct (child_name_ok R t D i p cs c node) as (n1 & E1 & _ & Hk); [done..|].
  rewrite Hn in E1. injection E1 as <-. change (n :: ns) with ([n] ++ ns). rewrite app_assoc.
  destruct node as [cs'|r sz]; cbn.
  - destruct Hk as [HDc _]. by apply IH.
  - destruct Hk as [-> Hf]. destruct ns as [|m ns]; cbn; [|unfold fuse_lookup; by rewrite Hnx].
    intros [= <-]. right. rewrite app_nil_r. eauto.
Qed.
End building.

(** ** The mount of a listing *)

Section mounted.
Context (skills : list SkillInfo).

(** A path of names that is a file of the listing, and one that leads to such a file. *)
Definition listed (ns : list string) : Prop :=
  ∃ s ps, s ∈ skills ∧ skill_file s ps ∧ ns = si_name s :: ps.
Definition leads (ns : list string) : Prop := ns ≠ [] ∧ ∃ q, q ≠ [] ∧ listed (ns ++ q).

(** The names of the skills are distinct names of directories, and no file of
    a skill is also one of its directories: what a file system lists. *)
Definition listing_ok : Prop :=
  NoDup (si_name <$> skills) ∧ (∀ s, s ∈ skills → slashless (si_name s)) ∧
  ∀ s ps qs, s ∈ skills → skill_file s ps → skill_file s (ps ++ qs) → qs = [].

Lemma same_name s s' : NoDup (si_name <$> skills) → s ∈ skills → s' ∈ skills →
  si_name s = si_name s' → s = s'.
Proof.
  intros Hnd [i Hi]%list_elem_of_lookup_1 [j Hj]%list_elem_of_lookup_1 E.
  assert (i = j) as ->; [|congruence].
  eapply (NoDup_lookup _ i j (si_name s) Hnd); rewrite list_lookup_fmap; [by rewrite Hi|by rewrite Hj, E].
Qed.

Lemma skill_file_names s ps : skill_file s ps → ps ≠ [] ∧ Forall slashless ps.
Proof.
  intros [->|(f & _ & ->)].
  - split; [done|]. by repeat constructor.
  - split; [by destruct (split_on_cons_ne "/" (sfe_path f)) as (w & ws & ->)|].
    apply Forall_forall. intros w. apply split_on_slashless.
Qed.

Lemma listed_names ns : listing_ok → listed ns → 2 ≤ length ns ∧ Forall slashless ns.
Proof.
  intros (_ & Hsl & _) (s & ps & Hs & Hps & ->). destruct (skill_file_names _ _ Hps) as [Hne Hps'].
  split; [destruct ps; [done|cbn; lia]|]. constructor; [by apply Hsl|done].
Qed.

Lemma leads_listed ns : listing_ok → leads ns → listed ns → False.
Proof.
  intros (Hnd & _ & Hpre) (_ & q & Hq & (s & ps & Hs & Hps & E)) (s' & ps' & Hs' & Hps' & ->).
  cbn in E. injection E as En Ep. rewrite (same_name s' s Hnd) in * by done. subst ps.
  by apply (Hpre s ps' q) in Hps'.
Qed.

Lemma leads_names ns : listing_ok → leads ns → ns ≠ [] ∧ Forall slashless ns.
Proof.
  intros Hok (Hne & q & _ & Hl). split; [done|]. apply listed_names in Hl as [_ Hl]; [|done].
  by apply Forall_app in Hl as [? _].
Qed.

Lemma build_listed :
  listing_ok → ∃ t R D, build_tree skills = Returns t ∧ tree_ok leads listed 0 R t D ∧
    ∀ ns, listed ns → reaches listed t D 1 [] ns.
Proof.
  intros Hok. destruct (build_tree_ok leads listed) with (ss := skills) as (t & R & D & E & Ht & Hr).
  - intros p. by apply leads_listed.
  - intros p. by apply leads_names.
  - intros p. by apply listed_names.
  - intros p q Hp Hq Hf. split; [done|]. by exists q.
  - apply Hok.
  - intros s ps Hs Hps. by exists s, ps.
  - exists t, R, D. split; [done|]. split; [done|]. intros ns (s & ps & Hs & Hps & ->). by apply Hr.
Qed.

(** Mounting a listing never panics, and looking the names of a path up one
    after the other ends at a file exactly when the path is listed. *)
Theorem mount_serves_listing :
  listing_ok →
  ∃ t, build_tree skills = Returns t ∧
    ∀ ns, listed ns ↔ ∃ ino sz, walk t 1 ns = Some ino ∧ nodes t !! ino = Some (File (join "/" ns) sz).
Proof.
  intros Hok. destruct (build_listed Hok) as (t & R & D & E & Ht & Hr). exists t. split; [done|].
  destruct (ok_root _ _ _ _ _ _ Ht) as [_ HD]. intros ns. split.
  - intros Hl%Hr. apply (reaches_walk leads listed) with (R := R) (D := D) (p := []) in Hl; try done.
    + intros p. by apply leads_listed.
    + intros p. by apply leads_names.
    + intros p. by apply listed_names.
  - intros (ino & sz & Hw & Hino). apply (walk_sound leads listed) with (R := R) (D := D) (p := []) in Hw; try done.
    + destruct Hw as [HDi|[? _]]; [|done]. by destruct (ok_dir _ _ _ _ _ _ Ht _ _ HDi) as ([cs ?] & _); congruence.
    + intros p. by apply leads_names.
    + intros p. by apply listed_names.
Qed.
End mounted.

(** * Reading *)

Section reading.
Context `{!FromValue SkillsReadResponse}.
Context (ask : Value → result Value string).

(** What the gateway answers for a path. *)
Definition ask_file (rel_path : string) : result bytes Errno := (fetch_file ask rel_path ∅).2.

(** Cached contents are answers of the gateway. *)
Definition cache_ok (cache : gmap string bytes) : Prop :=
  ∀ p data, cache !! p = Some data → ask_file p = Ok data.

Lemma fetch_file_ok p cache :
  cache_ok cache → (fetch_file ask p cache).2 = ask_file p ∧ cache_ok (fetch_file ask p cache).1.
Proof.
  intros Hc. unfold ask_file, fetch_file. rewrite lookup_empty.
  destruct (cache !! p) as [data|] eqn:E.
  - apply Hc in E. unfold ask_file, fetch_file in E. by rewrite lookup_empty in E.
  - destruct (ask _) as [resp|e] eqn:Ea; [|done]. destruct (from_value resp) as [parsed|e] eqn:Ef; [|done].
    split; [done|]. cbn. intros q d [[<- <-]|[_ Hq]]%lookup_insert_Some; [|by apply Hc].
    unfold ask_file, fetch_file. by rewrite lookup_empty, Ea, Ef.
Qed.

(** A read of a file node gives the requested slice of what the gateway has,
    whatever was read before; the cache keeps only answers of the gateway. *)
Theorem fuse_read_functional ino offset size t cache r sz :
  nodes t !! ino = Some (File r sz) → cache_ok cache →
  (0 ≤ offset < 2 ^ 63)%Z → (0 ≤ size < 2 ^ 32)%Z →
  (fuse_read ask ino offset size t cache).2
    = res_map (λ data, take (Z.to_nat size) (drop (Z.to_nat offset) data)) (ask_file r) ∧
  cache_ok (fuse_read ask ino offset size t cache).1.
Proof.
  intros Hn Hc Ho Hs. destruct (fetch_file_ok r cache Hc) as [E Hc']. unfold fuse_read. rewrite Hn.
  destruct (fetch_file ask r cache) as [cache' [data|e]]; cbn in E, Hc'; rewrite <-E; [|done].
  cbn [res_map]. rewrite Z.max_l, wrap_u64_small by lia. unfold len.
  case_decide as Hl; cbn; (split; [|done]); f_equal.
  - by rewrite drop_ge, take_nil by lia.
  - apply list_eq. intros i. rewrite !lookup_take, !lookup_drop. repeat case_decide; [done| | |done].
    + lia.
    + symmetry. apply lookup_ge_None. lia.
Qed.
End reading.

(** * Listing a directory *)

(** The pages of a directory: each call goes on at the offset of the last entry
    it was given, with room for so many. *)
Fixpoint read_pages (ino offset : Z) (rooms : list nat) (t : FsTree) : list (Z * FileType * string) :=
  match rooms with
  | [] => []
  | room :: rooms' =>
      match fuse_readdir ino offset room t with
      | Ok page => page.*2 ++ read_pages ino (default offset (fst <$> last page)) rooms' t
      | Err _ => []
      end
  end.


Lemma page_entries {A} (l : list A) (k room : nat) :
  (take room (drop k (imap (λ i e, ((Z.of_nat i + 1)%Z, e)) l))).*2 = take room (drop k l).
Proof.
  apply list_eq. intros i. rewrite list_lookup_fmap, !lookup_take. case_decide; [|done].
  rewrite !lookup_drop, list_lookup_imap. by destruct (l !! (k + i)).
Qed.

Lemma page_last {A} (l : list A) (k room : nat) :
  k ≤ length l →
  default (Z.of_nat k) (fst <$> last (take room (drop k (imap (λ i e, ((Z.of_nat i + 1)%Z, e)) l))))
  = Z.of_nat (min (k + room) (length l)).
Proof.
  intros Hk. rewrite last_lookup, length_take, length_drop, length_imap.
  destruct (decide (room = 0 ∨ k = length l)) as [H|H].
  - rewrite lookup_ge_None_2; cbn; [|rewrite length_take, length_drop, length_imap]; lia.
  - rewrite lookup_take, decide_True by lia. rewrite lookup_drop, list_lookup_imap.
    destruct (l !! _) eqn:E; cbn; [lia|]. apply lookup_ge_None in E. lia.
Qed.

Lemma read_pages_from ino cs rooms t k :
  nodes t !! ino = Some (Dir cs) → k ≤ length (dir_entries ino cs t) →
  (len (dir_entries ino cs t) < 2 ^ 63)%Z →
  read_pages ino (Z.of_nat k) rooms t = take (sum_list rooms) (drop k (dir_entries ino cs t)).
Proof.
  intros Hn Hk Hmax. revert k Hk. induction rooms as [|room rooms IH]; intros k Hk; [done|].
  cbn [read_pages]. unfold fuse_readdir. rewrite Hn, page_entries.
  unfold len in Hmax. rewrite wrap_u64_small, Nat2Z.id by lia. rewrite page_last by done.
  rewrite IH by lia. set (l := dir_entries ino cs t) in *.
  change (sum_list (room :: rooms)) with (room + sum_list rooms).
  rewrite <-take_take_drop, drop_drop. f_equal. f_equal.
  destruct (decide (k + room ≤ length l)); [by rewrite Nat.min_l by lia|].
  rewrite Nat.min_r, !drop_ge by lia. done.
Qed.

(** However the kernel cuts a listing into pages, it gets every entry once, in
    order. *)
Theorem readdir_pages_complete ino cs rooms t :
  nodes t !! ino = Some (Dir cs) → (len (dir_entries ino cs t) < 2 ^ 63)%Z →
  length (dir_entries ino cs t) ≤ sum_list rooms →
  read_pages ino 0 rooms t = dir_entries ino cs t.
Proof.
  intros Hn Hmax Hr. change 0%Z with (Z.of_nat 0). rewrite (read_pages_from ino cs) by (done || lia).
  by rewrite drop_0, take_ge.
Qed.

(** * The mount and the gateway's service *)

(** A name a path can be made of: not empty, no [.] or [..]. *)
Definition plain (n : string) : Prop := n ≠ "" ∧ n ≠ "." ∧ n ≠ "..".

Lemma is_absolute_split p : is_absolute p = true → ∃ ws, split_on "/" p = "" :: ws.
Proof.
  unfold is_absolute. rewrite starts_with_iff. intros [r ->].
  change ("/" +:+ r) with ("" +:+ String "/" r). rewrite split_on_app. by eexists.
Qed.

Lemma segment_plain n : plain n → segment n = [Normal n].
Proof. intros (? & ? & ?). unfold segment. by rewrite !decide_False. Qed.

Lemma plain_path ns :
  ns ≠ [] → Forall slashless ns → Forall plain ns →
  is_absolute (join "/" ns) = false ∧ components (join "/" ns) = map Normal ns.
Proof.
  intros Hne Hsl Hpl.
  assert (is_absolute (join "/" ns) = false) as Habs.
  { destruct (is_absolute _) eqn:E; [|done]. apply is_absolute_split in E as [ws E].
    rewrite split_on_join in E by done. subst ns. by inversion Hpl as [|? ? [? _]]. }
  split; [done|]. unfold components. rewrite Habs, split_on_join by done.
  destruct ns as [|n ns]; [done|]. inversion Hpl as [|? ? Hn _]; subst.
  destruct Hn as (_ & Hdot & _). rewrite decide_False by done. rewrite app_nil_l.
  clear Hne Hsl Habs Hdot. induction Hpl as [|m ms Hm Hms IH]; [done|].
  cbn [flat_map map]. by rewrite segment_plain, IH.
Qed.

Section end_to_end.
Context {HF : HostFs}.
Context `{!FromValue SkillsReadResponse, !FromValue SkillsReadParams}.
Context (ext_list : SkillsListResponse → result Value string)
  (ext_read : SkillsReadResponse → result Value string).
Context (fuel : nat) (skills_dir : string).

(** The mount's requests are answered by the gateway's service. *)
Definition ask_service (params : Value) : result Value string :=
  default (Err "")
    (handle_agent_request ext_list ext_read fuel skills_dir "skills/read" (Some params)).

(** What the two sides write, the other reads. *)
Hypothesis params_serde : ∀ p, from_value (VMap [(VStr "path", VStr p)]) = Ok (mkSkillsReadParams p).
Hypothesis response_serde : ∀ r, ∃ v, ext_read r = Ok v ∧ from_value v = Ok r.

Lemma ask_service_file p :
  ask_file ask_service p =
    match skills_read skills_dir (mkSkillsReadParams p) with
    | Ok r => Ok (srr_data r)
    | Err _ => Err EIO
    end.
Proof.
  unfold ask_file, fetch_file, ask_service, handle_agent_request. rewrite lookup_empty.
  rewrite decide_False, decide_True by done. cbn. rewrite params_serde. cbn.
  destruct (skills_read _ _) as [r|e]; cbn; [|done].
  destruct (response_serde r) as (v & -> & Hv). cbn. by rewrite Hv.
Qed.

(** C28: Through the mount an agent reads the files of the gateway's host: walking
    to a listed file and reading from it gives the slice of that file of the
    skills directory, and [EIO] when the host cannot read it. *)
Theorem mount_reads_host_files skills ns offset size cache :
  listing_ok skills → listed skills ns → Forall plain ns → cache_ok ask_service cache →
  (0 ≤ offset < 2 ^ 63)%Z → (0 ≤ size < 2 ^ 32)%Z →
  ∃ t ino, build_tree skills = Returns t ∧ walk t 1 ns = Some ino ∧
    (fuse_read ask_service ino offset size t cache).2 =
      match read_file (path_join skills_dir (join "/" ns)) with
      | Ok data => Ok (take (Z.to_nat size) (drop (Z.to_nat offset) data))
      | Err _ => Err EIO
      end.
Proof.
  intros Hok Hl Hpl Hc Ho Hs. destruct (build_listed skills Hok) as (t & R & D & E & Ht & Hr).
  destruct (listed_names skills ns Hok Hl) as [Hlen Hsl].
  destruct (reaches_walk (leads skills) (listed skills)) with (R := R) (t := t) (D := D) (i := 1%Z)
    (p := @nil string) (ns := ns) as (ino & sz & Hw & Hino).
  1: by intros p; apply leads_listed.
  1: by intros p; apply leads_names.
  1: by intros p; apply listed_names.
  1: done.
  1: apply (ok_root _ _ _ _ _ _ Ht).
  1: by apply Hr.
  exists t, ino. split; [done|]. split; [done|]. cbn [app] in Hino.
  destruct (plain_path ns) as [Habs Hcomp]; [intros ->; cbn in Hlen; lia|done|done|].
  assert (∀ cache', cache_ok ask_service cache' → (fetch_file ask_service (join "/" ns) cache').2
    = match read_file (path_join skills_dir (join "/" ns)) with Ok d => Ok d | Err _ => Err EIO end) as Hfetch.
  { intros cache' Hc'. destruct (fetch_file_ok ask_service (join "/" ns) cache' Hc') as [-> _].
    rewrite ask_service_file. unfold skills_read.
    assert (read_target skills_dir (mkSkillsReadParams (join "/" ns))
      = Ok (path_join skills_dir (join "/" ns))) as -> by (apply read_target_Ok; eauto).
    cbn. by destruct (read_file _). }
  destruct (fuse_read_functional ask_service ino offset size t cache _ sz Hino Hc Ho Hs) as [-> _].
  rewrite <-(proj1 (fetch_file_ok ask_service (join "/" ns) cache Hc)), Hfetch by done.
  by destruct (read_file _).
Qed.
End end_to_end.

(** ** Witness: a skill with a file in a directory *)

Module SampleMount.
Definition skills : list SkillInfo :=
  [mkSkillInfo "jina" "reader" [mkSkillFileEntry "SKILL.md" 3; mkSkillFileEntry "bin/run.sh" 5]].

#[local] Instance host : HostFs := {|
  read_dir p := Ok [];
  is_dir p := false;
  is_file p := false;
  entry_len p := None;
  read_file p := if decide (p = "/skills/jina/bin/run.sh") then Ok [x41; x42; x43; x44; x45]
                 else Err "not found";
  read_to_string p := Err "not found";
|}.

#[local] Instance params_from : FromValue SkillsReadParams := λ v,
  match v with VMap [(VStr "path", VStr p)] => Ok (mkSkillsReadParams p) | _ => Err "params" end.
#[local] Instance response_from : FromValue SkillsReadResponse := λ v,
  match v with VBin d => Ok (mkSkillsReadResponse d) | _ => Err "response" end.
Definition ext_list (r : SkillsListResponse) : result Value string := Ok VNil.
Definition ext_read (r : SkillsReadResponse) : result Value string := Ok (VBin (srr_data r)).

Lemma sample_listing_ok : listing_ok skills.
Proof.
  assert (∀ s ps, s ∈ skills → skill_file s ps → ps = ["SKILL.md"] ∨ ps = ["bin"; "run.sh"]) as H.
  { intros s ps ->%list_elem_of_singleton [->|(f & Hf & ->)]; [by left|].
    apply elem_of_cons in Hf as [->|Hf]; [by left|].
    apply list_elem_of_singleton in Hf as ->. by right. }
  split; [apply NoDup_singleton|]. split; [by intros s ->%list_elem_of_singleton|].
  intros s ps qs Hs H1 H2. apply (H _ _ Hs) in H1. apply (H _ _ Hs) in H2.
  destruct H1 as [-> | ->], H2 as [E|E]; destruct qs; by simplify_eq/=.
Qed.

Lemma sample_listed : listed skills ["jina"; "bin"; "run.sh"].
Proof.
  eexists _, ["bin"; "run.sh"]. split; [by left|]. split; [|done]. right.
  exists (mkSkillFileEntry "bin/run.sh" 5). split; [right; by left|done].
Qed.

Lemma mount_serves_listing_witness :
  listing_ok skills ∧
  ∃ t, build_tree skills = Returns t ∧
    ∀ ns, listed skills ns ↔
      ∃ ino sz, walk t 1 ns = Some ino ∧ nodes t !! ino = Some (File (join "/" ns) sz).
Proof. split; [apply sample_listing_ok|]. apply (mount_serves_listing skills sample_listing_ok). Defined.

Lemma mount_reads_host_files_witness :
  ∃ t ino, build_tree skills = Returns t ∧ walk t 1 ["jina"; "bin"; "run.sh"] = Some ino ∧
    (fuse_read (ask_service ext_list ext_read 5 "/skills") ino 1 3 t ∅).2 = Ok [x42; x43; x44].
Proof.
  destruct (mount_reads_host_files ext_list ext_read 5 "/skills") with
    (skills := skills) (ns := ["jina"; "bin"; "run.sh"]) (offset := 1%Z) (size := 3%Z)
    (cache := @empty (gmap string bytes) _) as (t & ino & Hb & Hw & Hr).
  - done.
  - intros r. exists (VBin (srr_data r)). split; [done|by destruct r].
  - apply sample_listing_ok.
  - apply sample_listed.
  - by repeat constructor.
  - by intros p d ?%lookup_empty_Some.
  - lia.
  - lia.
  - exists t, ino. split; [exact Hb|]. split; [exact Hw|]. rewrite Hr. by vm_compute.
Defined.

(** A [SKILL.md] that is listed is shown twice. *)
Example skill_md_listed_twice :
  match build_tree skills with
  | Returns t => (dir_entries 2 [3; 4; 6]%Z t).*2
  | Panics => []
  end = ["."; ".."; "SKILL.md"; "bin"; "SKILL.md"] ∧
  match build_tree skills with Returns t => nodes t !! 2%Z | Panics => None end = Some (Dir [3; 4; 6]%Z).
Proof. by vm_compute. Qed.

Definition tree : FsTree := match build_tree skills with Returns t => t | Panics => FsTree_new end.

Lemma readdir_pages_complete_witness :
  read_pages 2 0 [2; 1; 2; 4] tree = dir_entries 2 [3; 4; 6]%Z tree.
Proof.
  apply (readdir_pages_complete 2 [3; 4; 6]%Z [2; 1; 2; 4] tree).
  - by vm_compute.
  - by vm_compute.
  - apply Nat.leb_le. by vm_compute.
Defined.
End SampleMount.
