(* ===== verification/Listener.v ===== *)
(** The frontend listeners: [nexal-gateway/src/server.rs].  One TCP port
    answers health checks in plain HTTP and WebSocket upgrades; the listener
    reads the request head to tell them apart and replays it to the WebSocket
    handshake.  A Unix socket carries frames without HTTP. *)
From S2P Require Import Prelude Paths Wire Methods GatewayWire Backend Registry Session AgentFs.
Open Scope nexal_scope.

(** * The bytes of a connection *)

(** After its last byte a connection is closed, fails, or stays silent. *)
Inductive ending := Eof | Failed | Silent.

Definition text (s : string) : bytes := String.list_byte_of_string s.

(** What a client sends: [input], then [ending]. *)
Record Stream := mkStream { input : string; after : ending }.

(** Up to the first newline, with it. *)
Definition take_line (s : string) : option (string * string) :=
  match split_once (chr 10) s with
  | Some (l, rest) => Some (l +:+ newline, rest)
  | None => None
  end.

(** [AsyncBufReadExt::read_line]: the line and what follows it; [None] if it
    waits.  The bytes of a line that is not UTF-8 are consumed. *)
Definition read_line (st : Stream) : option (result string unit * Stream) :=
  let checked l := if valid_utf8 l then Ok l else Err tt in
  match take_line (input st) with
  | Some (l, rest) => Some (checked l, mkStream rest (after st))
  | None =>
      match after st with
      | Eof => Some (checked (input st), mkStream "" Eof)
      | Failed => Some (Err tt, mkStream "" Failed)
      | Silent => None
      end
  end.

(** * The request head *)

Definition crlf : string := String (chr 13) newline.

Definition upgrade_line : string := "upgrade: websocket" +:+ crlf.

(** The header lines read so far, whether one asks for a WebSocket, and the
    rest of the connection. *)
Record Head := mkHead { headers : string; is_ws : bool; unread : Stream }.

Inductive inspection := Waiting | Inspected (h : Head) | OutOfFuel.

(** [fuel] bounds the lines; a head has at most one more than its bytes. *)
(* @src crates/nexal-gateway/src/server.rs serve "let mut headers = Vec::new();" .. "if is_ws {" *)
Fixpoint inspect_loop (fuel : nat) (h : Head) : inspection :=
  match fuel with
  | O => OutOfFuel
  | S fuel' =>
      match read_line (unread h) with
      | None => Waiting
      | Some (Err _, rest) => Inspected (mkHead (headers h) (is_ws h) rest)
      | Some (Ok line, rest) =>
          if String.eqb line "" then Inspected (mkHead (headers h) (is_ws h) rest)
          else
            let h := mkHead (headers h +:+ line)
                            (if eq_ignore_ascii_case line upgrade_line then true else is_ws h) rest in
            if String.eqb line crlf then Inspected h else inspect_loop fuel' h
      end
  end.

Definition inspect (st : Stream) : inspection :=
  inspect_loop (2 + String.length (input st)) (mkHead "" false st).

(** * Replaying the head *)

(** The outcome of one poll of a reader. *)
Inductive poll_read_result := Ready (r : result bytes unit) | Pending.

Section prefixed.
(** A reader: its answer to a poll with room for so many bytes. *)
Context {R : Type} (inner_poll : nat → R → R * poll_read_result).

(* @src crates/nexal-gateway/src/server.rs PrefixedStream *)
Record PrefixedStream := mkPrefixed { prefix : bytes; position : nat; inner : R }.

(* @src crates/nexal-gateway/src/server.rs poll_read *)
Definition poll_read (room : nat) (s : PrefixedStream) : PrefixedStream * poll_read_result :=
  if decide (position s < length (prefix s)) then
    let remaining := drop (position s) (prefix s) in
    let n := min (length remaining) room in
    (mkPrefixed (prefix s) (position s + n) (inner s), Ready (Ok (take n remaining)))
  else
    let '(i, r) := inner_poll room (inner s) in
    (mkPrefixed (prefix s) (position s) i, r).
End prefixed.
Arguments mkPrefixed {R}.
Arguments prefix {R}.
Arguments position {R}.
Arguments inner {R}.

(** A socket: the bytes to come, how they end, and how many of them are there
    at each poll. *)
Record Socket := mkSocket { to_come : bytes; so_after : ending; arrivals : list nat }.

Definition socket_poll (room : nat) (s : Socket) : Socket * poll_read_result :=
  match to_come s with
  | [] =>
      (s, match so_after s with Eof => Ready (Ok []) | Failed => Ready (Err tt) | Silent => Pending end)
  | bs =>
      let there := default 0 (head (arrivals s)) in
      let s' k := mkSocket (drop k bs) (so_after s) (tail (arrivals s)) in
      if decide (there = 0) then (s' 0, Pending)
      else let n := min there room in (s' n, Ready (Ok (take n bs)))
  end.

Definition socket_of (st : Stream) (arrivals : list nat) : Socket :=
  mkSocket (text (input st)) (after st) arrivals.

(** The polls of a consumer with room for these many bytes each. *)
Fixpoint poll_all (rooms : list nat) (s : PrefixedStream) : PrefixedStream * list poll_read_result :=
  match rooms with
  | [] => (s, [])
  | room :: rooms' =>
      let '(s, r) := poll_read socket_poll room s in
      let '(s, rs) := poll_all rooms' s in (s, r :: rs)
  end.

Definition bytes_of (r : poll_read_result) : bytes :=
  match r with Ready (Ok bs) => bs | _ => [] end.

(** Bytes not yet read. *)
Definition left_over (s : PrefixedStream (R := Socket)) : bytes :=
  drop (position s) (prefix s) ++ to_come (inner s).

(** * The tasks *)

Definition health_reply : string :=
  "HTTP/1.1 200 OK" +:+ crlf +:+ "Content-Length: 2" +:+ crlf +:+ crlf +:+ "OK".

(** How the task of a connection ends. *)
Inductive task_end (W : Type) :=
  | StillReading
  | HealthChecked (reply : string)
  | HandshakeFailed
  | SessionEnded (o : outcome (Session W)).
Arguments StillReading {W}.
Arguments HealthChecked {W}.
Arguments HandshakeFailed {W}.
Arguments SessionEnded {W}.

Section tasks.
Context (hmac_verify : string → string → bytes → bool).
Context {W : Type} {HB : ContainerBackend W} {HL : AgentLink W}.
Context (cfg : ServerConfig) (d : SpawnDefaults) (gateway_version : string).
Context {FReq : FromValue JsonRpcRequest} {FHello : FromValue HelloParams}
  {FSpawn : FromValue SpawnAgentParams} {FId : FromValue AgentIdParams}
  {FAttach : FromValue AttachAgentParams} {FInvoke : FromValue AgentInvokeParams}
  {FReg : FromValue RegisterProxyParams} {FUnreg : FromValue UnregisterProxyParams}
  {FRegS : FromValue RegisterStreamProxyParams} {FUnregS : FromValue UnregisterStreamProxyParams}.
(** The WebSocket handshake over a stream, and the events of the channel made
    of it. *)
Context (accept_async : PrefixedStream (R := Socket) → result (list session_event) string).

Abbreviation run := (run_session hmac_verify cfg d gateway_version).

(* @src crates/nexal-gateway/src/server/session.rs from_conn *)
Definition from_conn (nonces : NonceCache) (r : AgentRegistry W) : Session W :=
  mkSession false nonces r [].

(** The task of one TCP connection; [arrivals] is how its bytes arrive. *)
(* @src crates/nexal-gateway/src/server.rs serve "let mut buf = BufReader::new(stream);" .. "debug!(" *)
Definition tcp_task (st : Stream) (arrivals : list nat) (nonces : NonceCache) (r : AgentRegistry W)
    : task_end W :=
  match inspect st with
  | Waiting | OutOfFuel => StillReading
  | Inspected h =>
      if is_ws h then
        match accept_async (mkPrefixed (text (headers h)) 0 (socket_of (unread h) arrivals)) with
        | Err _ => HandshakeFailed
        | Ok events => SessionEnded (run events (from_conn nonces r))
        end
      else HealthChecked health_reply
  end.

(** [events] are those of the length-prefixed channel on the stream. *)
(* @src crates/nexal-gateway/src/server.rs handle_unix_stream *)
Definition handle_unix_stream (events : list session_event) (nonces : NonceCache) (r : AgentRegistry W)
    : outcome (Session W) :=
  run events (from_conn nonces r).
End tasks.

(** * Accepting *)

(** The part of [ServerConfig] the listener reads itself. *)
Record Listen := mkListen { listen : string; unix : option string }.

Section serve.
Context {FS : Type} {HO : Os FS}.
(** Binding a socket, and what its accepts give from then on. *)
Context {C : Type} (bind_unix bind_tcp : string → FS → FS * result (list (result C string)) string)
  (to_io : IoError → string).

(** A failed accept is logged and the loop goes on. *)
Definition accepted (l : list (result C string)) : list C := omap res_ok l.

(** The connections a task is started for. *)
(* @src crates/nexal-gateway/src/server.rs serve "if let Some(ref path) = cfg.unix" .. "let (stream, remote_addr)" *)
Definition serve (l : Listen) (fs : FS) : FS * result (list C) string :=
  match unix l with
  | Some path =>
      let '(fs, _) := os_remove_file path fs in
      let '(fs, made) :=
        match parent path with
        | Some dir => os_create_dir_all dir fs
        | None => (fs, Ok tt)
        end in
      match made with
      | Err e => (fs, Err (to_io e))
      | Ok _ => let '(fs, r) := bind_unix path fs in (fs, res_map accepted r)
      end
  | None => let '(fs, r) := bind_tcp (listen l) fs in (fs, res_map accepted r)
  end.
End serve.

(** * Lemmas on lines *)

Definition cat (ls : list string) : string := foldr String.append "" ls.

(** A complete line of a head, its newline included, other than the last. *)
Definition header_line (l : string) : bool :=
  bool_decide (take_line l = Some (l, "")) && valid_utf8 l && negb (String.eqb l crlf).

Definition asks_upgrade (l : string) : bool := eq_ignore_ascii_case l upgrade_line.

Lemma split_once_app c s a b t :
  split_once c s = Some (a, b) → split_once c (s +:+ t) = Some (a, b +:+ t).
Proof.
  revert a b. induction s as [|x s IH]; intros a b H; [done|].
  rewrite string_app_cons. cbn in *. destruct (Ascii.eqb x c); [by injection H as <- <-|].
  destruct (split_once c s) as [[l r]|]; [|done]. injection H as <- <-. by rewrite (IH l r eq_refl).
Qed.

Lemma take_line_app l t : take_line l = Some (l, "") → take_line (l +:+ t) = Some (l, t).
Proof.
  unfold take_line. destruct (split_once (chr 10) l) as [[a b]|] eqn:E; [|done].
  rewrite (split_once_app _ _ _ _ t E). intros [= Ha ->]. by rewrite Ha.
Qed.

Lemma split_once_join c s a b :
  split_once c s = Some (a, b) → s = a +:+ String c "" +:+ b.
Proof.
  revert a. induction s as [|x s IH]; intros a H; [done|]. cbn in H.
  destruct (Ascii.eqb_spec x c) as [->|]; [by injection H as <- <-|].
  destruct (split_once c s) as [[l r]|]; [|done]. injection H as <- <-.
  rewrite string_app_cons. f_equal. by apply IH.
Qed.

Lemma take_line_Some s l rest : take_line s = Some (l, rest) → s = l +:+ rest ∧ l ≠ "".
Proof.
  unfold take_line. destruct (split_once (chr 10) s) as [[a b]|] eqn:E; [|done].
  intros [= <- <-]. apply split_once_join in E. split; [by rewrite string_app_assoc|].
  by destruct a.
Qed.

Lemma string_length_pos s : s ≠ "" → (0 < String.length s)%nat.
Proof. destruct s; [done|cbn; lia]. Qed.

(** A read takes bytes off the stream; those of a good line are the line. *)
Lemma read_line_Some st r st' :
  read_line st = Some (r, st') →
  after st' = after st ∧
  ∃ l, input st = l +:+ input st' ∧
    match r with
    | Ok line => line = l
    | Err _ => valid_utf8 l = false ∨ after st = Failed
    end.
Proof.
  unfold read_line. cbv zeta. intros H.
  destruct (take_line (input st)) as [[l rest]|] eqn:E.
  - injection H as <- <-. apply take_line_Some in E as [E _]. split; [done|]. exists l.
    split; [done|]. destruct (valid_utf8 l) eqn:V; [done|by left].
  - destruct (after st) eqn:Ea; [| |done]; injection H as <- <-; (split; [done|]);
      exists (input st); cbn; rewrite string_app_nil_r; (split; [done|]); [|by right].
    destruct (valid_utf8 (input st)) eqn:V; [done|by left].
Qed.

Lemma read_line_None st : read_line st = None → after st = Silent.
Proof.
  unfold read_line. cbv zeta. destruct (take_line (input st)) as [[]|]; [done|].
  by destruct (after st).
Qed.

Lemma inspect_loop_accounts fuel h :
  (String.length (input (unread h)) < fuel)%nat →
  match inspect_loop fuel h with
  | OutOfFuel => False
  | Waiting => after (unread h) = Silent
  | Inspected h' =>
      after (unread h') = after (unread h) ∧
      ∃ kept lost, input (unread h) = kept +:+ lost +:+ input (unread h') ∧
        headers h' = headers h +:+ kept ∧
        (lost = "" ∨ valid_utf8 lost = false ∨ after (unread h) = Failed)
  end.
Proof.
  revert h. induction fuel as [|fuel IH]; intros h Hf; [lia|]. cbn [inspect_loop].
  destruct (read_line (unread h)) as [[[line|u] rest]|] eqn:E; [| |by apply read_line_None].
  - apply read_line_Some in E as (Ha & l & Hi & ->). destruct (String.eqb_spec l "") as [->|Hl].
    + split; [done|]. exists "", "". rewrite string_app_nil_r. rewrite Hi. split_and!; auto.
    + cbv zeta. destruct (String.eqb l crlf).
      * split; [done|]. exists l, "". cbn. split_and!; auto.
      * assert (Hr : (String.length (input rest) < fuel)%nat).
        { rewrite Hi, string_length_app in Hf. apply string_length_pos in Hl. lia. }
        set (h1 := mkHead (headers h +:+ l) _ rest). specialize (IH h1 Hr). cbn in IH.
        destruct (inspect_loop fuel h1) as [|h2|]; [by rewrite <- Ha| |done].
        destruct IH as (Hb & kept & lost & Hk & Hh & Hl2). split; [by rewrite Hb|].
        exists (l +:+ kept), lost. rewrite Hi, Hk, Hh, !string_app_assoc, <- Ha. done.
  - apply read_line_Some in E as (Ha & l & Hi & Hl). split; [done|]. exists "", l. cbn.
    rewrite string_app_nil_r. split_and!; auto.
Qed.

Lemma inspect_loop_lines ls b hd rest e fuel :
  forallb header_line ls = true → (length ls < fuel)%nat →
  inspect_loop fuel (mkHead hd b (mkStream (cat ls +:+ crlf +:+ rest) e)) =
    Inspected (mkHead (hd +:+ cat ls +:+ crlf) (b || existsb asks_upgrade ls) (mkStream rest e)).
Proof.
  revert b hd fuel. induction ls as [|l ls IH]; intros b hd [|fuel] Hl Hf; try (cbn in Hf; lia).
  - cbn [cat foldr]. rewrite !string_app_nil_l. cbn [inspect_loop unread].
    assert (R : read_line (mkStream (crlf +:+ rest) e) = Some (Ok crlf, mkStream rest e))
      by (unfold read_line; cbn [input after]; by rewrite (take_line_app crlf rest eq_refl)).
    rewrite R. cbn. by rewrite orb_false_r.
  - cbn [forallb] in Hl. apply andb_prop in Hl as [Hl Hls].
    apply andb_prop in Hl as [[Ht Hv]%andb_prop Hc]. apply bool_decide_eq_true in Ht.
    cbn [cat foldr]. fold (cat ls). rewrite !string_app_assoc. cbn [inspect_loop unread].
    unfold read_line at 1. cbn [input after]. rewrite (take_line_app _ _ Ht). cbv zeta. rewrite Hv.
    destruct (String.eqb_spec l "") as [->|_]; [done|].
    apply negb_true_iff in Hc. rewrite Hc. cbn [headers is_ws].
    rewrite IH; [|done|cbn in Hf; lia]. rewrite !string_app_assoc. cbn [existsb].
    assert ((if eq_ignore_ascii_case l upgrade_line then true else b) = b || asks_upgrade l) as ->
      by (unfold asks_upgrade; by destruct (eq_ignore_ascii_case l upgrade_line), b).
    by rewrite orb_assoc.
Qed.

(** * Lemmas on polls *)

Lemma socket_poll_bytes room s s' r :
  socket_poll room s = (s', r) →
  bytes_of r ++ to_come s' = to_come s ∧ so_after s' = so_after s ∧
  (r = Ready (Ok []) → (0 < room)%nat → to_come s = [] ∧ so_after s = Eof).
Proof.
  unfold socket_poll. destruct (to_come s) as [|b bs] eqn:E.
  - intros [= <- <-]. rewrite E. by destruct (so_after s).
  - cbv zeta. case_decide as Ht; intros [= <- <-]; cbn [bytes_of to_come so_after]; [done|].
    split; [apply take_drop|]. split; [done|]. intros [= Hr] H0. exfalso.
    assert (min (default 0 (head (arrivals s))) room = 0) as Hm; [|lia].
    by destruct (min (default 0 (head (arrivals s))) room).
Qed.

Lemma poll_read_bytes room s s' r :
  poll_read socket_poll room s = (s', r) →
  bytes_of r ++ left_over s' = left_over s ∧ so_after (inner s') = so_after (inner s) ∧
  (r = Ready (Ok []) → (0 < room)%nat → left_over s = [] ∧ so_after (inner s) = Eof).
Proof.
  unfold poll_read, left_over. case_decide as Hp; cbv zeta.
  - intros [= <- <-]. cbn [bytes_of prefix position inner].
    set (rem := drop (position s) (prefix s)).
    assert (Hl : length rem = length (prefix s) - position s) by apply length_drop.
    split; [|split; [done|]].
    + rewrite <- drop_drop. fold rem. rewrite app_assoc. f_equal. rewrite Nat.min_comm.
      destruct (Nat.le_gt_cases room (length rem)) as [H|H].
      * rewrite Nat.min_l by done. apply take_drop.
      * rewrite Nat.min_r by lia. apply take_drop.
    + intros [= H] H0. apply (f_equal length) in H. rewrite length_take in H. cbn in H. lia.
  - destruct (socket_poll room (inner s)) as [i r'] eqn:E. intros [= <- <-].
    cbn [prefix position inner].
    apply socket_poll_bytes in E as (Hb & Ha & He). rewrite (drop_ge (prefix s)) by lia.
    split_and!; auto.
Qed.

Lemma poll_all_bytes rooms s s' rs :
  poll_all rooms s = (s', rs) →
  mjoin (bytes_of <$> rs) ++ left_over s' = left_over s ∧
  Forall2 (λ room r, r = Ready (Ok []) → (0 < room)%nat → left_over s' = []) rooms rs.
Proof.
  revert s rs. induction rooms as [|room rooms IH]; intros s rs; cbn [poll_all].
  { intros [= <- <-]. by split. }
  destruct (poll_read socket_poll room s) as [s1 r] eqn:E.
  destruct (poll_all rooms s1) as [s2 rs'] eqn:E2. intros [= <- <-].
  apply poll_read_bytes in E as (Hb & _ & He). apply IH in E2 as [Hb2 Hf]. split.
  - cbn. by rewrite <- Hb, <- Hb2, app_assoc.
  - constructor; [|done]. intros Hr H0. destruct (He Hr H0) as [Hl _].
    rewrite Hl, <- Hb2 in Hb. apply app_nil in Hb as [_ Hb]. by apply app_nil in Hb as [_ Hb].
Qed.

Lemma text_app a b : text (a +:+ b) = text a ++ text b.
Proof.
  unfold text. induction a as [|c a IH]; [done|]. rewrite string_app_cons. cbn. by f_equal.
Qed.

Lemma header_lines_length ls :
  forallb header_line ls = true → (length ls ≤ String.length (cat ls))%nat.
Proof.
  induction ls as [|l ls IH]; [done|]. cbn [forallb]. intros [Hl Hls]%andb_prop.
  cbn [cat foldr]. fold (cat ls). rewrite string_length_app. specialize (IH Hls).
  apply andb_prop in Hl as [[Ht _]%andb_prop _]. apply bool_decide_eq_true in Ht.
  apply take_line_Some in Ht as [_ Ht]. apply string_length_pos in Ht. cbn [length]. lia.
Qed.

Lemma inspect_lines ls rest e :
  forallb header_line ls = true →
  inspect (mkStream (cat ls +:+ crlf +:+ rest) e) =
    Inspected (mkHead (cat ls +:+ crlf) (existsb asks_upgrade ls) (mkStream rest e)).
Proof.
  intros Hl. unfold inspect. rewrite inspect_loop_lines; [by rewrite string_app_nil_l|done|].
  cbn [input]. rewrite string_length_app. pose proof (header_lines_length ls Hl). lia.
Qed.

(** * Properties *)

(** Reading the head ends unless the client stays silent, and gives up no byte
    of what was sent, but for one line: the header lines kept and what is left
    on the stream are the input, up to a last line that is not UTF-8 or was cut
    off by an error. *)
Theorem head_reading_accounts st :
  match inspect st with
  | OutOfFuel => False
  | Waiting => after st = Silent
  | Inspected h =>
      after (unread h) = after st ∧
      ∃ lost, input st = headers h +:+ lost +:+ input (unread h) ∧
        (lost = "" ∨ valid_utf8 lost = false ∨ after st = Failed)
  end.
Proof.
  unfold inspect. pose proof (inspect_loop_accounts (2 + String.length (input st))
    (mkHead "" false st) ltac:(cbn; lia)) as H. cbn [unread headers] in H.
  destruct (inspect_loop _ _) as [|h|]; [done| |done].
  destruct H as (Ha & kept & lost & Hi & Hh & Hl). split; [done|]. exists lost.
  by rewrite Hh, string_app_nil_l.
Qed.

Section sorting.
Context (hmac_verify : string → string → bytes → bool).
Context {W : Type} {HB : ContainerBackend W} {HL : AgentLink W}.
Context (cfg : ServerConfig) (d : SpawnDefaults) (gateway_version : string).
Context {FReq : FromValue JsonRpcRequest} {FHello : FromValue HelloParams}
  {FSpawn : FromValue SpawnAgentParams} {FId : FromValue AgentIdParams}
  {FAttach : FromValue AttachAgentParams} {FInvoke : FromValue AgentInvokeParams}
  {FReg : FromValue RegisterProxyParams} {FUnreg : FromValue UnregisterProxyParams}
  {FRegS : FromValue RegisterStreamProxyParams} {FUnregS : FromValue UnregisterStreamProxyParams}.
Context (accept_async : PrefixedStream (R := Socket) → result (list session_event) string).

(** C23: A request with a whole head is sorted by its lines alone: it is a WebSocket
    exactly when one line is the upgrade line up to letter case, and is
    answered as a health check otherwise, whatever follows the head.  The
    stream the WebSocket handshake is given yields, read in any portions, as
    the bytes arrive and as there is room, the bytes the client sent, from the
    first, none lost or twice, and reports an end only after all of them. *)
Theorem listener_sorts_and_replays ls rest e arr nonces (r : AgentRegistry W) :
  forallb header_line ls = true →
  ∃ replay,
    tcp_task hmac_verify cfg d gateway_version accept_async
        (mkStream (cat ls +:+ crlf +:+ rest) e) arr nonces r =
      (if existsb asks_upgrade ls then
         match accept_async replay with
         | Err _ => HandshakeFailed
         | Ok events =>
             SessionEnded (run_session hmac_verify cfg d gateway_version events (from_conn nonces r))
         end
       else HealthChecked health_reply) ∧
    ∀ rooms s' rs, poll_all rooms replay = (s', rs) →
      mjoin (bytes_of <$> rs) ++ left_over s' = text (cat ls +:+ crlf +:+ rest) ∧
      Forall2 (λ room r, r = Ready (Ok []) → (0 < room)%nat → left_over s' = []) rooms rs.
Proof.
  intros Hl. exists (mkPrefixed (text (cat ls +:+ crlf)) 0 (socket_of (mkStream rest e) arr)). split.
  - unfold tcp_task. by rewrite inspect_lines.
  - intros rooms s' rs [Hb Hf]%poll_all_bytes. split; [|done]. rewrite Hb.
    unfold left_over. cbn [prefix position inner socket_of to_come input].
    by rewrite drop_0, <- text_app, string_app_assoc.
Qed.
End sorting.

(** ** Examples *)

Module SampleListener.
#[local] Existing Instances SampleSession.req_from_value SampleSession.hello_from_value
  SampleSession.register_from_value SampleSession.id_from_value SampleSession.spawn_from_value
  SampleSession.attach_from_value SampleSession.invoke_from_value SampleSession.unreg_from_value
  SampleSession.regs_from_value SampleSession.unregs_from_value.

Definition line (s : string) : string := s +:+ crlf.

Definition upgrade_head : list string :=
  [line "GET / HTTP/1.1"; line "Host: gw"; line "UPGRADE: WebSocket"; line "Connection: Upgrade"].

(** A handshake that reads the stream to the empty line, then one frame. *)
Definition accept (s : PrefixedStream (R := Socket)) : result (list session_event) string :=
  Ok [SMessage SampleSession.draws SampleSession.list_frame; SDisconnected].

Definition task (ls : list string) (rest : string) (e : ending) : task_end SampleWorld.world_t :=
  tcp_task (HB := SampleWorld.backend) (HL := SampleWorld.link) SampleSession.hmac
    SampleSession.config SampleWorld.defaults "0.1" accept (mkStream (cat ls +:+ crlf +:+ rest) e)
    [3; 100; 0; 7] ∅ SampleWorld.reg1.

Definition is_health (t : task_end SampleWorld.world_t) : bool :=
  match t with HealthChecked _ => true | _ => false end.

Definition latin1 : string := "X-Name: " +:+ String (chr 233) crlf.
End SampleListener.

Lemma listener_sorts_and_replays_witness :
  existsb asks_upgrade SampleListener.upgrade_head = true ∧
  ∃ replay, SampleListener.accept replay
      = Ok [SMessage SampleSession.draws SampleSession.list_frame; SDisconnected] ∧
    ∀ rooms s' rs, poll_all rooms replay = (s', rs) →
      mjoin (bytes_of <$> rs) ++ left_over s'
        = text (cat SampleListener.upgrade_head +:+ crlf +:+ "frame").
Proof.
  split; [by vm_compute|].
  destruct (listener_sorts_and_replays (HB := SampleWorld.backend) (HL := SampleWorld.link)
    SampleSession.hmac SampleSession.config SampleWorld.defaults "0.1" (FReq := SampleSession.req_from_value)
    (FHello := SampleSession.hello_from_value) (FSpawn := SampleSession.spawn_from_value)
    (FId := SampleSession.id_from_value) (FAttach := SampleSession.attach_from_value)
    (FInvoke := SampleSession.invoke_from_value) (FReg := SampleSession.register_from_value)
    (FUnreg := SampleSession.unreg_from_value) (FRegS := SampleSession.regs_from_value)
    (FUnregS := SampleSession.unregs_from_value)
    SampleListener.accept SampleListener.upgrade_head "frame" Silent [3; 100; 0; 7]%nat ∅
    SampleWorld.reg1 ltac:(by vm_compute)) as (replay & _ & Hr).
  exists replay. split; [done|]. intros rooms s' rs H. by apply (Hr rooms s' rs H).
Defined.

(** The test is on the exact line: an upgrade written with no space after the
    colon, which HTTP allows, is answered as a health check, with its
    connection dropped. *)
Example spaceless_upgrade_is_health_check :
  SampleListener.is_health
    (SampleListener.task [SampleListener.line "GET / HTTP/1.1"; SampleListener.line "Upgrade:websocket"] "" Silent)
  = true.
Proof. by vm_compute. Qed.

(** A header line with a byte outside UTF-8 ends the head: after the upgrade
    line it is dropped from what the handshake sees; before it, the request is
    answered as a health check. *)
Example latin1_line_lost :
  inspect (mkStream (cat SampleListener.upgrade_head +:+ SampleListener.latin1 +:+ crlf) Silent)
  = Inspected (mkHead (cat SampleListener.upgrade_head) true (mkStream crlf Silent)).
Proof. by vm_compute. Qed.

Example latin1_line_hides_upgrade :
  SampleListener.is_health (SampleListener.task (SampleListener.latin1 :: SampleListener.upgrade_head) "" Silent) = true.
Proof. by vm_compute. Qed.
