(* ===== verification/Startup.v ===== *)
(** The start of the gateway: the settings file ([nexal-gateway/src/config.rs])
    and [main] of [bin/nexal-gateway.rs], which lays arguments over it and
    defaults under it, chooses the backend and serves. *)
From S2P Require Import Prelude Paths Wire Methods GatewayWire Backend Podman Fly Kube Sprites.
From S2P Require Import Registry Session AgentFs Listener.
Open Scope nexal_scope.

(** * Settings

    Every field of the file may be left out. *)

(* @src crates/nexal-gateway/src/config.rs Credential *)
Record Credential := mkCredential {
  cr_access_key : string;
  cr_secret_key : string;
}.

(* @src crates/nexal-gateway/src/config.rs ProxyConfig *)
Record ProxyConfig := mkProxyConfig {
  px_listen : option string;
  px_external_base : option string;
}.

Definition ProxyConfig_default : ProxyConfig :=
  mkProxyConfig None None.

(* @src crates/nexal-gateway/src/config.rs SpawnDefaultsConfig *)
Record SpawnDefaultsConfig := mkSpawnDefaultsConfig {
  sdc_image : option string;
  sdc_agent_bin : option string;
  sdc_memory : option string;
  sdc_cpus : option string;
  sdc_pids_limit : option Z;
  sdc_network : option bool;
  sdc_container_name_prefix : option string;
  sdc_workspace_volume : option string;
  sdc_skills_dir : option string;
}.

Definition SpawnDefaultsConfig_default : SpawnDefaultsConfig :=
  mkSpawnDefaultsConfig None None None None None None None None None.

(* @src crates/nexal-gateway/src/config.rs BackendConfig *)
Record BackendConfig := mkBackendConfig {
  bc_kind : option string;
  bc_podman_bin : option string;
  bc_runtime : option string;
  bc_namespace : option string;
  bc_kubeconfig : option string;
  bc_agent_init_image : option string;
  bc_fly_api_token : option string;
  bc_fly_app : option string;
  bc_fly_region : option string;
  bc_fly_api_base : option string;
  bc_fly_agent_bin_path : option string;
  bc_sprites_token : option string;
  bc_sprites_api_base : option string;
  bc_sprites_name_prefix : option string;
  bc_sprites_agent_port : option Z;
  bc_sprites_agent_bin_path : option string;
}.

Definition BackendConfig_default : BackendConfig :=
  mkBackendConfig None None None None None None None None None None None None None None None None.

(* @src crates/nexal-gateway/src/config.rs PoolConfig *)
Record PoolConfig := mkPoolConfig {
  pc_enabled : option bool;
  pc_size : option nat;
  pc_image : option string;
}.

Definition PoolConfig_default : PoolConfig :=
  mkPoolConfig None None None.

(* @src crates/nexal-gateway/src/config.rs GatewayConfig *)
Record GatewayConfig := mkGatewayConfig {
  gc_listen : option string;
  gc_credentials : list Credential;
  gc_defaults : SpawnDefaultsConfig;
  gc_backend : BackendConfig;
  gc_proxy : ProxyConfig;
  gc_pool : PoolConfig;
}.

Definition GatewayConfig_default : GatewayConfig :=
  mkGatewayConfig None [] SpawnDefaultsConfig_default BackendConfig_default ProxyConfig_default PoolConfig_default.

(* @src crates/nexal-gateway/src/config.rs ConfigError *)
Inductive ConfigError :=
  | CfgIo (path : string) (e : IoError)
  | CfgParse (path e : string).

Definition ConfigError_to_string (e : ConfigError) : string :=
  match e with
  | CfgIo p e => "read " +:+ p +:+ ": " +:+ io_text e
  | CfgParse p e => "parse " +:+ p +:+ ": " +:+ e
  end.

(* @src crates/nexal-gateway/src/config.rs default_path *)
Definition default_path (home_dir : option string) : option string :=
  (λ h, path_join (path_join h ".nexal") "gateway.toml") <$> home_dir.

(** [read_to_string] is the file's text, [from_str] its TOML. *)
(* @src crates/nexal-gateway/src/config.rs load *)
Definition load (read_to_string : string → result string IoError)
    (from_str : string → result GatewayConfig string) (path : string)
    : result GatewayConfig ConfigError :=
  match read_to_string path with
  | Ok text => map_err (CfgParse path) (from_str text)
  | Err err =>
      if decide (io_kind err = NotFound) then Ok GatewayConfig_default else Err (CfgIo path err)
  end.

(** * Arguments *)

(** The command line, each argument also an environment variable. *)
(* @src crates/nexal-gateway/src/bin/nexal-gateway.rs Args *)
Record Args := mkArgs {
  a_config : option string;
  a_listen : option string;
  a_unix : option string;
  a_proxy_listen : option string;
  a_proxy_external_base : option string;
  a_access_key : option string;
  a_secret_key : option string;
  a_agent_bin : option string;
  a_image : option string;
}.

(** [Option::or] *)
Definition or_else {A} (a b : option A) : option A := match a with Some _ => a | None => b end.

(** * Merging *)

(** Collecting into a map: a later pair replaces an earlier one. *)
Definition collect (l : list (string * string)) : gmap string string :=
  foldl (λ m kv, <[kv.1 := kv.2]> m) ∅ l.

Definition usable (c : Credential) : bool :=
  negb (String.eqb (cr_access_key c) "") && negb (String.eqb (cr_secret_key c) "").

(* @src crates/nexal-gateway/src/bin/nexal-gateway.rs main "let mut credentials: HashMap" .. "if credentials.is_empty()" *)
Definition merged_credentials (args : Args) (cfg : GatewayConfig) : gmap string string :=
  let credentials :=
    collect (map (λ c, (cr_access_key c, cr_secret_key c)) (List.filter usable (gc_credentials cfg))) in
  match a_access_key args, a_secret_key args with
  | Some ak, Some sk => <[ak := sk]> credentials
  | _, _ => credentials
  end.

Inductive SharedBackend :=
  | SPodman (b : PodmanBackend)
  | SKubernetes (b : KubernetesBackend)
  | SFly (b : FlyBackend)
  | SSprites (b : SpritesBackend).

(** The clients the backends are made with. *)
Record Clients := mkClients {
  kube_new : KubernetesConfig → result KubernetesBackend BackendError;
  http_built : result unit string;
}.

(* @src crates/nexal-gateway/src/bin/nexal-gateway.rs main "let backend: SharedBackend" .. "let defaults = SpawnDefaults" *)
Definition choose_backend (cl : Clients) (b : BackendConfig) : result SharedBackend string :=
  let kind := default "podman" (bc_kind b) in
  if String.eqb kind "podman" then Ok (SPodman (PodmanBackend_new (bc_podman_bin b) (bc_runtime b)))
  else if String.eqb kind "kubernetes" || String.eqb kind "k8s" then
    agent_init_image ←? ok_or (bc_agent_init_image b)
      "kubernetes backend requires backend.agent_init_image";
    res_map SKubernetes (map_err BackendError_to_string
      (kube_new cl (mkKubernetesConfig (bc_namespace b) (bc_kubeconfig b) agent_init_image)))
  else if String.eqb kind "fly" then
    api_token ←? ok_or (bc_fly_api_token b) "fly backend requires backend.fly_api_token";
    app ←? ok_or (bc_fly_app b) "fly backend requires backend.fly_app";
    res_map SFly (map_err BackendError_to_string
      (FlyBackend_new (mkFlyConfig api_token app (bc_fly_region b) (bc_fly_api_base b)
                         (bc_fly_agent_bin_path b)) (http_built cl)))
  else if String.eqb kind "sprites" then
    token ←? ok_or (bc_sprites_token b) "sprites backend requires backend.sprites_token";
    res_map SSprites (map_err BackendError_to_string
      (SpritesBackend_new (mkSpritesConfig token (bc_sprites_api_base b) (bc_sprites_name_prefix b)
                             (bc_sprites_agent_port b) (bc_sprites_agent_bin_path b)) (http_built cl)))
  else Err ("unknown backend kind: " +:+ kind).

(** [lossy] is the text of a path. *)
(* @src crates/nexal-gateway/src/bin/nexal-gateway.rs main "let defaults = SpawnDefaults" .. "// Ensure workspace_volume" *)
Definition spawn_defaults (lossy : string → string) (home_dir : option string) (image agent_bin : string)
    (c : SpawnDefaultsConfig) : SpawnDefaults :=
  mkSpawnDefaults image agent_bin
    (or_else (sdc_memory c) (Some "512m"))
    (or_else (sdc_cpus c) (Some "1.0"))
    (or_else (sdc_pids_limit c) (Some 256%Z))
    (default true (sdc_network c))
    (default "nexal-worker-" (sdc_container_name_prefix c))
    (or_else (sdc_workspace_volume c)
       ((λ h, lossy (path_join (path_join h ".nexal") "workspace")) <$> home_dir)).

(* @src crates/nexal-gateway/src/bin/nexal-gateway.rs main "let skills_dir =" .. "let skills = Arc::new" *)
Definition skills_dir_of (home_dir : option string) (c : SpawnDefaultsConfig) : string :=
  default (path_join (path_join (default "/root" home_dir) ".nexal") "skills") (sdc_skills_dir c).

(* @src crates/nexal-gateway/src/bin/nexal-gateway.rs main "let warm_pool =" .. "let proxies =" *)
Definition warm_pool_of (d : SpawnDefaults) (c : PoolConfig) : option WarmPool :=
  if default false (pc_enabled c) && bool_decide (0 < default 0 (pc_size c)) then
    Some (WarmPool_new (mkWarmPoolConfig (default 0 (pc_size c)) (default (sd_image d) (pc_image c)))
            (sd_container_name_prefix d) (sd_agent_bin d) (sd_memory d) (sd_cpus d)
            (sd_pids_limit d) (sd_network d))
  else None.

(** * Starting *)

(** What [main] has built when it starts to serve. *)
Record Gateway := mkGateway {
  gw_backend : SharedBackend;
  gw_defaults : SpawnDefaults;
  gw_skills_dir : string;
  gw_pool : option WarmPool;
  gw_proxy_listen : string;
  gw_server : ServerConfig;
  gw_listen : Listen;
}.

Definition no_credentials : string :=
  "no credentials configured; add [[credentials]] (access_key/secret_key) to gateway.toml or set NEXAL_GATEWAY_ACCESS_KEY + NEXAL_GATEWAY_SECRET_KEY".

(** From the settings to the gateway, before it touches the file system. *)
(* @src crates/nexal-gateway/src/bin/nexal-gateway.rs main "let listen = args" .. "let backend: SharedBackend" *)
Definition configure (cl : Clients) (lossy : string → string) (home_dir : option string)
    (args : Args) (cfg : GatewayConfig) : result Gateway string :=
  let listen := default "127.0.0.1:5500" (or_else (a_listen args) (gc_listen cfg)) in
  let credentials := merged_credentials args cfg in
  if bool_decide (credentials = ∅) then Err no_credentials
  else
    agent_bin ←? ok_or (or_else (a_agent_bin args) (sdc_agent_bin (gc_defaults cfg)))
      "no agent_bin configured; pass --agent-bin or set defaults.agent_bin";
    let image := default "ghcr.io/reonokiy/nexal-sandbox:python3.13-debian13"
                   (or_else (a_image args) (sdc_image (gc_defaults cfg))) in
    let proxy_listen := default "0.0.0.0:5501" (or_else (a_proxy_listen args) (px_listen (gc_proxy cfg))) in
    let proxy_external_base :=
      default "http://host.containers.internal:5501"
        (or_else (a_proxy_external_base args) (px_external_base (gc_proxy cfg))) in
    backend ←? choose_backend cl (gc_backend cfg);
    let defaults := spawn_defaults lossy home_dir image agent_bin (gc_defaults cfg) in
    Ok (mkGateway backend defaults (skills_dir_of home_dir (gc_defaults cfg))
          (warm_pool_of defaults (gc_pool cfg)) proxy_listen
          (mkServerConfig credentials proxy_external_base)
          (mkListen listen (a_unix args))).

Section main.
Context {FS C : Type} {HO : Os FS}.
Context (bind_unix bind_tcp : string → FS → FS * result (list (result C string)) string).
Context (read_to_string : string → result string IoError)
  (from_str : string → result GatewayConfig string).
Context (cl : Clients) (lossy : string → string) (home_dir : option string).

(** [main] up to the accept loop: the gateway and the connections it takes. *)
(* @src crates/nexal-gateway/src/bin/nexal-gateway.rs main "let cfg_path = args" .. "let cfg = GatewayConfig::load" *)
Definition read_settings (args : Args) : result GatewayConfig string :=
  cfg_path ←? ok_or (or_else (a_config args) (default_path home_dir))
    "could not resolve gateway config path (no --config and no $HOME)";
  map_err ConfigError_to_string (load read_to_string from_str cfg_path).

(* @src crates/nexal-gateway/src/bin/nexal-gateway.rs main "// Ensure workspace_volume" .. "// Skills service." *)
Definition ensure_workspace (g : Gateway) (fs : FS) : FS * result unit string :=
  match sd_workspace_volume (gw_defaults g) with
  | Some vol => let '(fs, r) := os_create_dir_all vol fs in (fs, map_err io_text r)
  | None => (fs, Ok tt)
  end.

(* @src crates/nexal-gateway/src/bin/nexal-gateway.rs main *)
Definition main (args : Args) (fs : FS) : FS * result (Gateway * list C) string :=
  match cfg ←? read_settings args; configure cl lossy home_dir args cfg with
  | Err e => (fs, Err e)
  | Ok g =>
      match ensure_workspace g fs with
      | (fs, Err e) => (fs, Err e)
      | (fs, Ok _) =>
          let '(fs, r) := serve bind_unix bind_tcp io_text (gw_listen g) fs in
          (fs, res_map (λ l, (g, l)) r)
      end
  end.
End main.

(** The registry [main] makes. *)
(* @src crates/nexal-gateway/src/bin/nexal-gateway.rs main "let registry = Arc::new" .. "));" *)
Definition gateway_registry {W} (g : Gateway) (w : W) : AgentRegistry W :=
  AgentRegistry_new (gw_pool g) w.

(** On Ctrl-C: all agents are detached, and the process ends. *)
(* @src crates/nexal-gateway/src/bin/nexal-gateway.rs main "let registry_for_shutdown" .. "// Spawn the proxy server" *)
Definition ctrl_c {W} `{ContainerBackend W, AgentLink W} (r : AgentRegistry W) : W :=
  world (detach_all r).

(** * Lemmas *)

Lemma collect_app l kv : collect (l ++ [kv]) = <[kv.1 := kv.2]> (collect l).
Proof. unfold collect. by rewrite foldl_app. Qed.

(** The last entry of the file for a key. *)
Definition last_usable (ak : string) (l : list Credential) : option string :=
  cr_secret_key <$> last (List.filter (λ c, usable c && String.eqb (cr_access_key c) ak) l).

Lemma collect_lookup l ak :
  collect (map (λ c, (cr_access_key c, cr_secret_key c)) (List.filter usable l)) !! ak = last_usable ak l.
Proof.
  induction l as [|c l IH] using rev_ind; [done|]. unfold last_usable in *.
  rewrite !List.filter_app. cbn [List.filter].
  destruct (usable c); cbn [andb map app]; [|by rewrite !app_nil_r].
  rewrite map_app. cbn [map]. rewrite collect_app. cbn [fst snd].
  destruct (String.eqb_spec (cr_access_key c) ak) as [->|Hne].
  - by rewrite lookup_insert_eq, last_snoc.
  - by rewrite app_nil_r, lookup_insert_ne.
Qed.

Lemma last_usable_Some ak sk l :
  last_usable ak l = Some sk →
  ak ≠ "" ∧ sk ≠ "" ∧ mkCredential ak sk ∈ l.
Proof.
  unfold last_usable. intros (c & Hc & ->)%fmap_Some. apply last_Some_elem_of in Hc.
  apply list_elem_of_In, filter_In in Hc as [Hin [[Ha Hs]%andb_prop Hk]%andb_prop].
  apply String.eqb_eq in Hk. subst ak. split_and!.
  - intros H. by rewrite H in Ha.
  - intros H. by rewrite H in Hs.
  - apply list_elem_of_In. by destruct c.
Qed.

Lemma configure_Ok cl lossy home args cfg g :
  configure cl lossy home args cfg = Ok g →
  credentials (gw_server g) = merged_credentials args cfg ∧
  credentials (gw_server g) ≠ ∅ ∧
  choose_backend cl (gc_backend cfg) = Ok (gw_backend g) ∧
  gw_pool g = warm_pool_of (gw_defaults g) (gc_pool cfg) ∧
  ∃ agent_bin, or_else (a_agent_bin args) (sdc_agent_bin (gc_defaults cfg)) = Some agent_bin ∧
    gw_defaults g = spawn_defaults lossy home
      (default "ghcr.io/reonokiy/nexal-sandbox:python3.13-debian13"
         (or_else (a_image args) (sdc_image (gc_defaults cfg)))) agent_bin (gc_defaults cfg).
Proof.
  unfold configure. cbv zeta. case_bool_decide as Hc; [done|].
  destruct (or_else (a_agent_bin args) _) as [b|]; [|done]. cbn [ok_or res_bind].
  destruct (choose_backend cl (gc_backend cfg)) as [k|]; [|done]. cbn [res_bind].
  intros [= <-]. cbn. split_and!; eauto.
Qed.

(** * Properties *)

(** The secret of an access key: that of the arguments if they name the key
    and give both parts, else that of the last entry of the file for the key
    with neither part empty. *)
Theorem merged_credentials_lookup args cfg ak :
  merged_credentials args cfg !! ak =
  match a_access_key args, a_secret_key args with
  | Some ak', Some sk => if decide (ak' = ak) then Some sk else last_usable ak (gc_credentials cfg)
  | _, _ => last_usable ak (gc_credentials cfg)
  end.
Proof.
  unfold merged_credentials. rewrite <- collect_lookup. cbv zeta.
  destruct (a_access_key args) as [k|], (a_secret_key args) as [sk|]; try done.
  case_decide as Hk; [subst; apply lookup_insert_eq|by apply lookup_insert_ne].
Qed.

Section gate.
Context (hmac_verify : string → string → bytes → bool).
Context {W : Type} {HB : ContainerBackend W} {HL : AgentLink W}.
Context (gateway_version : string).
Context {FReq : FromValue JsonRpcRequest} {FHello : FromValue HelloParams}
  {FSpawn : FromValue SpawnAgentParams} {FId : FromValue AgentIdParams}
  {FAttach : FromValue AttachAgentParams} {FInvoke : FromValue AgentInvokeParams}
  {FReg : FromValue RegisterProxyParams} {FUnreg : FromValue UnregisterProxyParams}
  {FRegS : FromValue RegisterStreamProxyParams} {FUnregS : FromValue UnregisterStreamProxyParams}.
Context {FS C : Type} {HO : Os FS}.
Context (bind_unix bind_tcp : string → FS → FS * result (list (result C string)) string).
Context (read_to_string : string → result string IoError)
  (from_str : string → result GatewayConfig string).
Context (cl : Clients) (lossy : string → string) (home_dir : option string).

Abbreviation main' := (main bind_unix bind_tcp read_to_string from_str cl lossy home_dir).

(** The operator gave a pair of keys: as arguments, or in the file with
    neither part empty. *)
Definition configured (args : Args) (ak sk : string) : Prop :=
  (a_access_key args = Some ak ∧ a_secret_key args = Some sk) ∨
  ∃ cfg, read_settings read_to_string from_str home_dir args = Ok cfg ∧
    mkCredential ak sk ∈ gc_credentials cfg ∧ ak ≠ "" ∧ sk ≠ "".

(** A frame is a hello signed with a pair of keys. *)
Definition hello_under (ak sk : string) (v : Value) : Prop :=
  ∃ req p sig, from_value v = Ok req ∧
    GatewayMethods.GatewayMethod_parse (jr_method req) = Some Hello ∧
    from_value (default VNil (jr_params req)) = Ok p ∧
    hp_access_key p = ak ∧ hex_decode (hp_signature p) = Returns (Some sig) ∧
    hmac_verify sk (canonical p) sig = true.

Lemma main_Ok args fs fs' g conns :
  main' args fs = (fs', Ok (g, conns)) →
  ∃ cfg, read_settings read_to_string from_str home_dir args = Ok cfg ∧
    configure cl lossy home_dir args cfg = Ok g.
Proof.
  unfold main. intros H.
  destruct (read_settings _ _ _ args) as [cfg|e] eqn:Er; cbn [res_bind] in H; [|done].
  destruct (configure _ _ _ args cfg) as [g'|e] eqn:Ec; [|done].
  destruct (ensure_workspace g' fs) as [fs1 [[]|e]]; [|done].
  destruct (serve _ _ _ _ fs1) as [fs2 [l|e]]; cbn in H; [|done]. injection H as _ -> _. eauto.
Qed.

(** C18: A gateway that has started is closed to whoever does not hold a pair of
    keys its operator gave: whatever its settings and whatever frames a
    session receives, either the session is not authenticated and the agents,
    proxies and containers are as they were, or one of the frames is a hello
    signed under such a pair. *)
Theorem started_gateway_gate args fs fs' g conns evs nonces (r : AgentRegistry W) s :
  main' args fs = (fs', Ok (g, conns)) →
  run_session hmac_verify (gw_server g) (gw_defaults g) gateway_version evs (from_conn nonces r)
    = Returns s →
  (authenticated s = false ∧ registry s = r) ∨
  ∃ dr v ak sk, SMessage dr v ∈ evs ∧ hello_under ak sk v ∧ configured args ak sk.
Proof.
  intros (cfg & Hr & Hc)%main_Ok Hs.
  apply session_gate in Hs as [?|(dr & v & Hv & req & p & sk & sig & Hq & Hm & Hp & Hk & Hx)];
    [by left| |done].
  right. exists dr, v, (hp_access_key p), sk. split; [done|]. split; [by exists req, p, sig|].
  apply configure_Ok in Hc as [Hc _]. rewrite Hc, merged_credentials_lookup in Hk.
  assert (F : last_usable (hp_access_key p) (gc_credentials cfg) = Some sk →
              configured args (hp_access_key p) sk).
  { intros (? & ? & ?)%last_usable_Some. right. by exists cfg. }
  destruct (a_access_key args) as [ak|] eqn:Ea, (a_secret_key args) as [sk'|] eqn:Ek; auto.
  case_decide as Hd; [|auto]. left. by simplify_eq.
Qed.
End gate.

(** The settings say that the workspace volume is mounted in every container.
    A pooled one has no workspace, whatever is configured; one made for a spawn
    or an attach has. *)
Theorem pooled_container_lacks_workspace cl lossy home args cfg g p n vol name image env labels ports :
  configure cl lossy home args cfg = Ok g → gw_pool g = Some p →
  sdc_workspace_volume (gc_defaults cfg) = Some vol →
  cs_workspace_volume (pool_spec p n) = None ∧
  cs_workspace_volume (spawn_spec (gw_defaults g) name image env labels ports) = Some vol ∧
  cs_workspace_volume (attach_spec (gw_defaults g) name) = Some vol.
Proof.
  intros (_ & _ & _ & _ & b & _ & Hd)%configure_Ok Hp Hv. rewrite Hd. cbn. by rewrite Hv.
Qed.

(** ** Examples *)

Module SampleStart.
Definition cl : Clients := mkClients (λ _, Err (Io "no cluster")) (Ok tt).
Definition missing (p : string) : result string IoError := Err (mkIoError NotFound "not found").
Definition no_toml (s : string) : result GatewayConfig string := Ok GatewayConfig_default.
Definition args (ak sk : string) : Args :=
  mkArgs None None None None None (Some ak) (Some sk) (Some "/bin/nexal-agent") None.
Definition bind (p : string) (fs : SampleFiles.Files) :
    SampleFiles.Files * result (list (result string string)) string :=
  (fs, Ok [Ok "c1"; Err "too many open files"; Ok "c2"]).
Definition started (ak sk : string) : SampleFiles.Files * result (Gateway * list string) string :=
  main (HO := SampleFiles.os) bind bind missing no_toml cl id (Some "/home/u") (args ak sk) ∅.
Definition gateway (ak sk : string) : option Gateway := fst <$> res_ok (started ak sk).2.
End SampleStart.

Lemma started_gateway_gate_witness :
  ∃ fs' g conns s,
    SampleStart.started "AK" "s" = (fs', Ok (g, conns)) ∧ conns = ["c1"; "c2"] ∧
    run_session (HB := SampleWorld.backend) (HL := SampleWorld.link) SampleSession.hmac
      (FReq := SampleSession.req_from_value)
      (FHello := SampleSession.hello_from_value) (FSpawn := SampleSession.spawn_from_value)
      (FId := SampleSession.id_from_value) (FAttach := SampleSession.attach_from_value)
      (FInvoke := SampleSession.invoke_from_value) (FReg := SampleSession.register_from_value)
      (FUnreg := SampleSession.unreg_from_value) (FRegS := SampleSession.regs_from_value)
      (FUnregS := SampleSession.unregs_from_value)
      (gw_server g) (gw_defaults g) "0.1"
      [SMessage SampleSession.draws SampleSession.list_frame] (from_conn ∅ SampleWorld.reg1) = Returns s ∧
    ((authenticated s = false ∧ registry s = SampleWorld.reg1) ∨
     ∃ dr v ak sk, SMessage dr v ∈ [SMessage SampleSession.draws SampleSession.list_frame] ∧
       hello_under (FReq := SampleSession.req_from_value) (FHello := SampleSession.hello_from_value)
         SampleSession.hmac ak sk v ∧
       configured SampleStart.missing SampleStart.no_toml (Some "/home/u") (SampleStart.args "AK" "s") ak sk).
Proof.
  do 4 eexists. split; [vm_compute; reflexivity|]. split; [reflexivity|].
  split; [vm_compute; reflexivity|].
  eapply (started_gateway_gate (HB := SampleWorld.backend) (HL := SampleWorld.link) SampleSession.hmac "0.1"
    (FReq := SampleSession.req_from_value)
    (FHello := SampleSession.hello_from_value) (FSpawn := SampleSession.spawn_from_value)
    (FId := SampleSession.id_from_value) (FAttach := SampleSession.attach_from_value)
    (FInvoke := SampleSession.invoke_from_value) (FReg := SampleSession.register_from_value)
    (FUnreg := SampleSession.unreg_from_value) (FRegS := SampleSession.regs_from_value)
    (FUnregS := SampleSession.unregs_from_value) (HO := SampleFiles.os)
    SampleStart.bind SampleStart.bind SampleStart.missing SampleStart.no_toml SampleStart.cl id
    (Some "/home/u") (SampleStart.args "AK" "s") ∅); vm_compute; reflexivity.
Defined.

(** An empty pair of arguments is a pair of keys: the gateway starts with no
    other credential, and takes a hello signed with the empty key. *)
Example empty_pair_accepted :
  (λ g, (map_to_list (credentials (gw_server g)),
         match verify_hello SampleSession.hmac (gw_server g)
                 (mkHelloParams "" "cli" 900 "n1" "") 1000 ∅ with
         | Returns (_, Ok tt) => true
         | _ => false
         end)) <$> SampleStart.gateway "" "" = Some ([("", "")], true).
Proof. by vm_compute. Qed.

(** The same pair in the file is left out. *)
Example empty_pair_in_file_refused :
  configure SampleStart.cl id None
    (mkArgs None None None None None None None (Some "/bin/nexal-agent") None)
    (mkGatewayConfig None [mkCredential "" ""] SpawnDefaultsConfig_default BackendConfig_default
       ProxyConfig_default PoolConfig_default)
  = Err no_credentials.
Proof. by vm_compute. Qed.
