(* ===== verification/AgentListen.v ===== *)
(** Where an agent listens: the agent's program ([bin/nexal-agent.rs]), the
    listening part of [nexal-agent/src/server/transport.rs], and the command lines
    with which the backends of the gateway start it. *)
From S2P Require Import Prelude SockAddr Backend RestApi.
From S2P Require Podman Fly Kube Sprites.
Open Scope nexal_scope.

(** * Listen URLs *)

(* @src crates/nexal-agent/src/server/transport.rs DEFAULT_LISTEN_URL *)
Definition DEFAULT_LISTEN_URL : string := "ws://127.0.0.1:0".

(* @src crates/nexal-agent/src/server/transport.rs ExecServerListenUrlParseError *)
Inductive ExecServerListenUrlParseError :=
  | UnsupportedListenUrl (url : string)
  | InvalidListenUrl (url : string).

(* @src crates/nexal-agent/src/server/transport.rs fmt *)
Definition listen_url_error_text (e : ExecServerListenUrlParseError) : string :=
  match e with
  | UnsupportedListenUrl url =>
      "unsupported --listen URL `" +:+ url +:+ "`; expected `ws://IP:PORT`"
  | InvalidListenUrl url => "invalid --listen URL `" +:+ url +:+ "`; expected `ws://IP:PORT`"
  end.

(* @src crates/nexal-agent/src/server/transport.rs parse_listen_url *)
Definition parse_listen_url (listen_url : string) : result SocketAddr ExecServerListenUrlParseError :=
  addr_str ←? ok_or (strip_prefix "ws://" listen_url) (UnsupportedListenUrl listen_url);
  ok_or (parse_socket_addr addr_str) (InvalidListenUrl listen_url).

Example listen_default : parse_listen_url DEFAULT_LISTEN_URL = Ok (V4 (127, 0, 0, 1) 0).
Proof. vm_compute. reflexivity. Qed.
Example listen_v6 : parse_listen_url "ws://[fe80::1%3]:9100" = Ok (V6 [65152; 0; 0; 0; 0; 0; 0; 1] 9100 0 3)%Z.
Proof. vm_compute. reflexivity. Qed.
Example listen_host : parse_listen_url "ws://localhost:9100" = Err (InvalidListenUrl "ws://localhost:9100").
Proof. vm_compute. reflexivity. Qed.

(** * The program *)

(* @src crates/nexal-agent/src/bin/nexal-agent.rs AgentArgs *)
Record AgentArgs := mkAgentArgs { listen : string }.

(** [bind] is [TcpListener::bind] with [local_addr]: the address got for the one
    asked for.  [parse] is clap's parser of the command line after the program,
    given what the option is when it is left out. *)
Section program.
Context (bind : SocketAddr → result SocketAddr string)
  (parse : string → list string → result AgentArgs string).

(** Up to the accept loop: the address bound and the line printed. *)
(* @src crates/nexal-agent/src/server/transport.rs run_transport "let bind_address" .. "println!" *)
Definition run_transport (listen_url : string) : result (SocketAddr * string) string :=
  bind_address ←? map_err listen_url_error_text (parse_listen_url listen_url);
  local_addr ←? bind bind_address;
  Ok (local_addr, "ws://" +:+ print_socket_addr local_addr).

(* @src crates/nexal-agent/src/server.rs run_main_with_listen_url *)
Definition run_main_with_listen_url (listen_url : string) : result (SocketAddr * string) string :=
  run_transport listen_url.

(* @src crates/nexal-agent/src/server.rs run_main *)
Definition run_main : result (SocketAddr * string) string := run_main_with_listen_url DEFAULT_LISTEN_URL.

(* @src crates/nexal-agent/src/bin/nexal-agent.rs main *)
Definition agent_main (args : list string) : result (SocketAddr * string) string :=
  args ←? parse DEFAULT_LISTEN_URL args;
  run_main_with_listen_url (listen args).

(** Documented behaviour: [--listen URL] sets the option, and a program bound to
    an address has an address of its kind, the port included unless it was 0. *)
Definition parse_law : Prop :=
  (∀ d url, parse d ["--listen"; url] = Ok (mkAgentArgs url)) ∧ (∀ d, parse d [] = Ok (mkAgentArgs d)).

Definition bind_law : Prop := ∀ a local, bind a = Ok local →
  addr_wf local ∧ (∀ ip port flowinfo scope_id, local = V6 ip port flowinfo scope_id → flowinfo = 0%Z)
  ∧ (addr_port a ≠ 0%Z → addr_port local = addr_port a).

(** The address of every interface. *)
Definition wildcard (port : Z) (a : SocketAddr) : Prop :=
  a = V4 (0, 0, 0, 0)%Z port ∨ a = V6 (replicate 8 0%Z) port 0 0.

(** The arguments make an agent listen on this port of every interface. *)
Definition listens_everywhere (port : Z) (args : list string) : Prop :=
  ∃ a, wildcard port a ∧
    agent_main args = (local_addr ←? bind a; Ok (local_addr, "ws://" +:+ print_socket_addr local_addr)).

Lemma wildcard_v6 port :
  (0 ≤ port < 2 ^ 16)%Z → parse_law → listens_everywhere port ["--listen"; "ws://[::]:" +:+ pretty port].
Proof using bind.
  intros Hp [Hl _]. exists (V6 (replicate 8 0%Z) port 0 0). split; [by right|].
  unfold agent_main. rewrite Hl. cbn [res_bind listen]. unfold run_main_with_listen_url, run_transport, parse_listen_url.
  change ("ws://[::]:" +:+ pretty port) with ("ws://" +:+ print_socket_addr (V6 (replicate 8 0%Z) port 0 0)).
  rewrite strip_prefix_app. cbn [ok_or res_bind map_err].
  rewrite parse_print_socket_addr; [done| |by intros ? ? ? ? [= _ _ <- _]].
  split; [done|]. split; [by repeat constructor|]. lia.
Qed.

Lemma wildcard_v4 port :
  (0 ≤ port < 2 ^ 16)%Z → parse_law → listens_everywhere port ["--listen"; "ws://0.0.0.0:" +:+ pretty port].
Proof using bind.
  intros Hp [Hl _]. exists (V4 (0, 0, 0, 0)%Z port). split; [by left|].
  unfold agent_main. rewrite Hl. cbn [res_bind listen]. unfold run_main_with_listen_url, run_transport, parse_listen_url.
  change ("ws://0.0.0.0:" +:+ pretty port) with ("ws://" +:+ print_socket_addr (V4 (0, 0, 0, 0)%Z port)).
  rewrite strip_prefix_app. cbn [ok_or res_bind map_err].
  rewrite parse_print_socket_addr; [done| |done].
  split; [by repeat constructor|lia].
Qed.
End program.

(** * Where the gateway looks for it *)

(** The backend gave this url for that container, when asked for it or in a handle. *)
Definition gives_url {W} (B : ContainerBackend W) (name url : string) : Prop :=
  ∃ w w', container_url name w = (w', Ok url)
    ∨ ∃ spec h, ensure spec w = (w', Ok h) ∧ cs_name spec = name ∧ ch_url h = url.

Lemma podman_listens bind parse (self : Podman.PodmanBackend) spec created :
  parse_law parse → ∃ opts args,
    Podman.create_args self spec created = opts ++ cs_image spec :: "/usr/local/bin/nexal-agent" :: args
    ∧ listens_everywhere bind parse Podman.CONTAINER_WS_PORT args
    ∧ "--publish=127.0.0.1::" +:+ pretty Podman.CONTAINER_WS_PORT +:+ "/tcp" ∈ opts.
Proof.
  intros Hl. exists ("create" :: "--name" :: cs_name spec :: Podman.create_flags self spec created),
    ["--listen"; "ws://[::]:" +:+ pretty Podman.CONTAINER_WS_PORT]. split; [|split].
  - unfold Podman.create_args. by rewrite <- !app_comm_cons.
  - by apply wildcard_v6.
  - do 3 apply list_elem_of_further. unfold Podman.create_flags. apply elem_of_app. left.
    do 8 apply list_elem_of_further. apply list_elem_of_here.
Qed.

Lemma podman_dials {W} {H : Podman.PodmanHost W} (self : Podman.PodmanBackend) name url :
  gives_url (Podman.podman_backend self) name url → ∃ w w' out line rest,
    Podman.podman self ["port"; name; pretty Podman.CONTAINER_WS_PORT +:+ "/tcp"] w = (w', Ok out)
    ∧ lines out = line :: rest ∧ url = "ws://" +:+ trim line.
Proof.
  intros (w & w' & Hu).
  assert (∃ w1 w2, Podman.discover_url self name w1 = (w2, Ok url)) as (w1 & w2 & Hd).
  { destruct Hu as [Hu|(spec & h & He & <- & <-)]; [by exists w, w'|exact (Podman.podman_ensure_url self spec _ _ _ He)]. }
  apply Podman.discover_url_Ok in Hd as (addr & -> & w3 & Hp).
  apply Podman.discover_host_port_Ok in Hp as (w4 & out & line & rest & Hrun & Hlines & ->).
  by exists w4, w3, out, line, rest.
Qed.

Lemma sprite_listens bind parse (self : Sprites.SpritesBackend) :
  parse_law parse → (0 ≤ Sprites.sp_agent_port self < 2 ^ 16)%Z →
  ∃ fields args, Sprites.agent_service self = JObj fields
    ∧ ("cmd", JStr (Sprites.sp_agent_bin self)) ∈ fields ∧ ("args", JArr (map JStr args)) ∈ fields
    ∧ listens_everywhere bind parse (Sprites.sp_agent_port self) args.
Proof.
  intros Hl Hp. eexists _, ["--listen"; "ws://0.0.0.0:" +:+ pretty (Sprites.sp_agent_port self)]. split; [reflexivity|].
  split; [apply list_elem_of_here|]. split; [apply list_elem_of_further, list_elem_of_here|]. by apply wildcard_v4.
Qed.

Lemma sprite_dials {W} {H : HttpHost W} {SH : Sprites.SpritesHost W} {S : StatusNames} {J : Sprites.SpritesJson}
    (self : Sprites.SpritesBackend) st st' name url :
  Sprites.tunnels_ok self st →
  (Sprites.local_tunnel_url self name st = (st', Ok url)
   ∨ ∃ spec h, Sprites.sprites_ensure self spec st = (st', Ok h) ∧ ch_name h = name ∧ ch_url h = url) →
  ∃ tunnel, Sprites.tunnels st' !! name = Some tunnel ∧ url = "ws://" +:+ Sprites.th_local_addr tunnel
    ∧ ∀ loop request header connect send t,
        Sprites.tasks st' !! Sprites.th_task tunnel = Some loop →
        Sprites.serve_accepted request header connect send loop = Ok t →
        Sprites.to_url t = Sprites.ws_api_base self +:+ "/v1/sprites/" +:+ name +:+ "/proxy"
        ∧ Sprites.to_init t = JObj [("host", JStr "127.0.0.1"); ("port", JNum (Sprites.sp_agent_port self))].
Proof.
  intros Hok Hu.
  assert (∃ st1, Sprites.tunnels_ok self st1 ∧ Sprites.local_tunnel_url self name st1 = (st', Ok url))
    as (st1 & Hok1 & Hu1).
  { destruct Hu as [Hu|(spec & h & He & <- & <-)]; [by exists st|].
    by apply Sprites.ensure_tunnel in He as [_ ?]. }
  apply Sprites.url_of_tunnel in Hu1 as (tunnel & Ht & -> & Hloop); [|done].
  exists tunnel. split; [done|]. split; [done|]. intros loop request header connect send t Hl Hs.
  rewrite (Hloop _ Hl) in Hs. unfold Sprites.serve_accepted, Sprites.open_tunnel in Hs.
  destruct (request _), (header _), (connect _), (send _); by simplify_eq/=.
Qed.


(** The line an agent prints when it starts is a listen url of the address it
    is bound to; every address the system can bind reads back, in either family. *)
Theorem printed_url_reads_back bind parse args local line :
  bind_law bind → agent_main bind parse args = Ok (local, line) → parse_listen_url line = Ok local.
Proof.
  intros Hb H. unfold agent_main, run_main_with_listen_url, run_transport in H.
  apply res_bind_Ok in H as (a & _ & H). apply res_bind_Ok in H as (b & _ & H).
  apply res_bind_Ok in H as (c & Hc & H). injection H as <- <-.
  destruct (Hb _ _ Hc) as (Hwf & Hflow & _). unfold parse_listen_url.
  rewrite strip_prefix_app. cbn [ok_or res_bind]. by rewrite parse_print_socket_addr.
Qed.

(** ** Witnesses *)

(** A parser of the one option, and a system that gives port 0 the port 40000. *)
Definition small_parse (default_url : string) (args : list string) : result AgentArgs string :=
  match args with
  | [] => Ok (mkAgentArgs default_url)
  | ["--listen"; url] => Ok (mkAgentArgs url)
  | _ => Err "usage: nexal-agent [--listen URL]"
  end.

Definition small_bind (a : SocketAddr) : result SocketAddr string :=
  if bool_decide (0 ≤ addr_port a < 2 ^ 16)%Z then
    let port := if bool_decide (addr_port a = 0%Z) then 40000%Z else addr_port a in
    Ok match a with
       | V4 _ _ => V4 (127, 0, 0, 1)%Z port
       | V6 _ _ _ _ => V6 [0; 0; 0; 0; 0; 0; 0; 1]%Z port 0 0
       end
  else Err "invalid port".

Definition small_spec : ContainerSpec :=
  mkContainerSpec "a" "debian" ∅ ∅ "/srv/agent" None None None false None [] false.

Definition always_ok {A} (_ : A) : result unit string := Ok tt.


Lemma small_bind_law : bind_law small_bind.
Proof.
  intros a local H. unfold small_bind in H. case_bool_decide as Hp; [|done].
  set (port := if bool_decide _ then _ else _) in H.
  assert (0 ≤ port < 2 ^ 16 ∧ (addr_port a ≠ 0 → port = addr_port a))%Z as [Hr Heq].
  { unfold port. case_bool_decide; [split; [lia|done]|done]. }
  destruct a; injection H as <-; (split; [|by split; [intros ? ? ? ? [= _ _ <- _]|]]).
  - split; [by repeat constructor|done].
  - split; [done|]. split; [by repeat constructor|]. done.
Qed.

Lemma printed_url_reads_back_witness :
  agent_main small_bind small_parse [] = Ok (V4 (127, 0, 0, 1)%Z 40000, "ws://127.0.0.1:40000")
  ∧ parse_listen_url "ws://127.0.0.1:40000" = Ok (V4 (127, 0, 0, 1)%Z 40000).
Proof.
  assert (agent_main small_bind small_parse [] = Ok (V4 (127, 0, 0, 1)%Z 40000, "ws://127.0.0.1:40000"))
    as H by (vm_compute; reflexivity).
  split; [exact H|].
  apply (printed_url_reads_back small_bind small_parse [] (V4 (127, 0, 0, 1)%Z 40000)
    "ws://127.0.0.1:40000" small_bind_law H).
Defined.
