(* ===== verification/AgentServer.v ===== *)
(** The agent's server: the connections it accepts, each with handlers of its own
    ([nexal-agent/src/server/transport.rs], [server/services/exec_server.rs]), the
    task that forwards process events to a connection's client
    ([server/channel/dispatch.rs]), and what connections on one machine share: its
    files and the sockets of the proxies. *)
From S2P Require Import Prelude Paths Wire Methods AgentWire Process AgentProxy AgentFs AgentDispatch.

(** * Forwarding of process events *)

Section forward.
Context `{!ToValue ExecOutputDeltaNotification, !ToValue ExecExitedNotification,
  !ToValue ExecClosedNotification}.

(** How many of the newest events a [broadcast] channel keeps: what it was asked
    for (256) or more. *)
Context (capacity : nat).

(** Where the events task stands; [next] is the position of the event it will
    receive next. *)
Inductive ForwardPc :=
  | Subscribing
  | Receiving (next : nat)
  | Sending (notif : Value) (next : nat)
  | Stopped.

Record Forwarder := mkForwarder {
  fw_log : list ProcessEvent;
  fw_pc : ForwardPc;
  fw_sent : list Value;
}.

Definition forwarder_init : Forwarder := mkForwarder [] Subscribing [].

Inductive forward_label :=
  | FBroadcast (e : ProcessEvent)
  | FSubscribe
  | FRecv
  | FSend (accepted : bool)
  | FAbort.

(* @src crates/nexal-agent/src/process/events.rs ProcessEventBroadcaster::send_output_delta *)
Definition broadcast (e : ProcessEvent) (f : Forwarder) : Forwarder :=
  mkForwarder (fw_log f ++ [e]) (fw_pc f) (fw_sent f).

(** A receiver gets the events sent after it subscribed. *)
(* @src crates/nexal-agent/src/process/events.rs ProcessEventBroadcaster::subscribe *)
Definition subscribe (f : Forwarder) : Forwarder :=
  mkForwarder (fw_log f) (Receiving (length (fw_log f))) (fw_sent f).

(** One that has fallen too far behind is told so and goes on with the oldest
    event kept; [None] is a receiver that waits. *)
(* @src crates/nexal-agent/src/server/channel/dispatch.rs run_dispatch "match rx.recv().await {" .. "]);" *)
Definition forward_recv (next : nat) (f : Forwarder) : option Forwarder :=
  if bool_decide (capacity < length (fw_log f) - next) then
    Some (mkForwarder (fw_log f) (Receiving (length (fw_log f) - capacity)) (fw_sent f))
  else
    e ← fw_log f !! next;
    Some (mkForwarder (fw_log f) (Sending (event_frame e) (S next)) (fw_sent f)).

(* @src crates/nexal-agent/src/server/channel/dispatch.rs run_dispatch "if notify_tx.send(notif).await.is_err() {" .. "Err(tokio::sync::broadcast::error::RecvError::Closed) => break," *)
Definition forward_sent (notif : Value) (next : nat) (accepted : bool) (f : Forwarder) : Forwarder :=
  if accepted then mkForwarder (fw_log f) (Receiving next) (fw_sent f ++ [notif])
  else mkForwarder (fw_log f) Stopped (fw_sent f).

(* @src crates/nexal-agent/src/server/channel/dispatch.rs run_dispatch "let events_task = tokio::spawn(async move {" .. "let mut rx = handler_for_events.subscribe_process_events();" *)
Definition forward_step (l : forward_label) (f : Forwarder) : option Forwarder :=
  match l, fw_pc f with
  | FBroadcast e, _ => Some (broadcast e f)
  | FSubscribe, Subscribing => Some (subscribe f)
  | FRecv, Receiving next => forward_recv next f
  | FSend accepted, Sending notif next => Some (forward_sent notif next accepted f)
  | FAbort, _ => Some (mkForwarder (fw_log f) Stopped (fw_sent f))
  | _, _ => None
  end.

Fixpoint forward_run (ls : list forward_label) (f : Forwarder) : option Forwarder :=
  match ls with
  | [] => Some f
  | l :: ls' => f' ← forward_step l f; forward_run ls' f'
  end.

(** The task has not fallen behind by more events than the channel was asked to
    keep. *)
Definition up_to_date (f : Forwarder) : bool :=
  match fw_pc f with
  | Receiving next => bool_decide (length (fw_log f) - next ≤ 256)
  | _ => true
  end.

Fixpoint keeps_up (ls : list forward_label) (f : Forwarder) : bool :=
  up_to_date f &&
  match ls with
  | [] => true
  | l :: ls' => match forward_step l f with Some f' => keeps_up ls' f' | None => true end
  end.

(** The notification the task holds, and the position it has come to. *)
Definition held (f : Forwarder) : list Value :=
  match fw_pc f with Sending notif _ => [notif] | _ => [] end.

Definition came_to (f : Forwarder) : option nat :=
  match fw_pc f with Receiving n | Sending _ n => Some n | _ => None end.

(** What was written is of the events before the position, some skipped. *)
Definition forward_inv (f : Forwarder) : Prop :=
  ∃ sub, fw_sent f ++ held f = event_frame <$> sub
    ∧ sub `sublist_of` take (default (length (fw_log f)) (came_to f)) (fw_log f)
    ∧ (∀ n, came_to f = Some n → n ≤ length (fw_log f)).

Lemma forward_inv_stopped log sent rest (sub : list ProcessEvent) n :
  sent ++ rest = event_frame <$> sub → sub `sublist_of` take n log →
  forward_inv (mkForwarder log Stopped sent).
Proof.
  intros Hs Hsub. symmetry in Hs. apply fmap_app_inv in Hs as (s1 & s2 & -> & -> & ->).
  exists s1. split; [apply app_nil_r|]. split; [|done]. cbn. rewrite take_ge by done.
  etrans; [by apply sublist_inserts_r|]. etrans; [exact Hsub|apply sublist_take].
Qed.

Lemma forward_step_inv l f f' : forward_inv f → forward_step l f = Some f' → forward_inv f'.
Proof.
  intros (sub & Hs & Hsub & Hle) Hstep. unfold forward_inv, held, came_to in *.
  destruct l, f as [log pc sent], pc as [|next|notif next|]; cbn -[event_frame] in *;
    try done; try (injection Hstep as <-; cbn -[event_frame] in * ).
  - exists sub. split; [done|]. split; [|done]. rewrite !take_ge in * by (rewrite ?length_app; cbn; lia).
    by apply sublist_inserts_r.
  - exists sub. split; [done|]. specialize (Hle _ eq_refl).
    rewrite take_app_le by done. split; [done|]. intros n [= <-]. rewrite length_app. cbn. lia.
  - exists sub. split; [done|]. specialize (Hle _ eq_refl).
    rewrite take_app_le by done. split; [done|]. intros n [= <-]. rewrite length_app. cbn. lia.
  - exists sub. split; [done|]. split; [|done]. rewrite !take_ge in * by (rewrite ?length_app; cbn; lia).
    by apply sublist_inserts_r.
  - exists sub. split; [done|]. split; [done|]. by intros n [= <-].
  - specialize (Hle _ eq_refl). unfold forward_recv in Hstep. cbn in Hstep. case_bool_decide.
    + injection Hstep as <-. cbn. exists sub. split; [done|]. split; [|intros n [= <-]; lia].
      etrans; [exact Hsub|]. replace next with (next `min` (length log - capacity)) by lia.
      rewrite <- take_take. apply sublist_take.
    + destruct (log !! next) as [e|] eqn:He; [|done]. injection Hstep as <-. cbn -[event_frame].
      exists (sub ++ [e]). split; [rewrite app_nil_r in Hs; by rewrite fmap_app, <- Hs|].
      split; [|intros n [= <-]; by apply lookup_lt_Some in He].
      erewrite take_S_r by exact He. by apply sublist_app.
  - destruct accepted; cbn -[event_frame] in *.
    + exists sub. rewrite app_nil_r. by split.
    + by eapply forward_inv_stopped.
  - by eapply forward_inv_stopped.
  - by eapply forward_inv_stopped.
  - by eapply forward_inv_stopped.
  - by eapply forward_inv_stopped.
Qed.

Lemma forward_run_inv ls f f' : forward_inv f → forward_run ls f = Some f' → forward_inv f'.
Proof.
  revert f. induction ls as [|l ls IH]; intros f Hi Hr; cbn in Hr; [by injection Hr as <-|].
  destruct (forward_step l f) as [f1|] eqn:E; [|done]. eapply IH; [|exact Hr]. by eapply forward_step_inv.
Qed.
(** What was written are the events from the [k]-th on, none skipped. *)
Definition contiguous (k : nat) (f : Forwarder) : Prop :=
  ∃ m, fw_sent f ++ held f = event_frame <$> take m (drop k (fw_log f))
    ∧ k + m ≤ length (fw_log f) ∧ (∀ n, came_to f = Some n → n = k + m).

Lemma contiguous_stopped k log sent rest m :
  sent ++ rest = event_frame <$> take m (drop k log) → k + m ≤ length log →
  contiguous k (mkForwarder log Stopped sent).
Proof.
  intros Hs Hm. symmetry in Hs. apply fmap_app_inv in Hs as (s1 & s2 & -> & -> & Ht).
  assert (length s1 ≤ m) as Hl.
  { apply (f_equal length) in Ht. rewrite length_take, length_app in Ht. lia. }
  exists (length s1). split; [|split; [cbn; lia|done]]. cbn -[event_frame]. rewrite app_nil_r. f_equal.
  replace (length s1) with (length s1 `min` m) by lia. by rewrite <- take_take, Ht, take_app_length.
Qed.

Lemma contiguous_step k l f f' :
  256 ≤ capacity → contiguous k f → up_to_date f = true → fw_pc f ≠ Subscribing →
  forward_step l f = Some f' → contiguous k f' ∧ fw_pc f' ≠ Subscribing.
Proof.
  intros Hc (m & Hs & Hm & Hn) Hup Hsub Hstep.
  destruct f as [log pc sent]; unfold held, came_to in *; cbn -[event_frame] in *.
  assert (∀ e, take m (drop k (log ++ [e])) = take m (drop k log)) as Hbr.
  { intros e. rewrite drop_app_le, take_app_le by (rewrite ?length_drop; lia). done. }
  destruct l, pc as [|next|notif next|]; cbn -[event_frame] in *; try done;
    try (injection Hstep as <-; cbn -[event_frame] in * );
    try (split; [|done]; exists m; cbn -[event_frame]; rewrite Hbr, length_app; cbn; split; [done|]; split; [lia|done]);
    try (split; [by eapply contiguous_stopped|done]).
  - specialize (Hn _ eq_refl) as ->. unfold forward_recv in Hstep. cbn in Hstep.
    rewrite bool_decide_eq_true in Hup. rewrite bool_decide_false in Hstep by lia.
    destruct (log !! (k + m)) as [e|] eqn:He; [|done]. injection Hstep as <-. split; [|done].
    exists (S m). cbn -[event_frame]. apply lookup_lt_Some in He as Hlt.
    rewrite (take_S_r _ _ e) by (by rewrite lookup_drop).
    rewrite fmap_app, <- Hs, app_nil_r. split; [done|]. split; [lia|]. intros n [= <-]. lia.
  - destruct accepted; cbn -[event_frame]; (split; [|done]); [|by eapply contiguous_stopped].
    exists m. cbn -[event_frame]. by rewrite app_nil_r.
Qed.

Lemma contiguous_run ls k f f' :
  256 ≤ capacity → contiguous k f → fw_pc f ≠ Subscribing → keeps_up ls f = true →
  forward_run ls f = Some f' → contiguous k f'.
Proof.
  intros Hc. revert f. induction ls as [|l ls IH]; intros f Hi Hpc Hk Hr; cbn in Hr, Hk.
  - by injection Hr as <-.
  - apply andb_prop in Hk as [Hu Hk]. destruct (forward_step l f) as [f1|] eqn:E; [|done].
    destruct (contiguous_step _ _ _ _ Hc Hi Hu Hpc E) as [Hi' Hpc']. by eapply (IH f1).
Qed.

(** C36: The notifications a connection's client is sent are process events of that
    connection, each at most once and in the order they were broadcast.  While the
    task that sends them is never more than 256 events behind, they are the events
    since it subscribed, with none missing: all of them, once it waits at the end. *)
Theorem events_forwarded_in_order ls log f :
  forward_run ls (subscribe (mkForwarder log Subscribing [])) = Some f →
  (∃ sub, fw_sent f = event_frame <$> sub ∧ sub `sublist_of` fw_log f)
  ∧ (256 ≤ capacity → keeps_up ls (subscribe (mkForwarder log Subscribing [])) = true →
     ∃ n, fw_sent f = event_frame <$> take n (drop (length log) (fw_log f))
       ∧ (fw_pc f = Receiving (length (fw_log f)) →
          fw_sent f = event_frame <$> drop (length log) (fw_log f))).
Proof.
  intros Hr. split.
  - assert (forward_inv f) as (sub & Hs & Hsub & _).
    { eapply forward_run_inv; [|exact Hr]. exists []. split; [done|]. split; [apply sublist_nil_l|].
      by intros n [= <-]. }
    symmetry in Hs. apply fmap_app_inv in Hs as (s1 & s2 & Hs1 & _ & ->). exists s1. split; [done|].
    etrans; [by apply sublist_inserts_r|]. etrans; [exact Hsub|apply sublist_take].
  - intros Hc Hk. assert (contiguous (length log) (subscribe (mkForwarder log Subscribing []))) as Hi.
    { exists 0. cbn. split; [done|]. split; [lia|]. intros n [= <-]. lia. }
    destruct (contiguous_run ls _ _ _ Hc Hi ltac:(done) Hk Hr) as (m & Hs & Hm & Hn).
    symmetry in Hs. apply fmap_app_inv in Hs as (s1 & s2 & Hs1 & Hh & Ht).
    exists (length s1). rewrite Hs1. split.
    + f_equal. assert (length s1 ≤ m).
      { apply (f_equal length) in Ht. rewrite length_take, length_app in Ht. lia. }
      replace (length s1) with (length s1 `min` m) by lia. by rewrite <- take_take, Ht, take_app_length.
    + intros Hpc. unfold held, came_to in *. rewrite Hpc in *. symmetry in Hh.
      apply fmap_nil_inv in Hh as ->. rewrite app_nil_r in Ht. rewrite <- Ht. f_equal.
      rewrite take_ge; [done|]. rewrite length_drop. specialize (Hn _ eq_refl). lia.
Qed.
End forward.

(** * Without a connection

    A process manager used within one program ([environment.rs]): it has shaken
    hands with itself. *)

(* @src crates/nexal-agent/src/core/error.rs ExecServerError *)
Inductive ExecServerError :=
  | Protocol (message : string)
  | ServerError (kind message : string).

Definition ExecServerError_to_string (e : ExecServerError) : string :=
  match e with
  | Protocol m => "exec-server protocol error: " +:+ m
  | ServerError k m => "exec-server rejected request (" +:+ k +:+ "): " +:+ m
  end.

(* @src crates/nexal-agent/src/environment.rs Environment *)
Record Environment := mkEnvironment { exec_backend : Inner }.

(** The two calls of the handshake, the first error ending it. *)
Definition shake_hands (default_shell cwd : option string) (st : Inner)
    : result Inner (ChannelError + string) :=
  let r := initialize default_shell cwd st in
  _ ←? map_err inl r.2;
  let r := initialized r.1 in
  _ ←? map_err inr r.2;
  Ok r.1.

(* @src crates/nexal-agent/src/environment.rs Environment::default *)
Definition Environment_default (default_shell cwd : option string) : outcome Environment :=
  match shake_hands default_shell cwd LocalProcess_new with
  | Ok st => Returns (mkEnvironment st)
  | Err _ => Panics
  end.

(* @src crates/nexal-agent/src/environment.rs Environment::create *)
Definition Environment_create (default_shell cwd : option string) : result Environment ExecServerError :=
  res_map mkEnvironment
    (map_err (λ e, Protocol match e with inl err => ce_message err | inr err => err end)
       (shake_hands default_shell cwd LocalProcess_new)).

(** Both ways give a manager that runs processes, and the first never panics. *)
Lemma environment_ready default_shell cwd :
  ∃ env, Environment_default default_shell cwd = Returns env
    ∧ Environment_create default_shell cwd = Ok env
    ∧ require_initialized_for (exec_backend env) "exec" = Ok tt.
Proof. by eexists. Qed.

(** * Connections *)

(** What the connections of one agent share: the machine's files, and the socket
    files of the proxies with the listeners behind them. *)
Record Host (FS : Type) := mkHost {
  host_fs : FS;
  host_sockets : gmap (list Component) nat;
  host_next : nat;
}.
Arguments mkHost {FS}.
Arguments host_fs {FS}.
Arguments host_sockets {FS}.
Arguments host_next {FS}.

(** The handlers of a connection on the machine as it is now. *)
Definition lend {FS} (w : Host FS) (h : ExecServerHandler FS) : ExecServerHandler FS :=
  mkHandler (h_process h) (host_fs w)
    (mkProxyManager (instances (h_proxy h)) (pm_cancelled (h_proxy h)) (accepting (h_proxy h))
       (host_sockets w) (host_next w)).

Definition host_of {FS} (h : ExecServerHandler FS) : Host FS :=
  mkHost (h_fs h) (sockets (h_proxy h)) (next_listener (h_proxy h)).

Definition set_handler {FS} (h : ExecServerHandler FS) (l : Loop (FS := FS)) : Loop (FS := FS) :=
  mkLoop h (lp_channel l) (lp_inbox l) (lp_busy l) (lp_out l).

(** [terminated] are the sessions [shutdown] has terminated. *)
Record Server (FS : Type) := mkServer {
  host : Host FS;
  connections : gmap nat (Loop (FS := FS));
  next_connection : nat;
  terminated : list SessionId;
}.
Arguments mkServer {FS}.
Arguments host {FS}.
Arguments connections {FS}.
Arguments next_connection {FS}.
Arguments terminated {FS}.

Definition server_init {FS} (fs : FS) : Server FS := mkServer (mkHost fs ∅ 0) ∅ 0 [].

Section server.
Context {FS : Type} {HO : Os FS}.
Context {F1 : FromValue InitializeParams} {F2 : FromValue ExecParams} {F3 : FromValue ReadParams}
  {F4 : FromValue WriteParams} {F5 : FromValue TerminateParams} {F6 : FromValue FsReadFileParams}
  {F7 : FromValue FsWriteFileParams} {F8 : FromValue FsCreateDirectoryParams}
  {F9 : FromValue FsGetMetadataParams} {F10 : FromValue FsReadDirectoryParams}
  {F11 : FromValue FsRemoveParams} {F12 : FromValue FsCopyParams}
  {F13 : FromValue ProxyRegisterParams} {F14 : FromValue ProxyUnregisterParams}.
Context {T1 : ToValue InitializeResponse} {T2 : ToValue ExecResponse} {T3 : ToValue ReadResponse}
  {T4 : ToValue WriteResponse} {T5 : ToValue TerminateResponse} {T6 : ToValue FsReadFileResponse}
  {T7 : ToValue FsWriteFileResponse} {T8 : ToValue FsCreateDirectoryResponse}
  {T9 : ToValue FsGetMetadataResponse} {T10 : ToValue FsReadDirectoryResponse}
  {T11 : ToValue FsRemoveResponse} {T12 : ToValue FsCopyResponse}
  {T13 : ToValue ProxyRegisterResponse} {T14 : ToValue ProxyUnregisterResponse}.

(** The loop of a connection, on the machine as it is now, and the server after
    it has taken a step. *)
Definition loop_of (c : nat) (sv : Server FS) : option (Loop (FS := FS)) :=
  (λ l, set_handler (lend (host sv) (lp_handler l)) l) <$> connections sv !! c.

Definition put (c : nat) (l : Loop) (sv : Server FS) : Server FS :=
  mkServer (host_of (lp_handler l)) (<[c := l]> (connections sv)) (next_connection sv) (terminated sv).

Inductive server_label :=
  | SAccept (accepted : result (result unit string) string)
  | SArrive (c : nat) (v : Value)
  | STake (c : nat)
  | SFinish (c : nat) (env : Env)
  | SMalformed (c : nat) (reason : string)
  | SAsk (c k : nat) (method : string) (params : Value)
  | SProcess (c : nat) (t : task) (i : input)
  | SProxyStops (c listener : nat)
  | SEnd (c : nat).

(** A connection and its WebSocket handshake; failures leave the loop accepting. *)
(* @src crates/nexal-agent/src/server/transport.rs run_transport "loop {" .. "let tasks = dispatch::start_dispatch(handler, conn);" *)
Definition accept (accepted : result (result unit string) string) (sv : Server FS) : Server FS :=
  match accepted with
  | Ok (Ok _) =>
      let c := next_connection sv in
      mkServer (host sv)
        (<[c := mkLoop (ExecServerHandler_new (host_fs (host sv))) MsgpackChannel_new [] None []]>
           (connections sv)) (S c) (terminated sv)
  | _ => sv
  end.

(** The client is gone, when the loop takes note of it. *)
(* @src crates/nexal-agent/src/server/channel/dispatch.rs run_dispatch "MessageChannelEvent::Disconnected { reason } => {" .. "handler.shutdown().await;" *)
Definition disconnected (c : nat) (l : Loop (FS := FS)) (sv : Server FS) : Server FS :=
  let r := handler_shutdown (lp_handler l) in
  mkServer (host_of r.1) (delete c (connections sv)) (next_connection sv) (terminated sv ++ r.2).

(** A step of one connection's loop; a background task of its process table; the
    accept loop of a proxy ending on an error. *)
Definition server_step (l : server_label) (sv : Server FS) : option (Server FS) :=
  match l with
  | SAccept accepted => Some (accept accepted sv)
  | SArrive c v =>
      lp ← loop_of c sv;
      Some (put c (mkLoop (lp_handler lp) (lp_channel lp) (lp_inbox lp ++ [v]) (lp_busy lp) (lp_out lp)) sv)
  | STake c => lp ← loop_of c sv; lp' ← loop_take lp; Some (put c lp' sv)
  | SFinish c env => lp ← loop_of c sv; lp' ← loop_finish env lp; Some (put c lp' sv)
  | SMalformed c reason =>
      lp ← loop_of c sv;
      match lp_busy lp with
      | None => Some (put c (mkLoop (lp_handler lp) (lp_channel lp) (lp_inbox lp) None
                               (lp_out lp ++ [malformed_frame reason])) sv)
      | Some _ => None
      end
  | SAsk c k method params =>
      lp ← loop_of c sv;
      let r := request k method params (lp_channel lp) in
      Some (put c (mkLoop (lp_handler lp) r.1 (lp_inbox lp) (lp_busy lp) (lp_out lp ++ [r.2])) sv)
  | SProcess c t i =>
      lp ← loop_of c sv;
      '(st, _, _) ← run_task t i (h_process (lp_handler lp));
      Some (put c (set_handler (set_process st (lp_handler lp)) lp) sv)
  | SProxyStops c listener =>
      lp ← loop_of c sv;
      let m := h_proxy (lp_handler lp) in
      Some (put c (set_handler (set_proxy (mkProxyManager (instances m) (pm_cancelled m)
        (accepting m ∖ {[listener]}) (sockets m) (next_listener m)) (lp_handler lp)) lp) sv)
  | SEnd c =>
      lp ← loop_of c sv;
      match lp_busy lp with None => Some (disconnected c lp sv) | Some _ => None end
  end.

Fixpoint server_run (ls : list server_label) (sv : Server FS) : option (Server FS) :=
  match ls with
  | [] => Some sv
  | l :: ls' => sv' ← server_step l sv; server_run ls' sv'
  end.

(** * What a request does to the proxies *)

(** The socket a request asks a proxy for, once the client may ask. *)
Definition asks_proxy (h : ExecServerHandler FS) (r : Request) : option ProxyRegisterParams :=
  match AgentMethods.AgentMethod_parse (rq_method r), parse_params (rq_params r) with
  | Some ProxyRegister, Ok p =>
      match require_initialized_for (h_process h) "proxy" with Ok _ => Some p | Err _ => None end
  | _, _ => None
  end.

Definition registered (env : Env) (p : ProxyRegisterParams) (m : ProxyManager) : ProxyManager :=
  (pm_register (xr_socket_path p) (xr_upstream_url p) (ev_dir env) (ev_bound env) m).1.

Lemma dispatch_proxies env r (h : ExecServerHandler FS) h' reply :
  dispatch env (rq_method r) (rq_params r) h = Some (h', reply) →
  match asks_proxy h r with
  | Some p => h_proxy h' = registered env p (h_proxy h)
  | None => h_proxy h' = h_proxy h ∨ ∃ path, h_proxy h' = (pm_unregister path (h_proxy h)).1
  end.
Proof.
  unfold dispatch, asks_proxy. destruct (AgentMethods.AgentMethod_parse _) as [m|] eqn:Em.
  2: { intros [= <- _]. by left. }
  assert (∀ R {V : ToValue R} (k : FS → FS * result R ChannelError),
    answer (with_fs h k) = Some (h', reply) → h_proxy h' = h_proxy h) as Hfs.
  { intros R V k. unfold answer, with_fs. destruct (require_initialized_for _ _); by intros [= <- _]. }
  destruct m; unfold with_params;
    destruct (parse_params (rq_params r)) as [p|e];
    try (intros [= <- _]; by left); try (intros H; left; exact (Hfs _ _ _ H)).
  - destruct (handler_exec_read env p h); [|done]. intros [= <- _]. by left.
  - unfold handler_fs_copy. destruct (require_initialized_for _ _).
    + destruct (fs_copy _ _ _); [|done]. intros [= <- _]. by left.
    + intros [= <- _]. by left.
  - unfold answer, proxy_register. destruct (require_initialized_for _ _); intros [= <- _]; [done|by left].
  - unfold answer, proxy_unregister. destruct (require_initialized_for _ _); intros [= <- _]; [|by left].
    right. by eexists.
Qed.

(** ** Listeners have one owner *)

Definition manager (l : Loop (FS := FS)) : ProxyManager := h_proxy (lp_handler l).

Definition owned (m : ProxyManager) (i : nat) : Prop :=
  i ∈ accepting m ∨ ∃ path, instances m !! path = Some i.

(** A manager's accept loops are of instances it lists, each under one path. *)
Record manager_inv (m : ProxyManager) : Prop := {
  mi_next i : owned m i → i < next_listener m;
  mi_listed i : i ∈ accepting m → ∃ path, instances m !! path = Some i;
  mi_inj p1 p2 i : instances m !! p1 = Some i → instances m !! p2 = Some i → p1 = p2;
}.

(** What a manager may come to own is new. *)
Definition grows (m m' : ProxyManager) : Prop :=
  manager_inv m' ∧ next_listener m ≤ next_listener m' ∧
  ∀ i, owned m' i → owned m i ∨ next_listener m ≤ i.

Lemma owns_same m : manager_inv m → grows m m.
Proof. split; [done|]. split; [done|]. by left. Qed.

Lemma grows_same m m' :
  manager_inv m → instances m' = instances m → accepting m' ⊆ accepting m →
  next_listener m ≤ next_listener m' → grows m m'.
Proof.
  intros [Hn Hl Hj] Hi Ha Hx. unfold grows, owned in *. rewrite Hi. split; [|split; [done|set_solver]].
  split; rewrite ?Hi; [|set_solver|done]. intros i Ho. eapply Nat.lt_le_trans; [apply Hn|done].
  unfold owned in *. rewrite Hi in Ho. set_solver.
Qed.

Lemma grows_unregister path m : manager_inv m → grows m (pm_unregister path m).1.
Proof.
  intros Hm. unfold pm_unregister. destruct (instances m !! components path) as [i0|] eqn:E; [|by apply owns_same].
  destruct Hm as [Hn Hl Hj]. unfold grows, owned, set_sockets, cancel_instance in *. cbn.
  assert (∀ i, i ∈ accepting m ∖ {[i0]} ∨ (∃ p, delete (components path) (instances m) !! p = Some i) →
    i ∈ accepting m ∨ ∃ p, instances m !! p = Some i) as Hsub.
  { intros i [?|[p [_ ?]%lookup_delete_Some]]; [left; set_solver|eauto]. }
  split; [|split; [done|by eauto]]. split; unfold owned; cbn.
  - eauto.
  - intros i [Hi Hne]%elem_of_difference. destruct (Hl _ Hi) as [p Hp]. exists p.
    apply lookup_delete_Some. split; [|done]. intros <-. simplify_eq. set_solver.
  - intros p1 p2 i [_ ?]%lookup_delete_Some [_ ?]%lookup_delete_Some. by eapply Hj.
Qed.

Lemma grows_register env p m : manager_inv m → grows m (registered env p m).
Proof.
  intros Hm. unfold registered, pm_register. destruct (ev_dir env); [|by apply owns_same].
  destruct (ev_bound env); [|by apply grows_same].
  destruct (parse_upstream _); [|by apply grows_same; cbn; try done; lia].
  set (path := components _). set (x := next_listener m).
  destruct Hm as [Hn Hl Hj].
  set (m' := _.1). assert (instances m' = <[path := x]> (instances m) ∧ next_listener m' = S x
    ∧ ∀ i, i ∈ accepting m' ↔ i = x ∨ (i ∈ accepting m ∧ instances m !! path ≠ Some i)) as (Hi & Hx & Ha).
  { unfold m'. cbn. destruct (instances m !! path) as [old|] eqn:Eo; cbn; (split; [done|]; split; [done|]).
    - intros i. assert (old < x) by (apply Hn; right; eauto).
      rewrite elem_of_difference, elem_of_union, !elem_of_singleton.
      split; [intros [[?|?] Hne]; [by left|right; split; [done|congruence]]|].
      intros [->|[? Hne]]; [split; [by left|lia]|]. split; [by right|congruence].
    - intros i. rewrite elem_of_union, elem_of_singleton. naive_solver. }
  assert (∀ i, owned m' i → owned m i ∨ i = x) as Ho.
  { intros i [Hac|[q Hq]].
    - apply Ha in Hac as [->|[? _]]; [by right|left; by left].
    - rewrite Hi in Hq. apply lookup_insert_Some in Hq as [[_ <-]|[_ ?]]; [by right|]. left. right. eauto. }
  split; [|split; [rewrite Hx; lia|]].
  - split.
    + intros i [Hm%Hn|Hm]%Ho; lia.
    + intros i [->|[Hac Hne]]%Ha; rewrite Hi; [exists path; apply lookup_insert_eq|].
      destruct (Hl _ Hac) as [q Hq]. exists q. rewrite lookup_insert_ne; [done|]. by intros <-.
    + intros p1 p2 i. rewrite Hi.
      intros [[<- <-]|[? H1]]%lookup_insert_Some [[<- ?]|[? H2]]%lookup_insert_Some; subst; try done;
        [| |by eapply Hj]; exfalso; [assert (x < x)|assert (x < x)]; try lia; apply Hn; right; eauto.
  - intros i [?|Hm]%Ho; [by left|right; lia].
Qed.
Record owners (sv : Server FS) : Prop := {
  ow_manager c l : connections sv !! c = Some l → manager_inv (h_proxy (lend (host sv) (lp_handler l)));
  ow_apart c1 c2 l1 l2 i :
    connections sv !! c1 = Some l1 → connections sv !! c2 = Some l2 →
    owned (manager l1) i → owned (manager l2) i → c1 = c2;
  ow_fresh c l : connections sv !! c = Some l → c < next_connection sv;
}.

(** The manager of a connection after one of its steps. *)
Definition stepped (sv sv' : Server FS) : Prop :=
  ∃ c l l', connections sv !! c = Some l
    ∧ grows (h_proxy (lend (host sv) (lp_handler l))) (manager l') ∧ sv' = put c l' sv.

Lemma loop_of_Some c sv lp :
  loop_of c sv = Some lp → ∃ l, connections sv !! c = Some l ∧ lp = set_handler (lend (host sv) (lp_handler l)) l.
Proof. unfold loop_of. intros (l & -> & Hl)%fmap_Some. eauto. Qed.

Lemma finish_grows env (lp lp' : Loop) :
  loop_finish env lp = Some lp' → manager_inv (manager lp) → grows (manager lp) (manager lp').
Proof.
  unfold loop_finish. intros (r & Hr & (hr & Hd & [= <-])%bind_Some)%bind_Some Hm.
  destruct hr as [h' reply]. apply dispatch_proxies in Hd. unfold manager at 2. cbn.
  destruct (asks_proxy (lp_handler lp) r) as [p|].
  - rewrite Hd. by apply grows_register.
  - destruct Hd as [->|[path ->]]; [by apply owns_same|by apply grows_unregister].
Qed.

Lemma loop_take_handler (l l' : Loop (FS := FS)) : loop_take l = Some l' → lp_handler l' = lp_handler l.
Proof. unfold loop_take. destruct (lp_busy l); [done|]. destruct (lp_inbox l); [done|]. by intros [= <-]. Qed.

(** Every step but accepting and ending is one of a connection. *)
Definition of_connection (l : server_label) : bool :=
  match l with SAccept _ | SEnd _ => false | _ => true end.

Lemma server_step_stepped l sv sv' :
  owners sv → server_step l sv = Some sv' → of_connection l = true → stepped sv sv'.
Proof.
  intros Ho Hs Hof. destruct l; try done; cbn in Hs;
    apply bind_Some in Hs as (lp & Hlp & Hs); apply loop_of_Some in Hlp as (l0 & Hl0 & ->);
    exists c, l0; pose proof (ow_manager _ Ho _ _ Hl0) as Hm.
  - injection Hs as <-. eexists. split; [done|]. split; [|done]. by apply owns_same.
  - apply bind_Some in Hs as (lp' & Ht & [= <-]). exists lp'. split; [done|]. split; [|done].
    apply loop_take_handler in Ht. unfold manager. rewrite Ht. by apply owns_same.
  - apply bind_Some in Hs as (lp' & Hf & [= <-]). exists lp'. split; [done|]. split; [|done].
    by apply finish_grows in Hf.
  - case_match; [done|]. injection Hs as <-. eexists. split; [done|]. split; [|done]. by apply owns_same.
  - injection Hs as <-. eexists. split; [done|]. split; [|done]. by apply owns_same.
  - apply bind_Some in Hs as ([[st ts] evs] & _ & [= <-]). eexists. split; [done|]. split; [|done].
    by apply owns_same.
  - injection Hs as <-. eexists. split; [done|]. split; [|done].
    apply grows_same; cbn; try done; set_solver.
Qed.
(** ** What a shutdown leaves *)

Lemma shutdown_fold (all : list (list Component * nat)) m :
  let m' := foldl (λ m ki, set_sockets (delete ki.1) (cancel_instance ki.2 m)) m all in
  (∀ i, i ∈ accepting m' ↔ i ∈ accepting m ∧ i ∉ all.*2)
  ∧ (∀ p, sockets m' !! p = if decide (p ∈ all.*1) then None else sockets m !! p)
  ∧ next_listener m' = next_listener m.
Proof.
  revert m. induction all as [|[k x] all IH]; intros m; cbn.
  - split; [set_solver|done].
  - destruct (IH (set_sockets (delete k) (cancel_instance x m))) as (Ha & Hs & Hn).
    split; [|split; [|done]].
    + intros i. rewrite Ha. cbn. rewrite elem_of_difference, elem_of_singleton, not_elem_of_cons. tauto.
    + intros p. rewrite Hs. cbn. case_decide as H1; case_decide as H2; try done.
      * by destruct H2; apply list_elem_of_further.
      * apply elem_of_cons in H2 as [->|?]; [apply lookup_delete_eq|done].
      * rewrite lookup_delete_ne; [done|]. intros ->. apply H2, list_elem_of_here.
Qed.

Lemma shutdown_sockets m p :
  sockets (pm_shutdown m) !! p = match instances m !! p with Some _ => None | None => sockets m !! p end.
Proof.
  unfold pm_shutdown. cbn. destruct (shutdown_fold (map_to_list (instances m)) m) as (_ & -> & _).
  destruct (instances m !! p) as [i|] eqn:E.
  - rewrite decide_True; [done|]. apply list_elem_of_fmap. exists (p, i).
    split; [done|]. by apply elem_of_map_to_list.
  - rewrite decide_False; [done|]. intros ([q i] & -> & Hin)%list_elem_of_fmap.
    apply elem_of_map_to_list in Hin. cbn in *. congruence.
Qed.

Lemma shutdown_next m : next_listener (pm_shutdown m) = next_listener m.
Proof. unfold pm_shutdown. cbn. by destruct (shutdown_fold (map_to_list (instances m)) m) as (_ & _ & ->). Qed.

Lemma shutdown_accepts_nothing m : manager_inv m → accepting (pm_shutdown m) = ∅.
Proof.
  intros Hm. apply set_eq. intros i. split; [|set_solver].
  unfold pm_shutdown. cbn. destruct (shutdown_fold (map_to_list (instances m)) m) as (-> & _ & _).
  intros [Hi Hn]. destruct (mi_listed _ Hm _ Hi) as [p Hp]. destruct Hn.
  apply list_elem_of_fmap. exists (p, i). split; [done|]. by apply elem_of_map_to_list.
Qed.

(** ** The invariant *)

Lemma owners_init fs : owners (server_init fs).
Proof. split; cbn; intros; by rewrite lookup_empty in *. Qed.

Lemma manager_inv_raise m sk n :
  manager_inv m → next_listener m ≤ n →
  manager_inv (mkProxyManager (instances m) (pm_cancelled m) (accepting m) sk n).
Proof.
  intros [Hn Hl Hj] Hle. split; [|done|done]. intros i Hi. cbn. eapply Nat.lt_le_trans; [by apply Hn|done].
Qed.

Lemma owners_put c l l' sv :
  owners sv → connections sv !! c = Some l →
  grows (h_proxy (lend (host sv) (lp_handler l))) (manager l') → owners (put c l' sv).
Proof.
  intros [Hm Ha Hf] Hl (Hg & Hle & Hnew). unfold manager in *.
  assert (∀ c2 l2 i, c2 ≠ c → connections sv !! c2 = Some l2 → owned (h_proxy (lp_handler l2)) i →
    owned (h_proxy (lp_handler l')) i → False) as Hdis.
  { intros c2 l2 i Hne Hc2 Ho [Hold|Hge]%Hnew.
    - apply Hne. eapply (Ha c2 c); [exact Hc2|exact Hl|exact Ho|exact Hold].
    - pose proof (mi_next _ (Hm _ _ Hc2) i Ho) as Hlt. cbn in *. lia. }
  split; cbn.
  - intros c2 l2 [[<- <-]|[Hne Hc2]]%lookup_insert_Some.
    + by destruct l' as [[pr fs []]].
    + specialize (Hm _ _ Hc2). by apply (manager_inv_raise _ _ _ Hm).
  - intros c1 c2 l1 l2 i [[<- <-]|[Hn1 H1]]%lookup_insert_Some [[<- <-]|[Hn2 H2]]%lookup_insert_Some O1 O2;
      unfold manager in *; [done| | |by eapply Ha].
    + exfalso. by eapply (Hdis c2).
    + exfalso. by eapply (Hdis c1).
  - intros c2 l2 [[<- <-]|[Hne Hc2]]%lookup_insert_Some; by eapply Hf.
Qed.

Lemma owners_step l sv sv' : owners sv → server_step l sv = Some sv' → owners sv'.
Proof.
  intros Ho Hs.
  destruct (of_connection l) eqn:Hof; [|destruct l as [a|?|?|?|?|?|?|?|c]; try done; clear Hof].
  - apply server_step_stepped in Hs as (c & l0 & l' & Hl0 & Hg & ->); [|done|done]. by eapply owners_put.
  - injection Hs as <-. destruct a as [[u|e]|e]; try done. destruct Ho as [Hm Ha Hf]. cbn.
    assert (∀ i, ¬ owned ProxyManager_new i) as Hnone.
    { intros i [Hi|[p Hp]]; cbn in *; [set_solver|by rewrite lookup_empty in Hp]. }
    split; cbn.
    + intros c l [[<- <-]|[Hne Hc]]%lookup_insert_Some; [|exact (Hm _ _ Hc)]. cbn.
      split; cbn; [|set_solver|intros p1 p2 i; by rewrite lookup_empty].
      intros i [Hi|[p Hp]]; cbn in *; [set_solver|by rewrite lookup_empty in Hp].
    + intros c1 c2 l1 l2 i [[<- <-]|[H1n H1]]%lookup_insert_Some [[<- <-]|[H2n H2]]%lookup_insert_Some O1 O2;
        [done|by destruct (Hnone i)|by destruct (Hnone i)|by eapply Ha].
    + intros c l [[<- <-]|[Hne Hc]]%lookup_insert_Some; [lia|]. apply Hf in Hc. lia.
  - cbn in Hs. apply bind_Some in Hs as (lp & Hlp & Hs). apply loop_of_Some in Hlp as (l0 & Hl0 & ->).
    case_match; [done|]. injection Hs as <-. destruct Ho as [Hm Ha Hf]. unfold disconnected. split; cbn.
    + intros c2 l2 [Hne Hc2]%lookup_delete_Some. specialize (Hm _ _ Hc2).
      apply (manager_inv_raise _ _ _ Hm). exact (Nat.eq_le_incl _ _ (eq_sym (shutdown_next (h_proxy (lend (host sv) (lp_handler l0)))))). 
    + intros c1 c2 l1 l2 i [_ ?]%lookup_delete_Some [_ ?]%lookup_delete_Some. by eapply Ha.
    + intros c2 l2 [_ ?]%lookup_delete_Some. by eapply Hf.
Qed.

Lemma server_run_owners ls sv sv' : owners sv → server_run ls sv = Some sv' → owners sv'.
Proof.
  revert sv. induction ls as [|l ls IH]; intros sv Ho Hr; cbn in Hr; [by injection Hr as <-|].
  destruct (server_step l sv) as [sv1|] eqn:E; [|done]. eapply IH; [|exact Hr]. by eapply owners_step.
Qed.
(** ** Proxies are served *)

Definition path_free (c : nat) (path : list Component) (sv : Server FS) : bool :=
  bool_decide (map_Forall (λ c' l', c' ≠ c → instances (manager l') !! path = None) (connections sv)).

(** A registration that touches no proxy it should not: it fails before it has
    removed the socket file, or no other live connection lists that socket, and then
    either it succeeds or the connection itself does not list the socket either. *)
Definition unobtrusive (env : Env) (p : ProxyRegisterParams) (m : ProxyManager) : bool :=
  is_ok (ev_bound env) && is_ok (parse_upstream (xr_upstream_url p))
  || bool_decide (instances m !! components (xr_socket_path p) = None).

Definition orderly (sv : Server FS) (l : server_label) : bool :=
  match l with
  | SFinish c env =>
      match (lp ← loop_of c sv; r ← lp_busy lp; p ← asks_proxy (lp_handler lp) r; Some (lp, p)) with
      | Some (lp, p) =>
          negb (is_ok (ev_dir env))
          || path_free c (components (xr_socket_path p)) sv && unobtrusive env p (manager lp)
      | None => true
      end
  | _ => true
  end.

Fixpoint orderly_run (ls : list server_label) (sv : Server FS) : bool :=
  match ls with
  | [] => true
  | l :: ls' => orderly sv l && match server_step l sv with Some sv' => orderly_run ls' sv' | None => true end
  end.

(** The accept loops that end on an error in a run. *)
Definition stopped (ls : list server_label) : list nat :=
  omap (λ l, match l with SProxyStops _ x => Some x | _ => None end) ls.

(** Every listed socket leads to the listener listed, which accepts unless its loop
    has ended on an error. *)
Definition pm_served (X : list nat) (m : ProxyManager) : Prop :=
  ∀ path i, instances m !! path = Some i → sockets m !! path = Some i ∧ (i ∈ accepting m ∨ i ∈ X).

Lemma pm_served_frame X m sk n :
  pm_served X m → (∀ p, is_Some (instances m !! p) → sk !! p = sockets m !! p) →
  pm_served X (mkProxyManager (instances m) (pm_cancelled m) (accepting m) sk n).
Proof. intros Hs Hsk p i Hi. cbn in *. destruct (Hs _ _ Hi). split; [|done]. rewrite Hsk; [done|by eexists]. Qed.

Lemma pm_served_unregister X path m :
  manager_inv m → pm_served X m → pm_served X (pm_unregister path m).1.
Proof.
  intros Hm Hs. unfold pm_unregister. destruct (instances m !! components path) as [i0|] eqn:E; [|done].
  intros p i. cbn. intros [Hne Hi]%lookup_delete_Some. rewrite lookup_delete_ne by done.
  destruct (Hs _ _ Hi) as [? Hac]. split; [done|]. destruct Hac as [Hac|?]; [left|by right].
  apply elem_of_difference. split; [done|]. rewrite elem_of_singleton. intros ->.
  by destruct Hne; eapply (mi_inj _ Hm).
Qed.

(** What a registration that goes ahead does to the sockets. *)
Lemma registered_sockets env p m q :
  q ≠ components (xr_socket_path p) → sockets (registered env p m) !! q = sockets m !! q.
Proof.
  intros Hq. unfold registered, pm_register.
  repeat (case_match; cbn; try done); by rewrite ?lookup_insert_ne, ?lookup_delete_ne.
Qed.

Lemma registered_dir_Err env p m : is_ok (ev_dir env) = false → registered env p m = m.
Proof. unfold registered, pm_register. by destruct (ev_dir env). Qed.

Lemma pm_served_register X env p m :
  manager_inv m → pm_served X m → unobtrusive env p m = true → pm_served X (registered env p m).
Proof.
  intros Hm Hs Hu. unfold registered, pm_register. set (k := components _).
  assert (∀ q i, instances m !! q = Some i → i ≠ next_listener m) as Hnew.
  { intros q i Hq ->. assert (next_listener m < next_listener m); [|lia]. apply (mi_next _ Hm). right. by exists q. }
  assert (∀ f, instances m !! k = None → (∀ q, q ≠ k → f !! q = sockets m !! q) →
    ∀ n, pm_served X (mkProxyManager (instances m) (pm_cancelled m) (accepting m) f n)) as Hlost.
  { intros f Hk Hf n. apply pm_served_frame; [done|]. intros q [i Hq]. apply Hf. by intros ->; simplify_eq. }
  unfold unobtrusive in Hu. fold k in Hu. destruct (ev_dir env) as [[]|]; [|done].
  destruct (ev_bound env) as [[]|]; [destruct (parse_upstream _)|]; cbn in Hu |- *.
  - intros q i. destruct (instances m !! k) as [old|] eqn:Ek; cbn;
      intros [[<- <-]|[Hne Hq]]%lookup_insert_Some.
    + rewrite lookup_insert_eq. split; [done|left]. pose proof (Hnew _ _ Ek). set_solver.
    + rewrite lookup_insert_ne, lookup_delete_ne by done. destruct (Hs _ _ Hq) as [? Hac].
      split; [done|]. destruct Hac as [Hac|]; [left|by right].
      assert (i ≠ old) by (intros ->; by destruct Hne; eapply (mi_inj _ Hm)). set_solver.
    + rewrite lookup_insert_eq. set_solver.
    + rewrite lookup_insert_ne, lookup_delete_ne by done. destruct (Hs _ _ Hq). set_solver.
  - apply bool_decide_eq_true in Hu. apply Hlost; [done|]. intros q Hq. by rewrite lookup_insert_ne, lookup_delete_ne.
  - apply bool_decide_eq_true in Hu. apply Hlost; [done|]. intros q Hq. by rewrite lookup_delete_ne.
Qed.

Record served (X : list nat) (sv : Server FS) : Prop := {
  sd_manager c l : connections sv !! c = Some l → pm_served X (h_proxy (lend (host sv) (lp_handler l)));
  sd_apart c1 c2 l1 l2 p : c1 ≠ c2 →
    connections sv !! c1 = Some l1 → connections sv !! c2 = Some l2 →
    is_Some (instances (manager l1) !! p) → instances (manager l2) !! p = None;
}.

(** The step of a connection that lists at most [new] besides what it listed, and
    touches no socket but those. *)
Lemma served_put X c l l' sv (new : list Component → Prop) :
  served X sv → connections sv !! c = Some l → pm_served X (manager l') →
  (∀ p, is_Some (instances (manager l') !! p) → is_Some (instances (manager l) !! p) ∨ new p) →
  (∀ p, sockets (manager l') !! p ≠ host_sockets (host sv) !! p → is_Some (instances (manager l) !! p) ∨ new p) →
  (∀ p c2 l2, new p → c2 ≠ c → connections sv !! c2 = Some l2 → instances (manager l2) !! p = None) →
  served X (put c l' sv).
Proof.
  intros [Hm Ha] Hl Hok Hi Hsk Hnew. split; cbn.
  - intros c2 l2 [[<- <-]|[Hne Hc2]]%lookup_insert_Some.
    + unfold manager in Hok. by destruct l' as [[pr fs []]].
    + specialize (Hm _ _ Hc2). apply (pm_served_frame X _ (sockets (manager l')) (next_listener (manager l')) Hm).
      intros p Hp. change (is_Some (instances (manager l2) !! p)) in Hp. cbn.
      destruct (decide (sockets (manager l') !! p = host_sockets (host sv) !! p)) as [|Hd]; [done|].
      exfalso. destruct (Hsk _ Hd) as [H|H].
      * rewrite (Ha c c2 l l2 p) in Hp; [by destruct Hp|done..].
      * rewrite (Hnew _ c2 l2 H) in Hp; [by destruct Hp|done..].
  - intros c1 c2 l1 l2 p Hne [[<- <-]|[Hn1 H1]]%lookup_insert_Some [[<- <-]|[Hn2 H2]]%lookup_insert_Some Hp;
      [done| | |by eapply (Ha c1 c2)].
    + destruct (Hi _ Hp) as [H|H]; [by eapply (Ha c c2)|by eapply Hnew].
    + destruct (instances (manager l') !! p) as [x|] eqn:E; [|done]. exfalso.
      destruct (Hi p) as [H|H]; [by rewrite E; eexists| |].
      * rewrite (Ha c c1 l l1 p) in Hp; [by destruct Hp|done..].
      * rewrite (Hnew _ c1 l1 H) in Hp; [by destruct Hp|done..].
Qed.

(** A step that leaves the manager as it was lent. *)
Lemma served_same X c l l' sv :
  served X sv → connections sv !! c = Some l → h_proxy (lp_handler l') = h_proxy (lend (host sv) (lp_handler l)) →
  served X (put c l' sv).
Proof.
  intros Hs Hl He. apply (served_put X c l l' sv (λ _, False)); unfold manager in *; try done; rewrite ?He; cbn; auto.
  - exact (sd_manager _ _ Hs _ _ Hl).
Qed.

Lemma registered_accepts env p info m :
  manager_inv m → ev_dir env = Ok tt → ev_bound env = Ok tt → parse_upstream (xr_upstream_url p) = Ok info →
  ∃ i, instances (registered env p m) !! components (xr_socket_path p) = Some i ∧ i ∈ accepting (registered env p m).
Proof.
  intros Hm Hd Hb Hp. exists (next_listener m). unfold registered, pm_register. rewrite Hd, Hb, Hp. cbn.
  split; [apply lookup_insert_eq|].
  destruct (instances m !! _) as [old|] eqn:E; cbn; [|set_solver].
  assert (old < next_listener m) by (apply (mi_next _ Hm); right; eauto).
  rewrite elem_of_difference, elem_of_union, !elem_of_singleton. split; [by left|lia].
Qed.

Lemma registered_lists env p m q :
  is_Some (instances (registered env p m) !! q) →
  is_Some (instances m !! q) ∨ q = components (xr_socket_path p).
Proof.
  unfold registered, pm_register. repeat (case_match; cbn; auto);
    intros [i [[<- _]|[_ Hq]]%lookup_insert_Some]; eauto.
Qed.

Lemma served_finish X c env l lp' sv :
  owners sv → served X sv → connections sv !! c = Some l → orderly sv (SFinish c env) = true →
  loop_finish env (set_handler (lend (host sv) (lp_handler l)) l) = Some lp' → served X (put c lp' sv).
Proof.
  intros Ho Hs Hl Hor Hf. set (lp := set_handler _ l) in *.
  pose proof (sd_manager _ _ Hs _ _ Hl : pm_served X (h_proxy (lp_handler lp))) as Hm.
  pose proof (ow_manager _ Ho _ _ Hl : manager_inv (h_proxy (lp_handler lp))) as Hinv.
  unfold loop_finish in Hf. apply bind_Some in Hf as (r & Hr & Hf).
  apply bind_Some in Hf as ([h' reply] & Hd & [= <-]). apply dispatch_proxies in Hd.
  assert (loop_of c sv = Some lp) as Hlp by (unfold loop_of; by rewrite Hl).
  destruct (asks_proxy (lp_handler lp) r) as [p|] eqn:Hask.
  - cbn [orderly] in Hor. rewrite Hlp in Hor. cbn [mbind option_bind] in Hor. rewrite Hr in Hor.
    cbn [mbind option_bind] in Hor. rewrite Hask in Hor. cbn [mbind option_bind] in Hor.
    destruct (is_ok (ev_dir env)) eqn:Hdir; [|rewrite registered_dir_Err in Hd by done; by eapply served_same].
    apply andb_prop in Hor as [Hfree%bool_decide_eq_true Hu].
    apply (served_put X c l _ sv (λ q, q = components (xr_socket_path p))); unfold manager; cbn [lp_handler];
      rewrite ?Hd; [done|done|by apply pm_served_register| | |].
    + intros q Hq. by apply registered_lists in Hq.
    + intros q Hq. right. destruct (decide (q = components (xr_socket_path p))); [done|].
      by rewrite registered_sockets in Hq.
    + intros q c2 l2 -> Hne Hc2. exact (Hfree _ _ Hc2 Hne).
  - destruct Hd as [Hd|[path Hd]]; [by eapply served_same|].
    apply (served_put X c l _ sv (λ _, False)); unfold manager; cbn [lp_handler]; rewrite ?Hd; try done.
    + by apply pm_served_unregister.
    + intros q Hq. left. unfold pm_unregister in Hq. cbn in Hq. case_match; [|done].
      cbn in Hq. destruct Hq as [i [_ Hq]%lookup_delete_Some]. by eexists.
    + intros q Hq. left. unfold pm_unregister in Hq. cbn in Hq. case_match eqn:E; [|done]. cbn in Hq.
      destruct (decide (components path = q)) as [<-|]; [by eexists|by rewrite lookup_delete_ne in Hq].
Qed.

Lemma served_step X l sv sv' :
  owners sv → served X sv → orderly sv l = true → stopped [l] ⊆ X → server_step l sv = Some sv' → served X sv'.
Proof.
  intros Ho Hs Hor HX Hstep. destruct l as [a|c v|c|c env|c reason|c k method params|c t i|c x|c]; cbn in Hstep;
    try (apply bind_Some in Hstep as (lp & Hlp & Hstep); apply loop_of_Some in Hlp as (l0 & Hl0 & ->)).
  - injection Hstep as <-. destruct a as [[u|e]|e]; try done. destruct Hs as [Hm Ha]. split; cbn.
    + intros c l [[<- <-]|[Hne Hc]]%lookup_insert_Some; [|exact (Hm _ _ Hc)]. by intros p i Hp.
    + intros c1 c2 l1 l2 p Hne [[<- <-]|[H1n H1]]%lookup_insert_Some [[<- <-]|[H2n H2]]%lookup_insert_Some Hp;
        [done|by destruct Hp|done|by eapply (Ha c1 c2)].
  - injection Hstep as <-. by eapply served_same.
  - apply bind_Some in Hstep as (lp' & Ht & [= <-]). apply loop_take_handler in Ht.
    eapply served_same; [done|done|]. by rewrite Ht.
  - apply bind_Some in Hstep as (lp' & Hf & [= <-]). by eapply served_finish.
  - case_match; [done|]. injection Hstep as <-. by eapply served_same.
  - injection Hstep as <-. by eapply served_same.
  - apply bind_Some in Hstep as ([[st ts] evs] & _ & [= <-]). by eapply served_same.
  - injection Hstep as <-. apply (served_put X c l0 _ sv (λ _, False)); try done; [|auto].
    intros p i Hp. destruct (sd_manager _ _ Hs _ _ Hl0 _ _ Hp) as [? Hac]. split; [done|].
    assert (x ∈ X) by (apply HX; cbn; apply list_elem_of_here).
    destruct (decide (i = x)) as [->|]; [by right|]. cbn in *. set_solver.
  - case_match; [done|]. injection Hstep as <-. destruct Hs as [Hm Ha]. unfold disconnected. split; cbn.
    + intros c2 l2 [Hne Hc2]%lookup_delete_Some. specialize (Hm _ _ Hc2).
      set (m := h_proxy (lend (host sv) (lp_handler l0))).
      apply (pm_served_frame X _ (sockets (pm_shutdown m)) (next_listener (pm_shutdown m)) Hm).
      intros p Hp. rewrite shutdown_sockets. change (is_Some (instances (manager l2) !! p)) in Hp.
      by replace (instances m !! p) with (@None nat) by (symmetry; by eapply (Ha c2 c)).
    + intros c1 c2 l1 l2 p Hne [_ ?]%lookup_delete_Some [_ ?]%lookup_delete_Some. by eapply Ha.
Qed.

Lemma served_run X ls sv sv' :
  owners sv → served X sv → orderly_run ls sv = true → stopped ls ⊆ X →
  server_run ls sv = Some sv' → served X sv'.
Proof.
  revert sv. induction ls as [|l ls IH]; intros sv Hw Hs Hor HX Hr; cbn in Hr, Hor; [by injection Hr as <-|].
  apply andb_prop in Hor as [Ho Hor]. destruct (server_step l sv) as [sv1|] eqn:E; [|done].
  change (l :: ls) with ([l] ++ ls) in HX. unfold stopped in HX. rewrite omap_app in HX.
  eapply IH; [by eapply owners_step|eapply served_step; [exact Hw|exact Hs|exact Ho| |exact E]|exact Hor| |exact Hr];
    unfold stopped; set_solver.
Qed.

(** Whatever the connections of an agent do and however their steps interleave,
    each accept loop of a proxy belongs to exactly one live connection, which lists
    it under exactly one socket, and a connection that ends leaves none running. *)
Theorem listeners_have_one_owner ls fs sv :
  server_run ls (server_init fs) = Some sv →
  (∀ c l i, connections sv !! c = Some l → i ∈ accepting (manager l) →
     (∃ path, instances (manager l) !! path = Some i
        ∧ ∀ path', instances (manager l) !! path' = Some i → path' = path)
     ∧ ∀ c' l', connections sv !! c' = Some l' → i ∈ accepting (manager l') → c' = c)
  ∧ (∀ c lp sv', loop_of c sv = Some lp → server_step (SEnd c) sv = Some sv' →
       connections sv' !! c = None ∧ accepting (h_proxy (handler_shutdown (lp_handler lp)).1) = ∅).
Proof.
  intros Hr. assert (owners sv) as [Hm Ha Hf] by (eapply server_run_owners; [apply owners_init|exact Hr]).
  split.
  - intros c l i Hc Hi. destruct (mi_listed _ (Hm _ _ Hc) i Hi) as [path Hp]. split.
    + exists path. split; [done|]. intros path' Hp'. by eapply (mi_inj _ (Hm _ _ Hc)).
    + intros c' l' Hc' Hi'. eapply Ha; [done|done|by left|by left].
  - intros c lp sv' Hlp Hs. cbn in Hs. rewrite Hlp in Hs. cbn in Hs.
    apply loop_of_Some in Hlp as (l0 & Hl0 & ->). case_match; [done|]. injection Hs as <-.
    split; [apply lookup_delete_eq|]. apply (shutdown_accepts_nothing _ (Hm _ _ Hl0)).
Qed.


(** Without that they do: when a connection ends after another has registered a
    socket the first one had as well, its shutdown removes the socket of the
    successor, which goes on listing and accepting on a listener nobody can reach. *)
Theorem departing_connection_unlinks_successor ls fs sv c1 c2 l1 lp2 env r p info sv' :
  server_run ls (server_init fs) = Some sv → c1 ≠ c2 →
  connections sv !! c1 = Some l1 → is_Some (instances (manager l1) !! components (xr_socket_path p)) →
  loop_of c2 sv = Some lp2 → lp_busy lp2 = Some r → asks_proxy (lp_handler lp2) r = Some p →
  ev_dir env = Ok tt → ev_bound env = Ok tt → parse_upstream (xr_upstream_url p) = Ok info →
  server_run [SFinish c2 env; SEnd c1] sv = Some sv' →
  ∃ l2 i, connections sv' !! c2 = Some l2 ∧ instances (manager l2) !! components (xr_socket_path p) = Some i
    ∧ i ∈ accepting (manager l2) ∧ host_sockets (host sv') !! components (xr_socket_path p) = None.
Proof.
  intros Hrun Hne Hc1 [i1 Hi1] Hlp2 Hr Hask Hd Hb Hp Hlast.
  assert (owners sv) as Ho by (eapply server_run_owners; [apply owners_init|exact Hrun]).
  cbn in Hlast. apply bind_Some in Hlast as (sv1 & Hfin & Hlast). rewrite Hlp2 in Hfin. cbn in Hfin.
  apply bind_Some in Hfin as (lp2' & Hfin & [= <-]).
  unfold loop_finish in Hfin. rewrite Hr in Hfin. cbn in Hfin.
  apply bind_Some in Hfin as ([h' reply] & Hdis & [= <-]).
  apply dispatch_proxies in Hdis. rewrite Hask in Hdis.
  apply loop_of_Some in Hlp2 as (l2 & Hl2 & ->).
  destruct (registered_accepts env p info _ (ow_manager _ Ho _ _ Hl2) Hd Hb Hp) as (i & Hi & Hai).
  cbn in Hlast. unfold loop_of in Hlast. cbn in Hlast. rewrite lookup_insert_ne in Hlast by done.
  rewrite Hc1 in Hlast. cbn in Hlast. case_match; [done|]. injection Hlast as <-.
  eexists _, i. cbn. split; [rewrite lookup_delete_ne by done; apply lookup_insert_eq|].
  unfold manager. cbn. split; [by rewrite Hdis|]. split; [by rewrite Hdis|].
  pose proof (shutdown_sockets (h_proxy (lend (host_of h') (lp_handler l1)))
    (components (xr_socket_path p))) as Hsk.
  unfold manager in Hi1. cbn in Hsk. by rewrite Hi1 in Hsk.
Qed.
End server.

(** ** Witnesses *)

Module SampleServer.
Import Wire.Derived AgentFs.SampleFiles.

Definition output_event (seq : Z) : ProcessEvent := OutputDelta (mkOutputDelta "p" seq Stdout []).

(** A registration names its socket and its upstream; the encoders' output is not
    looked at. *)
#[local] Instance register_from_value : FromValue ProxyRegisterParams := λ v,
  s ←? field_string v "socket_path"; u ←? field_string v "upstream_url"; Ok (mkProxyRegisterParams s u ∅).
#[local] Instance initialize_from_value : FromValue InitializeParams := λ _, Ok (mkInitializeParams "gateway").
#[local] Instance other_from_value {T} : FromValue T | 100 := λ _, Err "unused".
#[local] Instance any_to_value {T} : ToValue T | 100 := λ _, VNil.

Definition env : Env := mkEnv None None (Err "no spawn") [] (λ _ _, false) (Ok tt) (Ok tt) 8.

Definition asks (c : nat) (method : string) (params : Value) : list server_label :=
  [SArrive c (mp_map [("id", VInt 1); ("method", VStr method); ("params", params)]); STake c].

Definition register (c : nat) (path : string) : list server_label :=
  asks c "proxy/register" (mp_map [("socket_path", VStr path); ("upstream_url", VStr "http://gw:5501/p/tok")]).

Definition handshake (c : nat) : list server_label :=
  asks c "initialize" VNil ++ [SFinish c env] ++ asks c "initialized" VNil ++ [SFinish c env].
(** Three events, the second broadcast while the first is written. *)
Definition sample_forwarding : list forward_label :=
  [FBroadcast (output_event 1); FRecv; FBroadcast (output_event 2); FSend true; FRecv; FSend true].

Definition forwarded : Forwarder :=
  default forwarder_init
    (forward_run 256 sample_forwarding (subscribe (mkForwarder [output_event 0] Subscribing []))).

Lemma events_forwarded_in_order_witness :
  length (fw_sent forwarded) = 2 ∧
  fw_sent forwarded = event_frame <$> drop 1 (fw_log forwarded).
Proof.
  destruct (events_forwarded_in_order 256 sample_forwarding [output_event 0] forwarded) as [_ H];
    [vm_compute; reflexivity|].
  split; [vm_compute; reflexivity|].
  destruct H as (n & _ & H); [lia|vm_compute; reflexivity|]. apply H. vm_compute. reflexivity.
Defined.

(** Two connections, each with a proxy of its own. *)
Definition two_proxies : list server_label :=
  [SAccept (Ok (Ok tt)); SAccept (Ok (Ok tt))] ++ handshake 0 ++ register 0 "/run/a.sock"
  ++ [SFinish 0 env] ++ handshake 1 ++ register 1 "/run/b.sock" ++ [SFinish 1 env].

Definition state_after (ls : list server_label) : Server Files :=
  default (server_init ∅) (server_run ls (server_init ∅)).

Definition connection (c : nat) (sv : Server Files) : Loop (FS := Files) :=
  default (mkLoop (ExecServerHandler_new ∅) MsgpackChannel_new [] None []) (connections sv !! c).

Lemma listeners_have_one_owner_witness :
  accepting (manager (connection 1 (state_after two_proxies))) = {[1]} ∧
  ∃ path, instances (manager (connection 1 (state_after two_proxies))) !! path = Some 1.
Proof.
  destruct (listeners_have_one_owner two_proxies ∅ (state_after two_proxies)) as [H _];
    [vm_compute; reflexivity|].
  split; [vm_compute; reflexivity|].
  destruct (H 1 (connection 1 (state_after two_proxies)) 1) as [(path & Hp & _) _];
    [vm_compute; reflexivity|apply (bool_decide_unpack _); vm_compute; exact I|].
  exists path. exact Hp.
Defined.

(** Then the second connection fails to bind a third socket and the accept loop of
    the first one's proxy ends on an error. *)
Definition unbound : Env := mkEnv None None (Err "no spawn") [] (λ _ _, false) (Ok tt) (Err "in use") 8.

Definition with_failures : list server_label :=
  two_proxies ++ register 1 "/run/c.sock" ++ [SFinish 1 unbound; SProxyStops 0 0].


(** The gateway attaches again before the agent has noticed that the first
    connection is gone, and registers the same proxy. *)
Definition reattached : list server_label :=
  [SAccept (Ok (Ok tt))] ++ handshake 0 ++ register 0 "/run/a.sock" ++ [SFinish 0 env]
  ++ [SAccept (Ok (Ok tt))] ++ handshake 1 ++ register 1 "/run/a.sock".

Lemma departing_connection_unlinks_successor_witness :
  ∃ l2 i, connections (state_after (reattached ++ [SFinish 1 env; SEnd 0])) !! 1 = Some l2
    ∧ instances (manager l2) !! components "/run/a.sock" = Some i ∧ i ∈ accepting (manager l2)
    ∧ host_sockets (host (state_after (reattached ++ [SFinish 1 env; SEnd 0]))) !! components "/run/a.sock" = None.
Proof.
  set (lp2 := default (connection 1 (state_after reattached)) (loop_of 1 (state_after reattached))).
  apply (departing_connection_unlinks_successor reattached ∅ (state_after reattached) 0 1
    (connection 0 (state_after reattached)) lp2 env
    (default (mkRequest None "" VNil) (lp_busy lp2)) (mkProxyRegisterParams "/run/a.sock" "http://gw:5501/p/tok" ∅)
    (mkUpstreamInfo "gw" 5501 false "/p/tok") (state_after (reattached ++ [SFinish 1 env; SEnd 0])));
    [vm_compute; reflexivity|discriminate|vm_compute; reflexivity|vm_compute; by eexists
    |vm_compute; reflexivity..].
Defined.
End SampleServer.
