(* ===== verification/EndToEnd.v ===== *)
(** The gateway and its agents put together: connections of [AgentConn] to servers
    of [AgentServer], as the agent links the registry and the sessions are written
    against.

    A call runs here without other calls in between: the request is drawn, written,
    taken by the agent's loop, handled, answered and received.  ([AgentConn] has the
    interleavings.) *)
From S2P Require Import Prelude Wire Methods GatewayWire AgentWire Process AgentProxy AgentFs.
From S2P Require Import AgentDispatch AgentServer Backend Registry.
From S2P Require AgentConn Proxy Session.

(** * What the registry does to its world *)

Section worlds.
Context {W : Type} {HB : ContainerBackend W} {HL : AgentLink W} (d : SpawnDefaults) (P : W → Prop).

(** Every call out of the gateway keeps [P]. *)
Record kept_by_calls : Prop := {
  kc_connect url name w : P w → P (link_connect url name w).1;
  kc_invoke n method params w : P w → P (link_invoke n method params w).1;
  kc_close n w : P w → P (link_close n w);
  kc_ensure spec w : P w → P (ensure spec w).1;
  kc_destroy name w : P w → P (destroy name w).1;
  kc_exists name w : P w → P (container_exists name w).1;
  kc_url name w : P w → P (container_url name w).1;
}.

Context (kept : kept_by_calls).

Lemma dial_kept id now h r : P (world r) → P (world (dial_and_register id now h r).1).
Proof.
  intros H. unfold dial_and_register. pose proof (kc_connect kept (ch_url h) ("nexal-gateway/" +:+ id) _ H) as H1.
  by destruct (link_connect _ _ (world r)) as [w [c|e]].
Qed.

Lemma reg_step_kept n r r' : reg_step d n r r' → P (world r) → P (world r').
Proof.
  destruct 1 as [id now name image env labels ports r _|id now name r _|id r|id r|r|p r _|n m p r]; intros H.
  - unfold spawn. destruct (take_warm image ports r) as [[r1 h]|] eqn:Et.
    + apply take_warm_same in Et as [_ E]. apply dial_kept. by rewrite E.
    + pose proof (kc_ensure kept (spawn_spec d name image env labels ports) _ H) as H1.
      destruct (ensure _ _) as [w [h|e]]; [by apply dial_kept|done].
  - unfold attach. pose proof (kc_exists kept name _ H) as H1.
    destruct (container_exists _ _) as [w1 [[]|e]]; [|done..].
    pose proof (kc_ensure kept (attach_spec d name) _ H1) as H2.
    destruct (ensure _ _) as [w2 [h|e]]; [|done].
    pose proof (kc_url kept name _ H2) as H3.
    destruct (container_url _ _) as [w3 [url|e]]; [by apply dial_kept|done].
  - unfold detach. destruct (agents r !! id) as [e|]; [|done]. by apply (kc_close kept).
  - unfold kill. destruct (agents r !! id) as [e|]; [|done].
    cbn [world with_tcp with_proxies with_agents].
    pose proof (kc_destroy kept (ae_container_name e) _ (kc_close kept (ae_conn e) _ H)) as H1.
    by destruct (destroy _ _) as [w [u|er]].
  - assert (P (foldl (λ w e, link_close (ae_conn e) w) (world r) (registry_list r))) as H1.
    { revert H. generalize (world r).
      induction (registry_list r) as [|e l IH]; intros w H; [done|]. by apply IH, (kc_close kept). }
    unfold detach_all. destruct (warm_pool _) as [p|]; [|done]. cbn in H1 |- *.
    revert H1. generalize (foldl (λ w e, link_close (ae_conn e) w) (world r) (registry_list r)).
    induction (wp_available p) as [|h hs IH]; intros w H1; [done|]. by apply IH, (kc_destroy kept).
  - unfold create_one. cbn.
    pose proof (kc_ensure kept (pool_spec (set_counter (wrap_u64 (wp_counter p + 1)) p) (wp_counter p)) _ H) as H1.
    by destruct (ensure _ _) as [w [h|e]].
  - by apply (kc_invoke kept).
Qed.
End worlds.

(** * One call *)

(** The connection is up, no call is under way from number [k] on, and no answer
    is awaited under an id not drawn yet. *)
Record ready (k : nat) (c : AgentConn.Conn) : Prop := {
  rd_open : AgentConn.closed c = false;
  rd_reader : AgentConn.reader c = AgentConn.Reading;
  rd_writer : AgentConn.writer_open c = true;
  rd_calls k' : k ≤ k' → AgentConn.calls c !! k' = None;
  rd_resolved k' : k ≤ k' → AgentConn.resolved c !! k' = None;
  rd_pending id : (AgentConn.next_id c ≤ id)%Z → AgentConn.pending c !! id = None;
  rd_next : (1 ≤ AgentConn.next_id c)%Z;
}.

Lemma ready_new : ready 0 AgentConn.Conn_new.
Proof. by split. Qed.

Section call.
Context (skills : string → option Value → result Value string).
Context {FS : Type} {HO : Os FS}.
Context {F1 : FromValue InitializeParams} {F2 : FromValue ExecParams} {F3 : FromValue ReadParams}
  {F4 : FromValue WriteParams} {F5 : FromValue TerminateParams} {F6 : FromValue FsReadFileParams}
  {F7 : FromValue FsWriteFileParams} {F8 : FromValue FsCreateDirectoryParams}
  {F9 : FromValue FsGetMetadataParams} {F10 : FromValue FsReadDirectoryParams}
  {F11 : FromValue FsRemoveParams} {F12 : FromValue FsCopyParams}
  {F13 : FromValue ProxyRegisterParams} {F14 : FromValue ProxyUnregisterParams}.
Context {T1 : ToValue InitializeResponse} {T2 : ToValue ExecResponse} {T3 : ToValue ReadResponse}
  {T4 : ToValue WriteResponse} {T5 : ToValue TerminateResponse} {T6 : ToValue FsReadFileResponse}
  {T7 : ToValue FsWriteFileResponse} {T8 : ToValue FsCreateDirectoryResponse}
  {T9 : ToValue FsGetMetadataResponse} {T10 : ToValue FsReadDirectoryResponse}
  {T11 : ToValue FsRemoveResponse} {T12 : ToValue FsCopyResponse}
  {T13 : ToValue ProxyRegisterResponse} {T14 : ToValue ProxyUnregisterResponse}.

(** Draw an id, wait for the answer, write the request. *)
Definition start_call (k : nat) (method : string) (params : option Value) (c : AgentConn.Conn)
    : option AgentConn.Conn :=
  AgentConn.steps (Some skills)
    [AgentConn.LInvoke k method params; AgentConn.LCall k; AgentConn.LCall k; AgentConn.LCall k] c.

(** The frame arrives, the call returns. *)
Definition finish_call (k : nat) (reply : Value) (c : AgentConn.Conn)
    : option (AgentConn.Conn * result Value AgentConn.AgentConnError) :=
  c ← AgentConn.steps (Some skills) [AgentConn.LEvent (AgentConn.EMessage reply); AgentConn.LCall k] c;
  match AgentConn.calls c !! k with Some (AgentConn.Returned a) => Some (c, a) | _ => None end.

(** Connection [s] of an agent takes a frame and answers it. *)
Definition serve (s : nat) (env : Env) (frame : Value) (sv : Server FS) : option (Server FS * Value) :=
  sv ← server_run [SArrive s frame; STake s; SFinish s env] sv;
  l ← connections sv !! s; reply ← last (lp_out l);
  Some (sv, reply).

Definition exchange (k s : nat) (env : Env) (method : string) (params : option Value)
    (c : AgentConn.Conn) (sv : Server FS)
    : option (AgentConn.Conn * Server FS * result Value AgentConn.AgentConnError) :=
  c ← start_call k method params c;
  frame ← last (AgentConn.written c);
  '(sv, reply) ← serve s env frame sv;
  '(c, a) ← finish_call k reply c;
  Some (c, sv, a).

(** ** The request *)

(** The connection while the call waits. *)
Definition calling (k : nat) (method : string) (params : Value) (c : AgentConn.Conn) : AgentConn.Conn :=
  let id := AgentConn.next_id c in
  AgentConn.mkConn (<[id := k]> (AgentConn.pending c)) (wrap_u64 (id + 1)) (AgentConn.closed c)
    (AgentConn.reader c) (AgentConn.writer_open c)
    (AgentConn.written c ++ [AgentConn.build_rpc_request id method params]) (AgentConn.notified c)
    (AgentConn.handling c) (<[k := AgentConn.Waiting id]> (AgentConn.calls c)) (AgentConn.resolved c)
    (AgentConn.draining_close c).

Lemma call_step k st c :
  AgentConn.calls c !! k = Some st →
  AgentConn.step (Some skills) (AgentConn.LCall k) c = AgentConn.invoke_step k st c.
Proof. intros H. cbn [AgentConn.step]. by rewrite H. Qed.

(** Runs the step of the one call, on a connection whose fields are known. *)
#[local] Ltac run_call :=
  erewrite call_step by apply lookup_insert_eq;
  cbv [AgentConn.invoke_step AgentConn.set_call AgentConn.set_pending AgentConn.set_next_id AgentConn.write
       AgentConn.pending AgentConn.next_id AgentConn.closed AgentConn.reader AgentConn.writer_open
       AgentConn.written AgentConn.notified AgentConn.handling AgentConn.calls AgentConn.resolved
       AgentConn.draining_close mbind option_bind];
  try rewrite insert_insert_eq.

Lemma start_call_ready k method params c :
  ready k c → start_call k method params c = Some (calling k method (default VNil params) c).
Proof.
  intros [Ho Hr Hw Hk Hres Hp Hn]. specialize (Hk k (le_n k)). destruct c as [pd nx cl rd wo wr no ha ca re dr].
  cbn in Ho, Hw, Hk. subst cl wo. unfold start_call, calling. cbn [AgentConn.steps].
  assert (AgentConn.step (Some skills) (AgentConn.LInvoke k method params)
      (AgentConn.mkConn pd nx false rd true wr no ha ca re dr)
    = Some (AgentConn.mkConn pd nx false rd true wr no ha
              (<[k := AgentConn.Opened method (default VNil params)]> ca) re dr)) as ->
    by (cbn; unfold AgentConn.invoke_open; cbn; by rewrite Hk).
  cbn [mbind option_bind]. do 3 run_call. done.
Qed.

(** What the agent makes of the frame. *)
Lemma request_frame id method params :
  let frame := AgentConn.build_rpc_request id method params in
  frame_request frame = mkRequest (Some (VInt id)) method (unwrap_positional params)
  ∧ ∀ ch, try_resolve_pending frame ch = (ch, false).
Proof. by split. Qed.

(** ** The agent *)

Definition idle (l : Loop (FS := FS)) : Prop := lp_busy l = None ∧ lp_inbox l = [].

Lemma lend_self (h : ExecServerHandler FS) : lend (host_of h) h = h.
Proof. by destruct h as [pr fs []]. Qed.

Lemma loop_of_put s (l : Loop (FS := FS)) sv : loop_of s (put s l sv) = Some l.
Proof.
  unfold loop_of, put. cbn [connections host]. rewrite lookup_insert_eq. cbn [fmap option_fmap option_map].
  unfold set_handler. rewrite lend_self. by destruct l.
Qed.

Lemma put_put s (l l' : Loop (FS := FS)) sv : put s l' (put s l sv) = put s l' sv.
Proof. unfold put. cbn. by rewrite insert_insert_eq. Qed.

(** The loop once it has answered a request. *)
Definition answered (id : Z) (l : Loop (FS := FS)) (h' : ExecServerHandler FS)
    (r : result Value ChannelError) : Loop (FS := FS) :=
  mkLoop h' (lp_channel l) [] None (lp_out l ++ [response_frame (VInt id) r]).

Lemma serve_dispatch s env id method params sv l :
  connections sv !! s = Some l → idle l →
  serve s env (AgentConn.build_rpc_request id method params) sv
  = (λ hr : ExecServerHandler FS * result Value ChannelError,
       (put s (answered id l hr.1 hr.2) sv, response_frame (VInt id) hr.2))
    <$> dispatch env method (unwrap_positional params) (lend (host sv) (lp_handler l)).
Proof.
  intros Hl [Hb Hi]. destruct (request_frame id method params) as [Hreq Htry].
  set (frame := AgentConn.build_rpc_request id method params) in *.
  assert (loop_of s sv = Some (set_handler (lend (host sv) (lp_handler l)) l)) as H0
    by (unfold loop_of; by rewrite Hl).
  set (l1 := mkLoop (lend (host sv) (lp_handler l)) (lp_channel l) [frame] None (lp_out l)).
  assert (server_step (SArrive s frame) sv = Some (put s l1 sv)) as H1.
  { cbn [server_step]. rewrite H0. cbn. by rewrite Hb, Hi. }
  set (l2 := mkLoop (lp_handler l1) (lp_channel l) [] (Some (frame_request frame)) (lp_out l)).
  assert (server_step (STake s) (put s l1 sv) = Some (put s l2 sv)) as H2.
  { cbn [server_step]. rewrite loop_of_put. cbn [mbind option_bind].
    assert (loop_take l1 = Some l2) as ->.
    { unfold loop_take, l1. cbn [lp_busy lp_inbox lp_channel]. by rewrite Htry. }
    cbn [mbind option_bind]. by rewrite put_put. }
  unfold serve. cbn [server_run]. rewrite H1. cbn [mbind option_bind]. rewrite H2. cbn [mbind option_bind].
  cbn [server_step]. rewrite loop_of_put. cbn [mbind option_bind].
  assert (loop_finish env l2 = (λ hr : ExecServerHandler FS * result Value ChannelError,
      answered id l hr.1 hr.2) <$> dispatch env method (unwrap_positional params) (lend (host sv) (lp_handler l)))
    as ->.
  { unfold loop_finish. change (lp_busy l2) with (Some (frame_request frame)). rewrite Hreq.
    change (lp_handler l2) with (lend (host sv) (lp_handler l)). cbn [mbind option_bind rq_method rq_params].
    by destruct (dispatch _ _ _ _) as [[h' r]|]. }
  destruct (dispatch _ _ _ _) as [[h' r]|]; [|done].
  cbn [mbind option_bind fst snd fmap option_fmap option_map]. rewrite put_put.
  assert (connections (put s (answered id l h' r) sv) !! s = Some (answered id l h' r)) as ->
    by apply lookup_insert_eq.
  cbn [mbind option_bind].
  by assert (last (lp_out (answered id l h' r)) = Some (response_frame (VInt id) r)) as -> by apply last_snoc.
Qed.

(** ** The answer *)

(** The connection once the call has returned. *)
Definition called (k : nat) (method : string) (params : Value)
    (a : result Value AgentConn.AgentConnError) (c : AgentConn.Conn) : AgentConn.Conn :=
  let id := AgentConn.next_id c in
  AgentConn.mkConn (AgentConn.pending c) (wrap_u64 (id + 1)) (AgentConn.closed c)
    (AgentConn.reader c) (AgentConn.writer_open c)
    (AgentConn.written c ++ [AgentConn.build_rpc_request id method params]) (AgentConn.notified c)
    (AgentConn.handling c) (<[k := AgentConn.Returned a]> (AgentConn.calls c))
    (<[k := a]> (AgentConn.resolved c)) (AgentConn.draining_close c).

Lemma finish_call_answer k method params c r :
  ready k c → (AgentConn.next_id c < 2 ^ 64)%Z →
  finish_call k (response_frame (VInt (AgentConn.next_id c)) r) (calling k method params c)
  = Some (called k method params (caller_answer r) c, caller_answer r).
Proof.
  intros [Ho Hr Hw Hk Hres Hp Hn] Hb. set (id := AgentConn.next_id c) in *.
  destruct (response_frame_is_response id r) as [Hm Hid]; [lia|].
  pose proof (response_frame_answer (VInt id) r) as Ha.
  set (frame := response_frame (VInt id) r) in *.
  assert (AgentConn.dispatch_frame true frame (calling k method params c)
    = (AgentConn.resolve k (caller_answer r)
         (AgentConn.set_pending (delete id) (calling k method params c)), Ok tt)) as Hd.
  { unfold AgentConn.dispatch_frame, AgentConn.frame_reply_to. rewrite Hm, Hid. cbn [mbind option_bind].
    unfold calling at 1. cbn [AgentConn.pending]. fold id. rewrite lookup_insert_eq. cbn [mbind option_bind].
    by rewrite Ha. }
  unfold finish_call. cbn [AgentConn.steps AgentConn.step].
  assert (AgentConn.reader (calling k method params c) = AgentConn.Reading) as -> by done.
  cbn [AgentConn.reader_event]. rewrite bool_decide_true by (by eexists). rewrite Hd. cbn [fst mbind option_bind].
  unfold calling. cbn. fold id. rewrite lookup_insert_eq. cbn. rewrite lookup_insert_eq. cbn.
  rewrite lookup_insert_eq. unfold called, AgentConn.set_call. cbn. fold id.
  by rewrite insert_insert_eq, delete_insert_id by (apply Hp; lia).
Qed.

Lemma called_ready k method params a c :
  ready k c → (AgentConn.next_id c + 1 < 2 ^ 64)%Z → ready (S k) (called k method params a c).
Proof.
  intros [Ho Hr Hw Hk Hres Hp Hn] Hb.
  split; cbn; rewrite ?wrap_u64_small by lia; try done; try lia.
  - intros k' Hle. rewrite lookup_insert_ne by lia. apply Hk. lia.
  - intros k' Hle. rewrite lookup_insert_ne by lia. apply Hres. lia.
  - intros id Hle. apply Hp. lia.
Qed.

(** The call returns what the agent's handler does; while that waits, there is
    no answer. *)
Lemma exchange_dispatch k s env method params c sv l :
  ready k c → (AgentConn.next_id c < 2 ^ 64)%Z → connections sv !! s = Some l → idle l →
  exchange k s env method params c sv
  = (λ hr : ExecServerHandler FS * result Value ChannelError,
       (called k method (default VNil params) (caller_answer hr.2) c,
        put s (answered (AgentConn.next_id c) l hr.1 hr.2) sv, caller_answer hr.2))
    <$> dispatch env method (unwrap_positional (default VNil params)) (lend (host sv) (lp_handler l)).
Proof.
  intros Hc Hb Hl Hi. unfold exchange.
  rewrite start_call_ready by done. cbn [mbind option_bind].
  assert (last (AgentConn.written (calling k method (default VNil params) c))
    = Some (AgentConn.build_rpc_request (AgentConn.next_id c) method (default VNil params))) as ->
    by apply last_snoc.
  cbn [mbind option_bind]. rewrite (serve_dispatch s env _ method (default VNil params) sv l Hl Hi).
  destruct (dispatch _ _ _ _) as [[h' r]|]; [|done]. cbn [fmap option_fmap option_map mbind option_bind fst snd].
  by rewrite finish_call_answer.
Qed.

(** A closed connection takes no call. *)
Lemma exchange_closed k s env method params c sv :
  AgentConn.closed c = true → exchange k s env method params c sv = None.
Proof.
  intros Hc. unfold exchange, start_call. cbn. unfold AgentConn.invoke_open.
  destruct (AgentConn.calls c !! k); [done|]. rewrite Hc. cbn. by rewrite lookup_insert_eq.
Qed.

(** Serving a frame touches one connection. *)
Lemma serve_put s env frame sv sv' reply :
  serve s env frame sv = Some (sv', reply) → ∃ l', sv' = put s l' sv.
Proof.
  unfold serve. cbn [server_run].
  intros (sv1 & H & (l & Hl & (r & Hr & [= <- <-])%bind_Some)%bind_Some)%bind_Some.
  apply bind_Some in H as (sva & Ha & H). apply bind_Some in H as (svb & Hb & H).
  apply bind_Some in H as (svc & Hc & [= <-]). cbn [server_step] in *.
  apply bind_Some in Ha as (la & _ & [= <-]). apply bind_Some in Hb as (lb & _ & Hb).
  apply bind_Some in Hb as (lb' & _ & [= <-]). apply bind_Some in Hc as (lc & _ & Hc).
  apply bind_Some in Hc as (lc' & _ & [= <-]). exists lc'. by rewrite !put_put.
Qed.

(** * The network *)

(** A connection of the gateway: to which agent, as which of its connections, and
    how many calls it has made. *)
Record Link := mkLink {
  lk_conn : AgentConn.Conn;
  lk_url : string;
  lk_session : nat;
  lk_calls : nat;
}.

(** The agents by their urls, the gateway's connections by their numbers, and what
    the machines contribute to a request. *)
Record Network := mkNetwork {
  servers : gmap string (Server FS);
  links : gmap nat Link;
  machine : Env;
}.

(** The connection is lost: the reader notes it and drains. *)
Definition dropped (c : AgentConn.Conn) : AgentConn.Conn :=
  AgentConn.set_reader AgentConn.ReaderDone (AgentConn.drain_pending (AgentConn.set_closed c)).

Lemma dropped_closed c : AgentConn.closed (dropped c) = true.
Proof.
  pose proof (AgentConn.resolve_all_fields (map_to_list (AgentConn.pending c)).*2 (AgentConn.set_closed c))
    as (_ & _ & _ & _ & _ & H). exact H.
Qed.

(** A call over a link.  One that is never answered, here, ends with the
    connection. *)
Definition call_link (env : Env) (method : string) (params : option Value) (lk : Link) (sv : Server FS)
    : Link * Server FS * result Value AgentConn.AgentConnError :=
  match exchange (lk_calls lk) (lk_session lk) env method params (lk_conn lk) sv with
  | Some (c, sv, a) => (mkLink c (lk_url lk) (lk_session lk) (S (lk_calls lk)), sv, a)
  | None => (mkLink (dropped (lk_conn lk)) (lk_url lk) (lk_session lk) (lk_calls lk), sv,
             Err AgentConn.Closed)
  end.

Definition end_session (s : nat) (sv : Server FS) : Server FS := default sv (server_step (SEnd s) sv).

(** Connecting, and the two calls of the handshake. *)
Definition handshake_link (env : Env) (url client_name : string) (sv : Server FS)
    : Link * Server FS * result unit AgentConn.AgentConnError :=
  let '(lk, sv, a1) :=
    call_link env "initialize" (Some (AgentConn.msgpack_map_str [("client_name", client_name)]))
      (mkLink AgentConn.Conn_new url (next_connection sv) 0) (accept (Ok (Ok tt)) sv) in
  let '(lk, sv, a2) :=
    match a1 with Ok _ => call_link env "initialized" None lk sv | Err _ => (lk, sv, a1) end in
  (lk, sv, AgentConn.connect_handshake client_name
             (λ m _, if bool_decide (m = "initialize") then a1 else a2)).

(** When the handshake fails the [AgentConn] is dropped and the error returned.
    Its reader and the transport's tasks run on and hold the socket: the link
    stays, under a number nobody is told, and so does the agent's session. *)
Definition connect_link (url client_name : string) (nw : Network)
    : Network * result nat AgentConn.AgentConnError :=
  match servers nw !! url with
  | None => (nw, Err (AgentConn.Connect "connection refused"))
  | Some sv =>
      let '(lk, sv', outcome) := handshake_link (machine nw) url client_name sv in
      let n := fresh (dom (links nw)) in
      (mkNetwork (<[url := sv']> (servers nw)) (<[n := lk]> (links nw)) (machine nw),
       match outcome with Ok _ => Ok n | Err e => Err e end)
  end.

Definition invoke_link (n : nat) (method : string) (params : option Value) (nw : Network)
    : Network * result Value AgentConn.AgentConnError :=
  match links nw !! n with
  | None => (nw, Err AgentConn.Closed)
  | Some lk =>
      match servers nw !! lk_url lk with
      | None => (nw, Err AgentConn.Closed)
      | Some sv =>
          let '(lk, sv, a) := call_link (machine nw) method params lk sv in
          (mkNetwork (<[lk_url lk := sv]> (servers nw)) (<[n := lk]> (links nw)) (machine nw), a)
      end
  end.

(** A connection that was lost has nothing left to close at the agent. *)
Definition close_link (n : nat) (nw : Network) : Network :=
  match links nw !! n with
  | None => nw
  | Some lk =>
      mkNetwork (if AgentConn.closed (lk_conn lk) then servers nw
                 else alter (end_session (lk_session lk)) (lk_url lk) (servers nw))
        (delete n (links nw)) (machine nw)
  end.

(** ** The network stays in order *)

(** An open link is ready for the next call, if it has not made all the calls
    there are numbers for. *)
Definition link_ready (lk : Link) (l : Loop (FS := FS)) : Prop :=
  (Z.of_nat (lk_calls lk) + 2 < 2 ^ 64)%Z →
  ready (lk_calls lk) (lk_conn lk) ∧ AgentConn.next_id (lk_conn lk) = (Z.of_nat (lk_calls lk) + 1)%Z ∧ idle l.

Definition link_good (lk : Link) (svs : gmap string (Server FS)) : Prop :=
  AgentConn.closed (lk_conn lk) = false →
  ∃ sv l, svs !! lk_url lk = Some sv ∧ connections sv !! lk_session lk = Some l ∧ link_ready lk l.

(** Open links lead to connections of their own. *)
Record network_ok (nw : Network) : Prop := {
  nk_link n lk : links nw !! n = Some lk → link_good lk (servers nw);
  nk_apart n1 n2 lk1 lk2 : links nw !! n1 = Some lk1 → links nw !! n2 = Some lk2 →
    AgentConn.closed (lk_conn lk1) = false → AgentConn.closed (lk_conn lk2) = false →
    lk_url lk1 = lk_url lk2 → lk_session lk1 = lk_session lk2 → n1 = n2;
  nk_fresh url sv c l : servers nw !! url = Some sv → connections sv !! c = Some l → c < next_connection sv;
}.

(** A call over an open link, when the agent's handler returns. *)
Lemma call_link_dispatch env method params lk sv l h' r :
  (Z.of_nat (lk_calls lk) + 2 < 2 ^ 64)%Z → connections sv !! lk_session lk = Some l → link_ready lk l →
  dispatch env method (unwrap_positional (default VNil params)) (lend (host sv) (lp_handler l))
  = Some (h', r) →
  call_link env method params lk sv
  = (mkLink (called (lk_calls lk) method (default VNil params) (caller_answer r) (lk_conn lk))
       (lk_url lk) (lk_session lk) (S (lk_calls lk)),
     put (lk_session lk) (answered (AgentConn.next_id (lk_conn lk)) l h' r) sv, caller_answer r).
Proof.
  intros Hb Hl Hg Hd. destruct (Hg Hb) as (Hr & Hn & Hi). unfold call_link.
  rewrite (exchange_dispatch _ _ _ _ _ _ _ l) by (done || lia). by rewrite Hd.
Qed.

Lemma call_link_closed env method params lk sv :
  AgentConn.closed (lk_conn lk) = true →
  call_link env method params lk sv
  = (mkLink (dropped (lk_conn lk)) (lk_url lk) (lk_session lk) (lk_calls lk), sv, Err AgentConn.Closed).
Proof. intros Hc. unfold call_link. by rewrite exchange_closed. Qed.

(** What any call leaves: the link where it led, and the server with that
    connection changed at most. *)
Lemma call_link_frame env method params lk sv :
  let r := call_link env method params lk sv in
  lk_url r.1.1 = lk_url lk ∧ lk_session r.1.1 = lk_session lk
  ∧ (r.1.2 = sv ∧ AgentConn.closed (lk_conn r.1.1) = true
     ∨ AgentConn.closed (lk_conn lk) = false ∧ ∃ l, r.1.2 = put (lk_session lk) l sv).
Proof.
  intros r. unfold r, call_link. clear r.
  destruct (exchange _ _ _ _ _ _ _) as [[[c sv'] a]|] eqn:E; cbn.
  - split; [done|]. split; [done|]. right. split.
    + apply not_true_is_false. intros Hc. by rewrite exchange_closed in E.
    + unfold exchange in E. apply bind_Some in E as (c1 & _ & E). apply bind_Some in E as (fr & _ & E).
      apply bind_Some in E as ([sv1 rep] & Hs & E). apply bind_Some in E as ([c2 a2] & _ & [= <- <- <-]).
      by eapply serve_put.
  - split; [done|]. split; [done|]. left. split; [done|]. apply dropped_closed.
Qed.

Lemma call_link_ready env method params lk sv l :
  connections sv !! lk_session lk = Some l → link_ready lk l →
  let r := call_link env method params lk sv in
  AgentConn.closed (lk_conn r.1.1) = false →
  ∃ l', connections r.1.2 !! lk_session lk = Some l' ∧ link_ready r.1.1 l'.
Proof.
  intros Hl Hg r. unfold r. clear r. intros Ho.
  destruct (call_link_frame env method params lk sv) as (_ & _ & [[_ Hc]|[Hlk [l' Hput]]]);
    [by rewrite Hc in Ho|].
  exists l'. rewrite Hput. split; [apply lookup_insert_eq|]. unfold call_link in *.
  destruct (exchange _ _ _ _ _ _ _) as [[[c sv'] a]|] eqn:E; cbn [fst snd lk_conn] in *;
    [|by rewrite dropped_closed in Ho].
  intros Hb. cbn in Hb. destruct (Hg ltac:(lia)) as (Hr & Hn & Hi).
  rewrite (exchange_dispatch _ _ _ _ _ _ _ l) in E by (done || lia).
  apply fmap_Some in E as ([h' r] & _ & [= -> -> ->]). cbn [lk_conn lk_calls fst snd] in *.
  split; [apply called_ready; [done|lia]|]. split; [cbn; rewrite wrap_u64_small by lia; lia|].
  apply (f_equal (λ sv, connections sv !! lk_session lk)) in Hput. cbn in Hput.
  rewrite !lookup_insert_eq in Hput. injection Hput as <-. by split.
Qed.

(** ** What the environment does meanwhile *)

(** The connection whose loop takes the step. *)
Definition loop_of_label (lb : server_label) : option nat :=
  match lb with
  | SArrive c _ | STake c | SFinish c _ | SMalformed c _ | SAsk c _ _ _ | SEnd c => Some c
  | SAccept _ | SProcess _ _ _ | SProxyStops _ _ => None
  end.

(** A link of the gateway leads there. *)
Definition linked (url : string) (c : nat) (nw : Network) : Prop :=
  ∃ n lk, links nw !! n = Some lk ∧ AgentConn.closed (lk_conn lk) = false ∧ lk_url lk = url ∧ lk_session lk = c.

Definition drop_link (lk : Link) : Link :=
  mkLink (dropped (lk_conn lk)) (lk_url lk) (lk_session lk) (lk_calls lk).

Lemma drop_link_closed lk : AgentConn.closed (lk_conn (drop_link lk)) = true.
Proof. apply dropped_closed. Qed.

(** An agent starts to listen, or ends; a connection is lost; an agent serves its
    other clients, its processes and its proxies; the machines change. *)
Inductive network_step : Network → Network → Prop :=
  | ns_up url fs nw : servers nw !! url = None →
      network_step nw (mkNetwork (<[url := server_init fs]> (servers nw)) (links nw) (machine nw))
  | ns_down url nw :
      network_step nw (mkNetwork (delete url (servers nw))
        ((λ lk, if decide (lk_url lk = url) then drop_link lk else lk) <$> links nw) (machine nw))
  | ns_lost n nw : network_step nw (mkNetwork (servers nw) (alter drop_link n (links nw)) (machine nw))
  | ns_agent url lb sv sv' nw :
      servers nw !! url = Some sv → server_step lb sv = Some sv' →
      (∀ c, loop_of_label lb = Some c → ¬ linked url c nw) →
      network_step nw (mkNetwork (<[url := sv']> (servers nw)) (links nw) (machine nw))
  | ns_machine env nw : network_step nw (mkNetwork (servers nw) (links nw) env).

Definition numbered (sv : Server FS) : Prop :=
  ∀ c l, connections sv !! c = Some l → c < next_connection sv.

Lemma numbered_put s l l0 sv : connections sv !! s = Some l0 → numbered sv → numbered (put s l sv).
Proof.
  intros Hs Hn c l'. cbn. intros [[<- _]|[_ H]]%lookup_insert_Some; [by eapply Hn|by eapply Hn].
Qed.

(** A step changes the loop it runs in; background work leaves every loop as busy
    as it was. *)
Lemma server_step_frame lb sv sv' :
  server_step lb sv = Some sv' → numbered sv →
  numbered sv' ∧
  ∀ c l, loop_of_label lb ≠ Some c → connections sv !! c = Some l →
    ∃ l', connections sv' !! c = Some l' ∧ (idle l → idle l').
Proof.
  intros H Hn.
  assert (∀ s lp lp', loop_of s sv = Some lp → sv' = put s lp' sv →
    (loop_of_label lb = Some s ∨ lp_busy lp' = lp_busy lp ∧ lp_inbox lp' = lp_inbox lp) →
    numbered sv' ∧ ∀ c l, loop_of_label lb ≠ Some c → connections sv !! c = Some l →
      ∃ l', connections sv' !! c = Some l' ∧ (idle l → idle l')) as Hput.
  { intros s lp lp' (l0 & Hl0 & ->)%loop_of_Some -> Hor.
    split; [by eapply numbered_put|]. intros c l Hc Hl. cbn. destruct (decide (s = c)) as [<-|Hne].
    - rewrite lookup_insert_eq. exists lp'. split; [done|].
      destruct Hor as [Hor|[H1 H2]]; [by rewrite Hor in Hc|]. rewrite Hl in Hl0. injection Hl0 as <-.
      unfold idle. by rewrite H1, H2.
    - rewrite lookup_insert_ne by done. by exists l. }
  destruct lb; cbn [server_step] in H.
  1: { injection H as <-. destruct accepted as [[[]|?]|?]; cbn;
         [|by split; [|intros c l _ Hl; exists l]|by split; [|intros c l _ Hl; exists l]].
       split.
       - intros c l. cbn. intros [[<- _]|[_ Hl]]%lookup_insert_Some; [lia|]. apply Hn in Hl. lia.
       - intros c l _ Hl. exists l. cbn. rewrite lookup_insert_ne; [done|]. intros <-.
         apply Hn in Hl. lia. }
  all: apply bind_Some in H as (lp & Hlp & H).
  - injection H as <-. eapply Hput; [done|done|by left].
  - apply bind_Some in H as (lp' & _ & [= <-]). eapply Hput; [done|done|by left].
  - apply bind_Some in H as (lp' & _ & [= <-]). eapply Hput; [done|done|by left].
  - destruct (lp_busy lp); [done|]. injection H as <-. eapply Hput; [done|done|by left].
  - injection H as <-. eapply Hput; [done|done|by left].
  - apply bind_Some in H as ([[st ?] ?] & _ & [= <-]). eapply Hput; [done|done|by right].
  - injection H as <-. eapply Hput; [done|done|by right].
  - destruct (lp_busy lp); [done|]. injection H as <-. split.
    + intros c' l. cbn. intros [_ Hl]%lookup_delete_Some. by eapply Hn.
    + intros c' l Hc Hl. exists l. cbn. rewrite lookup_delete_ne; [done|]. intros <-. by destruct Hc.
Qed.

(** ** The invariant *)

Lemma link_good_keeps lk url sv sv' svs :
  svs !! url = Some sv →
  (∀ l, lk_url lk = url → connections sv !! lk_session lk = Some l →
     ∃ l', connections sv' !! lk_session lk = Some l' ∧ (idle l → idle l')) →
  link_good lk svs → link_good lk (<[url := sv']> svs).
Proof.
  intros Hsv Hk Hg Ho. destruct (Hg Ho) as (sv0 & l & Hsv0 & Hl & Hr).
  destruct (decide (url = lk_url lk)) as [->|Hne].
  - rewrite Hsv in Hsv0. injection Hsv0 as <-. destruct (Hk l eq_refl Hl) as (l' & Hl' & Hidle).
    exists sv', l'. rewrite lookup_insert_eq. split; [done|]. split; [done|].
    intros Hb. destruct (Hr Hb) as (? & ? & ?). auto.
  - exists sv0, l. by rewrite lookup_insert_ne.
Qed.

(** Links that stay what they were keep to their loops; one that does not has
    its loop to itself. *)
Lemma network_change nw svs ls env :
  network_ok nw →
  (∀ url sv, svs !! url = Some sv → numbered sv) →
  (∀ n lk, ls !! n = Some lk → AgentConn.closed (lk_conn lk) = false →
     links nw !! n = Some lk ∧ (link_good lk (servers nw) → link_good lk svs)
     ∨ link_good lk svs ∧ ∀ n2 lk2, ls !! n2 = Some lk2 → AgentConn.closed (lk_conn lk2) = false →
         lk_url lk = lk_url lk2 → lk_session lk = lk_session lk2 → n = n2) →
  network_ok (mkNetwork svs ls env).
Proof.
  intros [Hl Ha Hf] Hn Hc. split; cbn.
  - intros n lk H Ho. destruct (Hc _ _ H Ho) as [[H1 H2]|[H1 _]]; [apply H2; [by eapply Hl|done]|by apply H1].
  - intros n1 n2 lk1 lk2 H1 H2 Ho1 Ho2 Hu Hs.
    destruct (Hc _ _ H1 Ho1) as [[H1' _]|[_ H1']]; [|by eapply H1'].
    destruct (Hc _ _ H2 Ho2) as [[H2' _]|[_ H2']]; [by eapply Ha|]. symmetry. by eapply H2'.
  - intros url sv c l H. by apply (Hn _ _ H).
Qed.

Lemma network_ok_numbered nw url sv : network_ok nw → servers nw !! url = Some sv → numbered sv.
Proof. intros [_ _ Hf] H c l. by eapply Hf. Qed.

Lemma numbered_insert (svs : gmap string (Server FS)) url sv' :
  (∀ u sv, svs !! u = Some sv → numbered sv) → numbered sv' →
  ∀ u sv, <[url := sv']> svs !! u = Some sv → numbered sv.
Proof. intros H1 H2 u sv [[_ <-]|[_ H]]%lookup_insert_Some; [done|by eapply H1]. Qed.

Lemma network_step_ok nw nw' : network_step nw nw' → network_ok nw → network_ok nw'.
Proof.
  intros Hs Hok. pose proof (λ u sv, network_ok_numbered nw u sv Hok) as Hnum.
  destruct Hs as [url fs nw Hup|url nw|n nw|url lb sv sv' nw Hsv Hlb Hfree|env nw].
  - apply (network_change nw); [done|apply numbered_insert; [done|by intros c l]|].
    intros n lk H Ho. left. split; [done|]. intros Hg Ho'. destruct (Hg Ho') as (sv & l & Hsv & Hr).
    exists sv, l. rewrite lookup_insert_ne; [done|]. intros ->. by rewrite Hup in Hsv.
  - apply (network_change nw); [done|by intros u sv [_ H]%lookup_delete_Some; eapply Hnum|].
    intros n lk. rewrite lookup_fmap_Some. intros (lk0 & <- & H) Ho. left.
    destruct (decide (lk_url lk0 = url)) as [Hu|Hne]; [by rewrite drop_link_closed in Ho|].
    split; [done|]. intros Hg Ho'. destruct (Hg Ho') as (sv & l & Hsv & Hr). exists sv, l.
    by rewrite lookup_delete_ne.
  - apply (network_change nw); [done|done|]. intros n' lk. rewrite lookup_alter_Some.
    intros [(-> & lk0 & H & ->)|[Hne H]] Ho; [by rewrite drop_link_closed in Ho|]. left. by split.
  - destruct (server_step_frame lb sv sv' Hlb) as [Hn' Hk]; [by eapply Hnum|].
    apply (network_change nw); [done|by apply numbered_insert|].
    intros n lk H Ho. left. split; [done|]. apply (link_good_keeps _ _ sv); [done|].
    intros l Hu Hl. apply Hk; [|done]. intros Hc. apply (Hfree _ Hc). by exists n, lk.
  - apply (network_change nw); [done|done|]. intros n lk H Ho. left. by split.
Qed.

Lemma put_other s (l : Loop (FS := FS)) sv c : s ≠ c → connections (put s l sv) !! c = connections sv !! c.
Proof. intros H. cbn. by rewrite lookup_insert_ne. Qed.

Lemma invoke_link_ok n method params nw : network_ok nw → network_ok (invoke_link n method params nw).1.
Proof.
  intros Hok. pose proof (λ u sv, network_ok_numbered nw u sv Hok) as Hnum. unfold invoke_link.
  destruct (links nw !! n) as [lk|] eqn:Hlk; [|done].
  destruct (servers nw !! lk_url lk) as [sv|] eqn:Hsv; [|done].
  pose proof (call_link_frame (machine nw) method params lk sv) as Hfr.
  pose proof (call_link_ready (machine nw) method params lk sv) as Hrd.
  destruct (call_link _ _ _ lk sv) as [[lk' sv'] a]. cbn in Hfr, Hrd |- *.
  destruct Hfr as (Hu & Hse & Hfr). rewrite Hu.
  assert (AgentConn.closed (lk_conn lk') = false → AgentConn.closed (lk_conn lk) = false) as Hopen
    by (intros Ho; destruct Hfr as [[_ Hc]|[Hc _]]; congruence).
  assert (numbered sv') as Hn'.
  { destruct Hfr as [[-> _]|[Hc [l' ->]]]; [by eapply Hnum|].
    destruct (nk_link _ Hok _ _ Hlk Hc) as (sv0 & l0 & Hsv0 & Hl0 & _). rewrite Hsv in Hsv0.
    injection Hsv0 as <-. eapply numbered_put; [done|by eapply Hnum]. }
  apply (network_change nw); [done|by apply numbered_insert|].
  intros m lk2 [[<- <-]|[Hne H]]%lookup_insert_Some Ho.
  - right. split.
    + intros _. destruct (nk_link _ Hok _ _ Hlk (Hopen Ho)) as (sv0 & l0 & Hsv0 & Hl0 & Hr0).
      rewrite Hsv in Hsv0. injection Hsv0 as <-. destruct (Hrd l0 Hl0 Hr0 Ho) as (l' & Hl' & Hr').
      exists sv', l'. rewrite Hu, Hse, lookup_insert_eq. done.
    + intros n2 lk3 [[<- <-]|[Hne2 H2]]%lookup_insert_Some Ho2 Hu2 Hs2; [done|].
      eapply (nk_apart _ Hok); eauto; congruence.
  - left. split; [done|]. apply (link_good_keeps _ _ sv); [done|]. intros l Hu2 Hl.
    exists l. split; [|done]. destruct Hfr as [[-> _]|[Hc [l' ->]]]; [done|].
    rewrite put_other; [done|]. intros Hs2. apply Hne. by eapply (nk_apart _ Hok).
Qed.

(** A link over connection [s], which is all that differs from the server it was
    made at. *)
Record made (url : string) (s : nat) (sv0 : Server FS) (lk : Link) (sv : Server FS) : Prop := {
  md_url : lk_url lk = url;
  md_session : lk_session lk = s;
  md_numbered : numbered sv;
  md_others c : c ≠ s → connections sv !! c = connections sv0 !! c;
  md_loop : ∃ l, connections sv !! s = Some l ∧ (AgentConn.closed (lk_conn lk) = false → link_ready lk l);
}.

Lemma made_accept url sv :
  numbered sv →
  made url (next_connection sv) sv (mkLink AgentConn.Conn_new url (next_connection sv) 0) (accept (Ok (Ok tt)) sv).
Proof.
  intros Hn. split; [done|done| | |].
  - intros c l. cbn. intros [[<- _]|[_ Hl]]%lookup_insert_Some; [lia|]. apply Hn in Hl. lia.
  - intros c Hc. cbn. by rewrite lookup_insert_ne.
  - eexists. split; [apply lookup_insert_eq|]. intros _ _. split; [apply ready_new|]. by split.
Qed.

Lemma made_call url s sv0 env method params lk sv :
  made url s sv0 lk sv →
  made url s sv0 (call_link env method params lk sv).1.1 (call_link env method params lk sv).1.2.
Proof.
  intros [Hu Hs Hn Ho (l & Hl & Hr)]. rewrite <-Hs in *.
  destruct (call_link_frame env method params lk sv) as (Hu' & Hs' & Hfr).
  pose proof (call_link_ready env method params lk sv l Hl) as Hrd.
  destruct Hfr as [[Hsv Hc]|[Hc [l' Hsv]]].
  - split; [congruence|congruence|by rewrite Hsv|by rewrite Hsv|].
    rewrite Hsv. exists l. split; [done|]. by rewrite Hc.
  - split; [congruence|congruence| | |].
    + rewrite Hsv. by eapply numbered_put.
    + intros c Hne. rewrite Hsv, put_other by done. by apply Ho.
    + exists l'. rewrite Hsv. split; [apply lookup_insert_eq|]. intros Ho'.
      destruct (Hrd (Hr Hc) Ho') as (l2 & Hl2 & Hr2). rewrite Hsv in Hl2. cbn in Hl2.
      rewrite lookup_insert_eq in Hl2. by injection Hl2 as <-.
Qed.

Lemma made_handshake env url client_name sv :
  numbered sv →
  made url (next_connection sv) sv (handshake_link env url client_name sv).1.1
    (handshake_link env url client_name sv).1.2.
Proof.
  intros Hn. unfold handshake_link.
  pose proof (made_call _ _ _ env "initialize" (Some (AgentConn.msgpack_map_str [("client_name", client_name)]))
    _ _ (made_accept url sv Hn)) as H1.
  destruct (call_link _ "initialize" _ _ _) as [[lk1 sv1] a1]. cbn [fst snd] in H1.
  pose proof (made_call _ _ _ env "initialized" None _ _ H1) as H2.
  destruct a1 as [v|e]; [|done]. by destruct (call_link _ "initialized" _ _ _) as [[lk2 sv2] a2].
Qed.

(** What ends leaves the others. *)
Lemma end_session_frame s sv :
  numbered sv →
  numbered (end_session s sv) ∧ ∀ c, c ≠ s → connections (end_session s sv) !! c = connections sv !! c.
Proof.
  intros Hn. unfold end_session. cbn [server_step].
  destruct (loop_of s sv) as [lp|]; [|done]. cbn. destruct (lp_busy lp); [done|]. cbn. split.
  - intros c l. cbn. intros [_ Hl]%lookup_delete_Some. by eapply Hn.
  - intros c Hc. cbn. by rewrite lookup_delete_ne.
Qed.

Lemma connect_link_ok url client_name nw : network_ok nw → network_ok (connect_link url client_name nw).1.
Proof.
  intros Hok. pose proof (λ u sv, network_ok_numbered nw u sv Hok) as Hnum. unfold connect_link.
  destruct (servers nw !! url) as [sv|] eqn:Hsv; [|done].
  pose proof (made_handshake (machine nw) url client_name sv (Hnum _ _ Hsv)) as Hmd.
  destruct (handshake_link _ _ _ sv) as [[lk sv'] outcome]. cbn [fst snd] in Hmd |- *.
  destruct Hmd as [Hu Hs Hn Hothers (l & Hl & Hr)].
  assert (∀ n lk2, links nw !! n = Some lk2 → AgentConn.closed (lk_conn lk2) = false →
    lk_url lk2 = url → lk_session lk2 ≠ next_connection sv) as Hnew.
  { intros n lk2 H2 Ho2 Hu2 Hs2. destruct (nk_link _ Hok _ _ H2 Ho2) as (sv0 & l0 & Hsv0 & Hl0 & _).
    rewrite Hu2, Hsv in Hsv0. injection Hsv0 as <-. rewrite Hs2 in Hl0.
    apply (Hnum _ _ Hsv) in Hl0. lia. }
  apply (network_change nw); [done|by apply numbered_insert|].
  intros n lk2 [[<- <-]|[Hne H]]%lookup_insert_Some Ho.
  - right. split.
    + intros _. exists sv', l. rewrite Hu, Hs, lookup_insert_eq. split; [done|]. split; [done|]. by apply Hr.
    + intros n2 lk3 [[<- <-]|[Hne2 H2]]%lookup_insert_Some Ho2 Hu2 Hs2; [done|].
      rewrite Hu in Hu2. rewrite Hs in Hs2. destruct (Hnew _ _ H2 Ho2); congruence.
  - left. split; [done|]. apply (link_good_keeps _ _ sv); [done|]. intros l2 Hu2 Hl2.
    exists l2. split; [|done]. rewrite Hothers; [done|]. by apply (Hnew _ _ H Ho).
Qed.

Lemma close_link_ok n nw : network_ok nw → network_ok (close_link n nw).
Proof.
  intros Hok. pose proof (λ u sv, network_ok_numbered nw u sv Hok) as Hnum. unfold close_link.
  destruct (links nw !! n) as [lk|] eqn:Hlk; [|done].
  destruct (AgentConn.closed (lk_conn lk)) eqn:Hc.
  - apply (network_change nw); [done|done|]. intros m lk2 [_ H]%lookup_delete_Some Ho. left. by split.
  - destruct (nk_link _ Hok _ _ Hlk Hc) as (sv & l & Hsv & Hl & _).
    destruct (end_session_frame (lk_session lk) sv (Hnum _ _ Hsv)) as [Hn2 Hoth2].
    replace (alter (end_session (lk_session lk)) (lk_url lk) (servers nw))
      with (<[lk_url lk := end_session (lk_session lk) sv]> (servers nw))
      by (apply map_eq; intros u; destruct (decide (u = lk_url lk)) as [->|Hne];
          [by rewrite lookup_insert_eq, lookup_alter_eq, Hsv
          |by rewrite lookup_insert_ne, lookup_alter_ne]).
    apply (network_change nw); [done|by apply numbered_insert|].
    intros m lk2 [Hne H]%lookup_delete_Some Ho. left. split; [done|].
    apply (link_good_keeps _ _ sv); [done|]. intros l2 Hu2 Hl2. exists l2. split; [|done].
    rewrite Hoth2; [done|]. intros Hs. apply Hne. by eapply (nk_apart _ Hok).
Qed.

(** * The gateway on the network *)

Context {B : Type} {HB : ContainerBackend B}.

(** The containers and the network are one world to the registry. *)
Definition on_backend {A} (f : B → B * A) (w : B * Network) : (B * Network) * A :=
  let r := f w.1 in ((r.1, w.2), r.2).

#[local] Instance world_backend : ContainerBackend (B * Network) := {|
  ensure spec := on_backend (ensure spec);
  destroy name := on_backend (destroy name);
  container_exists name := on_backend (container_exists name);
  container_url name := on_backend (container_url name);
|}.

#[local] Instance world_link : AgentLink (B * Network) := {|
  link_connect url client_name w := let r := connect_link url client_name w.2 in ((w.1, r.1), r.2);
  link_invoke n method params w := let r := invoke_link n method params w.2 in ((w.1, r.1), r.2);
  link_close n w := (w.1, close_link n w.2);
|}.

Definition links_of (w : B * Network) : gset nat := dom (links w.2).

(** The network keeps what the registry asks of its connections. *)
Lemma world_link_laws : link_laws links_of.
Proof.
  split; unfold links_of; cbn.
  - intros url n [b nw] w' l. unfold connect_link. cbn. destruct (servers nw !! url) as [sv|]; [|done].
    destruct (handshake_link _ _ _ sv) as [[lk sv'] [u|e]]; [|done]. intros [= <- <-]. cbn.
    split; [apply is_fresh|apply dom_insert_L].
  - intros url n [b nw] w' e. unfold connect_link. cbn. destruct (servers nw !! url) as [sv|]; [|by left; intros; simplify_eq].
    destruct (handshake_link _ _ _ sv) as [[lk sv'] [u|e']]; [done|]. intros [= <- _]. right. cbn.
    exists (fresh (dom (links nw))). split; [apply is_fresh|apply dom_insert_L].
  - intros n m p [b nw]. unfold invoke_link. cbn. destruct (links nw !! n) as [lk|] eqn:Hlk; [|done].
    destruct (servers nw !! lk_url lk) as [sv|]; [|done].
    destruct (call_link _ _ _ lk sv) as [[lk' sv'] a]. cbn. rewrite dom_insert_L.
    apply elem_of_dom_2 in Hlk. set_solver.
  - intros n [b nw]. unfold close_link. cbn. destruct (links nw !! n) as [lk|] eqn:Hlk; cbn.
    + apply dom_delete_L.
    + apply not_elem_of_dom in Hlk. set_solver.
  - by intros spec [b nw].
  - by intros name [b nw].
  - by intros name [b nw].
  - by intros name [b nw].
Qed.

(** What sessions, the pool and the shutdown do to the registry, and what happens
    around the gateway meanwhile. *)
Inductive gateway_step (d : SpawnDefaults) : AgentRegistry (B * Network) → AgentRegistry (B * Network) → Prop :=
  | gs_registry n r r' : reg_step d n r r' → gateway_step d r r'
  | gs_proxies x y r : gateway_step d r (with_tcp y (with_proxies x r))
  | gs_containers b r : gateway_step d r (with_world (b, (world r).2) r)
  | gs_network nw r : network_step (world r).2 nw → gateway_step d r (with_world ((world r).1, nw) r).

Definition gateway_ok (r : AgentRegistry (B * Network)) : Prop :=
  (∃ n, reg_ok links_of n r) ∧ network_ok (world r).2.

Lemma network_kept : kept_by_calls (λ w : B * Network, network_ok w.2).
Proof.
  split; cbn; try done.
  - intros url name w. apply connect_link_ok.
  - intros n method params w. apply invoke_link_ok.
  - intros n w. apply close_link_ok.
Qed.

Lemma network_step_links nw nw' : network_step nw nw' → dom (links nw') = dom (links nw).
Proof. destruct 1; cbn; [done|apply dom_fmap_L|apply dom_alter_L|done|done]. Qed.

Lemma gateway_step_ok d r r' : gateway_ok r → gateway_step d r r' → gateway_ok r'.
Proof.
  intros [[n Hr] Hn] Hs. destruct Hs as [k r r' Hs|x y r|b r|nw r Hs].
  - split; [by eexists; eapply reg_step_ok; [apply world_link_laws|done|]|].
    by eapply (reg_step_kept d (λ w : B * Network, network_ok w.2)); [apply network_kept|done|].
  - split; [by exists n|done].
  - split; [by exists n|done].
  - split; [|by apply (network_step_ok _ _ Hs)]. exists n. unfold reg_ok, links_of in *. cbn.
    by rewrite (network_step_links _ _ Hs).
Qed.

(** ** A request of a frontend *)

Context (hmac_verify : string → string → bytes → bool).
Context (cfg : Session.ServerConfig) (d : SpawnDefaults) (gateway_version : string).
Context {G1 : FromValue JsonRpcRequest} {G2 : FromValue HelloParams} {G3 : FromValue SpawnAgentParams}
  {G4 : FromValue AgentIdParams} {G5 : FromValue AttachAgentParams} {G6 : FromValue AgentInvokeParams}
  {G7 : FromValue RegisterProxyParams} {G8 : FromValue UnregisterProxyParams}
  {G9 : FromValue RegisterStreamProxyParams} {G10 : FromValue UnregisterStreamProxyParams}.

Abbreviation handle := (Session.handle_value hmac_verify cfg d gateway_version).

(** A gateway that has just started, before any agent listens. *)
Definition fresh_gateway (pool : option WarmPool) (b : B) (env : Env) : AgentRegistry (B * Network) :=
  AgentRegistry_new pool (b, mkNetwork ∅ ∅ env).

Lemma gateway_reachable_ok pool b env r :
  rtc (gateway_step d) (fresh_gateway pool b env) r → gateway_ok r.
Proof.
  intros Hr. eapply (rtc_invariant (gateway_step d) gateway_ok); [apply gateway_step_ok| |done].
  split; [exists 0, ∅; split; [by rewrite size_empty|apply links_ok_none]|]. by split.
Qed.

(** A change of the proxies alone; a call over a link. *)
Lemma proxies_step x r : gateway_step d r (with_proxies x r).
Proof. exact (gs_proxies d x (tcp_proxies r) r). Qed.

Lemma tcp_step y r : gateway_step d r (with_tcp y r).
Proof. exact (gs_proxies d (proxies r) y r). Qed.

Lemma invoke_step entry method params r : gateway_step d r (Session.invoke entry method params r).1.
Proof. exact (gs_registry d _ _ _ (rs_invoke d (ae_conn entry) method params r)). Qed.

Lemma register_proxy_steps dr params r :
  rtc (gateway_step d) r (Session.do_register_proxy cfg dr params r).1.
Proof.
  unfold Session.do_register_proxy. destruct (Session.parse_params params) as [p|e]; [|done].
  destruct (registry_get _ r) as [entry|]; [|done].
  destruct (Proxy.ProxyRegistry.register _ _ _ _ _ _) as [px pe].
  eapply rtc_l; [apply (proxies_step px)|]. set (told := Some (Session.proxy_register_params _ _ _)).
  pose proof (invoke_step entry (AgentMethods.AgentMethod_as_str ProxyRegister) told (with_proxies px r)) as Hi.
  destruct (Session.invoke _ _ _ (with_proxies px r)) as [r2 [v|err]]; cbn [fst] in *.
  - by apply rtc_once.
  - eapply rtc_l; [exact Hi|]. apply rtc_once, proxies_step.
Qed.

Lemma unregister_proxy_steps params r :
  rtc (gateway_step d) r (Session.do_unregister_proxy params r).1.
Proof.
  unfold Session.do_unregister_proxy. destruct (Session.parse_params params) as [p|e]; [|done]. cbn [fst].
  destruct (registry_get _ r) as [entry|]; [|apply rtc_once, proxies_step].
  eapply rtc_l; [apply invoke_step|]. apply rtc_once, proxies_step.
Qed.

Lemma register_stream_proxy_steps dr params r :
  rtc (gateway_step d) r (Session.do_register_stream_proxy dr params r).1.
Proof.
  unfold Session.do_register_stream_proxy. destruct (Session.parse_params params) as [p|e]; [|done].
  destruct (registry_get _ r) as [entry|]; [|done]. destruct (ae_port_map _ !! _); [|done].
  apply rtc_once, tcp_step.
Qed.

Lemma unregister_stream_proxy_steps params r :
  rtc (gateway_step d) r (Session.do_unregister_stream_proxy params r).1.
Proof.
  unfold Session.do_unregister_stream_proxy. destruct (Session.parse_params params) as [p|e]; [|done].
  apply rtc_once, tcp_step.
Qed.

(** Whatever a frontend asks, its session does no more than these steps. *)
Lemma session_gateway_steps dr v (s s' : Session.Session (B * Network)) :
  agents (Session.registry s) !! Session.dr_agent_id dr = None →
  handle dr v s = Returns s' → rtc (gateway_step d) (Session.registry s) (Session.registry s').
Proof.
  intros Hid. set (r := Session.registry s) in *.
  unfold Session.handle_value. destruct (from_value v) as [req|err]; [|by intros [= <-]].
  destruct (jr_id req) as [id|]; [|by intros [= <-]]. destruct (_ && _); [by intros [= <-]|].
  destruct (Session.dispatch _ _ _ _ dr req s) as [[s1 reply]|] eqn:E; [|done].
  intros Hs. assert (Session.registry s' = Session.registry s1) as -> by (destruct reply; by injection Hs as <-).
  clear Hs. unfold Session.dispatch, Session.on_registry in E. fold r in E.
  destruct (GatewayMethods.GatewayMethod_parse (jr_method req)) as [[]|].
  1: { apply Session.do_hello_frame in E as (-> & _). done. }
  all: injection E as <- _; cbn [Session.registry].
  - unfold Session.do_spawn. destruct (Session.parse_params _) as [p|e]; [|done].
    by eapply rtc_once, gs_registry, rs_spawn.
  - unfold Session.do_kill. destruct (Session.parse_params _) as [p|e]; [|done].
    eapply rtc_once, gs_registry, rs_kill.
  - unfold Session.do_detach. destruct (Session.parse_params _) as [p|e]; [|done].
    eapply rtc_once, gs_registry, rs_detach.
  - unfold Session.do_attach. destruct (Session.parse_params _) as [p|e]; [|done].
    by eapply rtc_once, gs_registry, rs_attach.
  - done.
  - unfold Session.do_invoke. destruct (Session.parse_params _) as [p|e]; [|done].
    destruct (registry_get _ r) as [entry|]; [|done]. apply rtc_once, invoke_step.
  - apply register_proxy_steps.
  - apply unregister_proxy_steps.
  - apply register_stream_proxy_steps.
  - apply unregister_stream_proxy_steps.
  - done.
Qed.

(** What an agent's handler returned, as the frontend is told. *)
Definition frontend_answer (id : Value) (reply : result Value ChannelError) : Value :=
  to_value (match reply with
            | Ok v => JsonRpcResponse_ok id v
            | Err e => JsonRpcResponse_err id (kind_code (ce_kind e)) (ce_message e)
            end).

Lemma handle_invoke dr v req id p entry (s : Session.Session (B * Network)) :
  Session.authenticated s = true → from_value v = Ok req → jr_id req = Some id →
  GatewayMethods.GatewayMethod_parse (jr_method req) = Some AgentInvoke →
  from_value (default VNil (jr_params req)) = Ok p →
  agents (Session.registry s) !! ip_agent_id p = Some entry →
  ∃ s', handle dr v s = Returns s'
    ∧ (world (Session.registry s')).2
      = (invoke_link (ae_conn entry) (ip_method p) (ip_params p) (world (Session.registry s)).2).1
    ∧ Session.sent s' = Session.sent s ++ [to_value
        (match (invoke_link (ae_conn entry) (ip_method p) (ip_params p) (world (Session.registry s)).2).2 with
         | Ok x => JsonRpcResponse_ok id x
         | Err e => mkJsonRpcResponse id None (Some (AgentConn.JsonRpcError_from e))
         end)].
Proof.
  intros Ha Hv Hid Hm Hp He. unfold Session.handle_value. rewrite Hv, Hid, Ha. cbn [negb andb].
  unfold Session.dispatch. rewrite Hm. unfold Session.on_registry, Session.do_invoke, Session.parse_params.
  rewrite Hp. cbn [map_err]. unfold registry_get. rewrite He.
  unfold Session.invoke. cbn [link_invoke world_link fst snd].
  destruct (invoke_link _ _ _ _).2 as [x|e]; eexists; by split_and!.
Qed.

(** C1: A call of a frontend reaches the agent it names.  Whatever has happened to a
    gateway since its start (agents spawned, attached, detached and killed, lost
    connections, agents that ended or started again, other clients of the same
    agents), an authenticated [agent/invoke] for a registered agent goes over a
    connection that is no other agent's.  While that is open it leads to one
    connection of one agent server, the handler there runs on the method and the
    parameters the frontend gave, and exactly one response is sent, under the
    request's id: what the handler returned, value or error code and message; no
    other agent and no other connection notices.  When the connection is lost,
    the one response says so and no agent is touched. *)
Theorem frontend_reaches_agent pool b env dr v req id p entry (s : Session.Session (B * Network)) :
  rtc (gateway_step d) (fresh_gateway pool b env) (Session.registry s) →
  Session.authenticated s = true → from_value v = Ok req → jr_id req = Some id →
  GatewayMethods.GatewayMethod_parse (jr_method req) = Some AgentInvoke →
  from_value (default VNil (jr_params req)) = Ok p →
  agents (Session.registry s) !! ip_agent_id p = Some entry →
  let nw := (world (Session.registry s)).2 in
  ∃ lk s', links nw !! ae_conn entry = Some lk ∧ handle dr v s = Returns s'
    ∧ (∀ id2 entry2, agents (Session.registry s) !! id2 = Some entry2 →
         ae_conn entry2 = ae_conn entry → id2 = ip_agent_id p)
    ∧ if AgentConn.closed (lk_conn lk) then
        Session.sent s' = Session.sent s
          ++ [to_value (JsonRpcResponse_err id (-32000) "agent connection closed")]
        ∧ servers (world (Session.registry s')).2 = servers nw
      else ∃ sv l, servers nw !! lk_url lk = Some sv ∧ connections sv !! lk_session lk = Some l
        ∧ ∀ h' reply, (Z.of_nat (lk_calls lk) + 2 < 2 ^ 64)%Z →
          dispatch (machine nw) (ip_method p) (unwrap_positional (default VNil (ip_params p)))
            (lend (host sv) (lp_handler l)) = Some (h', reply) →
          Session.sent s' = Session.sent s ++ [frontend_answer id reply]
          ∧ servers (world (Session.registry s')).2
            = <[lk_url lk := put (lk_session lk)
                  (answered (AgentConn.next_id (lk_conn lk)) l h' reply) sv]> (servers nw).
Proof.
  intros [(n0 & left & _ & Hreg) Hnet]%gateway_reachable_ok Ha Hv Hid Hm Hp He nw.
  destruct (handle_invoke dr v req id p entry s Ha Hv Hid Hm Hp He) as (s' & Hs' & Hw & Hsent).
  change (world (Session.registry s)).2 with nw in Hw, Hsent. unfold invoke_link in Hw, Hsent.
  assert (ae_conn entry ∈ dom (links nw)) as [lk Hlk]%elem_of_dom
    by (apply (lk_open _ _ _ Hreg (ae_conn entry)); right; by exists (ip_agent_id p), entry).
  rewrite Hlk in Hw, Hsent.
  exists lk, s'. split; [done|]. split; [done|].
  split; [intros id2 entry2 H2 Hc; by eapply (lk_inj _ _ _ Hreg)|].
  destruct (AgentConn.closed (lk_conn lk)) eqn:Hc.
  - destruct (servers nw !! lk_url lk) as [sv|] eqn:Hsv; [|by rewrite Hw, Hsent].
    rewrite call_link_closed in Hw, Hsent by done. rewrite Hw, Hsent. split; [done|]. by apply insert_id.
  - destruct (nk_link _ Hnet _ _ Hlk Hc) as (sv & l & Hsv & Hl & Hr). exists sv, l.
    split; [done|]. split; [done|]. intros h' reply Hb Hd. change (world (Session.registry s)).2 with nw in Hsv.
    rewrite Hsv in Hw, Hsent. rewrite (call_link_dispatch _ _ _ _ _ l h' reply) in Hw, Hsent by done.
    rewrite Hw, Hsent. split; [|done]. by destruct reply.
Qed.
End call.

(** * Witness: a frontend writes a file on its agent *)

Module SampleGateway.
Import Wire.Derived AgentFs.SampleFiles.

#[local] Instance request_from_value : FromValue JsonRpcRequest := λ v,
  m ←? field_string v "method";
  Ok (mkJsonRpcRequest (field_opt_value v "id") m (field_opt_value v "params")).
#[local] Instance invoke_from_value : FromValue AgentInvokeParams := λ v,
  a ←? field_string v "agent_id"; m ←? field_string v "method";
  Ok (mkAgentInvokeParams a m (field_opt_value v "params")).
#[local] Instance write_file_from_value : FromValue FsWriteFileParams := λ v,
  p ←? field_string v "path"; c ←? field_string v "data";
  Ok (mkFsWriteFileParams p (String.list_byte_of_string c)).
#[local] Instance initialize_from_value : FromValue InitializeParams := λ v,
  n ←? field_string v "client_name"; Ok (mkInitializeParams n).

(** The decoders of what is not called; the encoders' output is not looked at. *)
#[local] Instance other_from_value {T} : FromValue T | 100 := λ _, Err "unused".
#[local] Instance any_to_value {T} : ToValue T | 100 := λ _, VNil.

(** One runtime, whose containers all answer at one url. *)
#[local] Instance containers : ContainerBackend unit := {|
  ensure spec w := (w, Ok (mkContainerHandle (cs_name spec) "ws://127.0.0.1:4001" ∅));
  destroy name w := (w, Ok tt);
  container_exists name w := (w, Ok true);
  container_url name w := (w, Ok "ws://127.0.0.1:4001");
|}.

Definition no_skills (method : string) (params : option Value) : result Value string := Err "no skills".

#[local] Existing Instance world_backend.
#[local] Instance sample_link : AgentLink (unit * Network (FS := Files)) := world_link no_skills.

Definition defaults : SpawnDefaults :=
  mkSpawnDefaults "img" "/bin/nexal-agent" None None None true "nexal-worker-" None.
Definition env : Env := mkEnv None None (Err "no spawn") [] (λ _ _, false) (Ok tt) (Ok tt) 8.
Definition config : Session.ServerConfig := Session.mkServerConfig ∅ "http://gw:5501/".
Definition draws : Session.Draws := Session.mkDraws 1000 0 "id2" "tok" (Ok "127.0.0.1:4002").

Abbreviation Reg := (AgentRegistry (unit * Network (FS := Files))).

(** The agent comes up, the gateway spawns it. *)
Definition gateway0 : Reg := fresh_gateway None () env.
Definition gateway1 : Reg :=
  with_world ((), mkNetwork (<["ws://127.0.0.1:4001" := server_init ∅]> ∅) ∅ env) gateway0.
Definition gateway2 : Reg := (spawn defaults "id1" 0 "one" None ∅ ∅ [] gateway1).1.

Definition request : Value :=
  VMap [(VStr "id", VInt 7); (VStr "method", VStr "agent/invoke");
        (VStr "params", VMap [(VStr "agent_id", VStr "id1"); (VStr "method", VStr "fs/write_file");
           (VStr "params", VMap [(VStr "path", VStr "/tmp/a"); (VStr "data", VStr "hi")])])].

Definition session : Session.Session (unit * Network (FS := Files)) :=
  Session.mkSession true ∅ gateway2 [].

Lemma reached : rtc (gateway_step no_skills defaults) gateway0 gateway2.
Proof.
  eapply rtc_l.
  - apply (gs_network no_skills defaults (mkNetwork (<["ws://127.0.0.1:4001" := server_init ∅]> ∅) ∅ env) gateway0).
    by apply (ns_up "ws://127.0.0.1:4001" ∅ (mkNetwork ∅ ∅ env)).
  - eapply rtc_once, gs_registry. by apply (rs_spawn defaults "id1" 0 "one" None ∅ ∅ [] gateway1).
Qed.

Definition write_params : AgentInvokeParams :=
  mkAgentInvokeParams "id1" "fs/write_file"
    (Some (VMap [(VStr "path", VStr "/tmp/a"); (VStr "data", VStr "hi")])).
Definition the_request : JsonRpcRequest :=
  mkJsonRpcRequest (Some (VInt 7)) "agent/invoke"
    (Some (VMap [(VStr "agent_id", VStr "id1"); (VStr "method", VStr "fs/write_file");
       (VStr "params", VMap [(VStr "path", VStr "/tmp/a"); (VStr "data", VStr "hi")])])).

Definition the_agent : AgentEntry := mkAgentEntry "id1" "nexal-worker-one" 0 0 ∅.

(** Its files after a request. *)
Definition agent_files (r : Reg) : option Files :=
  host_fs ∘ host <$> servers (world r).2 !! "ws://127.0.0.1:4001".

Lemma frontend_reaches_agent_witness :
  ∃ s', Session.handle_value (λ _ _ _, true) config defaults "0.1" draws request session = Returns s'
    ∧ Session.sent s' = [to_value (JsonRpcResponse_ok (VInt 7) VNil)]
    ∧ agent_files (Session.registry s') = Some (<["/tmp/a" := Some (String.list_byte_of_string "hi")]> ∅).
Proof.
  destruct (frontend_reaches_agent no_skills (λ _ _ _, true) config defaults "0.1" None () env draws
    request the_request (VInt 7) write_params the_agent session) as (lk & s' & Hlk & Hs & _ & H);
    [exact reached|vm_compute; reflexivity..|].
  exists s'. split; [exact Hs|].
  set (r := Session.registry session) in *.
  assert (links (world r).2 !! 0 = Some lk) as Hlk' by exact Hlk. vm_compute in Hlk'.
  injection Hlk' as <-. cbn [lk_conn AgentConn.closed] in H. destruct H as (sv & l & Hsv & Hl & H).
  vm_compute in Hsv. injection Hsv as <-. vm_compute in Hl. injection Hl as <-.
  edestruct H as [H1 H2]; [vm_compute; reflexivity|vm_compute; reflexivity|].
  split; [rewrite H1; vm_compute; reflexivity|].
  unfold agent_files. rewrite H2. vm_compute. reflexivity.
Defined.
End SampleGateway.
